(* ===== verification/_CoqProject ===== *)
-Q . S2P
Prelude.v
Effects.v
F64.v
MeteringTypes.v
Text.v
Affixes.v
Decimals.v
Accounting.v
Pricing.v
SessionMetering.v
Landing.v
PushManifest.v
PushPlanner.v
PushPermit.v
PushJournal.v
PushExecutor.v
TransferBatch.v
Sponsorship.v
UsageSettlement.v
UpstreamAuth.v
Routes.v
ChargeTerms.v
ApiSpecs.v
FanoutRpc.v
Fanout.v
FanoutRun.v
ChannelState.v
DeploymentPolicy.v
DeploymentResolver.v
SessionCharge.v
SessionLifecycle.v
Gate.v
GateSafety.v
GateSamples.v
SpecSafety.v
UpstreamRequest.v
UpstreamSafety.v
UpstreamSamples.v
SpendPolicy.v
ChannelAccount.v
SettlementStore.v
BatchSettlement.v
BatchSafety.v
BatchSamples.v
SessionSettlement.v
SessionSafety.v
SessionSamples.v
StreamDecode.v
StreamUsage.v
StreamRating.v
StreamMeter.v
StreamSafety.v
VoucherStream.v
VoucherSafety.v
