(* ===== verification/Prelude.v ===== *)
(** * Pay: a verification of its payments, payouts and metering

    Pay is a command line wallet and a payment gateway for stablecoins on
    Solana.  The parts of it that move or count money carry the program's own
    logic: the gate that lets a request through to a paid API once it is paid
    for, the metering that prices usage and settles it, the sessions and
    deployments it is charged under, the batch payout ("push", "fanout") that
    pays a CSV of recipients in chunks of transactions, and the hosted service
    that sponsors those transactions.  This library models them from the Rust
    sources under [src/rust/crates].

    ** The parts and how they interact

    The gateway starts on a provider's specification that passes its checks
    ([types/src/metering.rs], [cli/src/commands/server/start.rs]).  A request
    enters the gate ([core/src/server/gate.rs]).  Its path is matched
    to an endpoint, the endpoint's price is resolved
    ([core/src/server/metering.rs]) with the usage counted so far
    ([accounting.rs]), split rules and resource memos are attached
    ([types/src/splits.rs], [payment.rs]), and a payment backend is asked to
    verify what the request carries; a deployment is first looked up by its
    host ([core/src/server/deployment_policy.rs],
    [types/src/deployment_policy.rs]).  What the gate admits is sent on with
    the operator's authentication and without the caller's claims
    ([core/src/server/proxy.rs]).  Once the upstream has answered, the
    response is priced and settled within what was authorized
    ([metering.rs]), or charged to a session's channel ([session.rs]).  A
    streamed response is decoded, rated ([session_metering.rs]) and charged
    chunk by chunk, each before its bytes are let go, or held until the client
    has committed a voucher for it ([session_stream.rs]).  Channels are closed,
    settled and handed over between gateways by the lifecycle runloop
    ([session.rs]), and in the background by the settlement worker
    ([pay-worker/src/bin/settle_sessions.rs], [pay-worker/src/channel.rs]),
    which redeems the newest vouchers, seals channels that close, pays them
    out and retires their records.

    A payout starts from a CSV ([core/src/client/push/manifest.rs]).  The
    planner ([planner.rs]) packs the rows into chunks that fit a transaction;
    the user authorizes the whole plan once, which gives a signing permit
    ([permit.rs]); the executor ([executor.rs]) builds, signs, journals
    ([journal.rs]), broadcasts and polls chunk by chunk; after a crash the
    fanout command ([cli/src/commands/fanout.rs]) reads the journal back, asks
    the chain what has landed ([types/src/landing.rs]) and packs what is left.
    A gasless chunk goes to the hosted service
    ([pay-api-core/src/transfer_batch.rs]), which validates and co-signs it.

    ** Files

    - [Prelude]: results, machine integers, checked sums, automation.
      [Effects]: operations that fail or are dropped, and their triples.  [F64]
      and [Decimals]: the binary64 operations of pricing, parsing and printing
      included.  [Text] and [Affixes]: byte strings, digits, trimming, UTF-8,
      prefixes and separators.
    - [MeteringTypes], [Accounting], [Pricing], [SessionMetering]: the
      configuration types ([types/src/metering.rs]), the usage store, variant
      and tier selection, cumulative rating and the voucher gate.
      [UsageSettlement]: what a response is charged, from its headers, JSON
      body or event stream.  [ChargeTerms]: splits, amounts and memos.
    - [Routes], [Gate]: endpoint matching, the routes payments are bound to,
      and the gate itself, every scheme and every branch.  [GateSafety]: what
      is let through and what is settled; [GateSamples]: the gate at work.
    - [UpstreamAuth], [ApiSpecs]: the authentication schemes and templates of
      an upstream, and a specification with every check it passes when it is
      loaded; [SpecSafety]: what the checks guarantee the gate and the boot.
      [UpstreamRequest], [UpstreamSafety], [UpstreamSamples]: the request sent
      on, its signature, and the response headers with the gateway's secrets
      removed.
    - [Landing]: [classify] and [confirm_not_landed] against an explicit
      fork-aware ledger.
    - [PushManifest], [PushPlanner], [PushPermit], [PushJournal],
      [PushExecutor]: one file per source file of the payout, each requiring
      those it calls.  Transactions are decoded messages; the journal is its
      bytes and every write carries what the operating system did with it;
      the executor is a state monad over an unconstrained world.
    - [FanoutRpc], [Fanout], [FanoutRun]: the chain reads of the fanout
      command, resume planning, the check for earlier runs, histories of runs,
      and the command from its arguments to its last record.
    - [TransferBatch], [Sponsorship]: the service's request validation, quote,
      transaction validation and co-signing, and client and service together.
    - [ChannelState], [DeploymentPolicy], [DeploymentResolver],
      [SessionCharge], [SessionLifecycle]: the durable channel record, the
      policy types and claims kept in it, the lookup of a deployment's policy,
      the charge of a delegated request and the lifecycle runloop.
    - [StreamDecode], [StreamUsage], [StreamRating]: a streamed response
      ([core/src/server/session_stream.rs]): the record hold and the decoders
      at byte level, the usage they count and what it is rated by.
      [StreamMeter], [StreamSafety]: the meter that charges it, over an oracle
      of what its charges come to, and what that guarantees.  [VoucherStream],
      [VoucherSafety]: the meter that waits for vouchers of the client, over
      any sequence of readings of what is committed.
    - [ChannelAccount], [SettlementStore]: channels as the settlement worker
      reads them, the plans they commit to and the instructions that pay them;
      the record, the vouchers, the inventory and the deletion both schemes
      share.  [BatchSettlement], [BatchSafety], [BatchSamples]: a pass over
      batch channels, the invariant of its interleavings with the gateway, the
      payer and other passes, and concrete runs.  [SessionSettlement],
      [SessionSafety], [SessionSamples]: the same for session channels, with
      the binding, the claim and the guard of a close.
    - [SpendPolicy]: the spending policy of hosted wallets
      ([mcp/src/policy.rs], [mcp/src/context.rs]) and the amounts of
      [keystore/src/auth.rs] it reads, any number of operations interleaved.

    ** What the theorems show

    - What reaches a paid upstream was paid for: [forward_requires_payment],
      [deployment_forward_is_priced], [passthrough_is_free]; the payment is
      bound to the request ([charge_route_binds], [resource_memo_binds],
      [gate_path_is_faithful]).
    - A checked specification holds at run time: its splits fail on no rule
      of theirs and its legs are distinct ([checked_splits_resolve]), every
      accepted scheme has a price ([checked_prices_are_quoted]), its session
      splits resolve at boot ([checked_session_splits_resolve]), and its HMAC
      schemes sign ([checked_hmac_signs]).
    - An upstream sees headers of known sources only
      ([upstream_headers_have_a_source]), and the secrets in its URL do not
      come back ([url_secrets_are_not_relayed]).
    - What is settled was authorized: [settlement_within_authorization],
      [settlement_is_total], [upto_response_is_paid_or_withheld],
      [batch_commits_only_completed], [delegated_charge_within_reservation].
    - A stream is charged within its authorization whatever happens to it
      ([stream_charges_within_authorization]), its bytes are let go only when
      they are paid for ([released_bytes_are_paid]), it has paid for its usage
      when it ends ([ended_stream_is_paid]), and that usage never falls
      ([streamed_usage_never_falls]).  What is let go has been read by the
      meter ([released_events_are_metered]), which reads in chunks what the
      whole body says ([streamed_documents]).
    - A response paid by vouchers of the client is let go, chunk by chunk
      ([released_bytes_are_vouched], [voucher_stream_is_whole]) or as a whole
      ([complete_body_is_vouched]), only when the client has committed what it
      is worth, and the wait for that ends ([commit_wait_ends]).
    - A hosted wallet signs within its daily cap ([signed_within_daily_cap]),
      and the amount an approval states is never less than what is asked for
      ([stated_amount_rounds_up]).
    - A channel is charged at most once per reservation and never beyond its
      deposit, whatever other processes do ([bound_channel_never_overcharged],
      [closing_is_final]), only by the gateway that holds its lease
      ([lifecycle_lease_excludes], [closing_excludes_serving]); idle channels
      are settled in turn ([rotation_settles_every_channel],
      [wakeups_make_progress]).
    - The settlement worker never seals a batch channel below what was accepted
      ([worker_never_seals_below_accepted], [close_fence_freezes_covered]) and
      claims a payer's close in the pass that sees it
      ([payer_close_is_claimed]); what it leaves alone is fresh
      ([skipped_record_is_fresh]) and what it takes up is accounted for
      ([pass_accounts_for_every_channel],
      [replaced_inventory_is_recounted]).  It pays the recipients a channel
      committed to ([batch_payout_is_committed], [recipient_plans_roundtrip],
      [bound_close_pays_its_session]), closes a bound session alone and under
      its binding ([bound_close_is_exclusive]), and gives up records and
      resources on evidence only ([records_outlive_their_channel],
      [session_record_is_given_up_on_proof],
      [cleanup_completes_after_quiet]).
    - A deployment's policy is the one asked for ([resolved_policy_binds]) and
      pays its allocations ([effective_payout_pays_allocations]).
    - No row of a payout is paid twice
      ([commands_pay_each_row_at_most_once]): over any number of commands on
      one journal, stopped anywhere and resumed, of two transmissions that
      carry a row the earlier one is never executed.  It rests on a landing
      check that only declares dead what can never land
      ([replaceable_never_lands], with [batched_lookup_is_honest] for the
      client that performs it), on a journal that recovers every durable
      record ([journal_recovers_every_durable_event]), on writing ahead of
      every broadcast ([broadcasts_are_journaled_first]) and on packing
      ([packing_preserves_payouts]).
    - Nothing is paid that was not authorized: an accepted plan is the
      manifest ([accepted_plan_is_the_manifest]), an accepted transaction does
      exactly what its chunk says ([validated_transaction_effects]), no
      history of calls exceeds the ceilings ([permit_never_overspends]), and
      the sponsor signs nothing but the request
      ([sponsor_signs_only_the_request]), accepting what the client packs
      ([packed_chunk_is_sponsored], [validators_agree]).
    - Metering: cumulative rating rounds once and telescopes over a stream,
      conversion to base units never undercharges, the gate bounds unpaid
      usage; price resolution picks the most specific variant and charges the
      costliest tier when a condition cannot be measured.
    - Where the code does not do what it means to, a theorem shows it:
      [missing_newline_loses_durable_events],
      [append_after_failed_sync_bricks_journal],
      [orphaned_close_is_never_retried], [splits_can_take_the_whole_charge],
      [wildcard_ignores_its_prefix], [charge_route_collides],
      [landed_payout_can_be_reported_failed], [current_period_has_month_13],
      [quote_without_context_is_not_the_costliest_tier],
      [split_character_releases_unmetered], [abandoned_chunk_is_charged],
      [stale_day_breaks_the_cap], [concurrent_streams_share_vouchers],
      [deferred_payout_is_reported_paid], [foreign_payout_hides_the_forfeit],
      [late_close_reports_everything_settled], [payer_close_is_not_fenced],
      [bound_seal_is_not_guarded], [variant_splits_are_not_priced],
      [repeated_headers_keep_the_last].

    ** Interfaces and assumptions

    Code outside the repository is a parameter, with named laws where a theorem
    needs them: PayKit and the Solana programs ([Kit], [KitLaws], [GateKit],
    [SessionKit], [Mints], [ChannelKit], [StoreKit], [ConfigKit]), the URL, hash and
    percent-encoding libraries ([UpstreamKit], [UpstreamLaws]), the other
    parties of a batch channel ([Parties]), JSON forms of journal events and of claims
    ([EventCodec], [ClaimsCodec] and their laws), JSON parsing, CSV records,
    base58 and BLAKE3 (function arguments), the chain ([ChainState], [Ledger],
    [honest_reads]), the transport, clock, disk and signer ([World]).  Each law
    has an instance in the library (the [Sample] modules), which the witnesses
    evaluate.  The gate asks its backends through [call]; its theorems hold
    for every [backend], one that answers each call by all that was asked
    before.

    ** Bounds and fuel

    Integers keep their width where the code checks it ([checked_add] and
    friends); [usize] counters are unbounded.  Recursion is structural except
    for the greatest common divisor, whose fuel is its logarithmic bound,
    [slice_chunks], whose fuel is the length, and the executor's polling loop,
    which may not terminate in the code either: a run that has used up its
    fuel is in the outcome [Running], and what is proved of the state holds
    there too.

    ** Not modelled

    Histories of runs take crashes in the middle of a write, but not an append
    after a write that failed while the process lived on (that case is
    [append_after_failed_sync_bricks_journal]), nor the one torn write of
    [missing_newline_loses_durable_events].  Of the fanout command printing is
    left out.  Of the gate, telemetry, the HTTP adapters that carry out
    its decision, and the receipt of a delegated session; of the upstream
    request, fetching and caching tokens, whose answer is an input, redacted
    logs and the exchange itself; of a specification, quotas, free tiers,
    subscription periods and the resolution of environment templates; of the
    sessions, challenge and credential processing, settlement transactions and
    the task plumbing.  Of streams, the body wrappers, and the state of a
    decoder after an error, which nothing reads.  Subscriptions, the other
    endpoints of the hosted service, the MCP tools, the connect service and
    the key stores are not modelled.  Of the settlement worker, locks,
    heartbeats, the submission of transactions, channel discovery, rent
    recovery and the drivers that find resources; its concurrent requests are
    taken in the order they were made.  The interleavings of session passes
    are not: without a binding nothing fences them, which
    [payer_close_is_not_fenced] shows.  Next in order are subscriptions and
    the token caches of the upstream schemes. *)

From Stdlib Require Export ZArith Lia.
From stdpp Require Export strings pretty gmap list.
#[global] Open Scope Z_scope.

(** ** Results

    [Result<T, E>] of the source, with the error type first so that the
    partial application [result E] is a monad; the [?] operator is stdpp's
    bind notation [x ← r; k]. *)
Inductive result (E A : Type) : Type :=
  | Ok (a : A)
  | Err (e : E).
Arguments Ok {E A} _.
Arguments Err {E A} _.

#[global] Instance result_ret E : MRet (result E) := λ A a, Ok a.
#[global] Instance result_bind E : MBind (result E) := λ A B k r,
  match r with Ok a => k a | Err e => Err e end.
#[global] Instance result_eq_dec E A `{EqDecision E, EqDecision A} :
  EqDecision (result E A).
Proof. solve_decision. Defined.

(** [Option::ok_or] and [Option::ok_or_else]. *)
Definition ok_or {E A} (o : option A) (e : E) : result E A :=
  match o with Some a => Ok a | None => Err e end.

(** [Result::map_err]. *)
Definition map_err {E F A} (f : E → F) (r : result E A) : result F A :=
  match r with Ok a => Ok a | Err e => Err (f e) end.

(** [if c { return Err(e) }]. *)
Definition reject_if {E} (c : bool) (e : E) : result E unit :=
  if c then Err e else Ok tt.

(** [Iterator::try_fold] over a [Result]. *)
Fixpoint try_fold {E A B} (f : B → A → result E B) (b : B) (l : list A) : result E B :=
  match l with
  | [] => Ok b
  | a :: l => b' ← f b a; try_fold f b' l
  end.

Definition is_ok {E A} (r : result E A) : bool :=
  match r with Ok _ => true | Err _ => false end.

(** ** Machine integers

    Unsigned integers are [Z] values with an explicit range; arithmetic is
    written with the operation the source uses (checked, saturating,
    wrapping). *)
Definition in_range (w x : Z) : Prop := 0 ≤ x < 2 ^ w.
#[global] Instance in_range_dec w x : Decision (in_range w x).
Proof. unfold in_range. apply _. Defined.
Abbreviation is_u8 := (in_range 8).
Abbreviation is_u16 := (in_range 16).
Abbreviation is_u32 := (in_range 32).
Abbreviation is_u64 := (in_range 64).
Abbreviation is_u128 := (in_range 128).

Definition u32_max : Z := 2 ^ 32 - 1.
Definition u64_max : Z := 2 ^ 64 - 1.

(** [uN::try_from]. *)
Definition try_from (w x : Z) : option Z :=
  if (0 <=? x) && (x <? 2 ^ w) then Some x else None.
Definition checked_add (w a b : Z) : option Z := try_from w (a + b).
Definition checked_sub (w a b : Z) : option Z := try_from w (a - b).
Definition checked_mul (w a b : Z) : option Z := try_from w (a * b).
Definition checked_pow (w a n : Z) : option Z := try_from w (a ^ n).
Definition saturating_sub (a b : Z) : Z := Z.max 0 (a - b).
Definition saturating_add (w a b : Z) : Z := Z.min (2 ^ w - 1) (a + b).
Definition saturating_mul (w a b : Z) : Z := Z.min (2 ^ w - 1) (a * b).
(** The value of unchecked [uN] arithmetic in a release build. *)
Definition wrapping (w x : Z) : Z := x mod 2 ^ w.

#[global] Arguments try_from : simpl never.
#[global] Arguments checked_add : simpl never.
#[global] Arguments checked_sub : simpl never.
#[global] Arguments checked_mul : simpl never.
#[global] Arguments checked_pow : simpl never.
#[global] Arguments saturating_sub : simpl never.
#[global] Arguments saturating_add : simpl never.
#[global] Arguments wrapping : simpl never.

(** [len()] as an integer. *)
Definition zlen {A} (l : list A) : Z := Z.of_nat (length l).

(** ** Automation *)
Create HintDb paydb.

Lemma bind_ok_simpl {E A B} (a : A) (k : A → result E B) : Ok a ≫= k = k a.
Proof. reflexivity. Qed.

Lemma bind_Ok {E A B} (r : result E A) (k : A → result E B) b :
  r ≫= k = Ok b ↔ ∃ a, r = Ok a ∧ k a = Ok b.
Proof. destruct r; naive_solver. Qed.

Lemma bind_Err {E A B} (r : result E A) (k : A → result E B) e :
  r ≫= k = Err e ↔ r = Err e ∨ ∃ a, r = Ok a ∧ k a = Err e.
Proof. destruct r; naive_solver. Qed.

Lemma ok_or_Ok {E A} (o : option A) (e : E) a : ok_or o e = Ok a ↔ o = Some a.
Proof. destruct o; naive_solver. Qed.

Lemma ok_or_Err {E A} (o : option A) (e e' : E) :
  ok_or o e = Err e' ↔ o = None ∧ e = e'.
Proof. destruct o; naive_solver. Qed.

Lemma map_err_Ok {E F A} (f : E → F) (r : result E A) a :
  map_err f r = Ok a ↔ r = Ok a.
Proof. destruct r; naive_solver. Qed.

Lemma reject_if_Ok {E} (c : bool) (e : E) u : reject_if c e = Ok u ↔ c = false.
Proof. destruct c, u; naive_solver. Qed.

Lemma reject_if_Err {E} (c : bool) (e e' : E) :
  reject_if c e = Err e' ↔ c = true ∧ e = e'.
Proof. destruct c; naive_solver. Qed.

Lemma try_from_Some w x y : try_from w x = Some y ↔ y = x ∧ in_range w x.
Proof.
  unfold try_from, in_range.
  destruct (Z.leb_spec 0 x), (Z.ltb_spec x (2 ^ w)); naive_solver lia.
Qed.

Lemma try_from_None w x : try_from w x = None ↔ ¬ in_range w x.
Proof.
  unfold try_from, in_range.
  destruct (Z.leb_spec 0 x), (Z.ltb_spec x (2 ^ w)); naive_solver lia.
Qed.

Lemma try_from_in w x : in_range w x → try_from w x = Some x.
Proof. intros. by apply try_from_Some. Qed.

Lemma checked_add_in w a b : in_range w (a + b) → checked_add w a b = Some (a + b).
Proof. apply try_from_in. Qed.

Lemma checked_sub_in w a b : in_range w (a - b) → checked_sub w a b = Some (a - b).
Proof. apply try_from_in. Qed.

Lemma checked_mul_in w a b : in_range w (a * b) → checked_mul w a b = Some (a * b).
Proof. apply try_from_in. Qed.

(** Take apart a hypothesis that a chain of fallible steps succeeded. *)
Ltac inv_ok :=
  repeat match goal with
  | H : Ok _ = Ok _ |- _ => injection H as H; subst
  | H : Err _ = Err _ |- _ => injection H as H; subst
  | H : Ok _ = Err _ |- _ => discriminate H
  | H : Err _ = Ok _ |- _ => discriminate H
  | H : mret _ = _ |- _ => unfold mret, result_ret in H
  | H : _ ≫= _ = Ok _ |- _ =>
      let a := fresh "a" in let Ha := fresh "Hok" in
      apply bind_Ok in H as (a & Ha & H)
  | H : ok_or _ _ = Ok _ |- _ => apply ok_or_Ok in H
  | H : map_err _ _ = Ok _ |- _ => apply map_err_Ok in H
  | H : reject_if _ _ = Ok _ |- _ => apply reject_if_Ok in H
  | H : checked_add _ _ _ = Some _ |- _ => unfold checked_add in H
  | H : checked_sub _ _ _ = Some _ |- _ => unfold checked_sub in H
  | H : checked_mul _ _ _ = Some _ |- _ => unfold checked_mul in H
  | H : checked_pow _ _ _ = Some _ |- _ => unfold checked_pow in H
  | H : try_from _ _ = Some _ |- _ => apply try_from_Some in H as [-> ?]
  end.

(** Turn boolean tests in hypotheses into propositions. *)
Ltac prop_bools :=
  repeat match goal with
  | H : _ || _ = false |- _ => apply orb_false_iff in H as [? ?]
  | H : _ && _ = true |- _ => apply andb_true_iff in H as [? ?]
  | H : negb _ = true |- _ => apply negb_true_iff in H
  | H : negb _ = false |- _ => apply negb_false_iff in H
  | H : bool_decide _ = true |- _ => apply bool_decide_eq_true in H
  | H : bool_decide _ = false |- _ => apply bool_decide_eq_false in H
  end.

Lemma try_fold_app {E A B} (f : B → A → result E B) b l k :
  try_fold f b (l ++ k) = try_fold f b l ≫= λ b', try_fold f b' k.
Proof. revert b. induction l as [|a l IH]; intros b; simpl; [done|]. destruct (f b a); [apply IH|done]. Qed.

(** Two fallible computations that succeed together, with the same value;
    their errors may differ. *)
Definition same_ok {E F A} (r : result E A) (r' : result F A) : Prop := ∀ a, r = Ok a ↔ r' = Ok a.

Lemma same_ok_bind {E F A B} (r : result E A) (r' : result F A) (k : A → result E B) (k' : A → result F B) :
  same_ok r r' → (∀ a, same_ok (k a) (k' a)) → same_ok (r ≫= k) (r' ≫= k').
Proof. intros Hr Hk b. rewrite !bind_Ok. split; intros (a & Ha & Hb); exists a; by split; [apply Hr|apply Hk]. Qed.

Lemma same_ok_reject {E F} c (e : E) (f : F) : same_ok (reject_if c e) (reject_if c f).
Proof. intros u. by rewrite !reject_if_Ok. Qed.

Lemma same_ok_or {E F A} (o : option A) (e : E) (f : F) : same_ok (ok_or o e) (ok_or o f).
Proof. intros a. by rewrite !ok_or_Ok. Qed.

Lemma same_ok_map_err {E F G A} (f : E → F) (g : E → G) (r : result E A) : same_ok (map_err f r) (map_err g r).
Proof. intros a. by rewrite !map_err_Ok. Qed.

Lemma same_ok_Ok {E F A} (a : A) : same_ok (@Ok E A a) (@Ok F A a).
Proof. intros b. split; by intros [= <-]. Qed.

Lemma same_ok_Err {E F A} (e : E) (f : F) : same_ok (@Err E A e) (@Err F A f).
Proof. by intros a. Qed.

(** The same, when the second computation depends on a choice made later. *)
Lemma bind_Ok_choice {E F A B X} (Q : X → Prop) (r : result E A) (r' : result F A)
    (k : A → result E B) (k' : X → A → result F B) b :
  same_ok r r' → (∀ a, k a = Ok b ↔ ∃ x, Q x ∧ k' x a = Ok b) → r ≫= k = Ok b ↔ ∃ x, Q x ∧ r' ≫= k' x = Ok b.
Proof.
  intros Hr Hk. rewrite bind_Ok. split.
  - intros (a & Ha%Hr & (x & Hx & Hb)%Hk). exists x. split; [done|]. apply bind_Ok. by exists a.
  - intros (x & Hx & (a & Ha%Hr & Hb)%bind_Ok). exists a. split; [done|]. apply Hk. by exists x.
Qed.

Lemma same_ok_fold {E F A B} (f : B → A → result E B) (g : B → A → result F B) b l :
  (∀ b a, same_ok (f b a) (g b a)) → same_ok (try_fold f b l) (try_fold g b l).
Proof.
  intros Hfg. revert b. induction l as [|a l IH]; intros b; [apply same_ok_Ok|]. by apply same_ok_bind.
Qed.

Create HintDb same_ok.
#[export] Hint Resolve same_ok_reject same_ok_or same_ok_map_err same_ok_Ok same_ok_Err : same_ok.
(** Go through two chains of the same steps side by side. *)
Ltac same_steps := repeat (apply same_ok_bind; [solve [eauto with same_ok]|intros ?]); eauto with same_ok.

(** ** Lists *)
Definition zsum (l : list Z) : Z := foldr Z.add 0 l.
#[global] Arguments zsum : simpl never.

Lemma zsum_cons x l : zsum (x :: l) = x + zsum l.
Proof. reflexivity. Qed.

Lemma zsum_app l k : zsum (l ++ k) = zsum l + zsum k.
Proof. induction l; simpl; rewrite ?zsum_cons; [done|lia]. Qed.

Lemma zsum_nonneg l : Forall (λ x, 0 ≤ x) l → 0 ≤ zsum l.
Proof. induction 1; rewrite ?zsum_cons; [done|lia]. Qed.

Lemma zsum_elem_le l x : Forall (λ x, 0 ≤ x) l → x ∈ l → x ≤ zsum l.
Proof.
  intros Hl. induction Hl as [|y l Hy Hl IH]; [by intros ?%elem_of_nil|]. rewrite zsum_cons.
  pose proof (zsum_nonneg l Hl). intros [->|Hx]%elem_of_cons; [lia|]. specialize (IH Hx). lia.
Qed.

Lemma zsum_permutation l k : l ≡ₚ k → zsum l = zsum k.
Proof. induction 1; rewrite ?zsum_cons; lia. Qed.

(** Sums over a list one entry of which is replaced or removed. *)
Lemma zsum_map_delete {A} (f : A → Z) l i x : l !! i = Some x → zsum (map f (delete i l)) = zsum (map f l) - f x.
Proof.
  intros Hi. rewrite delete_take_drop. rewrite <-(take_drop_middle l i x Hi) at 3.
  rewrite !map_app, !zsum_app. cbn [map]. rewrite zsum_cons. lia.
Qed.

Lemma zsum_map_insert {A} (f : A → Z) l i x y : l !! i = Some x → zsum (map f (<[i := y]> l)) = zsum (map f l) - f x + f y.
Proof.
  intros Hi. rewrite insert_take_drop by by apply lookup_lt_Some in Hi. rewrite <-(take_drop_middle l i x Hi) at 3.
  rewrite !map_app, !zsum_app. cbn [map]. rewrite !zsum_cons. lia.
Qed.

#[global] Instance zsum_proper : Proper (Permutation ==> eq) zsum.
Proof. intros l k. apply zsum_permutation. Qed.

Lemma NoDup_map_unique {A B} (f : A → B) l x y : NoDup (map f l) → x ∈ l → y ∈ l → f x = f y → x = y.
Proof.
  intros Hnd (i & Hi)%list_elem_of_lookup_1 (j & Hj)%list_elem_of_lookup_1 Hf.
  assert (i = j) as ->; [|congruence].
  eapply (NoDup_lookup (map f l) _ _ (f x)); [done|..]; rewrite list_lookup_fmap.
  - by rewrite Hi.
  - rewrite Hj. simpl. by rewrite Hf.
Qed.

Lemma zlen_nonneg {A} (l : list A) : 0 ≤ zlen l.
Proof. unfold zlen. lia. Qed.

(** A checked [u64] sum is the sum when it fits and an error otherwise. *)
Definition checked_sum {E} (w : Z) (e : E) (acc : Z) (l : list Z) : result E Z :=
  try_fold (λ acc x, ok_or (checked_add w acc x) e) acc l.

Lemma checked_sum_Ok {E} w (e : E) acc l s :
  checked_sum w e acc l = Ok s → s = acc + zsum l.
Proof.
  unfold checked_sum. revert acc.
  induction l as [|x l IH]; intros acc; simpl; intros H; inv_ok; [by rewrite Z.add_0_r|].
  apply IH in H. rewrite zsum_cons. lia.
Qed.

Lemma checked_sum_nonneg {E} w (e : E) acc l s :
  0 ≤ acc → checked_sum w e acc l = Ok s → 0 ≤ s.
Proof.
  unfold checked_sum. revert acc.
  induction l as [|x l IH]; intros acc Hacc; simpl; intros H; inv_ok; [done|].
  eapply IH, H. by match goal with H : in_range _ _ |- _ => destruct H end.
Qed.

Lemma checked_sum_fits {E} w (e : E) acc l :
  0 ≤ acc → Forall (λ x, 0 ≤ x) l → acc + zsum l < 2 ^ w →
  checked_sum w e acc l = Ok (acc + zsum l).
Proof.
  intros Hacc Hl. revert acc Hacc. induction Hl as [|x l Hx Hl IH]; intros acc Hacc Hfit.
  { change (zsum []) with 0. by rewrite Z.add_0_r. }
  rewrite zsum_cons in Hfit |- *. pose proof (zsum_nonneg _ Hl).
  unfold checked_sum in *. simpl.
  replace (checked_add w acc x) with (Some (acc + x)); simpl.
  2:{ symmetry. apply try_from_in. unfold in_range. lia. }
  rewrite IH by lia. by rewrite Z.add_assoc.
Qed.

(** ** Slices *)
(** [slice::chunks]; the fuel is the length. *)
Fixpoint slice_chunks_fuel {A} (fuel n : nat) (l : list A) : list (list A) :=
  match fuel, l with
  | S fuel, _ :: _ => take n l :: slice_chunks_fuel fuel n (drop n l)
  | _, _ => []
  end.
Definition slice_chunks {A} (n : nat) (l : list A) : list (list A) := slice_chunks_fuel (length l) n l.

Lemma slice_chunks_concat {A} n (l : list A) : (0 < n)%nat → concat (slice_chunks n l) = l.
Proof.
  intros Hn. unfold slice_chunks. generalize (Nat.le_refl (length l)). generalize (length l) at 2 3.
  intros fuel. revert l. induction fuel as [|fuel IH]; intros l Hl.
  { destruct l; [done|]. simpl in Hl. lia. }
  destruct l as [|x l]; [done|]. cbn [slice_chunks_fuel concat]. rewrite IH; [apply take_drop|].
  rewrite length_drop. simpl in *. lia.
Qed.

Lemma zsum_zlen_concat {A} (l : list (list A)) : zsum (map zlen l) = zlen (concat l).
Proof.
  induction l as [|x l IH]; [done|]. cbn [map concat]. rewrite zsum_cons, IH. unfold zlen. rewrite length_app. lia.
Qed.

#[export] Hint Resolve zlen_nonneg zsum_nonneg : paydb.
