(* ===== verification/Effects.v ===== *)
(** * Effects: operations on a state that may fail or be dropped

    An asynchronous operation of the program runs on a state and returns,
    fails, or is dropped at a point where it waits.  [effect] is its monad, and
    [leaves] the triples its theorems are proved with. *)
From S2P Require Import Prelude.

Inductive Outcome (E A : Type) := Returned (a : A) | Failed (e : E) | Dropped.
#[global] Arguments Returned {E A} _.
#[global] Arguments Failed {E A} _.
#[global] Arguments Dropped {E A}.
Definition effect (S E A : Type) : Type := S → S * Outcome E A.
#[global] Instance effect_ret {S E} : MRet (effect S E) := λ A a s, (s, Returned a).
#[global] Instance effect_bind {S E} : MBind (effect S E) := λ A B k m s,
  let '(s, o) := m s in match o with Returned a => k a s | Failed e => (s, Failed e) | Dropped => (s, Dropped) end.
Definition fail {S E A} (e : E) : effect S E A := λ s, (s, Failed e).
(** The state is what the operation owns, next to the world it acts on. *)
Definition get {M W E} : effect (M * W) E M := λ s, (s, Returned s.1).
Definition put {M W E} (m : M) : effect (M * W) E unit := λ s, ((m, s.2), Returned tt).
Definition map_failure {S E F A} (f : E → F) (m : effect S E A) : effect S F A := λ s,
  let '(s, o) := m s in (s, match o with Returned a => Returned a | Failed e => Failed (f e) | Dropped => Dropped end).
(** An operation on a part of what another owns. *)
Definition zoom {M N W E A} (part : M → N) (update : M → N → M) (m : effect (N * W) E A) : effect (M * W) E A := λ s,
  let '(s', o) := m (part s.1, s.2) in ((update s.1 s'.1, s'.2), o).

(** From a state of [P], an operation that returns leaves [Q], one that fails
    or is dropped leaves [R]. *)
Definition leaves {S E A} (P : S → Prop) (m : effect S E A) (Q : A → S → Prop) (R : S → Prop) : Prop :=
  ∀ s, P s → match m s with (s', Returned a) => Q a s' | (s', _) => R s' end.

Section triples.
Context {S E : Type}.
Lemma leaves_bind {A B} (P : S → Prop) (m : effect S E A) (T : A → S → Prop) (k : A → effect S E B) Q R :
  leaves P m T R → (∀ a, leaves (T a) (k a) Q R) → leaves P (m ≫= k) Q R.
Proof.
  intros Hm Hk s Hs. specialize (Hm s Hs). unfold mbind, effect_bind. destruct (m s) as [s' [a|e|]]; [by apply Hk|done|done].
Qed.
Lemma leaves_ret {A} (P : S → Prop) (a : A) Q R : (∀ s, P s → Q a s) → leaves (E := E) P (mret a) Q R.
Proof. intros H s Hs. by apply H. Qed.
Lemma leaves_fail {A} (P R : S → Prop) (e : E) Q : (∀ s, P s → R s) → leaves (A := A) P (fail e) Q R.
Proof. intros H s Hs. by apply H. Qed.
Lemma leaves_weaken {A} (P P' : S → Prop) (m : effect S E A) (Q Q' : A → S → Prop) (R R' : S → Prop) :
  leaves P' m Q' R' → (∀ s, P s → P' s) → (∀ a s, Q' a s → Q a s) → (∀ s, R' s → R s) → leaves P m Q R.
Proof. intros Hm HP HQ HR s Hs. specialize (Hm s (HP s Hs)). destruct (m s) as [s' [a|e|]]; auto. Qed.
Lemma leaves_map_failure {A F} (f : E → F) (P : S → Prop) (m : effect S E A) Q R : leaves P m Q R → leaves P (map_failure f m) Q R.
Proof. intros Hm s Hs. specialize (Hm s Hs). unfold map_failure. by destruct (m s) as [s' [a|e|]]. Qed.
Lemma bind_Returned {A B} (m : effect S E A) (k : A → effect S E B) s s' b :
  (m ≫= k) s = (s', Returned b) → ∃ s1 a, m s = (s1, Returned a) ∧ k a s1 = (s', Returned b).
Proof. unfold mbind, effect_bind. destruct (m s) as [s1 [a|e|]]; [|done|done]. intros H. by exists s1, a. Qed.
End triples.

Lemma leaves_get {M W E} (P : M * W → Prop) (Q : M → M * W → Prop) R : (∀ s, P s → Q s.1 s) → leaves (E := E) P get Q R.
Proof. intros H s Hs. by apply H. Qed.
Lemma leaves_put {M W E} m (P : M * W → Prop) (Q : unit → M * W → Prop) R : (∀ s, P s → Q tt (m, s.2)) → leaves (E := E) P (put m) Q R.
Proof. intros H s Hs. by apply H. Qed.
Lemma leaves_zoom {M N W E A} (part : M → N) (update : M → N → M) (m : effect (N * W) E A) P P' Q R Q' R' :
  leaves P' m Q' R' → (∀ s, P s → P' (part s.1, s.2)) →
  (∀ s a n w, P s → Q' a (n, w) → Q a (update s.1 n, w)) → (∀ s n w, P s → R' (n, w) → R (update s.1 n, w)) →
  leaves P (zoom part update m) Q R.
Proof.
  intros Hm HP HQ HR s Hs. specialize (Hm _ (HP s Hs)). unfold zoom. destruct (m _) as [[n w] [a|e|]]; eauto.
Qed.
