(* ===== verification/F64.v ===== *)
(** * F64: the binary64 operations the pricing code performs

    IEEE-754 binary64 as the Standard Library's executable specification
    [SpecFloat] at precision 53 and maximal exponent 1024, with the Rust
    [f64] methods the source calls: [round] (half away from zero), the
    saturating [as u64] cast, [total_cmp], [is_finite] and the comparisons. *)
From Stdlib Require Export SpecFloat.
From S2P Require Import Prelude.

Abbreviation f64 := spec_float.

Definition f64_add : f64 → f64 → f64 := SFadd 53 1024.
Definition f64_sub : f64 → f64 → f64 := SFsub 53 1024.
Definition f64_mul : f64 → f64 → f64 := SFmul 53 1024.
Definition f64_div : f64 → f64 → f64 := SFdiv 53 1024.
Definition f64_abs : f64 → f64 := SFabs.
Definition f64_ltb : f64 → f64 → bool := SFltb.
Definition f64_leb : f64 → f64 → bool := SFleb.
Definition f64_gtb (x y : f64) : bool := SFltb y x.
Definition f64_geb (x y : f64) : bool := SFleb y x.

(** An integer cast [n as f64]: round to nearest, ties to even. *)
Definition f64_of_Z (n : Z) : f64 := binary_normalize 53 1024 n 0 false.

(** The decimal literal [n * 10^-k] as the compiler reads it: for the
    literals used here the quotient of the two exact integers rounds to the
    same binary64 value. *)
Definition f64_dec (n k : Z) : f64 := f64_div (f64_of_Z n) (f64_of_Z (10 ^ k)).

Definition f64_zero : f64 := S754_zero false.

Definition f64_is_finite (x : f64) : bool :=
  match x with S754_zero _ | S754_finite _ _ _ => true | _ => false end.

(** [f64::round]: nearest integer, halfway cases away from zero. *)
Definition f64_round (x : f64) : f64 :=
  match x with
  | S754_finite s m e =>
      if 0 <=? e then x
      else
        let d := 2 ^ (- e) in
        let q := (2 * Zpos m + d) / (2 * d) in
        if q =? 0 then S754_zero s
        else binary_normalize 53 1024 (if s then - q else q) 0 s
  | _ => x
  end.

(** [f64::ceil]: the least integer that is not below. *)
Definition f64_ceil (x : f64) : f64 :=
  match x with
  | S754_finite s m e =>
      if 0 <=? e then x
      else
        let q := - ((- (if s then - Zpos m else Zpos m)) / 2 ^ (- e)) in
        if q =? 0 then S754_zero s else binary_normalize 53 1024 q 0 s
  | _ => x
  end.

(** [f64::trunc] and [f64::fract]. *)
Definition f64_trunc (x : f64) : f64 :=
  match x with
  | S754_finite s m e =>
      if 0 <=? e then x
      else
        let q := Zpos m / 2 ^ (- e) in
        if q =? 0 then S754_zero s else binary_normalize 53 1024 (if s then - q else q) 0 s
  | _ => x
  end.
Definition f64_fract (x : f64) : f64 := f64_sub x (f64_trunc x).

(** [f64::max] and [f64::min] ignore a NaN operand; [f64::clamp] panics
    unless [min <= max]. *)
Definition f64_is_nan (x : f64) : bool := match x with S754_nan => true | _ => false end.
Definition f64_max (x y : f64) : f64 := if f64_is_nan x then y else if f64_is_nan y then x else if SFltb x y then y else x.
Definition f64_min (x y : f64) : f64 := if f64_is_nan x then y else if f64_is_nan y then x else if SFltb y x then y else x.
Definition f64_clamp (x min max : f64) : option f64 :=
  if SFleb min max then Some (if SFltb x min then min else if SFltb max x then max else x) else None.

(** [f64::powi] with a positive exponent, by squaring. *)
Fixpoint f64_powi (x : f64) (n : positive) (r : f64) : f64 :=
  match n with
  | xH => f64_mul r x
  | xO n => f64_powi (f64_mul x x) n r
  | xI n => f64_powi (f64_mul x x) n (f64_mul r x)
  end.
(** [10f64.powi(decimals)]. *)
Definition f64_pow10 (decimals : Z) : f64 :=
  match decimals with Zpos n => f64_powi (f64_of_Z 10) n (f64_of_Z 1) | _ => f64_of_Z 1 end.

(** The saturating cast [x as u64]: truncate, NaN to 0. *)
Definition f64_as_u64 (x : f64) : Z :=
  match x with
  | S754_nan | S754_zero _ | S754_infinity true | S754_finite true _ _ => 0
  | S754_infinity false => u64_max
  | S754_finite false m e => Z.min u64_max (Z.shiftl (Zpos m) e)
  end.

(** [f64::total_cmp] compares the bit patterns as sign-magnitude integers;
    [total_key] is that integer, up to a monotone renaming.  NaN carries no
    sign here and sorts above every other value, as a positive NaN does. *)
Definition total_magnitude (x : f64) : Z :=
  match x with
  | S754_zero _ => 0
  | S754_finite _ m e => (e + 1075) * 2 ^ 53 + Zpos m
  | S754_infinity _ => 4096 * 2 ^ 53
  | S754_nan => 4097 * 2 ^ 53
  end.
Definition f64_sign (x : f64) : bool :=
  match x with
  | S754_zero s | S754_finite s _ _ | S754_infinity s => s
  | S754_nan => false
  end.
Definition total_key (x : f64) : Z :=
  if f64_sign x then - total_magnitude x - 1 else total_magnitude x.
Definition total_cmp (x y : f64) : comparison := total_key x ?= total_key y.

(** [Iterator::max_by]: the last of the maximal elements. *)
Definition max_by {A} (cmp : A → A → comparison) (l : list A) : option A :=
  match l with
  | [] => None
  | x :: l => Some (foldl (λ best y, match cmp best y with Gt => best | _ => y end) x l)
  end.

Lemma f64_as_u64_range x : is_u64 (f64_as_u64 x).
Proof.
  assert (u64_max = 2 ^ 64 - 1) as Hm by reflexivity.
  unfold in_range; destruct x as [| [] | | [] m e]; simpl; try lia.
  assert (0 ≤ Z.shiftl (Z.pos m) e) by (apply Z.shiftl_nonneg; lia). lia.
Qed.

(** ** Positive numbers stay positive when rounded *)

Lemma digits2_log2 p : Zpos (digits2_pos p) = Z.log2 (Zpos p) + 1.
Proof.
  induction p as [p IH|p IH|]; cbn [digits2_pos]; [| |done]; rewrite Pos2Z.inj_succ, IH.
  - rewrite (Pos2Z.inj_xI p), Z.log2_succ_double by lia. lia.
  - rewrite (Pos2Z.inj_xO p), Z.log2_double by lia. lia.
Qed.

Lemma shr_1_m r : 0 ≤ shr_m r → shr_m (shr_1 r) = shr_m r / 2.
Proof. rewrite <-Z.div2_div. by destruct r as [[|[p|p|]|p] b s]. Qed.

Lemma iter_shr_m p : ∀ r, 0 ≤ shr_m r → shr_m (SpecFloat.iter_pos shr_1 p r) = shr_m r / 2 ^ Zpos p.
Proof.
  induction p as [p IH|p IH|]; intros r Hr; cbn [SpecFloat.iter_pos].
  - assert (0 ≤ shr_m (shr_1 r)) as H1 by (rewrite shr_1_m by done; by apply Z.div_pos).
    rewrite IH by (rewrite IH by done; apply Z.div_pos; [done|lia]). rewrite IH, shr_1_m by done.
    rewrite !Z.div_div by lia. f_equal. replace (Z.pos p~1) with (1 + Z.pos p + Z.pos p) by lia. rewrite !Z.pow_add_r by lia. lia.
  - rewrite IH by (rewrite IH by done; apply Z.div_pos; [done|lia]). rewrite IH by done.
    rewrite !Z.div_div by lia. f_equal. replace (Z.pos p~0) with (Z.pos p + Z.pos p) by lia. rewrite !Z.pow_add_r by lia. lia.
  - by rewrite shr_1_m.
Qed.

(** Aligning a positive mantissa to the format leaves it positive. *)
Lemma shr_fexp_pos m e l : 0 < m → 0 ≤ e → let '(r, e') := shr_fexp 53 1024 m e l in 0 < shr_m r ∧ 0 ≤ e'.
Proof.
  intros Hm He. unfold shr_fexp, shr.
  assert (shr_m (shr_record_of_loc m l) = m) as Hrec by (by destruct l as [|[]]).
  destruct (fexp 53 1024 (Zdigits2 m + e) - e) as [|p|p] eqn:Hn; cbn [shr_m]; [by rewrite Hrec|  |by rewrite Hrec].
  rewrite iter_shr_m by (rewrite Hrec; lia). rewrite Hrec. split; [|lia].
  apply Z.div_str_pos. split; [lia|]. destruct m as [|m|]; [lia| |lia]. cbn [Zdigits2] in Hn. rewrite digits2_log2 in Hn.
  apply Z.le_trans with (2 ^ Z.log2 (Zpos m)); [|by apply Z.log2_spec].
  apply Z.pow_le_mono_r; [lia|]. unfold fexp, emin in Hn. lia.
Qed.

Lemma pos_shiftl m e : 0 < m → 0 ≤ e → 1 ≤ Z.min u64_max (Z.shiftl m e).
Proof. intros Hm He. rewrite Z.shiftl_mul_pow2 by done. assert (0 < 2 ^ e) by (by apply Z.pow_pos_nonneg). assert (u64_max = 2 ^ 64 - 1) by reflexivity. nia. Qed.

(** Rounding a positive mantissa with an exponent that is not negative. *)
Lemma round_aux_large m e l : 0 < m → 0 ≤ e →
  binary_round_aux 53 1024 false m e l = S754_infinity false ∨
  ∃ p e', binary_round_aux 53 1024 false m e l = S754_finite false p e' ∧ 0 ≤ e'.
Proof.
  intros Hm He. unfold binary_round_aux. pose proof (shr_fexp_pos m e l Hm He) as H1.
  destruct (shr_fexp 53 1024 m e l) as [r e']. destruct H1 as [Hr He'].
  assert (0 < round_nearest_even (shr_m r) (loc_of_shr_record r)) as Hround.
  { unfold round_nearest_even. destruct (loc_of_shr_record r) as [|[]]; [lia| |lia|lia]. destruct (Z.even _); lia. }
  pose proof (shr_fexp_pos _ e' loc_Exact Hround He') as H2.
  destruct (shr_fexp 53 1024 _ e' loc_Exact) as [r' e'']. destruct H2 as [Hr' He''].
  destruct (shr_m r') as [|p|p]; [lia| |lia]. destruct (e'' <=? 1024 - 53); [right; by exists p, e''|by left].
Qed.

Lemma as_u64_round_aux m e l : 0 < m → 0 ≤ e → 1 ≤ f64_as_u64 (binary_round_aux 53 1024 false m e l).
Proof. intros Hm He. destruct (round_aux_large m e l Hm He) as [->|(p & e' & -> & He')]; [by vm_compute|by apply pos_shiftl]. Qed.

Lemma pos_iter_xO q d : Zpos (Pos.iter xO q d) = Zpos q * 2 ^ Zpos d.
Proof.
  induction d as [|d IH] using Pos.peano_ind; [cbn; lia|].
  rewrite Pos.iter_succ, Pos2Z.inj_xO, IH, Pos2Z.inj_succ, Z.pow_succ_r by lia. lia.
Qed.

(** A positive integer of at most 53 bits is represented exactly; a larger
    one has an exponent that is not negative, or is infinite. *)
Lemma normalize_pos q :
  (∃ m d, binary_normalize 53 1024 (Zpos q) 0 false = S754_finite false m (Z.neg d) ∧ Zpos m = Zpos q * 2 ^ Zpos d ∧
     Zpos d = 52 - Z.log2 (Zpos q)) ∨
  ∃ m e l, binary_normalize 53 1024 (Zpos q) 0 false = binary_round_aux 53 1024 false m e l ∧ 0 < m ∧ 0 ≤ e.
Proof.
  cbn [binary_normalize]. unfold binary_round, shl_align.
  destruct (fexp 53 1024 (Zpos (digits2_pos q) + 0) - 0) as [|d|d] eqn:Hd; [right; by eexists _, _, _..|left].
  replace (fexp 53 1024 (Zpos (digits2_pos q) + 0)) with (Z.neg d) by lia. rewrite digits2_log2 in Hd. unfold fexp, emin in Hd.
  pose proof (Z.log2_nonneg (Zpos q)) as Hlog. pose proof (pos_iter_xO q d) as Hm. set (m := Pos.iter xO q d) in *.
  assert (Z.log2 (Zpos m) = Z.log2 (Zpos q) + Zpos d) as Hlm by (rewrite Hm, Z.log2_mul_pow2; lia).
  assert (∀ l, shr_fexp 53 1024 (Zpos m) (Z.neg d) l = (shr_record_of_loc (Zpos m) l, Z.neg d)) as Hshr.
  { intros l. unfold shr_fexp. cbn [Zdigits2]. rewrite digits2_log2, Hlm.
    replace (fexp _ _ _ - _) with 0 by (unfold fexp, emin; lia). done. }
  exists m, d. split; [|split; [done|lia]].
  unfold binary_round_aux. rewrite Hshr. cbn [shr_record_of_loc shr_m loc_of_shr_record round_nearest_even]. rewrite Hshr.
  cbn [shr_record_of_loc shr_m]. by replace (Z.neg d <=? 1024 - 53) with true by (symmetry; apply Z.leb_le; lia).
Qed.

Lemma as_u64_scaled q m d : Zpos m = Zpos q * 2 ^ Zpos d → f64_as_u64 (S754_finite false m (Z.neg d)) = Z.min u64_max (Zpos q).
Proof.
  intros Hm. cbn [f64_as_u64]. f_equal. change (Z.neg d) with (- Zpos d). by rewrite Z.shiftl_opp_r, Z.shiftr_div_pow2, Hm, Z.div_mul by lia.
Qed.

(** A positive integer as a binary64 is at least one. *)
Lemma as_u64_normalize q : 0 < q → 1 ≤ f64_as_u64 (binary_normalize 53 1024 q 0 false).
Proof.
  intros Hq. destruct q as [|q|q]; [lia| |lia]. destruct (normalize_pos q) as [(m & d & -> & Hm & _)|(m & e & l & -> & Hm & He)].
  - rewrite (as_u64_scaled q) by done. assert (u64_max = 2 ^ 64 - 1) by reflexivity. lia.
  - by apply as_u64_round_aux.
Qed.

Lemma binary_round_below q x : binary_round 53 1024 true q 0 = x → f64_is_nan x = false → SFltb x (f64_of_Z 1) = true.
Proof.
  unfold binary_round, binary_round_aux. intros <-. destruct (shl_align _ _ _) as [mz ez].
  destruct (shr_fexp _ _ _ ez _) as [r e']. destruct (shr_fexp _ _ _ e' _) as [r' e''].
  destruct (shr_m r') as [|p|p]; [done| |done]. by destruct (e'' <=? 1024 - 53).
Qed.

(** Rounding to an integer and taking at least one is at least one. *)
Lemma as_u64_round_max x : 1 ≤ f64_as_u64 (f64_max (f64_round x) (f64_of_Z 1)).
Proof.
  unfold f64_max. destruct (f64_is_nan (f64_round x)) eqn:Hnan; [by vm_compute|]. change (f64_is_nan (f64_of_Z 1)) with false. cbv iota.
  destruct (SFltb (f64_round x) (f64_of_Z 1)) eqn:Hlt; [by vm_compute|].
  destruct x as [s|[]| |s m e]; try done. cbn [f64_round] in *. destruct (Z.leb_spec 0 e) as [He|He].
  { destruct s; [done|]. by apply pos_shiftl. }
  destruct (Z.eqb_spec ((2 * Zpos m + 2 ^ (- e)) / (2 * 2 ^ (- e))) 0) as [Hq|Hq]; [by destruct s|].
  assert (0 < (2 * Zpos m + 2 ^ (- e)) / (2 * 2 ^ (- e))) as Hpos.
  { assert (0 < 2 ^ (- e)) by (apply Z.pow_pos_nonneg; lia). pose proof (Z.div_pos (2 * Zpos m + 2 ^ (- e)) (2 * 2 ^ (- e))). lia. }
  set (q := _ / _) in *. destruct s; [|by apply as_u64_normalize]. destruct q as [|q|q]; [lia| |lia].
  exfalso. pose proof (binary_round_below q _ eq_refl Hnan) as Hb. exact (eq_true_false_abs _ Hb Hlt).
Qed.

Lemma binary_round_negative q : SFleb (f64_of_Z 1) (binary_round 53 1024 true q 0) = false.
Proof.
  unfold binary_round, binary_round_aux. destruct (shl_align _ _ _) as [mz ez].
  destruct (shr_fexp _ _ _ ez _) as [r e']. destruct (shr_fexp _ _ _ e' _) as [r' e''].
  destruct (shr_m r') as [|p|p]; [done| |done]. by destruct (e'' <=? 1024 - 53).
Qed.

Lemma compare_scaled m c q n k : Pos.compare_cont Eq m c = Lt → Zpos m = q * k → Zpos c = n * k → 0 < k → q < n.
Proof. intros Hc Hm Hn Hk. apply (proj1 (Pos.compare_lt_iff m c)) in Hc. nia. Qed.

Lemma normalize_below q : SFltb (binary_normalize 53 1024 (Zpos q) 0 false) (f64_of_Z 10000) = true →
  f64_as_u64 (binary_normalize 53 1024 (Zpos q) 0 false) < 10000.
Proof.
  change (f64_of_Z 10000) with (S754_finite false 5497558138880000 (-39)).
  destruct (normalize_pos q) as [(m & d & -> & Hm & Hd)|(m & e & l & -> & Hm & He)].
  - rewrite (as_u64_scaled q) by done. unfold SFltb, SFcompare.
    destruct (Z.compare_spec (Z.neg d) (-39)) as [E|E|E]; [| |done].
    + assert (d = 39%positive) as -> by lia. destruct (Pos.compare_cont Eq m _) eqn:Hc; [done| |done]. intros _.
      apply (compare_scaled _ _ (Zpos q) 10000 (2 ^ 39)) in Hc; [lia|done..].
    + intros _. assert (Z.log2 (Zpos q) < 13) as Hlog by lia. apply Z.log2_lt_pow2 in Hlog; lia.
  - destruct (round_aux_large m e l Hm He) as [->|(p & e' & -> & He')]; [done|]. unfold SFltb, SFcompare. by destruct e'.
Qed.

(** A value of at least one and below ten thousand, rounded, casts to an
    integer in the same range. *)
Lemma as_u64_round_range x :
  SFleb (f64_of_Z 1) (f64_round x) = true → SFltb (f64_round x) (f64_of_Z 10000) = true → 1 ≤ f64_as_u64 (f64_round x) < 10000.
Proof.
  destruct x as [s|[]| |s m e]; try done. cbn [f64_round]. destruct (Z.leb_spec 0 e) as [He|He].
  { destruct s; [done|]. intros _. change (f64_of_Z 10000) with (S754_finite false 5497558138880000 (-39)).
    unfold SFltb, SFcompare. by destruct e. }
  destruct (_ =? 0) eqn:Hq; [by destruct s|]. apply Z.eqb_neq in Hq.
  assert (0 < (2 * Zpos m + 2 ^ (- e)) / (2 * 2 ^ (- e))) as Hpos.
  { assert (0 < 2 ^ (- e)) by (apply Z.pow_pos_nonneg; lia). pose proof (Z.div_pos (2 * Zpos m + 2 ^ (- e)) (2 * 2 ^ (- e))). lia. }
  set (q := _ / _) in *. destruct q as [|q|q]; [lia| |lia]. destruct s.
  - change (binary_normalize 53 1024 (- Z.pos q) 0 true) with (binary_round 53 1024 true q 0). by rewrite binary_round_negative.
  - intros _ Hlt. split; [by apply as_u64_normalize|by apply normalize_below].
Qed.

(** Over a key function, [max_by] returns an element with a maximal key. *)
Section max_by_key.
Context {A : Type} (key : A → Z).
Let cmp (x y : A) : comparison := key x ?= key y.
Let pick := λ best y, match cmp best y with Gt => best | _ => y end.

Lemma pick_max best y : key (pick best y) = Z.max (key best) (key y) ∧ (pick best y = best ∨ pick best y = y).
Proof. unfold pick, cmp. destruct (Z.compare_spec (key best) (key y)); split; auto; lia. Qed.

Lemma foldl_pick_max l x :
  foldl pick x l ∈ x :: l ∧ Forall (λ y, key y ≤ key (foldl pick x l)) (x :: l).
Proof.
  revert x. induction l as [|y l IH]; intros x; simpl.
  { split; [set_solver|]. repeat constructor; lia. }
  destruct (IH (pick x y)) as [Hin Hle]. destruct (pick_max x y) as [Hk Hor].
  apply Forall_cons_1 in Hle as [Hp Hle]. split.
  - destruct Hor as [Hor|Hor]; rewrite Hor in Hin |- *; set_solver.
  - repeat constructor; try done; lia.
Qed.

Lemma max_by_key_spec l x :
  max_by (λ a b, key a ?= key b) l = Some x → x ∈ l ∧ Forall (λ y, key y ≤ key x) l.
Proof. destruct l as [|y l]; simpl; intros [= <-]. apply foldl_pick_max. Qed.

Lemma max_by_key_None l : max_by (λ a b, key a ?= key b) l = None ↔ l = [].
Proof. destruct l; naive_solver. Qed.
End max_by_key.
