(* ===== verification/MeteringTypes.v ===== *)
(** * MeteringTypes: the pricing schema of [types/src/metering.rs]

    The data a provider's YAML describes, with the source's constructors and
    field names, and the string predicates the selection code uses. *)
From S2P Require Import Prelude F64.

Inductive MeterDirection := Input | Output | Usage | Storage.
#[global] Instance MeterDirection_eq_dec : EqDecision MeterDirection.
Proof. solve_decision. Defined.

Inductive BillingUnit :=
  | Tokens | Characters | Requests | Minutes | Hours | Seconds | Pages
  | Documents | Invocations | Bytes | Gibibytes | Tebibytes | Vcpu
  | QuotaUnits | Instances.
#[global] Instance BillingUnit_eq_dec : EqDecision BillingUnit.
Proof. solve_decision. Defined.

(** [BillingUnit::is_prorated]. *)
Definition unit_is_prorated (u : BillingUnit) : bool :=
  match u with Tokens | QuotaUnits => true | _ => false end.

(** [format!("{:?}", direction).to_lowercase()] and the same for units. *)
Definition direction_name (d : MeterDirection) : string :=
  match d with
  | Input => "input" | Output => "output" | Usage => "usage" | Storage => "storage"
  end.
Definition unit_name (u : BillingUnit) : string :=
  match u with
  | Tokens => "tokens" | Characters => "characters" | Requests => "requests"
  | Minutes => "minutes" | Hours => "hours" | Seconds => "seconds"
  | Pages => "pages" | Documents => "documents" | Invocations => "invocations"
  | Bytes => "bytes" | Gibibytes => "gibibytes" | Tebibytes => "tebibytes"
  | Vcpu => "vcpu" | QuotaUnits => "quotaunits" | Instances => "instances"
  end.

Inductive CompareOp := Lte | Lt' | Gte | Gt' | Eq'.

Inductive MeterCondition :=
  | InputTokens (op : CompareOp) (value : Z)
  | InputCharacters (op : CompareOp) (value : Z)
  | ContextLength (op : CompareOp) (value : Z)
  | BodySize (op : CompareOp) (value : Z)
  | DurationSeconds (op : CompareOp) (value : Z)
  | BatchSize (op : CompareOp) (value : Z)
  | ImagePixels (op : CompareOp) (value : Z).

Record SplitRule := {
  split_recipient : string;
  split_amount : option f64;
  split_percent : option f64;
  split_memo : option string
}.

Record PriceTier := {
  up_to : option Z;
  price_usd : f64;
  condition : option MeterCondition;
  notes : option string;
  tier_splits : list SplitRule
}.

Inductive BillingPeriod := PerSecond | PerHour | PerDay | PerMonth.
Inductive UsageMeterSource := ResponseJson | ResponseHeader.

Record UsageMeter := {
  meter_source : UsageMeterSource;
  meter_path : option string;
  meter_header : option string
}.

Record MeterDimension := {
  dim_direction : MeterDirection;
  dim_unit : BillingUnit;
  dim_scale : Z;
  dim_period : option BillingPeriod;
  dim_tiers : list PriceTier;
  dim_meter : option UsageMeter
}.

(** [MeterDimension::is_aggregate_settled]. *)
Definition is_aggregate_settled (d : MeterDimension) : bool :=
  unit_is_prorated (dim_unit d) || bool_decide (is_Some (dim_meter d)).

Record MeterVariant := {
  variant_param : string;
  variant_value : string;
  variant_description : option string;
  variant_dimensions : list MeterDimension
}.

Inductive SkuLevel := Essentials | Pro | Enterprise.
Record SkuTier := { sku : string; sku_level : SkuLevel }.

Inductive Scheme := MppCharge | MppSession | X402Exact | X402Upto | X402BatchSettlement.
#[global] Instance Scheme_eq_dec : EqDecision Scheme.
Proof. solve_decision. Defined.

(** [Scheme::is_session]. *)
Definition is_session (s : Scheme) : bool :=
  match s with MppSession | X402Upto | X402BatchSettlement => true | _ => false end.

Inductive MissingUsagePolicy := Refund | Min | Ceiling | MissingError.
Inductive UptoResponseBodyMode := Buffer.
Record UptoResponseBody := {
  body_mode : UptoResponseBodyMode;
  body_max_bytes : option Z
}.
Record UptoMetering := {
  upto_max : option f64;
  upto_min : option f64;
  missing_usage : MissingUsagePolicy;
  response_body : option UptoResponseBody;
  usage_preset : option string
}.

Record Metering := {
  m_dimensions : list MeterDimension;
  m_variants : list MeterVariant;
  m_sku_tiers : list SkuTier;
  m_splits : list SplitRule;
  m_schemes : option (list Scheme);
  m_min_usd : option f64;
  m_upto : option UptoMetering
}.

(** [Metering::accepted_schemes]. *)
Definition accepted_schemes (m : Metering) : list Scheme := default [MppCharge] (m_schemes m).

(** Every dimension, at the top level and then in the variants' order. *)
Definition all_dimensions (m : Metering) : list MeterDimension :=
  m_dimensions m ++ flat_map variant_dimensions (m_variants m).

(** [Metering::has_aggregate_dimensions]. *)
Definition has_aggregate_dimensions (m : Metering) : bool :=
  existsb is_aggregate_settled (all_dimensions m).

(** ** String predicates *)

(** [str::contains] with a string pattern. *)
Fixpoint str_contains (hay needle : string) : bool :=
  String.prefix needle hay ||
  match hay with EmptyString => false | String _ hay => str_contains hay needle end.
