(* ===== verification/Text.v ===== *)
(** * Text: the string operations the payout code performs

    Strings are byte strings (UTF-8).  Decimal printing and parsing of
    integers, [str::split], [str::trim] and little-endian byte encodings,
    with their round-trip lemmas. *)
From S2P Require Import Prelude.

(** ** Decimal digits, most significant first *)

Fixpoint digits_go (fuel : nat) (n : Z) (acc : list Z) : list Z :=
  match fuel with
  | O => acc
  | S fuel => if n <? 10 then n :: acc else digits_go fuel (n / 10) (n mod 10 :: acc)
  end.
(** [log2 n + 1] divisions by ten are enough ([digits_value]). *)
Definition digits (n : Z) : list Z := digits_go (Z.to_nat (Z.log2 n + 1)) n [].

Definition digits_val (l : list Z) : Z := foldl (λ acc d, acc * 10 + d) 0 l.

Definition is_digit (d : Z) : Prop := 0 ≤ d < 10.

Definition digit_char (d : Z) : Ascii.ascii := Ascii.ascii_of_N (Z.to_N (48 + d)).
Definition byte_of (c : Ascii.ascii) : Z := Z.of_N (Ascii.N_of_ascii c).

Definition string_of_digits (l : list Z) : string :=
  foldr (λ d s, String (digit_char d) s) EmptyString l.

(** [u64::to_string] and friends, for a non-negative integer. *)
Definition show (n : Z) : string := string_of_digits (digits n).

(** [str::bytes]. *)
Fixpoint str_bytes (s : string) : list Z :=
  match s with EmptyString => [] | String c s => byte_of c :: str_bytes s end.

Definition is_ascii_digit (b : Z) : bool := (48 <=? b) && (b <=? 57).

(** [str::parse::<u64>] of a string of digits: [None] for the empty string
    and on overflow. *)
Definition parse_u64_digits (s : string) : option Z :=
  match s with
  | EmptyString => None
  | _ => try_from 64 (digits_val (map (λ b, b - 48) (str_bytes s)))
  end.

(** [str::parse::<u64>]: an optional plus sign and decimal digits. *)
Definition u64_from_str (s : string) : result string Z :=
  match str_bytes s with
  | [] => Err "cannot parse integer from empty string"%string
  | b :: rest =>
      let body := if (b =? 43) && negb (bool_decide (rest = [])) then rest else b :: rest in
      try_fold (λ acc b,
          if is_ascii_digit b then ok_or (try_from 64 (acc * 10 + (b - 48))) "number too large to fit in target type"%string
          else Err "invalid digit found in string"%string) 0 body
  end.

(** [str::split(c)]: the parts between separators, never empty. *)
Fixpoint split_on (c : Ascii.ascii) (s : string) : list string :=
  match s with
  | EmptyString => [EmptyString]
  | String a s =>
      if Ascii.eqb a c then EmptyString :: split_on c s
      else match split_on c s with
           | [] => [String a EmptyString]
           | p :: ps => String a p :: ps
           end
  end.

(** ** Whitespace

    [char::is_whitespace] on the UTF-8 encoding of one code point. *)
Definition ws1 (a : Z) : bool := ((9 <=? a) && (a <=? 13)) || (a =? 32).
Definition ws2 (a b : Z) : bool := (a =? 194) && ((b =? 133) || (b =? 160)).
Definition ws3 (a b c : Z) : bool :=
  ((a =? 225) && (b =? 154) && (c =? 128)) ||
  ((a =? 226) && (b =? 128) &&
     (((128 <=? c) && (c <=? 138)) || (c =? 168) || (c =? 169) || (c =? 175))) ||
  ((a =? 226) && (b =? 129) && (c =? 159)) ||
  ((a =? 227) && (b =? 128) && (c =? 128)).

Fixpoint trim_start (s : string) : string :=
  match s with
  | EmptyString => EmptyString
  | String a s1 =>
      if ws1 (byte_of a) then trim_start s1
      else match s1 with
           | EmptyString => s
           | String b s2 =>
               if ws2 (byte_of a) (byte_of b) then trim_start s2
               else match s2 with
                    | EmptyString => s
                    | String c s3 =>
                        if ws3 (byte_of a) (byte_of b) (byte_of c) then trim_start s3 else s
                    end
           end
  end.

(** The same from the end, on the reversed bytes. *)
Fixpoint trim_start_rev (s : string) : string :=
  match s with
  | EmptyString => EmptyString
  | String a s1 =>
      if ws1 (byte_of a) then trim_start_rev s1
      else match s1 with
           | EmptyString => s
           | String b s2 =>
               if ws2 (byte_of b) (byte_of a) then trim_start_rev s2
               else match s2 with
                    | EmptyString => s
                    | String c s3 =>
                        if ws3 (byte_of c) (byte_of b) (byte_of a) then trim_start_rev s3 else s
                    end
           end
  end.
Definition trim_end (s : string) : string := String.rev (trim_start_rev (String.rev s)).
Definition trim (s : string) : string := trim_end (trim_start s).

(** ** Little-endian integers *)
Fixpoint le_bytes (n : nat) (x : Z) : list Z :=
  match n with O => [] | S n => x mod 256 :: le_bytes n (x / 256) end.
Fixpoint from_le_bytes (l : list Z) : Z :=
  match l with [] => 0 | b :: l => b + 256 * from_le_bytes l end.

(** ** Digit lemmas *)

Lemma foldl_val_shift l n :
  foldl (λ acc d, acc * 10 + d) n l = n * 10 ^ zlen l + digits_val l.
Proof.
  unfold digits_val, zlen. revert n. induction l as [|d l IH]; intros n; [simpl; lia|].
  cbn [foldl length]. rewrite (IH (n * 10 + d)), (IH (0 * 10 + d)). replace (Z.of_nat (S (length l))) with (Z.of_nat (length l) + 1) by lia.
  rewrite Z.pow_add_r by lia. lia.
Qed.

Lemma digits_val_cons d l : digits_val (d :: l) = d * 10 ^ zlen l + digits_val l.
Proof. unfold digits_val at 1. simpl. rewrite foldl_val_shift. lia. Qed.

Lemma digits_val_app l k : digits_val (l ++ k) = digits_val l * 10 ^ zlen k + digits_val k.
Proof. unfold digits_val at 1. by rewrite foldl_app, foldl_val_shift. Qed.

Lemma digits_val_zeros n : digits_val (replicate n 0) = 0.
Proof. induction n as [|n IH]; [done|]. simpl replicate. rewrite digits_val_cons, IH. lia. Qed.

Lemma digits_val_bound l : Forall is_digit l → 0 ≤ digits_val l < 10 ^ zlen l.
Proof.
  induction 1 as [|d l [] _ IH]; [vm_compute; split; congruence|]. rewrite digits_val_cons.
  unfold zlen in *. simpl length. rewrite Nat2Z.inj_succ, Z.pow_succ_r by lia. nia.
Qed.

Lemma digits_go_spec fuel n acc :
  0 ≤ n → Z.log2 n + 1 ≤ Z.of_nat fuel → Forall is_digit acc →
  Forall is_digit (digits_go fuel n acc) ∧ digits_go fuel n acc ≠ [] ∧
  digits_val (digits_go fuel n acc) = n * 10 ^ zlen acc + digits_val acc.
Proof.
  revert n acc. induction fuel as [|fuel IH]; intros n acc Hn Hf Hacc.
  { pose proof (Z.log2_nonneg n). lia. }
  simpl. destruct (Z.ltb_spec n 10).
  { split_and!; [|done|apply digits_val_cons]. constructor; [|done]. unfold is_digit. lia. }
  pose proof (Z.mod_pos_bound n 10 ltac:(lia)).
  assert (Z.log2 (n / 10) + 1 ≤ Z.log2 n).
  { assert (0 < n / 10) by (apply Z.div_str_pos; lia).
    assert (n / 10 * 2 ^ 1 ≤ n) by (pose proof (Z.div_mod n 10 ltac:(lia)); lia).
    pose proof (Z.log2_le_mono (n / 10 * 2 ^ 1) n ltac:(lia)) as Hlog.
    rewrite <- Z.shiftl_mul_pow2, Z.log2_shiftl in Hlog by lia. lia. }
  destruct (IH (n / 10) (n mod 10 :: acc)) as (Hd & Hne & Hv).
  { apply Z.div_pos; lia. }
  { lia. }
  { constructor; [unfold is_digit; lia|done]. }
  split_and!; [done|done|]. rewrite Hv, digits_val_cons.
  unfold zlen. simpl length. rewrite Nat2Z.inj_succ, Z.pow_succ_r by lia.
  pose proof (Z.div_mod n 10 ltac:(lia)). nia.
Qed.

Lemma digits_spec n : 0 ≤ n →
  Forall is_digit (digits n) ∧ digits n ≠ [] ∧ digits_val (digits n) = n.
Proof.
  intros Hn. unfold digits. pose proof (Z.log2_nonneg n).
  destruct (digits_go_spec (Z.to_nat (Z.log2 n + 1)) n []) as (? & ? & Hv); [done|lia|by constructor|].
  split_and!; [done|done|]. rewrite Hv. unfold zlen, digits_val. simpl. lia.
Qed.

Lemma byte_of_digit_char d : is_digit d → byte_of (digit_char d) = 48 + d.
Proof.
  intros [? ?]. unfold byte_of, digit_char. rewrite Ascii.N_ascii_embedding by lia. lia.
Qed.

Lemma str_bytes_digits l : Forall is_digit l →
  str_bytes (string_of_digits l) = map (λ d, 48 + d) l.
Proof. induction 1; simpl; [done|]. rewrite byte_of_digit_char by done. congruence. Qed.

Lemma str_bytes_digits_val l : Forall is_digit l →
  map (λ b, b - 48) (str_bytes (string_of_digits l)) = l.
Proof.
  intros Hl. rewrite str_bytes_digits, map_map by done.
  rewrite <- (map_id l) at 2. apply map_ext. intros. lia.
Qed.

Lemma str_bytes_digits_ascii l : Forall is_digit l →
  forallb is_ascii_digit (str_bytes (string_of_digits l)) = true.
Proof.
  intros Hl. rewrite str_bytes_digits by done.
  induction Hl as [|d l [? ?] _ IH]; [done|]. cbn [map forallb]. rewrite IH.
  unfold is_ascii_digit. destruct (Z.leb_spec 48 (48 + d)), (Z.leb_spec (48 + d) 57); simpl; lia.
Qed.

Lemma length_str_bytes s : length (str_bytes s) = String.length s.
Proof. induction s; simpl; congruence. Qed.

Lemma length_string_of_digits l : String.length (string_of_digits l) = length l.
Proof. induction l; simpl; congruence. Qed.

(** ** Splitting *)

Lemma split_on_app c s t :
  (∀ b, b ∈ str_bytes s → b ≠ byte_of c) →
  split_on c (s +:+ String c t) = s :: split_on c t.
Proof.
  induction s as [|a s IH]; intros Hs.
  { change ("" +:+ String c t) with (String c t). simpl. by rewrite Ascii.eqb_refl. }
  change (String a s +:+ String c t) with (String a (s +:+ String c t)). simpl.
  destruct (Ascii.eqb_spec a c) as [->|].
  - exfalso. apply (Hs (byte_of c)); [constructor|done].
  - rewrite IH; [done|]. intros b Hb. apply Hs. simpl. by constructor.
Qed.

Lemma split_on_none c s : (∀ b, b ∈ str_bytes s → b ≠ byte_of c) → split_on c s = [s].
Proof.
  induction s as [|a s IH]; intros Hs; [done|]. simpl.
  destruct (Ascii.eqb_spec a c) as [->|].
  - exfalso. apply (Hs (byte_of c)); [constructor|done].
  - rewrite IH; [done|]. intros b Hb. apply Hs. simpl. by constructor.
Qed.

(** ** Byte round trips *)

Lemma from_le_bytes_le_bytes n x :
  0 ≤ x < 256 ^ Z.of_nat n → from_le_bytes (le_bytes n x) = x.
Proof.
  revert x. induction n as [|n IH]; intros x Hx; simpl.
  { simpl in Hx. lia. }
  rewrite Nat2Z.inj_succ, Z.pow_succ_r in Hx by lia.
  rewrite IH.
  - pose proof (Z.div_mod x 256 ltac:(lia)). lia.
  - split; [apply Z.div_pos; lia|]. apply Z.div_lt_upper_bound; lia.
Qed.

Lemma length_le_bytes n x : length (le_bytes n x) = n.
Proof. revert x. induction n; intros; simpl; auto. Qed.

Lemma le_bytes_inj n x y :
  0 ≤ x < 256 ^ Z.of_nat n → 0 ≤ y < 256 ^ Z.of_nat n → le_bytes n x = le_bytes n y → x = y.
Proof. intros Hx Hy E. rewrite <- (from_le_bytes_le_bytes n x), E by done. by apply from_le_bytes_le_bytes. Qed.

(** ** Trimming

    Printable ASCII is left alone. *)
Definition is_plain (b : Z) : Prop := 32 < b < 128.

Lemma str_bytes_app s t : str_bytes (s +:+ t) = str_bytes s ++ str_bytes t.
Proof.
  induction s as [|c s IH]; [done|].
  change (String c s +:+ t) with (String c (s +:+ t)). cbn [str_bytes app]. by rewrite IH.
Qed.

Lemma str_bytes_inj s t : str_bytes s = str_bytes t → s = t.
Proof.
  revert t. induction s as [|a s IH]; intros [|b t]; simpl; intros E; try done.
  injection E as Hab E. rewrite (IH t E). f_equal.
  rewrite <- (Ascii.ascii_N_embedding a), <- (Ascii.ascii_N_embedding b).
  unfold byte_of in Hab. f_equal. lia.
Qed.

Lemma str_bytes_rev_app s t : str_bytes (String.rev_app s t) = reverse (str_bytes s) ++ str_bytes t.
Proof.
  revert t. induction s as [|c s IH]; intros t; [done|]. cbn [String.rev_app str_bytes].
  rewrite IH, reverse_cons, <- app_assoc. done.
Qed.

Lemma str_bytes_rev s : str_bytes (String.rev s) = reverse (str_bytes s).
Proof. unfold String.rev. by rewrite str_bytes_rev_app, app_nil_r. Qed.

Lemma string_rev_involutive s : String.rev (String.rev s) = s.
Proof. apply str_bytes_inj. by rewrite !str_bytes_rev, reverse_involutive. Qed.

(** Decide byte tests whose outcome the context fixes. *)
Ltac byte_tests :=
  repeat match goal with
  | |- context [?x =? ?y] => destruct (Z.eqb_spec x y); [try lia|]
  | |- context [?x <=? ?y] => destruct (Z.leb_spec x y); try lia
  end.

Lemma trim_start_plain s : Forall is_plain (str_bytes s) → trim_start s = s.
Proof.
  destruct s as [|a s]; [done|]. intros [[] _]%Forall_cons_1. cbn [trim_start].
  assert (ws1 (byte_of a) = false) as -> by (unfold ws1; by byte_tests).
  destruct s as [|b s]; [done|].
  assert (ws2 (byte_of a) (byte_of b) = false) as -> by (unfold ws2; by byte_tests).
  destruct s as [|c s]; [done|].
  assert (ws3 (byte_of a) (byte_of b) (byte_of c) = false) as ->; [|done].
  unfold ws3.
  replace (byte_of a =? 225) with false by (symmetry; apply Z.eqb_neq; lia).
  replace (byte_of a =? 226) with false by (symmetry; apply Z.eqb_neq; lia).
  by replace (byte_of a =? 227) with false by (symmetry; apply Z.eqb_neq; lia).
Qed.

Lemma trim_start_rev_plain s : Forall is_plain (str_bytes s) → trim_start_rev s = s.
Proof.
  destruct s as [|a s]; [done|]. intros [[] _]%Forall_cons_1. cbn [trim_start_rev].
  assert (ws1 (byte_of a) = false) as -> by (unfold ws1; by byte_tests).
  destruct s as [|b s]; [done|].
  assert (ws2 (byte_of b) (byte_of a) = false) as ->.
  { unfold ws2. destruct (byte_of b =? 194); [|done]. by byte_tests. }
  destruct s as [|c s]; [done|].
  assert (ws3 (byte_of c) (byte_of b) (byte_of a) = false) as ->; [|done].
  unfold ws3.
  replace (byte_of a =? 128) with false by (symmetry; apply Z.eqb_neq; lia).
  replace (128 <=? byte_of a) with false by (symmetry; apply Z.leb_gt; lia).
  replace (byte_of a =? 168) with false by (symmetry; apply Z.eqb_neq; lia).
  replace (byte_of a =? 169) with false by (symmetry; apply Z.eqb_neq; lia).
  replace (byte_of a =? 175) with false by (symmetry; apply Z.eqb_neq; lia).
  replace (byte_of a =? 159) with false by (symmetry; apply Z.eqb_neq; lia).
  by rewrite !andb_false_r.
Qed.

Lemma trim_plain s : Forall is_plain (str_bytes s) → trim s = s.
Proof.
  intros Hs. unfold trim, trim_end. rewrite (trim_start_plain s Hs), trim_start_rev_plain.
  - apply string_rev_involutive.
  - rewrite str_bytes_rev. by apply Forall_reverse.
Qed.

Lemma digits_plain l : Forall is_digit l → Forall is_plain (str_bytes (string_of_digits l)).
Proof.
  intros Hl. rewrite str_bytes_digits by done. apply Forall_map.
  eapply Forall_impl; [exact Hl|]. intros d [? ?]. unfold is_plain. lia.
Qed.

Lemma length_digits_go fuel n k acc :
  0 < n < 10 ^ Z.of_nat k → (length (digits_go fuel n acc) ≤ k + length acc)%nat.
Proof.
  revert n k acc. induction fuel as [|fuel IH]; intros n k acc Hn; simpl; [lia|].
  destruct k as [|k]; [simpl in Hn; lia|].
  rewrite Nat2Z.inj_succ, Z.pow_succ_r in Hn by lia.
  destruct (Z.ltb_spec n 10); [simpl; lia|].
  specialize (IH (n / 10) k (n mod 10 :: acc)). simpl in IH.
  assert (0 < n / 10 < 10 ^ Z.of_nat k) as Hk
    by (split; [apply Z.div_str_pos; lia|apply Z.div_lt_upper_bound; lia]).
  specialize (IH Hk). lia.
Qed.

Lemma length_digits n k : 0 < n < 10 ^ Z.of_nat k → (length (digits n) ≤ k)%nat.
Proof. intros Hn. pose proof (length_digits_go (Z.to_nat (Z.log2 n + 1)) n k [] Hn). simpl in *. unfold digits. lia. Qed.

(** ** UTF-8

    [str::from_utf8] accepts exactly the well-formed byte sequences. *)
Definition cont (b : Z) : bool := (128 <=? b) && (b <=? 191).
Fixpoint is_utf8 (l : list Z) : bool :=
  match l with
  | [] => true
  | a :: l1 =>
      if a <=? 127 then is_utf8 l1
      else match l1 with
      | [] => false
      | b :: l2 =>
          if (194 <=? a) && (a <=? 223) then cont b && is_utf8 l2
          else match l2 with
          | [] => false
          | c :: l3 =>
              if (224 <=? a) && (a <=? 239) then
                (if a =? 224 then (160 <=? b) && (b <=? 191)
                 else if a =? 237 then (128 <=? b) && (b <=? 159) else cont b)
                && cont c && is_utf8 l3
              else match l3 with
              | [] => false
              | d :: l4 =>
                  (240 <=? a) && (a <=? 244) &&
                  (if a =? 240 then (144 <=? b) && (b <=? 191)
                   else if a =? 244 then (128 <=? b) && (b <=? 143) else cont b)
                  && cont c && cont d && is_utf8 l4
              end
          end
      end
  end.
Definition string_of_bytes (l : list Z) : string :=
  foldr (λ b s, String (Ascii.ascii_of_N (Z.to_N b)) s) EmptyString l.

(** ** Concatenation, prefixes and blanks *)

Lemma string_app_assoc (s t u : string) : (s +:+ t) +:+ u = s +:+ (t +:+ u).
Proof. apply str_bytes_inj. by rewrite !str_bytes_app, app_assoc. Qed.

Lemma string_app_nil_r (s : string) : s +:+ EmptyString = s.
Proof. apply str_bytes_inj. by rewrite str_bytes_app, app_nil_r. Qed.

Lemma length_string_app (s t : string) : String.length (s +:+ t) = (String.length s + String.length t)%nat.
Proof. by rewrite <- !length_str_bytes, str_bytes_app, length_app. Qed.

Lemma str_bytes_substring n s : str_bytes (String.substring 0 n s) = take n (str_bytes s).
Proof.
  revert n. induction s as [|c s IH]; intros [|n]; try done. cbn [String.substring str_bytes take]. by rewrite IH.
Qed.

Lemma substring_app_le n s t :
  (n ≤ String.length s)%nat → String.substring 0 n (s +:+ t) = String.substring 0 n s.
Proof.
  intros Hn. apply str_bytes_inj. rewrite !str_bytes_substring, str_bytes_app.
  apply take_app_le. by rewrite length_str_bytes.
Qed.

Lemma substring_full s : String.substring 0 (String.length s) s = s.
Proof. apply str_bytes_inj. by rewrite str_bytes_substring, take_ge by (by rewrite length_str_bytes). Qed.

Lemma is_utf8_app_n n : ∀ l k, (length l ≤ n)%nat → is_utf8 l = true → is_utf8 (l ++ k) = is_utf8 k.
Proof.
  induction n as [|n IH]; intros l k Hn Hl.
  { destruct l; [done|]. simpl in Hn. lia. }
  destruct l as [|a l1]; [done|]. cbn [is_utf8 app length] in *.
  destruct (a <=? 127); [apply IH; [lia|done..]|].
  destruct l1 as [|b l2]; [done|]. cbn [app length] in *.
  destruct ((194 <=? a) && (a <=? 223)).
  { apply andb_true_iff in Hl as [-> Hl]. apply IH; [lia|done..]. }
  destruct l2 as [|c l3]; [done|]. cbn [app length] in *.
  destruct ((224 <=? a) && (a <=? 239)).
  { apply andb_true_iff in Hl as [-> Hl]. apply IH; [lia|done..]. }
  destruct l3 as [|d l4]; [done|]. cbn [app length] in *.
  apply andb_true_iff in Hl as [-> Hl]. apply IH; [lia|done..].
Qed.

Lemma is_utf8_app_valid l k : is_utf8 l = true → is_utf8 (l ++ k) = is_utf8 k.
Proof. by apply (is_utf8_app_n (length l)). Qed.

Lemma is_utf8_app l k : is_utf8 l = true → is_utf8 k = true → is_utf8 (l ++ k) = true.
Proof. intros. by rewrite is_utf8_app_valid. Qed.

(** A printable ASCII character survives trimming. *)
Lemma plain_not_ws a b c : is_plain a →
  ws1 a = false ∧ ws2 a b = false ∧ ws2 b a = false ∧
  ws3 a b c = false ∧ ws3 b a c = false ∧ ws3 b c a = false.
Proof.
  intros [Hlo Hhi].
  repeat match goal with |- _ ∧ _ => split end; unfold ws1, ws2, ws3;
    repeat match goal with
    | |- context [a =? ?n] => replace (a =? n) with false by (symmetry; apply Z.eqb_neq; lia)
    | |- context [a <=? ?n] =>
        first [replace (a <=? n) with false by (symmetry; apply Z.leb_gt; lia)
              |replace (a <=? n) with true by (symmetry; apply Z.leb_le; lia)]
    | |- context [?n <=? a] =>
        first [replace (n <=? a) with false by (symmetry; apply Z.leb_gt; lia)
              |replace (n <=? a) with true by (symmetry; apply Z.leb_le; lia)]
    end; rewrite ?andb_false_r, ?andb_false_l, ?orb_false_r; done.
Qed.

Lemma trim_start_rev_keeps n : ∀ s x, (String.length s ≤ n)%nat → is_plain (byte_of x) →
  trim_start_rev (s +:+ String x EmptyString) ≠ EmptyString.
Proof.
  induction n as [|n IH]; intros s x Hn Hx.
  { destruct s; [|simpl in Hn; lia]. change (EmptyString +:+ String x EmptyString) with (String x EmptyString).
    cbn [trim_start_rev]. destruct (plain_not_ws (byte_of x) 0 0 Hx) as (-> & _). done. }
  destruct s as [|a s]; [by apply IH; [simpl; lia|]|].
  change (String a s +:+ String x EmptyString) with (String a (s +:+ String x EmptyString)).
  cbn [trim_start_rev String.length] in *.
  destruct (ws1 (byte_of a)); [apply IH; [lia|done]|].
  destruct s as [|b s].
  { change (EmptyString +:+ String x EmptyString) with (String x EmptyString).
    destruct (plain_not_ws (byte_of x) (byte_of a) 0 Hx) as (_ & -> & _). done. }
  change (String b s +:+ String x EmptyString) with (String b (s +:+ String x EmptyString)).
  cbn [String.length] in *. destruct (ws2 (byte_of b) (byte_of a)); [apply IH; [lia|done]|].
  destruct s as [|c s].
  { change (EmptyString +:+ String x EmptyString) with (String x EmptyString).
    destruct (plain_not_ws (byte_of x) (byte_of b) (byte_of a) Hx) as (_ & _ & _ & -> & _). done. }
  change (String c s +:+ String x EmptyString) with (String c (s +:+ String x EmptyString)).
  cbn [String.length] in *. destruct (ws3 (byte_of c) (byte_of b) (byte_of a)); [apply IH; [lia|done]|done].
Qed.

Lemma trim_start_keeps a s : is_plain (byte_of a) → trim_start (String a s) = String a s.
Proof.
  intros Ha. cbn [trim_start]. destruct (plain_not_ws (byte_of a) 0 0 Ha) as (-> & _).
  destruct s as [|b s]; [done|]. destruct (plain_not_ws (byte_of a) (byte_of b) 0 Ha) as (_ & -> & _).
  destruct s as [|c s]; [done|].
  by destruct (plain_not_ws (byte_of a) (byte_of b) (byte_of c) Ha) as (_ & _ & _ & -> & _).
Qed.

Lemma trim_visible a s : is_plain (byte_of a) → trim (String a s) ≠ EmptyString.
Proof.
  intros Ha. unfold trim, trim_end. rewrite trim_start_keeps by done. intros E.
  assert (String.rev (String a s) = String.rev s +:+ String a EmptyString) as Hrev.
  { apply str_bytes_inj. rewrite str_bytes_app, !str_bytes_rev. cbn [str_bytes]. by rewrite reverse_cons. }
  rewrite Hrev in E.
  apply (trim_start_rev_keeps (String.length (String.rev s)) (String.rev s) a); [lia|done|].
  apply str_bytes_inj. apply (f_equal str_bytes) in E. rewrite str_bytes_rev in E.
  apply (f_equal reverse) in E. by rewrite reverse_involutive in E.
Qed.
