(* ===== verification/Affixes.v ===== *)
(** * Affixes: prefixes, suffixes and separators of strings

    The string methods the server code splits host names, leases and
    templates with, and what each says about the whole string. *)
From S2P Require Import Prelude Text.
#[local] Open Scope string_scope.
#[local] Open Scope list_scope.
#[local] Open Scope Z_scope.

(** Separators. *)
Definition newline : Ascii.ascii := Ascii.ascii_of_nat 10.
Definition carriage_return : Ascii.ascii := Ascii.ascii_of_nat 13.
Definition dash : Ascii.ascii := Ascii.ascii_of_nat 45.
Definition dot : Ascii.ascii := Ascii.ascii_of_nat 46.
Definition slash : Ascii.ascii := Ascii.ascii_of_nat 47.
Definition zero_char : Ascii.ascii := Ascii.ascii_of_nat 48.
Definition colon : Ascii.ascii := Ascii.ascii_of_nat 58.
Definition open_brace : Ascii.ascii := Ascii.ascii_of_nat 123.
Definition close_brace : Ascii.ascii := Ascii.ascii_of_nat 125.

(** [str::strip_prefix]. *)
Fixpoint strip_prefix (p s : string) : option string :=
  match p, s with
  | EmptyString, _ => Some s
  | String a p, String b s => if Ascii.eqb a b then strip_prefix p s else None
  | String _ _, EmptyString => None
  end.
Definition starts_with (p s : string) : bool := bool_decide (is_Some (strip_prefix p s)).

(** [str::strip_suffix] and [str::ends_with], on the reversed bytes. *)
Definition strip_suffix (p s : string) : option string :=
  String.rev <$> strip_prefix (String.rev p) (String.rev s).
Definition ends_with (p s : string) : bool := bool_decide (is_Some (strip_suffix p s)).

(** [str::split_once] and [str::rsplit_once] with a character. *)
Fixpoint split_once (c : Ascii.ascii) (s : string) : option (string * string) :=
  match s with
  | EmptyString => None
  | String a s =>
      if Ascii.eqb a c then Some (EmptyString, s)
      else '(l, r) ← split_once c s; Some (String a l, r)
  end.
Definition rsplit_once (c : Ascii.ascii) (s : string) : option (string * string) :=
  '(r, l) ← split_once c (String.rev s); Some (String.rev l, String.rev r).

(** [str::trim_end_matches] with a character. *)
Fixpoint trim_start_matches (c : Ascii.ascii) (s : string) : string :=
  match s with
  | String a s' => if Ascii.eqb a c then trim_start_matches c s' else s
  | EmptyString => s
  end.
Definition trim_end_matches (c : Ascii.ascii) (s : string) : string := String.rev (trim_start_matches c (String.rev s)).

(** [str::contains] with a character. *)
Definition contains_char (c : Ascii.ascii) (s : string) : bool := bool_decide (byte_of c ∈ str_bytes s).

(** [u8::is_ascii_lowercase], [u8::is_ascii_uppercase],
    [u8::is_ascii_hexdigit]. *)
Definition is_ascii_lowercase (b : Z) : bool := (97 <=? b) && (b <=? 122).
Definition is_ascii_uppercase (b : Z) : bool := (65 <=? b) && (b <=? 90).
Definition is_ascii_hexdigit (b : Z) : bool :=
  is_ascii_digit b || ((97 <=? b) && (b <=? 102)) || ((65 <=? b) && (b <=? 70)).

(** [str::to_ascii_uppercase], [str::to_ascii_lowercase],
    [str::eq_ignore_ascii_case]. *)
Definition to_ascii_uppercase (s : string) : string :=
  string_of_bytes (map (λ b, if is_ascii_lowercase b then b - 32 else b) (str_bytes s)).
Definition to_ascii_lowercase (s : string) : string :=
  string_of_bytes (map (λ b, if is_ascii_uppercase b then b + 32 else b) (str_bytes s)).
Definition eq_ignore_ascii_case (a b : string) : bool :=
  bool_decide (to_ascii_uppercase a = to_ascii_uppercase b).

Lemma digits_no_dot l b : Forall is_digit l →
  b ∈ str_bytes (string_of_digits l) → b ≠ byte_of (Ascii.ascii_of_nat 46).
Proof.
  intros Hl. rewrite str_bytes_digits by done.
  intros (d & -> & Hd)%list_elem_of_fmap. rewrite Forall_forall in Hl.
  destruct (Hl d Hd). change (48 + d ≠ 46). lia.
Qed.

Lemma string_rev_app s t : String.rev (s +:+ t) = String.rev t +:+ String.rev s.
Proof. apply str_bytes_inj. by rewrite str_bytes_app, !str_bytes_rev, str_bytes_app, reverse_app. Qed.

Lemma string_rev_inj s t : String.rev s = String.rev t → s = t.
Proof. intros E. by rewrite <- (string_rev_involutive s), E, string_rev_involutive. Qed.

Lemma string_app_inj_l p s t : p +:+ s = p +:+ t → s = t.
Proof. intros E%(f_equal str_bytes). rewrite !str_bytes_app in E. by apply app_inv_head, str_bytes_inj in E. Qed.

Lemma strip_prefix_Some p s t : strip_prefix p s = Some t ↔ s = p +:+ t.
Proof.
  revert s. induction p as [|a p IH]; intros s; [split; [by intros [= ->]|by intros ->]|].
  destruct s as [|b s]; [by split|]. simpl. change (String a p +:+ t) with (String a (p +:+ t)).
  destruct (Ascii.eqb_spec a b) as [->|Hne]; [|by split; [|intros [= -> _]]].
  rewrite IH. split; [by intros ->|by intros [= ->]].
Qed.

Lemma strip_suffix_Some p s t : strip_suffix p s = Some t ↔ s = t +:+ p.
Proof.
  unfold strip_suffix. rewrite fmap_Some. split.
  - intros (u & Hu%strip_prefix_Some & ->). apply string_rev_inj.
    by rewrite Hu, string_rev_app, string_rev_involutive.
  - intros ->. exists (String.rev t). rewrite string_rev_involutive. split; [|done].
    apply strip_prefix_Some. by rewrite string_rev_app.
Qed.

Lemma starts_with_true p s : starts_with p s = true ↔ ∃ t, s = p +:+ t.
Proof. unfold starts_with. rewrite bool_decide_eq_true. unfold is_Some. by setoid_rewrite strip_prefix_Some. Qed.

Lemma split_once_Some c s l r :
  split_once c s = Some (l, r) ↔ s = l +:+ String c r ∧ byte_of c ∉ str_bytes l.
Proof.
  revert l. induction s as [|a s IH]; intros l; simpl.
  { split; [done|]. intros [E _]. by destruct l. }
  destruct (Ascii.eqb_spec a c) as [->|Hne].
  - split; [intros [= <- <-]; split; [done|apply not_elem_of_nil]|].
    intros [E Hnot]. destruct l as [|b l]; injection E as; subst; [done|].
    exfalso. apply Hnot. constructor.
  - destruct l as [|b l].
    { split; [by destruct (split_once c s) as [[l' r']|]|]. intros [[= E _] _]. congruence. }
    assert (byte_of c ≠ byte_of a) as Hb.
    { intros Hb. apply Hne. apply (f_equal Z.to_N) in Hb. unfold byte_of in Hb. rewrite !N2Z.id in Hb.
      apply (f_equal Ascii.ascii_of_N) in Hb. by rewrite !Ascii.ascii_N_embedding in Hb. }
    change (String b l +:+ String c r) with (String b (l +:+ String c r)). simpl str_bytes. rewrite not_elem_of_cons.
    destruct (split_once c s) as [[l' r']|] eqn:E; simpl.
    + split.
      * intros [= -> -> ->]. destruct (IH l) as [IH1 _]. destruct (IH1 eq_refl) as [-> ?]. done.
      * intros ([= -> Es] & _ & Hnot). destruct (IH l) as [_ IH2]. specialize (IH2 (conj Es Hnot)). by injection IH2 as -> ->.
    + split; [done|]. intros ([= -> Es] & _ & Hnot). destruct (IH l) as [_ IH2]. specialize (IH2 (conj Es Hnot)). done.
Qed.

Lemma rsplit_once_Some c s l r :
  rsplit_once c s = Some (l, r) ↔ s = l +:+ String c r ∧ byte_of c ∉ str_bytes r.
Proof.
  assert (∀ l r, l +:+ String c r = String.rev (String.rev r +:+ String c (String.rev l))) as Hrev.
  { intros l' r'. apply str_bytes_inj. rewrite str_bytes_rev, !str_bytes_app. simpl. rewrite !str_bytes_rev.
    rewrite reverse_app, reverse_cons, !reverse_involutive. by rewrite <- app_assoc. }
  unfold rsplit_once. split.
  - destruct (split_once c (String.rev s)) as [[r' l']|] eqn:E; [|done]. simpl. intros [= <- <-].
    apply split_once_Some in E as [E Hnot]. apply (f_equal String.rev) in E. rewrite string_rev_involutive in E.
    rewrite E. split; [|by rewrite str_bytes_rev, elem_of_reverse]. by rewrite Hrev, !string_rev_involutive.
  - intros [-> Hnot]. assert (split_once c (String.rev (l +:+ String c r)) = Some (String.rev r, String.rev l)) as ->.
    { apply split_once_Some. rewrite Hrev, string_rev_involutive. split; [done|]. by rewrite str_bytes_rev, elem_of_reverse. }
    simpl. by rewrite !string_rev_involutive.
Qed.

(** A printed [u64] parses back. *)
Lemma u64_digits_fold l : ∀ acc, Forall is_digit l → 0 ≤ acc → acc * 10 ^ zlen l + digits_val l < 2 ^ 64 →
  try_fold (λ acc b,
      if is_ascii_digit b then ok_or (try_from 64 (acc * 10 + (b - 48))) "number too large to fit in target type"
      else Err "invalid digit found in string") acc (map (λ d, 48 + d) l) = Ok (acc * 10 ^ zlen l + digits_val l).
Proof.
  induction l as [|d l IH]; intros acc Hl Hacc Hmax.
  { unfold zlen, digits_val. simpl. by rewrite Z.add_0_r, Z.mul_1_r. }
  apply Forall_cons_1 in Hl as [[Hd Hd'] Hl]. pose proof (digits_val_bound l Hl) as [Hv _].
  assert (10 ^ zlen (d :: l) = 10 * 10 ^ zlen l) as Hpow.
  { unfold zlen. cbn [length]. by rewrite Nat2Z.inj_succ, Z.pow_succ_r by lia. }
  rewrite digits_val_cons in Hmax |- *. rewrite Hpow in Hmax |- *.
  assert (0 < 10 ^ zlen l) as Hpos by (apply Z.pow_pos_nonneg; [lia|apply zlen_nonneg]).
  assert (acc * 10 + d < 2 ^ 64) by nia. cbn [map try_fold].
  replace (is_ascii_digit (48 + d)) with true by (symmetry; unfold is_ascii_digit; lia).
  replace (acc * 10 + (48 + d - 48)) with (acc * 10 + d) by lia.
  rewrite try_from_in by (unfold in_range; lia). cbn [ok_or]. rewrite bind_ok_simpl.
  rewrite IH by (done || lia || nia). f_equal. nia.
Qed.

Lemma u64_show_roundtrip n : is_u64 n → u64_from_str (show n) = Ok n.
Proof.
  intros [Hn Hmax]. destruct (digits_spec n Hn) as (Hd & Hne & Hv). unfold u64_from_str, show.
  rewrite str_bytes_digits by done. destruct (digits n) as [|d l] eqn:E; [done|]. rewrite <- E in *.
  assert (map (λ d, 48 + d) (digits n) = 48 + d :: map (λ d, 48 + d) l) as Em by (by rewrite E). rewrite Em. cbv beta iota zeta.
  assert (is_digit d) as [Hd0 Hd9] by (rewrite E in Hd; by apply Forall_cons_1 in Hd as [? _]).
  replace (48 + d =? 43) with false by (symmetry; apply Z.eqb_neq; lia). cbn [andb]. rewrite <- Em.
  rewrite u64_digits_fold by (done || lia). by rewrite Z.mul_0_l, Z.add_0_l, Hv.
Qed.

Lemma show_plain n : 0 ≤ n → Forall is_plain (str_bytes (show n)).
Proof. intros Hn. apply digits_plain. by destruct (digits_spec n Hn). Qed.

Lemma show_digits n b : 0 ≤ n → b ∈ str_bytes (show n) → 48 ≤ b ≤ 57.
Proof.
  intros Hn Hb. destruct (digits_spec n Hn) as (Hd & _ & _). unfold show in Hb. rewrite str_bytes_digits in Hb by done.
  apply list_elem_of_fmap_1 in Hb as (d & -> & Hin). rewrite Forall_forall in Hd. destruct (Hd d Hin). lia.
Qed.
