(* ===== verification/Decimals.v ===== *)
(** * Decimals: binary64 numbers and their decimal texts

    [str::parse::<f64>] and [format!("{:.p$}")], with the roundings the
    Standard Library documents: to the nearest number, and of the exact value
    to the nearest decimal. *)
From S2P Require Import Prelude F64 Text Affixes.
#[local] Open Scope string_scope.
#[local] Open Scope list_scope.
#[local] Open Scope Z_scope.

(** [n / d] rounded once to binary64. *)
Definition f64_ratio (negative : bool) (n d : Z) : f64 :=
  match n, d with
  | Zpos n, Zpos d =>
      let '(q, e, l) := SFdiv_core_binary 53 1024 (Zpos n) 0 (Zpos d) 0 in
      binary_round_aux 53 1024 negative q e l
  | _, _ => S754_zero negative
  end.

Fixpoint take_digits (l : list Z) : list Z * list Z :=
  match l with
  | b :: l' => if is_ascii_digit b then let '(ds, rest) := take_digits l' in (b - 48 :: ds, rest) else ([], l)
  | [] => ([], [])
  end.
Definition take_sign (l : list Z) : bool * list Z :=
  match l with
  | b :: l' => if b =? 45 then (true, l') else if b =? 43 then (false, l') else (false, l)
  | [] => (false, [])
  end.
(** An exponent, or nothing: [None] is a malformed one. *)
Definition read_exponent (l : list Z) : option Z :=
  match l with
  | [] => Some 0
  | b :: l =>
      if (b =? 101) || (b =? 69) then
        let '(negative, l) := take_sign l in
        match take_digits l with
        | ((_ :: _) as ds, []) => Some (if negative then - digits_val ds else digits_val ds)
        | _ => None
        end
      else None
  end.
(** [str::parse::<f64>]: the nearest number to the decimal text. *)
Definition f64_from_str (s : string) : option f64 :=
  let '(negative, l) := take_sign (str_bytes s) in
  let word := to_ascii_lowercase (string_of_bytes l) in
  if bool_decide (word = "inf") || bool_decide (word = "infinity") then Some (S754_infinity negative)
  else if bool_decide (word = "nan") then Some S754_nan
  else
    let '(whole, l) := take_digits l in
    let '(fraction, l) := match l with 46 :: l => take_digits l | _ => ([], l) end in
    if bool_decide (whole ++ fraction = []) then None
    else
      exponent ← read_exponent l;
      let scale := exponent - zlen fraction in
      Some (f64_ratio negative (digits_val (whole ++ fraction) * 10 ^ Z.max scale 0) (10 ^ Z.max (- scale) 0)).

(** [format!("{x:.p$}")], [p > 0]: the exact value rounded to [p] decimals, halfway
    cases to the even digit. *)
Definition round_half_even (n d : Z) : Z :=
  let q := n / d in let r := n mod d in
  if (d <? 2 * r) || ((d =? 2 * r) && Z.odd q) then q + 1 else q.
Definition fixed_units (p m e : Z) : Z :=
  if 0 <=? e then m * 2 ^ e * 10 ^ p else round_half_even (m * 10 ^ p) (2 ^ (- e)).
Definition pad_digits (p : Z) (l : list Z) : list Z := replicate (Z.to_nat p - length l) 0 ++ l.
Definition fixed_text (p q : Z) : string :=
  show (q / 10 ^ p) +:+ "." +:+ string_of_digits (pad_digits p (digits (q mod 10 ^ p))).
Definition sign_text (negative : bool) : string := if negative then "-" else "".
Definition f64_fixed (p : Z) (x : f64) : string :=
  match x with
  | S754_nan => "NaN"
  | S754_infinity s => sign_text s +:+ "inf"
  | S754_zero s => sign_text s +:+ fixed_text p 0
  | S754_finite s m e => sign_text s +:+ fixed_text p (fixed_units p (Zpos m) e)
  end.
