(* ===== verification/Accounting.v ===== *)
(** * Accounting: cumulative usage counters of [core/src/server/accounting.rs]

    [AccountingStore] is the interface the pricing code reads usage through;
    [InMemoryStore] is its only implementation. *)
From S2P Require Import Prelude.

Record AccountingKey := {
  ak_api : string;
  ak_endpoint : string;
  ak_period : string;
  ak_scope : string
}.
#[global] Instance AccountingKey_eq_dec : EqDecision AccountingKey.
Proof. solve_decision. Defined.
#[global] Instance AccountingKey_countable : Countable AccountingKey.
Proof.
  apply (inj_countable' (λ k, (ak_api k, ak_endpoint k, ak_period k, ak_scope k))
    (λ '(a, e, p, s), Build_AccountingKey a e p s)). by intros [].
Defined.

(** The [AccountingStore] trait: what pricing may ask of a usage backend. *)
Class AccountingStore (S : Type) := {
  get_usage : S → AccountingKey → Z;
  increment : S → AccountingKey → Z → S * Z;
  reset_period : S → string → S
}.

(** What every backend promises, for counters that stay below [2^64]. *)
Class AccountingLaws (S : Type) `{AccountingStore S} := {
  increment_returns : ∀ s k n, get_usage (increment s k n).1 k = (increment s k n).2;
  increment_adds : ∀ s k n, is_u64 (get_usage s k + n) →
    (increment s k n).2 = get_usage s k + n;
  increment_frame : ∀ s k n k', k ≠ k' →
    get_usage (increment s k n).1 k' = get_usage s k';
  reset_clears : ∀ s p k, ak_period k = p → get_usage (reset_period s p) k = 0;
  reset_frame : ∀ s p k, ak_period k ≠ p →
    get_usage (reset_period s p) k = get_usage s k
}.

(** The counters behind the mutex; each operation below is one critical
    section. *)
Record InMemoryStore := { counters : gmap AccountingKey Z }.

Definition new_store : InMemoryStore := {| counters := ∅ |}.

Definition mem_get_usage (s : InMemoryStore) (k : AccountingKey) : Z :=
  default 0 (counters s !! k).

(** [*entry += amount] is unchecked: a release build wraps. *)
Definition mem_increment (s : InMemoryStore) (k : AccountingKey) (amount : Z) :
    InMemoryStore * Z :=
  let total := wrapping 64 (mem_get_usage s k + amount) in
  ({| counters := <[k := total]> (counters s) |}, total).

Definition mem_reset_period (s : InMemoryStore) (period : string) : InMemoryStore :=
  {| counters := filter (λ kv, ak_period kv.1 ≠ period) (counters s) |}.

#[global] Instance InMemoryStore_accounting : AccountingStore InMemoryStore := {|
  get_usage := mem_get_usage;
  increment := mem_increment;
  reset_period := mem_reset_period
|}.

(** [format!("{month:02}")]. *)
Definition pad2 (n : Z) : string :=
  if n <? 10 then "0" +:+ pretty n else pretty n.

(** [current_period] at [now] seconds after the epoch. *)
Definition current_period (now : Z) : string :=
  let days := now / 86400 in
  let year := 1970 + days / 365 in
  let month := days mod 365 / 30 + 1 in
  pretty year +:+ "-" +:+ pad2 month.

(** ** The in-memory store keeps the promises *)

#[global] Instance InMemoryStore_laws : AccountingLaws InMemoryStore.
Proof.
  split; simpl; unfold mem_get_usage, mem_increment, mem_reset_period; simpl.
  - intros s k n. by rewrite lookup_insert_eq.
  - intros s k n Hr. apply Z.mod_small, Hr.
  - intros s k n k' Hne. by rewrite lookup_insert_ne.
  - intros s p k Hp. rewrite map_lookup_filter.
    destruct (counters s !! k); simpl; [|done].
    by rewrite option_guard_False by naive_solver.
  - intros s p k Hp. rewrite map_lookup_filter.
    destruct (counters s !! k); simpl; [|done].
    by rewrite option_guard_True by naive_solver.
Qed.

(** ** Clients of the interface: a run of increments *)

Section runs.
Context {S : Type} `{AccountingLaws S}.

Definition run_increments (s : S) (ops : list (AccountingKey * Z)) : S :=
  foldl (λ s op, (increment s op.1 op.2).1) s ops.

(** The amounts recorded under one key. *)
Definition amounts_of (k : AccountingKey) (ops : list (AccountingKey * Z)) : list Z :=
  map snd (filter (λ op, op.1 = k) ops).

Lemma run_increments_usage s ops k :
  0 ≤ get_usage s k →
  Forall (λ op, 0 ≤ op.2) ops →
  get_usage s k + zsum (amounts_of k ops) < 2 ^ 64 →
  get_usage (run_increments s ops) k = get_usage s k + zsum (amounts_of k ops).
Proof.
  intros Hs Hops. revert s Hs. induction Hops as [|[k' n] ops Hn Hops IH]; intros s Hs.
  { change (zsum (amounts_of k [])) with 0. simpl. lia. }
  assert (0 ≤ zsum (amounts_of k ops)).
  { apply zsum_nonneg. apply Forall_map, Forall_forall. intros x Hx.
    apply list_elem_of_filter in Hx as [_ Hx]. by eapply Forall_forall in Hops. }
  unfold amounts_of in *. rewrite filter_cons. simpl in *.
  case_decide as Hk; subst; simpl; [rewrite zsum_cons|]; intros Hlt.
  - assert (get_usage (increment s k n).1 k = get_usage s k + n) as Hinc.
    { rewrite increment_returns. apply increment_adds. unfold in_range. lia. }
    rewrite IH; rewrite Hinc; lia.
  - rewrite IH; rewrite increment_frame by done; lia.
Qed.
End runs.

(** Counting is exact: after any sequence of increments whose total for
    a key stays below 2^64, a fresh in-memory store reports for that key the
    sum of the amounts recorded under it, whatever was recorded under other
    keys in between. *)
Theorem usage_is_sum_of_increments (ops : list (AccountingKey * Z)) (k : AccountingKey) :
  Forall (λ op, 0 ≤ op.2) ops →
  zsum (amounts_of k ops) < 2 ^ 64 →
  mem_get_usage (run_increments new_store ops) k = zsum (amounts_of k ops).
Proof.
  intros Hops Hlt. change mem_get_usage with (get_usage (S := InMemoryStore)).
  rewrite run_increments_usage; auto; simpl; unfold mem_get_usage; simpl;
    rewrite lookup_empty; simpl; lia.
Qed.

Definition sample_key (scope : string) : AccountingKey :=
  {| ak_api := "vision"; ak_endpoint := "v1/images:annotate"; ak_period := "2026-03";
     ak_scope := scope |}.
Definition sample_ops : list (AccountingKey * Z) :=
  [(sample_key "pool", 5); (sample_key "agent", 7); (sample_key "pool", 11)].

Lemma usage_is_sum_of_increments_witness :
  mem_get_usage (run_increments new_store sample_ops) (sample_key "pool") = 16.
Proof.
  rewrite (usage_is_sum_of_increments sample_ops (sample_key "pool")).
  - vm_compute. reflexivity.
  - repeat constructor; simpl; lia.
  - vm_compute. reflexivity.
Defined.

(** The period string is not a calendar month: 360 days into its
    365-day year, [current_period] reports month 13. *)
Theorem current_period_has_month_13 :
  current_period ((56 * 365 + 360) * 86400) = "2026-13"%string.
Proof. vm_compute. reflexivity. Qed.
