(* ===== verification/Pricing.v ===== *)
(** * Pricing: price resolution of [core/src/server/metering.rs]

    Variant selection, tier selection and the price a request or a fixed
    per-call scheme is quoted. *)
From S2P Require Import Prelude F64 MeteringTypes Text Affixes Accounting.

Record RequestProperties := {
  input_tokens : option Z;
  input_characters : option Z;
  context_length : option Z;
  body_size : option Z;
  duration_seconds : option Z;
  batch_size : option Z;
  image_pixels : option Z
}.

Definition default_properties : RequestProperties := {|
  input_tokens := None; input_characters := None; context_length := None;
  body_size := None; duration_seconds := None; batch_size := None;
  image_pixels := None
|}.

Record ResolvedDimension := {
  rd_direction : string;
  rd_unit : string;
  rd_scale : Z;
  rd_price_usd : f64
}.
Record ResolvedPrice := { rp_dimensions : list ResolvedDimension }.

Inductive AccountingMode := Pooled | PerAgent.

(** The borrowed [MeteringContext]: the store is read through
    [get_usage], the billing period is the clock's. *)
Record MeteringContext (S : Type) := {
  api_name : string;
  endpoint_path : string;
  accounting_mode : AccountingMode;
  store : S;
  wallet : option string;
  now_secs : Z
}.
Arguments api_name {S} _.
Arguments endpoint_path {S} _.
Arguments accounting_mode {S} _.
Arguments store {S} _.
Arguments wallet {S} _.
Arguments now_secs {S} _.

Section pricing.
Context {S : Type} `{AccountingStore S}.

(** ** Variants *)

(** One iteration of the [resolve_variant] loop over [(default, best)]. *)
Definition resolve_variant_step (hint : option string)
    (acc : option MeterVariant * option MeterVariant) (v : MeterVariant) :
    option MeterVariant * option MeterVariant :=
  let '(dflt, best) := acc in
  if eq_ignore_ascii_case (variant_value v) "default" then
    (match dflt with Some d => Some d | None => Some v end, best)
  else if
    match hint with Some h => str_contains h (variant_value v) | None => false end &&
    match best with
    | None => true
    | Some b => (String.length (variant_value b) <? String.length (variant_value v))%nat
    end
  then (dflt, Some v)
  else (dflt, best).

Definition resolve_variant (variants : list MeterVariant) (hint : option string) :
    option MeterVariant :=
  let '(dflt, best) := foldl (resolve_variant_step hint) (None, None) variants in
  match best with Some b => Some b | None => dflt end.

(** ** Tiers *)

Inductive Unmeasured := Provisional | Costliest.

Definition condition_property (c : MeterCondition) (props : RequestProperties) : option Z :=
  match c with
  | InputTokens _ _ => input_tokens props
  | InputCharacters _ _ => input_characters props
  | ContextLength _ _ => context_length props
  | BodySize _ _ => body_size props
  | DurationSeconds _ _ => duration_seconds props
  | BatchSize _ _ => batch_size props
  | ImagePixels _ _ => image_pixels props
  end.

Definition evaluate_condition (c : MeterCondition) (props : RequestProperties) : bool :=
  let '(op, threshold) :=
    match c with
    | InputTokens op v | InputCharacters op v | ContextLength op v | BodySize op v
    | DurationSeconds op v | BatchSize op v | ImagePixels op v => (op, v)
    end in
  match condition_property c props with
  | None => true
  | Some actual =>
      match op with
      | Lte => actual <=? threshold
      | Lt' => actual <? threshold
      | Gte => threshold <=? actual
      | Gt' => threshold <? actual
      | Eq' => actual =? threshold
      end
  end.

(** The closure of [select_price_tier_from_tiers]: the condition reads an
    unmeasured property that must not pick a cheaper tier. *)
Definition conservative (props : RequestProperties) (unmeasured : Unmeasured)
    (c : MeterCondition) : bool :=
  match condition_property c props with Some _ => false | None => true end &&
  (match unmeasured with Costliest => true | Provisional => false end ||
   match c with BodySize _ _ => true | _ => false end).

Definition tier_conservative (props : RequestProperties) (unmeasured : Unmeasured)
    (t : PriceTier) : bool :=
  match condition t with Some c => conservative props unmeasured c | None => false end.

Definition tier_applies (props : RequestProperties) (t : PriceTier) : bool :=
  match condition t with Some c => evaluate_condition c props | None => true end.

Definition select_price_tier_from_tiers (tiers : list PriceTier)
    (props : RequestProperties) (unmeasured : Unmeasured) : option PriceTier :=
  if existsb (tier_conservative props unmeasured) tiers then
    max_by (λ a b, total_cmp (price_usd a) (price_usd b)) tiers
  else
    match find (tier_applies props) tiers with
    | Some t => Some t
    | None => last tiers
    end.

Definition has_volume_tiers (tiers : list PriceTier) : bool :=
  existsb (λ t, bool_decide (is_Some (up_to t))) tiers.

Definition select_tier (d : MeterDimension) (props : RequestProperties)
    (unmeasured : Unmeasured) : option PriceTier :=
  if has_volume_tiers (dim_tiers d) then
    match find (λ t, f64_gtb (price_usd t) f64_zero) (dim_tiers d) with
    | Some t => Some t
    | None => head (dim_tiers d)
    end
  else select_price_tier_from_tiers (dim_tiers d) props unmeasured.

Definition select_price_tier (d : MeterDimension) (props : RequestProperties) :
    option PriceTier := select_tier d props Provisional.

Fixpoint volume_tier (tiers : list PriceTier) (current_usage : Z) : option f64 :=
  match tiers with
  | [] => None
  | t :: tiers =>
      match up_to t with
      | Some u => if current_usage <=? u then Some (price_usd t) else volume_tier tiers current_usage
      | None => Some (price_usd t)
      end
  end.

Definition last_price (tiers : list PriceTier) : f64 :=
  match last tiers with Some t => price_usd t | None => f64_zero end.

Definition resolve_tier_by_volume (tiers : list PriceTier) (current_usage : Z) : f64 :=
  default (last_price tiers) (volume_tier tiers current_usage).

Definition first_non_free_price (tiers : list PriceTier) : f64 :=
  match find (λ t, f64_gtb (price_usd t) f64_zero) tiers with
  | Some t => price_usd t
  | None => f64_zero
  end.

Definition accounting_key (ctx : MeteringContext S) : AccountingKey := {|
  ak_api := api_name ctx;
  ak_endpoint := endpoint_path ctx;
  ak_period := current_period (now_secs ctx);
  ak_scope := match accounting_mode ctx with
              | Pooled => "pool"
              | PerAgent => default "unknown"%string (wallet ctx)
              end
|}.

Definition resolve_tier (tiers : list PriceTier) (props : RequestProperties)
    (ctx : option (MeteringContext S)) (unmeasured : Unmeasured) : f64 :=
  if has_volume_tiers tiers then
    match ctx with
    | Some ctx => resolve_tier_by_volume tiers (get_usage (store ctx) (accounting_key ctx))
    | None => first_non_free_price tiers
    end
  else
    match select_price_tier_from_tiers tiers props unmeasured with
    | Some t => price_usd t
    | None => f64_zero
    end.

(** ** Prices *)

Definition resolve_dimensions_as (dims : list MeterDimension) (props : RequestProperties)
    (ctx : option (MeteringContext S)) (unmeasured : Unmeasured) : ResolvedPrice := {|
  rp_dimensions := map (λ d, {|
    rd_direction := direction_name (dim_direction d);
    rd_unit := unit_name (dim_unit d);
    rd_scale := dim_scale d;
    rd_price_usd := resolve_tier (dim_tiers d) props ctx unmeasured
  |}) dims
|}.

Definition resolve_dimensions (dims : list MeterDimension) (props : RequestProperties)
    (ctx : option (MeteringContext S)) : ResolvedPrice :=
  resolve_dimensions_as dims props ctx Provisional.

(** The variant branch of [resolve_price] and of [effective_dimensions]: the
    selected variant, the top-level dimensions, the first variant. *)
Definition variant_branch (m : Metering) (hint : option string) :
    option (list MeterDimension) :=
  match m_variants m with
  | [] => None
  | first :: _ =>
      match resolve_variant (m_variants m) hint with
      | Some v => Some (variant_dimensions v)
      | None =>
          match m_dimensions m with
          | [] => Some (variant_dimensions first)
          | dims => Some dims
          end
      end
  end.

Definition resolve_price (m : Metering) (props : RequestProperties) (hint : option string)
    (ctx : option (MeteringContext S)) : option ResolvedPrice :=
  match variant_branch m hint with
  | Some dims => Some (resolve_dimensions dims props ctx)
  | None =>
      match m_dimensions m, m_sku_tiers m with
      | _ :: _, _ => Some (resolve_dimensions (m_dimensions m) props ctx)
      | [], _ :: _ => Some {| rp_dimensions := [ {|
            rd_direction := "usage"; rd_unit := "requests"; rd_scale := 1;
            rd_price_usd := f64_zero |} ] |}
      | [], [] => None
      end
  end.

Definition effective_dimensions (m : Metering) (hint : option string) : list MeterDimension :=
  default (m_dimensions m) (variant_branch m hint).

Definition per_call_usd (p : ResolvedPrice) : f64 :=
  foldl (λ acc d, f64_add acc (f64_div (rd_price_usd d) (f64_of_Z (Z.max (rd_scale d) 1))))
    (S754_zero true) (rp_dimensions p).

Definition costliest_usd (props : RequestProperties) (dims : list MeterDimension) : f64 :=
  per_call_usd (resolve_dimensions_as dims props None Costliest).

(** The candidates the body may select when no hint is known. *)
Definition charge_candidates (m : Metering) : list (list MeterDimension) :=
  map variant_dimensions (m_variants m) ++
  match m_dimensions m with [] => [] | dims => [dims] end.

Definition costliest_candidate (m : Metering) (props : RequestProperties) : list MeterDimension :=
  default (m_dimensions m)
    (max_by (λ a b, total_cmp (costliest_usd props a) (costliest_usd props b))
       (charge_candidates m)).

Definition fixed_charge_dimensions (m : Metering) (props : RequestProperties)
    (hint : option string) : list MeterDimension :=
  match m_variants m with
  | [] => m_dimensions m
  | _ =>
      match hint with
      | None => costliest_candidate m props
      | Some _ =>
          match resolve_variant (m_variants m) hint, m_dimensions m with
          | Some v, _ => variant_dimensions v
          | None, [] => costliest_candidate m props
          | None, dims => dims
          end
      end
  end.

(** The error names the first aggregate-settled dimension. *)
Definition resolve_fixed_price (m : Metering) (props : RequestProperties)
    (hint : option string) : result (MeterDirection * BillingUnit) (option ResolvedPrice) :=
  match find is_aggregate_settled (all_dimensions m) with
  | Some d => Err (dim_direction d, dim_unit d)
  | None =>
      match fixed_charge_dimensions m props hint with
      | [] => Ok (resolve_price m props hint None)
      | dims => Ok (Some (resolve_dimensions_as dims props None Costliest))
      end
  end.

(** [record_usage]: count the call, then price at the new level.  Returns
    the store left behind with the price. *)
Definition record_usage (m : Metering) (props : RequestProperties) (hint : option string)
    (ctx : MeteringContext S) (units : Z) : S * option ResolvedPrice :=
  let s' := (increment (store ctx) (accounting_key ctx) units).1 in
  (s', resolve_price m props hint (Some {|
     api_name := api_name ctx; endpoint_path := endpoint_path ctx;
     accounting_mode := accounting_mode ctx; store := s'; wallet := wallet ctx;
     now_secs := now_secs ctx |})).
End pricing.

(** ** Variant selection picks the most specific value *)

Definition is_default_variant (v : MeterVariant) : bool :=
  eq_ignore_ascii_case (variant_value v) "default".
Definition variant_matches (h : string) (v : MeterVariant) : bool :=
  negb (is_default_variant v) && str_contains h (variant_value v).
Definition specificity (v : MeterVariant) : nat := String.length (variant_value v).

(** [v] is the first of the longest matching variants of [vs]. *)
Definition most_specific (h : string) (vs : list MeterVariant) (v : MeterVariant) : Prop :=
  ∃ pre post, vs = pre ++ v :: post ∧ variant_matches h v = true ∧
    (∀ w, w ∈ pre → variant_matches h w = true → (specificity w < specificity v)%nat) ∧
    (∀ w, w ∈ post → variant_matches h w = true → (specificity w ≤ specificity v)%nat).

(** What the loop of [resolve_variant] knows after the variants [vs]. *)
Definition variant_loop_inv (h : string) (vs : list MeterVariant)
    (acc : option MeterVariant * option MeterVariant) : Prop :=
  (match acc.1 with
   | Some d => d ∈ vs ∧ is_default_variant d = true
   | None => ∀ w, w ∈ vs → is_default_variant w = false
   end) ∧
  (match acc.2 with
   | Some b => most_specific h vs b
   | None => ∀ w, w ∈ vs → variant_matches h w = false
   end).

Lemma most_specific_snoc h vs v w :
  most_specific h vs v →
  (variant_matches h w = true → (specificity w ≤ specificity v)%nat) →
  most_specific h (vs ++ [w]) v.
Proof.
  intros (pre & post & -> & Hv & Hpre & Hpost) Hw. exists pre, (post ++ [w]).
  rewrite <- app_assoc. split_and!; try done.
  intros x [?| ->%list_elem_of_singleton]%elem_of_app; auto.
Qed.

Lemma most_specific_last h vs w :
  variant_matches h w = true →
  (∀ x, x ∈ vs → variant_matches h x = true → (specificity x < specificity w)%nat) →
  most_specific h (vs ++ [w]) w.
Proof. intros. exists vs, []. split_and!; try done. set_solver. Qed.

Lemma most_specific_bound h vs v w :
  most_specific h vs v → w ∈ vs → variant_matches h w = true →
  (specificity w ≤ specificity v)%nat.
Proof.
  intros (pre & post & -> & _ & Hpre & Hpost) [Hin|[->|Hin]%elem_of_cons]%elem_of_app Hm; auto.
  specialize (Hpre w Hin Hm). lia.
Qed.

Lemma resolve_variant_step_inv h vs acc v :
  variant_loop_inv h vs acc →
  variant_loop_inv h (vs ++ [v]) (resolve_variant_step (Some h) acc v).
Proof.
  destruct acc as [dflt best]. unfold variant_loop_inv, resolve_variant_step. simpl.
  fold (is_default_variant v). intros [Hd Hb].
  assert (∀ b, best = Some b →
    (variant_matches h v = true → (specificity v ≤ specificity b)%nat) →
    most_specific h (vs ++ [v]) b) as Hsnoc.
  { intros b -> Hle. by apply most_specific_snoc. }
  destruct (is_default_variant v) eqn:Hdef; simpl.
  - split.
    + destruct dflt; [|set_solver]. destruct Hd. split; [set_solver|done].
    + assert (variant_matches h v = false) by (unfold variant_matches; by rewrite Hdef).
      destruct best; [apply Hsnoc; congruence|]. set_solver.
  - split.
    { destruct (_ && _); simpl; (destruct dflt; [destruct Hd; split; [set_solver|done]|]);
        set_solver. }
    assert (variant_matches h v = str_contains h (variant_value v)) as Hm
      by (unfold variant_matches; by rewrite Hdef).
    rewrite <- Hm. destruct (variant_matches h v) eqn:Hmv; simpl.
    2:{ destruct best; [apply Hsnoc; congruence|]. set_solver. }
    destruct best as [b|]; [fold (specificity b) (specificity v);
      destruct (Nat.ltb_spec (specificity b) (specificity v))|]; simpl.
    + apply most_specific_last; [done|]. intros x Hx Hmx.
      pose proof (most_specific_bound h vs b x Hb Hx Hmx). lia.
    + by apply Hsnoc.
    + apply most_specific_last; [done|]. intros x Hx Hmx. rewrite Hb in Hmx; done.
Qed.

Lemma resolve_variant_loop h vs :
  variant_loop_inv h vs (foldl (resolve_variant_step (Some h)) (None, None) vs).
Proof.
  induction vs as [|v vs IH] using rev_ind; [split; set_solver|].
  rewrite foldl_snoc. by apply resolve_variant_step_inv.
Qed.

(** With a hint, [resolve_variant] returns the first of the longest
    variant values contained in the hint; a [default] variant is used only
    when no value matches, and [None] only when there is neither. *)
Theorem resolve_variant_most_specific (vs : list MeterVariant) (h : string) :
  match resolve_variant vs (Some h) with
  | Some v => most_specific h vs v ∨
      (v ∈ vs ∧ is_default_variant v = true ∧ ∀ w, w ∈ vs → variant_matches h w = false)
  | None => ∀ w, w ∈ vs → variant_matches h w = false ∧ is_default_variant w = false
  end.
Proof.
  unfold resolve_variant. pose proof (resolve_variant_loop h vs) as [Hd Hb].
  destruct (foldl _ _ _) as [[d|] [b|]]; simpl in *; naive_solver.
Qed.

(** ** Tier selection is conservative about what it cannot measure *)

Lemma conservative_max tiers props u t :
  existsb (tier_conservative props u) tiers = true →
  select_price_tier_from_tiers tiers props u = Some t →
  t ∈ tiers ∧ Forall (λ t', total_key (price_usd t') ≤ total_key (price_usd t)) tiers.
Proof.
  unfold select_price_tier_from_tiers, total_cmp. intros ->.
  apply (max_by_key_spec (λ t, total_key (price_usd t))).
Qed.

(** When a tier's condition reads a request property that was not
    measured, a fixed per-call authorization is priced at a tier at least as
    expensive as every other tier: an unmeasured body can never buy a
    cheaper tier. *)
Theorem unmeasured_condition_prices_costliest_tier tiers props c t0 :
  t0 ∈ tiers → condition t0 = Some c → condition_property c props = None →
  ∃ t, select_price_tier_from_tiers tiers props Costliest = Some t ∧ t ∈ tiers ∧
    Forall (λ t', total_key (price_usd t') ≤ total_key (price_usd t)) tiers.
Proof.
  intros Hin Hc Hp.
  assert (existsb (tier_conservative props Costliest) tiers = true) as Hex.
  { apply existsb_exists. exists t0. split; [by apply list_elem_of_In|].
    unfold tier_conservative, conservative. by rewrite Hc, Hp. }
  destruct (select_price_tier_from_tiers tiers props Costliest) as [t|] eqn:Ht.
  - exists t. split; [done|]. by apply (conservative_max _ props Costliest).
  - exfalso. unfold select_price_tier_from_tiers, total_cmp in Ht. rewrite Hex in Ht.
    apply (max_by_key_None (λ t, total_key (price_usd t))) in Ht as ->. set_solver.
Qed.

Definition tier (up : option Z) (p : f64) (c : option MeterCondition) : PriceTier :=
  {| up_to := up; price_usd := p; condition := c; notes := None; tier_splits := [] |}.
Definition body_tiers : list PriceTier :=
  [tier None (f64_dec 1 2) (Some (BodySize Lte 1000)); tier None (f64_dec 5 2) None].

Lemma unmeasured_condition_prices_costliest_tier_witness :
  ∃ t, select_price_tier_from_tiers body_tiers default_properties Costliest = Some t ∧
    t ∈ body_tiers ∧
    Forall (λ t', total_key (price_usd t') ≤ total_key (price_usd t)) body_tiers.
Proof.
  apply (unmeasured_condition_prices_costliest_tier body_tiers default_properties
    (BodySize Lte 1000) (tier None (f64_dec 1 2) (Some (BodySize Lte 1000)))).
  - unfold body_tiers. constructor.
  - reflexivity.
  - reflexivity.
Defined.

(** ** Fixed per-call prices *)

Lemma find_existsb_None {A} (f : A → bool) l : find f l = None ↔ existsb f l = false.
Proof. induction l as [|x l IH]; simpl; [done|]. destruct (f x); simpl; [done|exact IH]. Qed.

Lemma costliest_candidate_max m props c :
  c ∈ charge_candidates m →
  total_key (costliest_usd (S := InMemoryStore) props c)
    ≤ total_key (costliest_usd (S := InMemoryStore) props
        (costliest_candidate (S := InMemoryStore) m props)).
Proof.
  intros Hc. unfold costliest_candidate, total_cmp.
  destruct (max_by _ _) as [d|] eqn:Hm.
  - apply (max_by_key_spec (λ c, total_key (costliest_usd (S := InMemoryStore) props c)))
      in Hm as [_ Hall].
    simpl. eapply Forall_forall in Hall; done.
  - apply (max_by_key_None (λ c, total_key (costliest_usd (S := InMemoryStore) props c))) in Hm.
    rewrite Hm in Hc. by apply elem_of_nil in Hc.
Qed.

(** A fixed per-call price is refused exactly when some dimension is
    settled from measured usage; otherwise, when the request path gives no
    variant hint, the dimensions charged cost at least as much as those of
    every variant the body could select. *)
Theorem fixed_price_refused_or_costliest m props :
  m_variants m ≠ [] →
  (is_ok (resolve_fixed_price (S := InMemoryStore) m props None) = false ↔
     has_aggregate_dimensions m = true) ∧
  (∀ v, v ∈ m_variants m →
     total_key (costliest_usd (S := InMemoryStore) props (variant_dimensions v))
       ≤ total_key (costliest_usd (S := InMemoryStore) props
           (fixed_charge_dimensions (S := InMemoryStore) m props None))).
Proof.
  intros Hv. split.
  - unfold resolve_fixed_price, has_aggregate_dimensions.
    destruct (find _ _) as [d|] eqn:Hf.
    + destruct (existsb _ _) eqn:He; [done|]. apply find_existsb_None in He. congruence.
    + apply find_existsb_None in Hf. rewrite Hf.
      by destruct (fixed_charge_dimensions m props None).
  - intros v Hin. unfold fixed_charge_dimensions.
    destruct (m_variants m) as [|v0 vs] eqn:Hvs; [done|].
    apply costliest_candidate_max. unfold charge_candidates. rewrite Hvs.
    apply elem_of_app. left. by apply list_elem_of_fmap_2.
Qed.

Definition per_request (p : f64) : MeterDimension := {|
  dim_direction := Usage; dim_unit := Requests; dim_scale := 1; dim_period := None;
  dim_tiers := [tier None p None]; dim_meter := None |}.
Definition two_models : Metering := {|
  m_dimensions := []; m_sku_tiers := []; m_splits := []; m_schemes := None;
  m_min_usd := None; m_upto := None;
  m_variants := [
    {| variant_param := "model"; variant_value := "small"; variant_description := None;
       variant_dimensions := [per_request (f64_dec 1 2)] |};
    {| variant_param := "model"; variant_value := "large"; variant_description := None;
       variant_dimensions := [per_request (f64_dec 9 2)] |} ] |}.

Lemma fixed_price_refused_or_costliest_witness :
  has_aggregate_dimensions two_models = false ∧
  fixed_charge_dimensions (S := InMemoryStore) two_models default_properties None
    = [per_request (f64_dec 9 2)] ∧
  (is_ok (resolve_fixed_price (S := InMemoryStore) two_models default_properties None) = false ↔
     has_aggregate_dimensions two_models = true).
Proof.
  split; [vm_compute; reflexivity|]. split; [vm_compute; reflexivity|].
  refine (proj1 (fixed_price_refused_or_costliest two_models default_properties _)).
  intros H. discriminate H.
Defined.

(** A volume-tiered price quoted without an accounting context is the
    first paid tier, which need not be the most expensive one. *)
Theorem quote_without_context_is_not_the_costliest_tier :
  ∃ tiers t, t ∈ tiers ∧
    f64_ltb (resolve_tier (S := InMemoryStore) tiers default_properties None Costliest)
            (price_usd t) = true.
Proof.
  exists [tier (Some 1000) (f64_dec 1 2) None; tier None (f64_dec 2 2) None],
    (tier None (f64_dec 2 2) None).
  split; [set_solver|vm_compute; reflexivity].
Qed.
