(* ===== verification/SessionMetering.v ===== *)
(** * SessionMetering: integer rating of session usage,
    [core/src/server/session_metering.rs]

    Cumulative usage snapshots are rated in microUSD, converted to
    stablecoin base units and gated: [SessionUsageGate] decides when the
    client owes a new voucher. *)
From Stdlib Require Import QArith Qround Lqa.
From S2P Require Import Prelude F64 MeteringTypes Accounting Pricing.
#[local] Open Scope Z_scope.

Definition MICRO_USD_PER_USD : Z := 1000000.

Inductive SessionMeteringError :=
  | EmptySpec
  | UnsupportedSkuTiers
  | NoDimensions
  | NoPriceTier (direction : MeterDirection) (unit : BillingUnit)
  | InvalidPrice
  | InexactMicroUsdPrice
  | InvalidScale (direction : MeterDirection) (unit : BillingUnit)
  | MissingRequiredObservation (direction : MeterDirection) (unit : BillingUnit)
  | NonMonotonicUsage (direction : MeterDirection) (unit : BillingUnit) (previous current : Z)
  | Overflow (context : string)
  | InvalidStream (message : string)
  | UnobservableMeter.
Abbreviation metered := (result SessionMeteringError).

(** ** Specifications and observations *)

Record SessionMeterDimension := {
  sd_direction : MeterDirection;
  sd_unit : BillingUnit;
  sd_scale : Z;
  sd_price_micro_usd : Z;
  sd_required : bool;
  sd_aggregate : bool
}.
Record SessionMeterSpec := { spec_dimensions : list SessionMeterDimension }.

Definition is_response_measured (d : MeterDirection) (u : BillingUnit) : bool :=
  bool_decide (d = Output) &&
  match u with Bytes | Characters | Tokens | QuotaUnits => true | _ => false end.

Definition is_prorated (d : MeterDirection) (u : BillingUnit) : bool :=
  unit_is_prorated u || is_response_measured d u.

(** [SessionMeterDimension::required] and [::optional]. *)
Definition required_dimension d u scale price : SessionMeterDimension :=
  {| sd_direction := d; sd_unit := u; sd_scale := scale; sd_price_micro_usd := price;
     sd_required := true; sd_aggregate := is_prorated d u |}.
Definition optional_dimension d u scale price : SessionMeterDimension :=
  {| sd_direction := d; sd_unit := u; sd_scale := scale; sd_price_micro_usd := price;
     sd_required := false; sd_aggregate := is_prorated d u |}.

Definition invalid_scale (d : SessionMeterDimension) : SessionMeteringError :=
  InvalidScale (sd_direction d) (sd_unit d).

(** [SessionMeterSpec::validate]. *)
Fixpoint validate_scales (dims : list SessionMeterDimension) : metered unit :=
  match dims with
  | [] => Ok tt
  | d :: dims => _ ← reject_if (sd_scale d =? 0) (invalid_scale d); validate_scales dims
  end.
Definition validate_spec (s : SessionMeterSpec) : metered unit :=
  match spec_dimensions s with
  | [] => Err EmptySpec
  | dims => validate_scales dims
  end.

Record UsageSample := {
  us_direction : MeterDirection;
  us_unit : BillingUnit;
  us_amount : Z
}.
(** [UsageObservation]: the samples in insertion order. *)
Definition UsageObservation := list UsageSample.

Definition sample_is (d : MeterDirection) (u : BillingUnit) (s : UsageSample) : bool :=
  bool_decide (us_direction s = d) && bool_decide (us_unit s = u).

(** [UsageObservation::set]: overwrite the first sample of the dimension,
    or append one. *)
Fixpoint observation_set (obs : UsageObservation) d u (amount : Z) : UsageObservation :=
  match obs with
  | [] => [ {| us_direction := d; us_unit := u; us_amount := amount |} ]
  | s :: obs =>
      if sample_is d u s
      then {| us_direction := us_direction s; us_unit := us_unit s; us_amount := amount |} :: obs
      else s :: observation_set obs d u amount
  end.

(** [UsageObservation::get]. *)
Definition observation_get (obs : UsageObservation) d u : option Z :=
  us_amount <$> find (sample_is d u) obs.

(** ** Rating one dimension *)

Definition ceil_div (numerator denominator : Z) : metered Z :=
  _ ← reject_if (denominator =? 0) (Overflow "division by zero");
  v ← ok_or (checked_add 128 numerator (denominator - 1)) (Overflow "ceil division");
  Ok (v / denominator).

Definition rate_units (units : Z) (d : SessionMeterDimension) : metered Z :=
  _ ← reject_if (sd_scale d =? 0) (invalid_scale d);
  numerator ← ok_or (checked_mul 128 units (sd_price_micro_usd d)) (Overflow "dimension rating");
  amount ←
    (if sd_aggregate d then ceil_div numerator (sd_scale d)
     else
       blocks ← ceil_div units (sd_scale d);
       ok_or (checked_mul 128 blocks (sd_price_micro_usd d)) (Overflow "dimension rating"));
  ok_or (try_from 64 amount) (Overflow "dimension rating").

(** ** Exact fractional totals *)

Record FractionalAmount := { whole : Z; numerator : Z; denominator : Z }.
Definition fractional_default : FractionalAmount :=
  {| whole := 0; numerator := 0; denominator := 1 |}.

(** [while right != 0 { (left, right) = (right, left % right) }]. *)
Fixpoint gcd_loop (fuel : nat) (left right : Z) : Z :=
  match fuel with
  | O => left
  | S fuel => if right =? 0 then left else gcd_loop fuel right (left mod right)
  end.
(** [log2 left + log2 right + 2] iterations are enough ([gcd_is_gcd]). *)
Definition gcd (left right : Z) : Z :=
  gcd_loop (Z.to_nat (Z.log2 left + Z.log2 right + 2)) left right.

Definition fractional_add (fa : FractionalAmount) (units : Z) (d : SessionMeterDimension) :
    metered FractionalAmount :=
  let overflow := Overflow "total dimension rating" in
  if negb (sd_aggregate d) then
    rated ← rate_units units d;
    w ← ok_or (checked_add 128 (whole fa) rated) overflow;
    Ok {| whole := w; numerator := numerator fa; denominator := denominator fa |}
  else
    let scale := sd_scale d in
    quoted ← ok_or (checked_mul 128 units (sd_price_micro_usd d)) overflow;
    w ← ok_or (checked_add 128 (whole fa) (quoted / scale)) overflow;
    let remainder := quoted mod scale in
    if remainder =? 0 then
      Ok {| whole := w; numerator := numerator fa; denominator := denominator fa |}
    else
      let divisor := gcd (denominator fa) scale in
      common ← ok_or (checked_mul 128 (denominator fa) (scale / divisor)) overflow;
      left ← ok_or (checked_mul 128 (numerator fa) (scale / divisor)) overflow;
      right ← ok_or (checked_mul 128 remainder (denominator fa / divisor)) overflow;
      num ← ok_or (checked_add 128 left right) overflow;
      w' ← ok_or (checked_add 128 w (num / common)) overflow;
      Ok {| whole := w'; numerator := num mod common; denominator := common |}.

Definition fractional_round (fa : FractionalAmount) : metered Z :=
  rounded ← ok_or (checked_add 128 (whole fa)
      (if denominator fa / 2 + denominator fa mod 2 <=? numerator fa then 1 else 0))
    (Overflow "total rounding");
  ok_or (try_from 64 rounded) (Overflow "total rounding").

(** ** Rating an observation *)

Record RatedDimensionDelta := {
  rd_dir : MeterDirection;
  rd_billing_unit : BillingUnit;
  rd_previous_units : Z;
  rd_current_units : Z;
  rd_previous_micro_usd : Z;
  rd_current_micro_usd : Z;
  rd_delta_micro_usd : Z;
  rd_dim_scale : Z;
  rd_price_micro_usd : Z
}.
Record RatedUsageDelta := {
  previous_micro_usd : Z;
  current_micro_usd : Z;
  delta_micro_usd : Z;
  lines : list RatedDimensionDelta
}.

Definition observed (obs : UsageObservation) (d : SessionMeterDimension) : option Z :=
  observation_get obs (sd_direction d) (sd_unit d).
Definition observed_units (obs : UsageObservation) (d : SessionMeterDimension) : Z :=
  default 0 (observed obs d).

(** The body of the [rate_observation] loop. *)
Definition rate_dimension (previous current : UsageObservation)
    (acc : FractionalAmount * FractionalAmount * list RatedDimensionDelta)
    (d : SessionMeterDimension) :
    metered (FractionalAmount * FractionalAmount * list RatedDimensionDelta) :=
  let '(previous_total, current_total, ls) := acc in
  let previous_units := observed_units previous d in
  current_units ←
    match observed current d with
    | Some v => Ok v
    | None =>
        if sd_required d
        then Err (MissingRequiredObservation (sd_direction d) (sd_unit d))
        else Ok 0
    end;
  _ ← reject_if (current_units <? previous_units)
        (NonMonotonicUsage (sd_direction d) (sd_unit d) previous_units current_units);
  p ← rate_units previous_units d;
  c ← rate_units current_units d;
  delta ← ok_or (checked_sub 64 c p) (Overflow "dimension delta");
  previous_total' ← fractional_add previous_total previous_units d;
  current_total' ← fractional_add current_total current_units d;
  Ok (previous_total', current_total', ls ++ [ {|
    rd_dir := sd_direction d; rd_billing_unit := sd_unit d;
    rd_previous_units := previous_units; rd_current_units := current_units;
    rd_previous_micro_usd := p; rd_current_micro_usd := c; rd_delta_micro_usd := delta;
    rd_dim_scale := sd_scale d; rd_price_micro_usd := sd_price_micro_usd d |} ]).

Definition rate_observation (spec : SessionMeterSpec) (previous current : UsageObservation) :
    metered RatedUsageDelta :=
  _ ← validate_spec spec;
  totals ← try_fold (rate_dimension previous current)
    (fractional_default, fractional_default, []) (spec_dimensions spec);
  let '(previous_total, current_total, ls) := totals in
  p ← fractional_round previous_total;
  c ← fractional_round current_total;
  delta ← ok_or (checked_sub 64 c p) (Overflow "total delta");
  Ok {| previous_micro_usd := p; current_micro_usd := c; delta_micro_usd := delta; lines := ls |}.

(** ** Stablecoin conversion *)

Record StablecoinSettlement := { decimals : Z }.
Definition usdc : StablecoinSettlement := {| decimals := 6 |}.

Definition micro_usd_to_base_units_ceil (amount_micro_usd : Z) (s : StablecoinSettlement) :
    metered Z :=
  multiplier ← ok_or (checked_pow 128 10 (decimals s)) (Overflow "settlement multiplier");
  numerator ← ok_or (checked_mul 128 amount_micro_usd multiplier)
                (Overflow "microUSD to base-unit numerator");
  base ← ceil_div numerator MICRO_USD_PER_USD;
  ok_or (try_from 64 base) (Overflow "base-unit conversion").

Record RatedVoucherDelta := {
  usage : RatedUsageDelta;
  previous_base_units : Z;
  current_base_units : Z;
  delta_base_units : Z
}.

Definition rate_voucher_delta (spec : SessionMeterSpec) (s : StablecoinSettlement)
    (previous current : UsageObservation) : metered RatedVoucherDelta :=
  u ← rate_observation spec previous current;
  p ← micro_usd_to_base_units_ceil (previous_micro_usd u) s;
  c ← micro_usd_to_base_units_ceil (current_micro_usd u) s;
  delta ← ok_or (checked_sub 64 c p) (Overflow "voucher base-unit delta");
  Ok {| usage := u; previous_base_units := p; current_base_units := c; delta_base_units := delta |}.

(** ** The gate *)

Inductive GateMode := Streaming | Final.
#[global] Instance GateMode_eq_dec : EqDecision GateMode.
Proof. solve_decision. Defined.

Record SessionUsageGate := {
  gate_spec : SessionMeterSpec;
  gate_settlement : StablecoinSettlement;
  baseline_base_units : Z;
  committed_base_units : Z;
  min_voucher_delta : Z;
  last_observation : UsageObservation
}.

Inductive SessionGateDecision :=
  | Continue (rated : RatedVoucherDelta) (target committed outstanding : Z)
  | VoucherRequired (rated : RatedVoucherDelta) (target committed outstanding : Z).

Definition requires_voucher (d : SessionGateDecision) : bool :=
  match d with VoucherRequired _ _ _ _ => true | Continue _ _ _ _ => false end.
Definition target_cumulative_base_units (d : SessionGateDecision) : Z :=
  match d with Continue _ t _ _ | VoucherRequired _ t _ _ => t end.
Definition outstanding_base_units (d : SessionGateDecision) : Z :=
  match d with Continue _ _ _ o | VoucherRequired _ _ _ o => o end.

Definition gate_new (spec : SessionMeterSpec) (s : StablecoinSettlement)
    (baseline min_delta : Z) : metered SessionUsageGate :=
  _ ← validate_spec spec;
  Ok {| gate_spec := spec; gate_settlement := s; baseline_base_units := baseline;
        committed_base_units := baseline; min_voucher_delta := min_delta;
        last_observation := [] |}.

Definition with_last_observation (g : SessionUsageGate) (obs : UsageObservation) :
    SessionUsageGate :=
  {| gate_spec := gate_spec g; gate_settlement := gate_settlement g;
     baseline_base_units := baseline_base_units g;
     committed_base_units := committed_base_units g;
     min_voucher_delta := min_voucher_delta g; last_observation := obs |}.

(** The decision once the snapshot is rated. *)
Definition gate_decide (g : SessionUsageGate) (mode : GateMode)
    (rated : RatedVoucherDelta) (target : Z) : SessionGateDecision :=
  let outstanding := saturating_sub target (committed_base_units g) in
  let threshold := Z.max (min_voucher_delta g) 1 in
  if (outstanding =? 0) || (bool_decide (mode = Streaming) && (outstanding <? threshold))
  then Continue rated target (committed_base_units g) outstanding
  else VoucherRequired rated target (committed_base_units g) outstanding.

(** [SessionUsageGate::observe]: the gate left behind and the decision.  The
    snapshot is recorded before the target is computed, so it stays recorded
    when that addition overflows. *)
Definition gate_observe (g : SessionUsageGate) (current : UsageObservation) (mode : GateMode) :
    SessionUsageGate * metered SessionGateDecision :=
  match
    (rated ← rate_voucher_delta (gate_spec g) (gate_settlement g) (last_observation g) current;
     total ← rate_voucher_delta (gate_spec g) (gate_settlement g) [] current;
     Ok (rated, total))
  with
  | Err e => (g, Err e)
  | Ok (rated, total) =>
      let g' := with_last_observation g current in
      (g',
       target ← ok_or (checked_add 64 (baseline_base_units g') (current_base_units total))
                  (Overflow "gate target cumulative");
       Ok (gate_decide g' mode rated target))
  end.

Definition record_commit (g : SessionUsageGate) (committed : Z) : SessionUsageGate :=
  {| gate_spec := gate_spec g; gate_settlement := gate_settlement g;
     baseline_base_units := baseline_base_units g;
     committed_base_units := Z.max (committed_base_units g) committed;
     min_voucher_delta := min_voucher_delta g; last_observation := last_observation g |}.

(** ** Building a spec from the provider's pricing *)

Definition price_usd_to_micro_usd (price : f64) : metered Z :=
  _ ← reject_if (negb (f64_is_finite price) || f64_ltb price f64_zero) InvalidPrice;
  let micro_usd := f64_mul price (f64_of_Z MICRO_USD_PER_USD) in
  let rounded := f64_round micro_usd in
  _ ← reject_if (f64_gtb (f64_abs (f64_sub micro_usd rounded)) (f64_dec 1 6))
        InexactMicroUsdPrice;
  _ ← reject_if (f64_gtb rounded (f64_of_Z u64_max)) (Overflow "price_usd conversion");
  Ok (f64_as_u64 rounded).

Definition dimension_from_metering (props : RequestProperties) (d : MeterDimension) :
    metered SessionMeterDimension :=
  _ ← reject_if (dim_scale d =? 0) (InvalidScale (dim_direction d) (dim_unit d));
  tier ← ok_or (select_price_tier d props) (NoPriceTier (dim_direction d) (dim_unit d));
  price ← price_usd_to_micro_usd (price_usd tier);
  Ok {| sd_direction := dim_direction d; sd_unit := dim_unit d; sd_scale := dim_scale d;
        sd_price_micro_usd := price; sd_required := true;
        sd_aggregate := is_prorated (dim_direction d) (dim_unit d) || is_aggregate_settled d |}.

Definition select_dimensions (m : Metering) (hint : option string) :
    metered (list MeterDimension) :=
  match variant_branch m hint with
  | Some dims => Ok dims
  | None =>
      match m_dimensions m with
      | [] => Err NoDimensions
      | dims => Ok dims
      end
  end.

Definition spec_from_metering (m : Metering) (hint : option string)
    (props : option RequestProperties) : metered SessionMeterSpec :=
  match m_sku_tiers m with
  | _ :: _ => Err UnsupportedSkuTiers
  | [] =>
      dims ← select_dimensions m hint;
      rated ← mapM (dimension_from_metering (default default_properties props)) dims;
      let spec := {| spec_dimensions := rated |} in
      _ ← validate_spec spec;
      Ok spec
  end.

(** ** Integer facts *)

Lemma gcd_loop_0 fuel l : gcd_loop fuel l 0 = l.
Proof. by destruct fuel. Qed.

Lemma log2_mod_lt l r : 0 < r ≤ l → 0 < l mod r → Z.log2 (l mod r) < Z.log2 l.
Proof.
  intros Hr Hm. pose proof (Z.mod_pos_bound l r ltac:(lia)).
  pose proof (Z.div_mod l r ltac:(lia)) as Hdm.
  assert (1 ≤ l / r) by (apply Z.div_le_lower_bound; lia).
  assert ((l mod r) * 2 ^ 1 ≤ l) by nia.
  pose proof (Z.log2_le_mono ((l mod r) * 2 ^ 1) l ltac:(lia)) as Hlog.
  rewrite <- Z.shiftl_mul_pow2, Z.log2_shiftl in Hlog by lia. lia.
Qed.

Lemma gcd_loop_ordered fuel l r :
  0 ≤ r ≤ l → Z.log2 l + Z.log2 r + 1 ≤ Z.of_nat fuel → gcd_loop fuel l r = Z.gcd l r.
Proof.
  revert l r. induction fuel as [|fuel IH]; intros l r Hlr Hf; cbn [gcd_loop].
  { pose proof (Z.log2_nonneg l). pose proof (Z.log2_nonneg r). lia. }
  destruct (Z.eqb_spec r 0) as [->|Hr0]; [rewrite Z.gcd_0_r; lia|].
  pose proof (Z.mod_pos_bound l r ltac:(lia)) as Hm.
  transitivity (Z.gcd r (l mod r)).
  2:{ rewrite (Z.gcd_comm r), Z.gcd_mod by lia. by rewrite Z.gcd_comm. }
  destruct (Z.eq_dec (l mod r) 0) as [->|].
  - rewrite gcd_loop_0, Z.gcd_0_r. lia.
  - apply IH; [lia|]. pose proof (log2_mod_lt l r). lia.
Qed.

(** The bounded loop computes the greatest common divisor. *)
Lemma gcd_is_gcd l r : 0 ≤ l → 0 ≤ r → gcd l r = Z.gcd l r.
Proof.
  intros Hl Hr. unfold gcd. pose proof (Z.log2_nonneg l). pose proof (Z.log2_nonneg r).
  destruct (Z.le_gt_cases r l); [apply gcd_loop_ordered; lia|].
  destruct (Z.to_nat _) as [|fuel] eqn:Hf; [lia|]. cbn [gcd_loop].
  destruct (Z.eqb_spec r 0); [lia|]. rewrite Z.mod_small by lia.
  rewrite gcd_loop_ordered by lia. apply Z.gcd_comm.
Qed.

Definition cdiv (n d : Z) : Z := (n + (d - 1)) / d.

Lemma ceil_div_Ok n d q : ceil_div n d = Ok q → d ≠ 0 ∧ q = cdiv n d.
Proof. unfold ceil_div, cdiv. intros H. inv_ok. apply Z.eqb_neq in Hok. done. Qed.

Lemma cdiv_bounds n d : 0 < d → (cdiv n d - 1) * d < n ≤ cdiv n d * d.
Proof.
  intros Hd. unfold cdiv. pose proof (Z.div_mod (n + (d - 1)) d ltac:(lia)).
  pose proof (Z.mod_pos_bound (n + (d - 1)) d Hd). nia.
Qed.

Lemma cdiv_mono n m d : 0 < d → n ≤ m → cdiv n d ≤ cdiv m d.
Proof. intros. unfold cdiv. apply Z.div_le_mono; lia. Qed.

Lemma cdiv_nonneg n d : 0 < d → 0 ≤ n → 0 ≤ cdiv n d.
Proof. intros. unfold cdiv. apply Z.div_pos; lia. Qed.

(** ** Exact prices as rationals *)

(** What a dimension costs before any rounding of the total: prorated
    dimensions pay [units * price / scale], the others whole blocks. *)
Definition exact_charge (units : Z) (d : SessionMeterDimension) : Q :=
  if sd_aggregate d
  then inject_Z (units * sd_price_micro_usd d) / inject_Z (sd_scale d)
  else inject_Z (cdiv units (sd_scale d) * sd_price_micro_usd d).

Definition exact_total (spec : SessionMeterSpec) (obs : UsageObservation) : Q :=
  foldr (λ d acc, exact_charge (observed_units obs d) d + acc)%Q 0%Q (spec_dimensions spec).

Definition fa_value (fa : FractionalAmount) : Q :=
  (inject_Z (whole fa) + inject_Z (numerator fa) / inject_Z (denominator fa))%Q.
Definition fa_wf (fa : FractionalAmount) : Prop :=
  0 ≤ whole fa ∧ 0 ≤ numerator fa < denominator fa.

Definition dim_wf (d : SessionMeterDimension) : Prop :=
  0 < sd_scale d ∧ 0 ≤ sd_price_micro_usd d.
Definition spec_wf (s : SessionMeterSpec) : Prop :=
  Forall (λ d, 0 ≤ sd_scale d ∧ 0 ≤ sd_price_micro_usd d) (spec_dimensions s).
Definition obs_wf (o : UsageObservation) : Prop := Forall (λ s, 0 ≤ us_amount s) o.

Lemma rate_units_Ok units d q :
  rate_units units d = Ok q →
  q = if sd_aggregate d then cdiv (units * sd_price_micro_usd d) (sd_scale d)
      else cdiv units (sd_scale d) * sd_price_micro_usd d.
Proof.
  unfold rate_units. intros H. inv_ok.
  destruct (sd_aggregate d); inv_ok;
    by match goal with H : ceil_div _ _ = Ok _ |- _ => apply ceil_div_Ok in H as [_ ->] end.
Qed.

Lemma inject_nonzero z : z ≠ 0 → ¬ (inject_Z z == 0)%Q.
Proof. intros Hz H. unfold Qeq in H. simpl in H. lia. Qed.

Lemma inject_div_mod n d : 0 < d →
  (inject_Z n / inject_Z d == inject_Z (n / d) + inject_Z (n mod d) / inject_Z d)%Q.
Proof.
  intros Hd. rewrite (Z.div_mod n d) at 1 by lia.
  rewrite inject_Z_plus, inject_Z_mult. field. apply inject_nonzero. lia.
Qed.

(** Adding fractions over the least common denominator. *)
Lemma add_over_lcm n1 d1 n2 d2 :
  0 < d1 → 0 < d2 →
  let g := Z.gcd d1 d2 in
  (inject_Z (n1 * (d2 / g) + n2 * (d1 / g)) / inject_Z (d1 * (d2 / g))
   == inject_Z n1 / inject_Z d1 + inject_Z n2 / inject_Z d2)%Q.
Proof.
  intros H1 H2 g.
  assert (0 < g) as Hg.
  { pose proof (Z.gcd_nonneg d1 d2). destruct (Z.eq_dec (Z.gcd d1 d2) 0) as [E|]; [|unfold g; lia].
    apply Z.gcd_eq_0_l in E. lia. }
  destruct (Z.gcd_divide_l d1 d2) as [a Ha]. destruct (Z.gcd_divide_r d1 d2) as [b Hb].
  fold g in Ha, Hb. rewrite Ha at 1 2. rewrite Hb at 1 2.
  rewrite !Z.div_mul by lia. rewrite Ha, Hb at 1.
  rewrite ?inject_Z_plus, ?inject_Z_mult. field.
  repeat split; apply inject_nonzero; nia.
Qed.

Lemma fractional_add_exact fa units d fa' :
  fa_wf fa → dim_wf d → 0 ≤ units →
  fractional_add fa units d = Ok fa' →
  fa_wf fa' ∧ (fa_value fa' == fa_value fa + exact_charge units d)%Q.
Proof.
  intros (Hw & Hn & Hd) (Hs & Hp) Hu. unfold fractional_add, exact_charge.
  destruct (sd_aggregate d) eqn:Hagg; simpl; intros H; inv_ok.
  2:{ match goal with H : rate_units _ _ = Ok _ |- _ => apply rate_units_Ok in H; rewrite Hagg in H; subst end.
      pose proof (cdiv_nonneg units (sd_scale d) Hs Hu).
      split; [repeat split; simpl; nia|]. unfold fa_value. simpl.
      rewrite inject_Z_plus. ring. }
  set (q := units * sd_price_micro_usd d) in *.
  assert (0 ≤ q) by nia. pose proof (Z.div_pos q (sd_scale d) ltac:(lia) Hs).
  rewrite (inject_div_mod q (sd_scale d)) by done.
  destruct (Z.eqb_spec (q mod sd_scale d) 0) as [Hz|Hz]; inv_ok.
  { split; [repeat split; simpl; lia|]. unfold fa_value. simpl. rewrite Hz, inject_Z_plus.
    assert (inject_Z 0 / inject_Z (sd_scale d) == 0)%Q as ->
      by (field; apply inject_nonzero; lia). ring. }
  rewrite gcd_is_gcd in * by lia.
  pose proof (add_over_lcm (numerator fa) (denominator fa) (q mod sd_scale d) (sd_scale d)
    ltac:(lia) Hs) as Hadd.
  cbv zeta in Hadd. set (g := Z.gcd (denominator fa) (sd_scale d)) in *.
  set (common := denominator fa * (sd_scale d / g)) in *.
  set (num := numerator fa * (sd_scale d / g) + q mod sd_scale d * (denominator fa / g)) in *.
  assert (0 < common) as Hc.
  { assert (0 < g). { pose proof (Z.gcd_nonneg (denominator fa) (sd_scale d)).
      destruct (Z.eq_dec g 0) as [E|]; [|unfold g in *; lia]. apply Z.gcd_eq_0_l in E. lia. }
    destruct (Z.gcd_divide_r (denominator fa) (sd_scale d)) as [b Hb]. fold g in Hb.
    unfold common. rewrite Hb, Z.div_mul by lia. nia. }
  assert (0 ≤ num).
  { unfold in_range in *. lia. }
  pose proof (Z.div_pos num common ltac:(lia) Hc). pose proof (Z.mod_pos_bound num common Hc).
  split; [repeat split; simpl; lia|]. unfold fa_value. simpl.
  rewrite !inject_Z_plus, <- Qplus_assoc, <- (inject_div_mod num common Hc), Hadd. ring.
Qed.

Definition round_half_up (q : Q) : Z := Qfloor (q + (1 # 2)).

Lemma Qfloor_unique q r : (inject_Z r <= q)%Q → (q < inject_Z (r + 1))%Q → Qfloor q = r.
Proof.
  intros Hlo Hhi. pose proof (Qfloor_le q). pose proof (Qlt_floor q) as Hf.
  assert (inject_Z r < inject_Z (Qfloor q + 1))%Q as H1 by (eapply Qle_lt_trans; eauto).
  assert (inject_Z (Qfloor q) < inject_Z (r + 1))%Q as H2 by (eapply Qle_lt_trans; eauto).
  rewrite <- Zlt_Qlt in H1, H2. lia.
Qed.

Lemma fractional_round_exact fa r :
  fa_wf fa → fractional_round fa = Ok r → r = round_half_up (fa_value fa) ∧ is_u64 r.
Proof.
  intros (Hw & Hn & Hd). unfold fractional_round. intros H. inv_ok. split; [|done].
  symmetry. apply Qfloor_unique; unfold fa_value.
  all: assert (0 < denominator fa) as Hpos by lia.
  all: pose proof (Z.div_mod (denominator fa) 2 ltac:(lia)).
  all: pose proof (Z.mod_pos_bound (denominator fa) 2 ltac:(lia)).
  all: rewrite !inject_Z_plus.
  - enough (inject_Z (if (denominator fa / 2 + denominator fa mod 2 <=? numerator fa)%Z then 1 else 0)
      <= inject_Z (numerator fa) / inject_Z (denominator fa) + (1 # 2))%Q by lra.
    destruct (Z.leb_spec (denominator fa / 2 + denominator fa mod 2) (numerator fa)).
    + unfold Qle, Qdiv, Qinv. destruct (denominator fa) eqn:E; simpl; lia.
    + unfold Qle, Qdiv, Qinv. destruct (denominator fa) eqn:E; simpl; lia.
  - enough (inject_Z (numerator fa) / inject_Z (denominator fa) + (1 # 2) <
      inject_Z (if (denominator fa / 2 + denominator fa mod 2 <=? numerator fa)%Z then 1 else 0) + 1)%Q
      by (change (inject_Z 1) with 1%Q; lra).
    destruct (Z.leb_spec (denominator fa / 2 + denominator fa mod 2) (numerator fa));
      unfold Qlt, Qdiv, Qinv; destruct (denominator fa) eqn:E; simpl; lia.
Qed.

(** ** Rating an observation is rounding the exact total once *)

Definition charge_sum (obs : UsageObservation) (dims : list SessionMeterDimension) : Q :=
  foldr (λ d acc, exact_charge (observed_units obs d) d + acc)%Q 0%Q dims.

Lemma observed_units_nonneg obs d : obs_wf obs → 0 ≤ observed_units obs d.
Proof.
  unfold observed_units, observed, observation_get, obs_wf. intros Hobs.
  destruct (find _ obs) as [s|] eqn:Hf; simpl; [|lia].
  apply find_some in Hf as [Hin _]. apply list_elem_of_In in Hin.
  by eapply Forall_forall in Hobs.
Qed.

Lemma validate_scales_Ok dims u :
  validate_scales dims = Ok u → Forall (λ d, sd_scale d ≠ 0) dims.
Proof.
  induction dims as [|d dims IH]; simpl; intros H; [done|]. inv_ok.
  constructor; [by apply Z.eqb_neq|auto].
Qed.

Lemma validate_spec_dims spec u :
  spec_wf spec → validate_spec spec = Ok u → Forall dim_wf (spec_dimensions spec).
Proof.
  unfold spec_wf, validate_spec. destruct (spec_dimensions spec) as [|d dims] eqn:E; [done|].
  intros Hwf Hv%validate_scales_Ok. rewrite Forall_forall in Hwf, Hv. apply Forall_forall.
  intros x Hx. destruct (Hwf x Hx). specialize (Hv x Hx). simpl in Hv. split; [lia|done].
Qed.

(** One iteration of the rating loop that succeeds. *)
Lemma rate_dimension_Ok prev cur pt ct ls d pt' ct' ls' :
  rate_dimension prev cur (pt, ct, ls) d = Ok (pt', ct', ls') →
  observed_units prev d ≤ observed_units cur d ∧
  (sd_required d = true → is_Some (observed cur d)) ∧
  fractional_add pt (observed_units prev d) d = Ok pt' ∧
  fractional_add ct (observed_units cur d) d = Ok ct' ∧
  (∃ p, rate_units (observed_units prev d) d = Ok p) ∧
  (∃ c, rate_units (observed_units cur d) d = Ok c ∧ is_u64 c).
Proof.
  unfold rate_dimension. intros H. inv_ok.
  assert (a = observed_units cur d ∧ (sd_required d = true → is_Some (observed cur d))) as [-> Hreq].
  { unfold observed_units. destruct (observed cur d); [naive_solver|].
    destruct (sd_required d); naive_solver. }
  match goal with H : (_ <? _) = false |- _ => apply Z.ltb_ge in H end.
  match goal with H : Ok _ = Ok _ |- _ => injection H as <- <- <- | _ => idtac end.
  split_and!; eauto.
  eexists. split; [eassumption|].
  match goal with H : rate_units (observed_units cur d) d = Ok _ |- _ =>
    unfold rate_units in H end. inv_ok. done.
Qed.

Lemma rate_fold_exact prev cur dims pt ct ls pt' ct' ls' :
  Forall dim_wf dims → obs_wf prev → obs_wf cur → fa_wf pt → fa_wf ct →
  try_fold (rate_dimension prev cur) (pt, ct, ls) dims = Ok (pt', ct', ls') →
  fa_wf pt' ∧ fa_wf ct' ∧
  (fa_value pt' == fa_value pt + charge_sum prev dims)%Q ∧
  (fa_value ct' == fa_value ct + charge_sum cur dims)%Q ∧
  Forall (λ d, observed_units prev d ≤ observed_units cur d) dims.
Proof.
  intros Hdims Hprev Hcur. revert pt ct ls.
  induction Hdims as [|d dims Hd Hdims IH]; intros pt ct ls Hpt Hct; simpl; intros H.
  { inv_ok. split_and!; try done; ring. }
  apply bind_Ok in H as ([[pt1 ct1] ls1] & Hstep & H).
  apply rate_dimension_Ok in Hstep as (Hle & _ & Hp & Hc & _ & _).
  apply fractional_add_exact in Hp as [Hpwf Hp]; auto using observed_units_nonneg.
  apply fractional_add_exact in Hc as [Hcwf Hc]; auto using observed_units_nonneg.
  destruct (IH _ _ _ Hpwf Hcwf H) as (? & ? & Hpv & Hcv & ?).
  split_and!; auto.
  - rewrite Hpv, Hp. ring.
  - rewrite Hcv, Hc. ring.
Qed.

Lemma fractional_default_wf : fa_wf fractional_default.
Proof. unfold fa_wf. simpl. lia. Qed.
#[local] Hint Resolve fractional_default_wf : paydb.

(** The microUSD total a snapshot is worth: the exact total, rounded once. *)
Definition rated_total (spec : SessionMeterSpec) (obs : UsageObservation) : Z :=
  round_half_up (exact_total spec obs).

Lemma round_half_up_proper p q : (p == q)%Q → round_half_up p = round_half_up q.
Proof. intros H. unfold round_half_up. by rewrite H. Qed.

Lemma rate_observation_totals spec prev cur r :
  spec_wf spec → obs_wf prev → obs_wf cur →
  rate_observation spec prev cur = Ok r →
  previous_micro_usd r = rated_total spec prev ∧
  current_micro_usd r = rated_total spec cur ∧
  delta_micro_usd r = rated_total spec cur - rated_total spec prev ∧
  0 ≤ delta_micro_usd r ∧ is_u64 (current_micro_usd r) ∧ is_u64 (previous_micro_usd r).
Proof.
  intros Hspec Hprev Hcur. unfold rate_observation. intros H.
  apply bind_Ok in H as (u & Hv & H). apply bind_Ok in H as ([[pt ct] ls] & Hf & H).
  pose proof (validate_spec_dims _ _ Hspec Hv) as Hdims.
  destruct (rate_fold_exact _ _ _ _ _ _ _ _ _ Hdims Hprev Hcur fractional_default_wf
    fractional_default_wf Hf) as (Hpt & Hct & Hpv & Hcv & _).
  inv_ok. simpl.
  repeat match goal with H : fractional_round _ = Ok _ |- _ =>
    apply fractional_round_exact in H as [? ?]; [|done] end.
  assert (fa_value fractional_default == 0)%Q as Hdef by reflexivity.
  rewrite Hdef, Qplus_0_l in Hpv, Hcv.
  assert (round_half_up (fa_value pt) = rated_total spec prev) by (by apply round_half_up_proper).
  assert (round_half_up (fa_value ct) = rated_total spec cur) by (by apply round_half_up_proper).
  unfold in_range in *. subst. split_and!; try congruence; lia.
Qed.

(** ** Monotonicity: the subtractions of cumulative values never fail *)

(** Not one of the errors a negative difference would raise. *)
Definition no_underflow (e : SessionMeteringError) : Prop :=
  e ≠ Overflow "dimension delta" ∧ e ≠ Overflow "total delta" ∧
  e ≠ Overflow "voucher base-unit delta".

Ltac inv_err :=
  repeat match goal with
  | H : _ ≫= _ = Err _ |- _ =>
      apply bind_Err in H as [H|(? & ? & H)]
  | H : ok_or _ _ = Err _ |- _ => apply ok_or_Err in H as [? <-]
  | H : reject_if _ _ = Err _ |- _ => apply reject_if_Err in H as [? <-]
  | H : Ok _ = Err _ |- _ => discriminate H
  | H : Err _ = Err _ |- _ => injection H as <-
  | H : context [if ?b then _ else _] |- _ =>
      match type of H with _ = Err _ => destruct b eqn:? end
  end.

Lemma ceil_div_no_underflow n d e : ceil_div n d = Err e → no_underflow e.
Proof. unfold ceil_div. intros H. inv_err; done. Qed.

Lemma rate_units_no_underflow u d e : rate_units u d = Err e → no_underflow e.
Proof.
  unfold rate_units, invalid_scale. intros H.
  inv_err; first [done | by eapply ceil_div_no_underflow].
Qed.

Lemma fractional_add_no_underflow fa u d e : fractional_add fa u d = Err e → no_underflow e.
Proof.
  unfold fractional_add. intros H. inv_err; first [done | by eapply rate_units_no_underflow].
Qed.

Lemma fractional_round_no_underflow fa e : fractional_round fa = Err e → no_underflow e.
Proof. unfold fractional_round. intros H. inv_err; done. Qed.

Lemma validate_spec_no_underflow spec e : validate_spec spec = Err e → no_underflow e.
Proof.
  unfold validate_spec. destruct (spec_dimensions spec) as [|d0 dims]; [by intros [= <-]|].
  generalize (d0 :: dims). clear. intros dims. induction dims as [|d dims IH]; simpl; [done|].
  intros H. inv_err; [done|auto].
Qed.

Lemma rate_units_mono u v d p c :
  dim_wf d → u ≤ v → rate_units u d = Ok p → rate_units v d = Ok c → p ≤ c.
Proof.
  intros [Hs Hp] Huv ->%rate_units_Ok ->%rate_units_Ok.
  destruct (sd_aggregate d); [apply cdiv_mono; nia|].
  pose proof (cdiv_mono u v (sd_scale d) Hs Huv). nia.
Qed.

Lemma rate_dimension_no_underflow prev cur acc d e :
  dim_wf d → obs_wf prev →
  rate_dimension prev cur acc d = Err e → no_underflow e.
Proof.
  intros Hd Hprev. destruct acc as [[pt ct] ls]. unfold rate_dimension. intros H.
  apply bind_Err in H as [H|(cu & Hcu & H)].
  { destruct (observed cur d); [done|]. destruct (sd_required d); inv_err; done. }
  apply bind_Err in H as [H|(? & Hle & H)]; [inv_err; done|].
  apply reject_if_Ok, Z.ltb_ge in Hle.
  apply bind_Err in H as [H|(p & Hp & H)]; [by eapply rate_units_no_underflow|].
  apply bind_Err in H as [H|(c & Hc & H)]; [by eapply rate_units_no_underflow|].
  apply bind_Err in H as [H|(dl & _ & H)].
  { exfalso. pose proof (rate_units_mono _ _ _ _ _ Hd Hle Hp Hc).
    apply ok_or_Err in H as [H _]. apply try_from_None in H. apply H.
    assert (is_u64 c) by (unfold rate_units in Hc; by inv_ok).
    assert (0 ≤ p). { unfold rate_units in Hp. inv_ok. unfold in_range in *. lia. }
    unfold in_range in *. lia. }
  inv_err; try done; by eapply fractional_add_no_underflow.
Qed.

Lemma rate_fold_no_underflow prev cur dims acc e :
  Forall dim_wf dims → obs_wf prev →
  try_fold (rate_dimension prev cur) acc dims = Err e → no_underflow e.
Proof.
  intros Hdims Hprev. revert acc. induction Hdims as [|d dims Hd Hdims IH]; intros acc; simpl; [done|].
  intros [H|(acc' & _ & H)]%bind_Err; eauto using rate_dimension_no_underflow.
Qed.

Lemma exact_charge_mono u v d : dim_wf d → u ≤ v → (exact_charge u d <= exact_charge v d)%Q.
Proof.
  intros [Hs Hp] Huv. unfold exact_charge. destruct (sd_aggregate d).
  - apply Qmult_le_compat_r; [rewrite <- Zle_Qle; nia|].
    apply Qinv_le_0_compat. change 0%Q with (inject_Z 0). rewrite <- Zle_Qle. lia.
  - rewrite <- Zle_Qle. pose proof (cdiv_mono u v (sd_scale d) Hs Huv). nia.
Qed.

Lemma charge_sum_mono prev cur dims :
  Forall dim_wf dims → Forall (λ d, observed_units prev d ≤ observed_units cur d) dims →
  (charge_sum prev dims <= charge_sum cur dims)%Q.
Proof.
  intros Hd Hle. induction dims as [|d dims IH]; simpl; [apply Qle_refl|].
  apply Forall_cons_1 in Hd as [? ?]. apply Forall_cons_1 in Hle as [? ?].
  apply Qplus_le_compat; auto using exact_charge_mono.
Qed.

Lemma round_half_up_mono p q : (p <= q)%Q → round_half_up p ≤ round_half_up q.
Proof. intros. unfold round_half_up. apply Qfloor_resp_le. lra. Qed.

Lemma rate_observation_no_underflow spec prev cur e :
  spec_wf spec → obs_wf prev → obs_wf cur →
  rate_observation spec prev cur = Err e → no_underflow e.
Proof.
  intros Hspec Hprev Hcur. unfold rate_observation. intros H.
  apply bind_Err in H as [H|(u & Hv & H)]; [by eapply validate_spec_no_underflow|].
  pose proof (validate_spec_dims _ _ Hspec Hv) as Hdims.
  apply bind_Err in H as [H|([[pt ct] ls] & Hf & H)]; [eauto using rate_fold_no_underflow|].
  destruct (rate_fold_exact _ _ _ _ _ _ _ _ _ Hdims Hprev Hcur fractional_default_wf
    fractional_default_wf Hf) as (Hpt & Hct & Hpv & Hcv & Hle).
  apply bind_Err in H as [H|(p & Hp & H)]; [by eapply fractional_round_no_underflow|].
  apply bind_Err in H as [H|(c & Hc & H)]; [by eapply fractional_round_no_underflow|].
  apply fractional_round_exact in Hp as [-> Hp]; [|done].
  apply fractional_round_exact in Hc as [-> Hc]; [|done].
  exfalso. apply bind_Err in H as [H|(? & ? & H)]; [|done].
  apply ok_or_Err in H as [H _]. apply try_from_None in H. apply H.
  assert (round_half_up (fa_value pt) ≤ round_half_up (fa_value ct)).
  { apply round_half_up_mono. rewrite Hpv, Hcv.
    apply Qplus_le_compat; [apply Qle_refl|]. by apply charge_sum_mono. }
  unfold in_range in *. lia.
Qed.

(** Rating is exact and rounds once.  When a snapshot is rated against a
    previous one, both cumulative amounts are the exact rational totals of
    the priced dimensions rounded half up to a whole microUSD, and the delta
    is their difference: no per-dimension or per-chunk rounding is ever
    accumulated. *)
Theorem cumulative_rating_rounds_once spec prev cur r :
  spec_wf spec → obs_wf prev → obs_wf cur →
  rate_observation spec prev cur = Ok r →
  current_micro_usd r = round_half_up (exact_total spec cur) ∧
  previous_micro_usd r = round_half_up (exact_total spec prev) ∧
  delta_micro_usd r = current_micro_usd r - previous_micro_usd r ∧
  0 ≤ delta_micro_usd r.
Proof.
  intros Hs Hp Hc Hr. destruct (rate_observation_totals _ _ _ _ Hs Hp Hc Hr) as (-> & -> & -> & ? & _).
  done.
Qed.

(** ** Streams of snapshots *)

(** The base-unit deltas of a stream of cumulative snapshots. *)
Fixpoint rate_stream (spec : SessionMeterSpec) (s : StablecoinSettlement)
    (prev : UsageObservation) (snapshots : list UsageObservation) : metered (list Z) :=
  match snapshots with
  | [] => Ok []
  | o :: os =>
      r ← rate_voucher_delta spec s prev o;
      rest ← rate_stream spec s o os;
      Ok (delta_base_units r :: rest)
  end.

Lemma rate_voucher_delta_Ok spec s prev cur r :
  spec_wf spec → obs_wf prev → obs_wf cur →
  rate_voucher_delta spec s prev cur = Ok r →
  micro_usd_to_base_units_ceil (rated_total spec prev) s = Ok (previous_base_units r) ∧
  micro_usd_to_base_units_ceil (rated_total spec cur) s = Ok (current_base_units r) ∧
  delta_base_units r = current_base_units r - previous_base_units r.
Proof.
  intros Hs Hp Hc. unfold rate_voucher_delta. intros H. inv_ok. simpl.
  match goal with H : rate_observation _ _ _ = Ok _ |- _ =>
    apply rate_observation_totals in H as (<- & <- & _) end; done.
Qed.

Lemma exact_charge_0 d : dim_wf d → (exact_charge 0 d == 0)%Q.
Proof.
  intros [Hs Hp]. unfold exact_charge. destruct (sd_aggregate d).
  - rewrite Z.mul_0_l. unfold Qdiv. apply Qmult_0_l.
  - unfold cdiv. rewrite Z.add_0_l, Z.div_small by lia. done.
Qed.

Lemma charge_sum_nil dims : Forall dim_wf dims → (charge_sum [] dims == 0)%Q.
Proof.
  induction 1 as [|d dims Hd _ IH]; [done|].
  change (exact_charge 0 d + charge_sum [] dims == 0)%Q. by rewrite IH, exact_charge_0.
Qed.

Lemma rated_total_nil spec : Forall dim_wf (spec_dimensions spec) → rated_total spec [] = 0.
Proof.
  intros Hd. unfold rated_total. change (exact_total spec []) with (charge_sum [] (spec_dimensions spec)).
  rewrite (round_half_up_proper _ _ (charge_sum_nil _ Hd)). reflexivity.
Qed.

Lemma zero_micro_usd s b : micro_usd_to_base_units_ceil 0 s = Ok b → b = 0.
Proof.
  unfold micro_usd_to_base_units_ceil. intros H. inv_ok.
  match goal with H : ceil_div _ _ = Ok _ |- _ => apply ceil_div_Ok in H as [_ ->] end.
  rewrite Z.mul_0_l. reflexivity.
Qed.

Lemma rate_stream_sum spec s prev os o ds b :
  spec_wf spec → obs_wf prev → Forall obs_wf os → obs_wf o →
  micro_usd_to_base_units_ceil (rated_total spec prev) s = Ok b →
  rate_stream spec s prev (os ++ [o]) = Ok ds →
  micro_usd_to_base_units_ceil (rated_total spec o) s = Ok (b + zsum ds).
Proof.
  intros Hs Hp Hos Ho. revert prev b ds Hp.
  induction Hos as [|o1 os Ho1 Hos IH]; intros prev b ds Hp Hb; simpl; intros H;
    apply bind_Ok in H as (r & Hr & H); inv_ok.
  - apply rate_voucher_delta_Ok in Hr as (H1 & -> & ->); auto.
    assert (b = previous_base_units r) as -> by congruence.
    f_equal. rewrite zsum_cons. change (zsum []) with 0. lia.
  - apply rate_voucher_delta_Ok in Hr as (H1 & H2 & ->); auto.
    assert (b = previous_base_units r) as -> by congruence.
    match goal with H : rate_stream _ _ o1 _ = Ok _ |- _ => rewrite (IH o1 _ _ Ho1 H2 H) end.
    f_equal. rewrite zsum_cons. lia.
Qed.

(** Splitting a response into chunks never changes what it costs: the
    deltas charged along any stream of cumulative snapshots add up to the
    base units of the final snapshot's total, rounded once, however many
    snapshots were rated on the way. *)
Theorem stream_charges_telescope spec s os o ds :
  spec_wf spec → Forall obs_wf os → obs_wf o →
  rate_stream spec s [] (os ++ [o]) = Ok ds →
  micro_usd_to_base_units_ceil (rated_total spec o) s = Ok (zsum ds).
Proof.
  intros Hs Hos Ho Hds.
  assert (∃ r os' o1, rate_voucher_delta spec s [] o1 = Ok r ∧ obs_wf o1 ∧ os ++ [o] = o1 :: os')
    as (r & os' & o1 & Hr & Ho1 & E).
  { destruct os as [|o1 os]; simpl in Hds; apply bind_Ok in Hds as (r & Hr & _).
    - exists r, [], o. done.
    - exists r, (os ++ [o]), o1. by apply Forall_cons_1 in Hos as [? _]. }
  assert (Forall dim_wf (spec_dimensions spec)) as Hd.
  { unfold rate_voucher_delta, rate_observation in Hr. inv_ok.
    by eapply validate_spec_dims. }
  apply rate_voucher_delta_Ok in Hr as (Hb & _ & _); auto; [|by constructor].
  assert (previous_base_units r = 0) as E0.
  { rewrite rated_total_nil in Hb by done. by apply zero_micro_usd in Hb. }
  rewrite E0 in Hb. eapply (rate_stream_sum spec s [] os o ds 0) in Hds; auto.
  by constructor.
Qed.

(** The guards on differences of cumulative amounts are never hit: with
    non-negative prices and usage, rating a stream can be refused (missing
    or decreasing usage, overflow of a total), but never because a
    dimension's, a total's or a voucher's delta would be negative. *)
Theorem cumulative_deltas_never_underflow spec s prev cur e :
  spec_wf spec → obs_wf prev → obs_wf cur → 0 ≤ decimals s →
  rate_voucher_delta spec s prev cur = Err e → no_underflow e.
Proof.
  intros Hs Hp Hc Hdec. unfold rate_voucher_delta. intros H.
  apply bind_Err in H as [H|(u & Hu & H)]; [eauto using rate_observation_no_underflow|].
  assert (∀ x e', micro_usd_to_base_units_ceil x s = Err e' → no_underflow e') as Hmicro.
  { intros x e' Hx. unfold micro_usd_to_base_units_ceil in Hx.
    inv_err; first [done | by eapply ceil_div_no_underflow]. }
  apply bind_Err in H as [H|(p & Hpb & H)]; [by eapply Hmicro|].
  apply bind_Err in H as [H|(c & Hcb & H)]; [by eapply Hmicro|].
  exfalso. apply bind_Err in H as [H|(? & ? & H)]; [|done].
  apply ok_or_Err in H as [H _]. apply try_from_None in H. apply H. clear H Hmicro.
  apply rate_observation_totals in Hu as (Ep & Ec & Ed & Hd & _ & _); auto.
  unfold micro_usd_to_base_units_ceil in Hpb, Hcb. inv_ok.
  repeat match goal with H : ceil_div _ _ = Ok _ |- _ => apply ceil_div_Ok in H as [_ ->] end.
  assert (0 ≤ 10 ^ decimals s) by (apply Z.pow_nonneg; lia).
  assert (cdiv (previous_micro_usd u * 10 ^ decimals s) MICRO_USD_PER_USD ≤
          cdiv (current_micro_usd u * 10 ^ decimals s) MICRO_USD_PER_USD).
  { apply cdiv_mono; [reflexivity|]. apply Z.mul_le_mono_nonneg_r; lia. }
  unfold in_range in *. lia.
Qed.

(** Conversion to base units rounds up by less than one unit and is the
    identity for a six-decimal stablecoin. *)
Theorem base_unit_conversion_rounds_up amount s b :
  is_u64 amount → 0 ≤ decimals s →
  micro_usd_to_base_units_ceil amount s = Ok b →
  (b - 1) * MICRO_USD_PER_USD < amount * 10 ^ decimals s ≤ b * MICRO_USD_PER_USD ∧
  is_u64 b ∧ (decimals s = 6 → b = amount).
Proof.
  intros Ha Hdec. unfold micro_usd_to_base_units_ceil. intros H. inv_ok.
  match goal with H : ceil_div _ _ = Ok _ |- _ => apply ceil_div_Ok in H as [_ ->] end.
  pose proof (cdiv_bounds (amount * 10 ^ decimals s) MICRO_USD_PER_USD ltac:(reflexivity)) as Hb.
  split_and!; [lia..|done|]. intros E. rewrite E in *.
  change (10 ^ 6) with MICRO_USD_PER_USD in *. unfold MICRO_USD_PER_USD in *. lia.
Qed.

(** ** The gate *)

Lemma rate_dimension_same prev cur pt ct ls d pt' ct' ls' ls2 :
  rate_dimension prev cur (pt, ct, ls) d = Ok (pt', ct', ls') →
  ∃ ls2', rate_dimension cur cur (ct, ct, ls2) d = Ok (ct', ct', ls2').
Proof.
  intros (Hle & Hreq & _ & Hct & _ & c & Hc & Hu)%rate_dimension_Ok.
  unfold rate_dimension. 
  assert (match observed cur d with
    | Some v => Ok v
    | None => if sd_required d
        then Err (MissingRequiredObservation (sd_direction d) (sd_unit d)) else Ok 0
    end = Ok (observed_units cur d)) as ->.
  { unfold observed_units. destruct (observed cur d); [done|].
    destruct (sd_required d); [|done]. destruct (Hreq eq_refl) as [? [=]]. }
  simpl. rewrite Z.ltb_irrefl. simpl. rewrite Hc. simpl.
  unfold checked_sub. rewrite Z.sub_diag, try_from_in by (unfold in_range; lia). simpl.
  rewrite Hct. simpl. eauto.
Qed.

#[local] Arguments rate_dimension : simpl never.

Lemma rate_fold_same prev cur dims pt ct ls pt' ct' ls' ls2 :
  try_fold (rate_dimension prev cur) (pt, ct, ls) dims = Ok (pt', ct', ls') →
  ∃ ls2', try_fold (rate_dimension cur cur) (ct, ct, ls2) dims = Ok (ct', ct', ls2').
Proof.
  revert pt ct ls ls2. induction dims as [|d dims IH]; intros pt ct ls ls2; simpl.
  { intros [= -> -> ->]. eauto. }
  intros ([[pt1 ct1] ls1] & Hd & H)%bind_Ok.
  destruct (rate_dimension_same _ _ _ _ _ _ _ _ _ ls2 Hd) as [ls3 ->]. simpl. eauto.
Qed.

(** A snapshot that was rated once can be rated again against itself. *)
Lemma rate_voucher_delta_same spec s prev cur r :
  rate_voucher_delta spec s prev cur = Ok r →
  ∃ r', rate_voucher_delta spec s cur cur = Ok r'.
Proof.
  unfold rate_voucher_delta, rate_observation. intros H.
  apply bind_Ok in H as (u & Hu & H).
  apply bind_Ok in Hu as ([] & -> & Hu).
  apply bind_Ok in Hu as ([[pt ct] ls] & Hf & Hu).
  destruct (rate_fold_same _ _ _ _ _ _ _ _ _ [] Hf) as [ls2 Hf2].
  simpl. rewrite Hf2. simpl. clear Hf Hf2.
  apply bind_Ok in Hu as (p & _ & Hu). apply bind_Ok in Hu as (c & Hc & Hu).
  rewrite Hc. simpl. apply bind_Ok in Hu as (dl & _ & [= <-]). simpl in H.
  unfold checked_sub. rewrite Z.sub_diag, try_from_in by (unfold in_range; lia). simpl.
  apply bind_Ok in H as (p' & _ & H). apply bind_Ok in H as (c' & -> & H). simpl.
  rewrite Z.sub_diag, try_from_in by (unfold in_range; lia). simpl. eauto.
Qed.

(** What a successful observation returns. *)
Lemma gate_observe_Ok g cur mode g' d :
  gate_observe g cur mode = (g', Ok d) →
  ∃ rated total target,
    rate_voucher_delta (gate_spec g) (gate_settlement g) (last_observation g) cur = Ok rated ∧
    rate_voucher_delta (gate_spec g) (gate_settlement g) [] cur = Ok total ∧
    g' = with_last_observation g cur ∧
    target = baseline_base_units g + current_base_units total ∧ is_u64 target ∧
    d = gate_decide g' mode rated target.
Proof.
  unfold gate_observe. destruct (_ ≫= _) as [[rated total]|e] eqn:E; [|done].
  intros [= <- H]. inv_ok. naive_solver.
Qed.

(** Unpaid usage is bounded.  When the gate lets a stream continue, the
    cumulative value of the usage observed so far exceeds what the client
    has committed by less than the voucher threshold; at the end of the
    response it does not exceed it at all; and a voucher is demanded for
    exactly the missing amount otherwise. *)
Theorem gate_bounds_unpaid_usage g cur mode g' d :
  spec_wf (gate_spec g) → obs_wf cur →
  gate_observe g cur mode = (g', Ok d) →
  ∃ owed,
    micro_usd_to_base_units_ceil (rated_total (gate_spec g) cur) (gate_settlement g) = Ok owed ∧
    target_cumulative_base_units d = baseline_base_units g + owed ∧
    if requires_voucher d
    then outstanding_base_units d =
           target_cumulative_base_units d - committed_base_units g ∧ 0 < outstanding_base_units d
    else match mode with
         | Streaming => baseline_base_units g + owed <
                          committed_base_units g + Z.max (min_voucher_delta g) 1
         | Final => baseline_base_units g + owed ≤ committed_base_units g
         end.
Proof.
  intros Hs Ho (rated & total & target & _ & Ht & -> & -> & _ & ->)%gate_observe_Ok.
  apply rate_voucher_delta_Ok in Ht as (_ & Hc & _); auto; [|by constructor].
  eexists. split; [exact Hc|]. unfold gate_decide, saturating_sub. simpl.
  destruct (Z.eqb_spec (Z.max 0 (baseline_base_units g + current_base_units total
    - committed_base_units g)) 0); simpl.
  - split; [done|]. destruct mode; lia.
  - destruct mode; simpl; [|split; [done|lia]].
    destruct (Z.ltb_spec (Z.max 0 (baseline_base_units g + current_base_units total
      - committed_base_units g)) (Z.max (min_voucher_delta g) 1)); simpl; split; try done; lia.
Qed.

(** Paying unblocks: once the client commits the target the gate asked
    for, observing the same usage again, in either mode, succeeds and
    demands nothing. *)
Theorem committed_target_unblocks_gate g cur mode g' d mode' :
  gate_observe g cur mode = (g', Ok d) →
  ∃ g'' d', gate_observe (record_commit g' (target_cumulative_base_units d)) cur mode' = (g'', Ok d') ∧
    requires_voucher d' = false ∧ outstanding_base_units d' = 0 ∧
    target_cumulative_base_units d' = target_cumulative_base_units d.
Proof.
  intros (rated & total & target & Hr & Ht & -> & -> & Hu & ->)%gate_observe_Ok.
  destruct (rate_voucher_delta_same _ _ _ _ _ Hr) as [rated' Hr'].
  assert (target_cumulative_base_units (gate_decide (with_last_observation g cur) mode rated
    (baseline_base_units g + current_base_units total)) =
    baseline_base_units g + current_base_units total) as ->.
  { unfold gate_decide. by destruct (_ || _). }
  unfold gate_observe. simpl. rewrite Hr', Ht. simpl.
  unfold checked_add. rewrite try_from_in by done. simpl.
  do 2 eexists. split; [reflexivity|].
  unfold gate_decide, saturating_sub. simpl.
  replace (Z.max 0 _) with 0 by lia. simpl. done.
Qed.

(** ** Runs of the gate *)

Inductive gate_op := GateObserve (obs : UsageObservation) (mode : GateMode) | GateCommit (n : Z).

Definition gate_step (g : SessionUsageGate) (op : gate_op) : SessionUsageGate :=
  match op with
  | GateObserve obs mode => (gate_observe g obs mode).1
  | GateCommit n => record_commit g n
  end.

Definition commits (ops : list gate_op) : list Z :=
  omap (λ op, match op with GateCommit n => Some n | GateObserve _ _ => None end) ops.

Lemma gate_observe_fields g obs mode :
  let g' := (gate_observe g obs mode).1 in
  gate_spec g' = gate_spec g ∧ gate_settlement g' = gate_settlement g ∧
  baseline_base_units g' = baseline_base_units g ∧
  committed_base_units g' = committed_base_units g ∧
  min_voucher_delta g' = min_voucher_delta g.
Proof. unfold gate_observe. destruct (_ ≫= _) as [[? ?]|?]; simpl; done. Qed.

(** However observations (failed ones included) and commits interleave,
    the committed watermark of a fresh gate is the largest voucher recorded,
    never below the baseline, and the prices and baseline never change. *)
Theorem gate_watermark_is_largest_commit spec s baseline min_delta g ops :
  gate_new spec s baseline min_delta = Ok g →
  let g' := foldl gate_step g ops in
  committed_base_units g' = foldl Z.max baseline (commits ops) ∧
  baseline ≤ committed_base_units g' ∧
  gate_spec g' = spec ∧ gate_settlement g' = s ∧ baseline_base_units g' = baseline.
Proof.
  unfold gate_new. intros H. inv_ok. cbv zeta.
  induction ops as [|op ops IH] using rev_ind; [split_and!; simpl; done || lia|].
  rewrite foldl_snoc. unfold commits in *. rewrite omap_app, foldl_app.
  destruct IH as (IH1 & IH2 & IH3 & IH4 & IH5). destruct op as [obs mode|n]; simpl.
  - pose proof (gate_observe_fields (foldl gate_step {| gate_spec := spec; gate_settlement := s;
      baseline_base_units := baseline; committed_base_units := baseline;
      min_voucher_delta := min_delta; last_observation := [] |} ops) obs mode) as Hf.
    simpl in Hf. destruct Hf as (-> & -> & -> & -> & _). done.
  - rewrite IH1. split_and!; try done; lia.
Qed.

(** ** Witnesses: a two-model token price with a per-request fee *)

Definition sample_spec : SessionMeterSpec := {| spec_dimensions := [
  required_dimension Input Tokens 1000000 300000;
  required_dimension Output Tokens 1000000 2500000;
  optional_dimension Usage Requests 1 1000 ] |}.
Definition snapshot (input output requests : Z) : UsageObservation :=
  observation_set (observation_set (observation_set [] Input Tokens input)
    Output Tokens output) Usage Requests requests.
Definition snap1 : UsageObservation := snapshot 1234 7 1.
Definition snap2 : UsageObservation := snapshot 1234 901 1.

Lemma sample_spec_wf : spec_wf sample_spec.
Proof. repeat constructor; simpl; lia. Qed.
Lemma snap1_wf : obs_wf snap1.
Proof. repeat constructor; simpl; lia. Qed.
Lemma snap2_wf : obs_wf snap2.
Proof. repeat constructor; simpl; lia. Qed.

Lemma cumulative_rating_rounds_once_witness :
  ∃ r, rate_observation sample_spec snap1 snap2 = Ok r ∧
    current_micro_usd r = 3623 ∧
    current_micro_usd r = round_half_up (exact_total sample_spec snap2).
Proof.
  eexists. split; [vm_compute; reflexivity|]. split; [reflexivity|].
  refine (proj1 (cumulative_rating_rounds_once sample_spec snap1 snap2 _
    sample_spec_wf snap1_wf snap2_wf _)).
  vm_compute. reflexivity.
Defined.

Lemma stream_charges_telescope_witness :
  rate_stream sample_spec usdc [] [snap1; snap1; snap2] = Ok [1388; 0; 2235] ∧
  micro_usd_to_base_units_ceil (rated_total sample_spec snap2) usdc = Ok (zsum [1388; 0; 2235]).
Proof.
  split; [vm_compute; reflexivity|].
  apply (stream_charges_telescope sample_spec usdc [snap1; snap1] snap2).
  - exact sample_spec_wf.
  - repeat constructor; simpl; lia.
  - exact snap2_wf.
  - vm_compute. reflexivity.
Defined.

Lemma cumulative_deltas_never_underflow_witness :
  no_underflow (NonMonotonicUsage Output Tokens 901 7).
Proof.
  apply (cumulative_deltas_never_underflow sample_spec usdc snap2 snap1).
  - exact sample_spec_wf.
  - exact snap2_wf.
  - exact snap1_wf.
  - simpl. lia.
  - vm_compute. reflexivity.
Defined.

Lemma base_unit_conversion_rounds_up_witness :
  (1 - 1) * MICRO_USD_PER_USD < 1500 * 10 ^ 2 ≤ 1 * MICRO_USD_PER_USD ∧
  is_u64 1 ∧ (2 = 6 → 1 = 1500).
Proof.
  apply (base_unit_conversion_rounds_up 1500 {| decimals := 2 |} 1).
  - unfold in_range. lia.
  - simpl. lia.
  - vm_compute. reflexivity.
Defined.

Definition sample_gate : SessionUsageGate := {|
  gate_spec := sample_spec; gate_settlement := usdc; baseline_base_units := 500;
  committed_base_units := 500; min_voucher_delta := 2000; last_observation := [] |}.

Lemma gate_bounds_unpaid_usage_witness :
  ∃ d, (gate_observe sample_gate snap1 Streaming).2 = Ok d ∧ requires_voucher d = false ∧
    ∃ owed, micro_usd_to_base_units_ceil (rated_total sample_spec snap1) usdc = Ok owed ∧
      target_cumulative_base_units d = 500 + owed ∧ 500 + owed < 500 + Z.max 2000 1.
Proof.
  eexists. split; [vm_compute; reflexivity|]. split; [reflexivity|].
  match goal with |- context [target_cumulative_base_units ?d] =>
    apply (gate_bounds_unpaid_usage sample_gate snap1 Streaming
      (with_last_observation sample_gate snap1) d sample_spec_wf snap1_wf) end.
  vm_compute. reflexivity.
Defined.

Lemma committed_target_unblocks_gate_witness :
  ∃ d, (gate_observe sample_gate snap2 Streaming).2 = Ok d ∧ requires_voucher d = true ∧
    ∃ g'' d', gate_observe (record_commit (with_last_observation sample_gate snap2)
        (target_cumulative_base_units d)) snap2 Final = (g'', Ok d') ∧
      requires_voucher d' = false ∧ outstanding_base_units d' = 0 ∧
      target_cumulative_base_units d' = target_cumulative_base_units d.
Proof.
  eexists. split; [vm_compute; reflexivity|]. split; [reflexivity|].
  match goal with |- context [target_cumulative_base_units ?d] =>
    apply (committed_target_unblocks_gate sample_gate snap2 Streaming
      (with_last_observation sample_gate snap2) d Final) end.
  vm_compute. reflexivity.
Defined.

Lemma gate_watermark_is_largest_commit_witness :
  committed_base_units (foldl gate_step sample_gate
    [GateObserve snap1 Streaming; GateCommit 900; GateObserve [] Final; GateCommit 700]) = 900.
Proof.
  rewrite (proj1 (gate_watermark_is_largest_commit sample_spec usdc 500 2000 sample_gate
    [GateObserve snap1 Streaming; GateCommit 900; GateObserve [] Final; GateCommit 700]
    eq_refl)).
  reflexivity.
Defined.
