(* ===== verification/Landing.v ===== *)
(** * Landing: whether a signed transaction can still land,
    [types/src/landing.rs]

    [confirm_not_landed] reads the finalized tip and then the signature
    statuses; the chain moves on between the two reads, so the model takes
    the chain as seen at each of the two instants.  The safety theorem is
    stated against an explicit fork-aware account of what the two reads
    mean. *)
From S2P Require Import Prelude F64.

(** ** JSON values, as [serde_json::Value] *)
Inductive json :=
  | JNull
  | JBool (b : bool)
  | JNum (n : Z)
  | JFloat (x : f64)
  | JStr (s : string)
  | JArr (l : list json)
  | JObj (fields : list (string * json)).

(** [Value::get] with a string index. *)
Definition json_get (v : json) (key : string) : option json :=
  match v with
  | JObj fields => snd <$> find (λ kv, bool_decide (kv.1 = key)) fields
  | _ => None
  end.
Definition json_str (v : json) : option string :=
  match v with JStr s => Some s | _ => None end.
Definition json_is_null (v : json) : bool := match v with JNull => true | _ => false end.

(** ** Data *)

Record ChainTip := { tip_slot : Z; tip_block_height : Z }.

Inductive SignatureStatus := Absent | Failed (finalized : bool) | Processed | StatusConfirmed.

Record SignatureStatuses := { context_slot : Z; statuses : list SignatureStatus }.

Record RecordedPayout := {
  payout_signature : string;
  last_valid_block_height : option Z
}.

Inductive ReplaceReason := ReplaceFailed | ReplaceExpired.
Record Replaceable := { replace_reason : ReplaceReason }.

Inductive Landing :=
  | LandingConfirmed
  | MayLand
  | LandingUnknown
  | LandingReplaceable (proof : Replaceable).

(** The [ChainState] trait, over a chain as seen at one instant. *)
Class ChainState (C E : Type) := {
  finalized_tip : C → result E ChainTip;
  signature_statuses : C → list string → result E SignatureStatuses
}.

(** ** Classification *)

Definition classify (tip : ChainTip) (payout : RecordedPayout) (status : SignatureStatus) : Landing :=
  let expired :=
    match last_valid_block_height payout with
    | Some last_valid => last_valid <? tip_block_height tip
    | None => false
    end in
  match status with
  | StatusConfirmed => LandingConfirmed
  | Failed finalized =>
      if finalized || expired then LandingReplaceable {| replace_reason := ReplaceFailed |}
      else MayLand
  | Absent =>
      if expired then LandingReplaceable {| replace_reason := ReplaceExpired |} else MayLand
  | Processed => MayLand
  end.

Definition confirm_not_landed {C E} `{ChainState C E} (at_tip at_statuses : C)
    (payouts : list RecordedPayout) : result E (list Landing) :=
  match payouts with
  | [] => Ok []
  | _ =>
      tip ← finalized_tip at_tip;
      obs ← signature_statuses at_statuses (map payout_signature payouts);
      if (context_slot obs <? tip_slot tip) || negb (length (statuses obs) =? length payouts)%nat
      then Ok (replicate (length payouts) LandingUnknown)
      else Ok (zip_with (classify tip) payouts (statuses obs))
  end.

Definition signature_status_from_rpc (entry : json) : SignatureStatus :=
  if json_is_null entry then Absent
  else
    let commitment := json_get entry "confirmationStatus" ≫= json_str in
    if match json_get entry "err" with Some err => negb (json_is_null err) | None => false end
    then Failed (bool_decide (commitment = Some "finalized"%string))
    else if bool_decide (commitment = Some "confirmed"%string ∨ commitment = Some "finalized"%string)
    then StatusConfirmed
    else Processed.

(** ** What the chain reads mean

    A ledger is the set of canonical (eventually finalized) blocks; a node
    answers a status lookup from the bank at the end of some fork.  The
    fields are Solana's documented behaviour: a transaction lands only while
    its blockhash is valid and at most once per fork; a finalized block is
    canonical; and a bank at or past a slot that was already finalized
    descends from the block finalized there. *)
Record block := {
  blk_slot : Z;
  blk_height : Z;
  blk_txs : list (string * bool)  (* signature, executed without error *)
}.

Class Ledger := {
  canonical : block → Prop;
  valid_until : string → Z;
  canonical_once : ∀ b b' sig ok ok',
    canonical b → canonical b' → (sig, ok) ∈ blk_txs b → (sig, ok') ∈ blk_txs b' → ok = ok'
}.

(** The bank a status answer was computed from: the blocks of its fork. *)
Definition bank := list block.

Definition in_bank (k : bank) (sig : string) (ok : bool) : Prop :=
  ∃ b, b ∈ k ∧ (sig, ok) ∈ blk_txs b.

Record status_reflects `{Ledger} (k : bank) (sig : string) (st : SignatureStatus) : Prop := {
  reflects_absent : st = Absent → ∀ ok, ¬ in_bank k sig ok;
  reflects_failed : ∀ fin, st = Failed fin → in_bank k sig false;
  reflects_final : st = Failed true → ∃ b, b ∈ k ∧ canonical b ∧ (sig, false) ∈ blk_txs b
}.

(** The tip read at [at_tip] and the statuses read at [at_statuses] are
    honest reads of one chain.  A lookup may be answered in several requests,
    so each status has a bank of its own; the context slot reported for the
    lookup bounds all of them. *)
Record honest_reads `{Ledger} {C E} `{ChainState C E} (at_tip at_statuses : C) : Prop := {
  honest_validity : ∀ b sig ok, canonical b → (sig, ok) ∈ blk_txs b → blk_height b ≤ valid_until sig;
  honest_bank : ∀ tip sigs obs i sig st,
    finalized_tip at_tip = Ok tip →
    signature_statuses at_statuses sigs = Ok obs →
    sigs !! i = Some sig → statuses obs !! i = Some st →
    ∃ k : bank,
      status_reflects k sig st ∧
      (∀ b sig ok, b ∈ k → (sig, ok) ∈ blk_txs b → blk_height b ≤ valid_until sig) ∧
      (tip_slot tip ≤ context_slot obs →
        ∀ b, blk_height b ≤ tip_block_height tip → (b ∈ k ↔ canonical b))
}.

(** The payout can never take effect: no canonical block executes it. *)
Definition never_lands `{Ledger} (sig : string) : Prop :=
  ∀ b, canonical b → (sig, true) ∉ blk_txs b.

Section safety.
Context `{Ledger} {C E : Type} `{ChainState C E} (at_tip at_statuses : C).
Hypothesis honest : honest_reads at_tip at_statuses.

Lemma classify_replaceable_expired tip p st proof :
  classify tip p st = LandingReplaceable proof →
  (∃ fin, st = Failed fin ∧
     (fin = true ∨ ∃ lv, last_valid_block_height p = Some lv ∧ lv < tip_block_height tip)) ∨
  (st = Absent ∧ ∃ lv, last_valid_block_height p = Some lv ∧ lv < tip_block_height tip).
Proof.
  unfold classify. destruct st as [|fin| |]; try done;
    destruct (last_valid_block_height p) as [lv|]; try destruct (Z.ltb_spec lv (tip_block_height tip));
    try destruct fin; simpl; naive_solver.
Qed.

Lemma confirm_not_landed_inv payouts ls i p proof :
  confirm_not_landed at_tip at_statuses payouts = Ok ls →
  payouts !! i = Some p → ls !! i = Some (LandingReplaceable proof) →
  ∃ tip obs st, finalized_tip at_tip = Ok tip ∧
    signature_statuses at_statuses (map payout_signature payouts) = Ok obs ∧
    tip_slot tip ≤ context_slot obs ∧ statuses obs !! i = Some st ∧
    classify tip p st = LandingReplaceable proof.
Proof.
  unfold confirm_not_landed. destruct payouts as [|p0 ps]; [done|].
  generalize (p0 :: ps). clear p0 ps. intros payouts Hls Hp Hl.
  apply bind_Ok in Hls as (tip & Htip & Hls).
  apply bind_Ok in Hls as (obs & Hobs & Hls).
  destruct (_ || _) eqn:Hguard; inv_ok.
  { apply lookup_replicate in Hl as [? _]. done. }
  prop_bools. apply Z.ltb_ge in H1.
  apply lookup_zip_with_Some in Hl as (p' & st & Hcl & Hp' & Hst). simplify_eq.
  eauto 10.
Qed.
End safety.

Lemma replaceable_cannot_land `{Ledger} {C E} `{ChainState C E} (at_tip at_statuses : C)
    payouts ls i p proof :
  honest_reads at_tip at_statuses →
  confirm_not_landed at_tip at_statuses payouts = Ok ls →
  payouts !! i = Some p → ls !! i = Some (LandingReplaceable proof) →
  (∀ lv, last_valid_block_height p = Some lv → valid_until (payout_signature p) ≤ lv) →
  never_lands (payout_signature p).
Proof.
  intros [Hvalid Hbank] Hls Hp Hl Hexp.
  destruct (confirm_not_landed_inv _ _ _ _ _ _ _ Hls Hp Hl)
    as (tip & obs & st & Htip & Hobs & Hslot & Hst & Hcl).
  assert (map payout_signature payouts !! i = Some (payout_signature p)) as Hsig
    by (by rewrite list_lookup_fmap, Hp).
  destruct (Hbank _ _ _ _ _ _ Htip Hobs Hsig Hst) as (k & [Habs Hfail Hfin] & Hkvalid & Hrooted).
  intros b Hb Hin.
  apply classify_replaceable_expired in Hcl as [(fin & -> & Hcase)|(-> & lv & Hlv & Hlt)].
  - destruct Hcase as [->|(lv & Hlv & Hlt)].
    + destruct (Hfin eq_refl) as (b' & _ & Hb' & Hin').
      pose proof (canonical_once _ _ _ _ _ Hb Hb' Hin Hin'). done.
    + destruct (Hfail fin eq_refl) as (b' & Hk & Hin').
      specialize (Hexp lv Hlv). pose proof (Hkvalid _ _ _ Hk Hin').
      apply Hrooted in Hk; [|done|lia].
      pose proof (canonical_once _ _ _ _ _ Hb Hk Hin Hin'). done.
  - specialize (Hexp lv Hlv). pose proof (Hvalid _ _ _ Hb Hin).
    apply (Habs eq_refl true). exists b. split; [|done]. apply Hrooted; [done|lia|done].
Qed.

(** C25. A payout [confirm_not_landed] declares replaceable can never take
    effect: when the recorded expiry is the blockhash's, no canonical block,
    past or future, executes the transaction, so paying the rows again
    cannot pay them twice. *)
Theorem replaceable_never_lands `{Ledger} {C E} `{ChainState C E} (at_tip at_statuses : C)
    payouts ls i p proof :
  honest_reads at_tip at_statuses →
  confirm_not_landed at_tip at_statuses payouts = Ok ls →
  payouts !! i = Some p → ls !! i = Some (LandingReplaceable proof) →
  (∀ lv, last_valid_block_height p = Some lv → valid_until (payout_signature p) ≤ lv) →
  never_lands (payout_signature p).
Proof. apply replaceable_cannot_land. Qed.

(** ** A concrete chain *)

Definition genesis : block := {| blk_slot := 1; blk_height := 1; blk_txs := [] |}.
Definition paid_block : block :=
  {| blk_slot := 10; blk_height := 9; blk_txs := [("sigA"%string, true)] |}.
Definition late_block : block := {| blk_slot := 22; blk_height := 20; blk_txs := [] |}.
Definition sample_ledger : list block := [genesis; paid_block; late_block].

Lemma sample_ledger_txs b sig ok :
  b ∈ sample_ledger → (sig, ok) ∈ blk_txs b →
  b = paid_block ∧ sig = "sigA"%string ∧ ok = true.
Proof.
  intros [->|[->|[->|[]%elem_of_nil]%elem_of_cons]%elem_of_cons]%elem_of_cons; simpl;
    try by intros []%elem_of_nil.
  intros [= -> ->]%list_elem_of_singleton. done.
Qed.

#[global] Instance sample_Ledger : Ledger.
Proof.
  refine {| canonical := λ b, b ∈ sample_ledger; valid_until := λ _, 15 |}.
  intros b b' sig ok ok' Hb Hb' Hin Hin'.
  destruct (sample_ledger_txs _ _ _ Hb Hin) as (_ & _ & ->).
  by destruct (sample_ledger_txs _ _ _ Hb' Hin') as (_ & _ & ->).
Defined.

(** A node that answers from the whole ledger. *)
#[global] Instance sample_chain : ChainState unit string := {|
  finalized_tip := λ _, Ok {| tip_slot := 22; tip_block_height := 20 |};
  signature_statuses := λ _ sigs, Ok {| context_slot := 22;
    statuses := map (λ s, if bool_decide (s = "sigA"%string) then StatusConfirmed else Absent) sigs |}
|}.

Lemma sample_bank_valid b sig ok :
  b ∈ sample_ledger → (sig, ok) ∈ blk_txs b → blk_height b ≤ valid_until sig.
Proof. intros Hb Hin. destruct (sample_ledger_txs _ _ _ Hb Hin) as (-> & _). simpl. lia. Qed.

Lemma sample_reflects sig :
  status_reflects sample_ledger sig (if bool_decide (sig = "sigA"%string) then StatusConfirmed else Absent).
Proof.
  case_bool_decide; split; try done.
  intros _ ok (b & Hb & Hin). by destruct (sample_ledger_txs _ _ _ Hb Hin) as (_ & ? & _).
Qed.

Lemma sample_honest : honest_reads (C := unit) (E := string) tt tt.
Proof.
  split; [exact sample_bank_valid|].
  intros tip sigs obs i sig st [= <-] [= <-] Hi Hst. exists sample_ledger. split_and!; [|exact sample_bank_valid|done].
  simpl in Hst. rewrite list_lookup_fmap, Hi in Hst. injection Hst as <-. apply sample_reflects.
Qed.

Lemma replaceable_never_lands_witness : never_lands "sigB".
Proof.
  apply (replaceable_never_lands (C := unit) (E := string) tt tt
    [ {| payout_signature := "sigA"; last_valid_block_height := Some 15 |};
      {| payout_signature := "sigB"; last_valid_block_height := Some 15 |} ]
    [LandingConfirmed; LandingReplaceable {| replace_reason := ReplaceExpired |}] 1
    {| payout_signature := "sigB"; last_valid_block_height := Some 15 |}
    {| replace_reason := ReplaceExpired |}).
  - exact sample_honest.
  - vm_compute. reflexivity.
  - reflexivity.
  - reflexivity.
  - intros lv [= <-]. simpl. lia.
Defined.
