(* ===== verification/PushManifest.v ===== *)
(** * PushManifest: amounts and the canonical payout manifest

    [core/src/client/send.rs] (token amounts) and
    [core/src/client/push/manifest.rs] (the CSV manifest every payout run is
    bound to), with the crate's error type of [core/src/error.rs].  The CSV
    reader, base58 decoding and BLAKE3 are parameters. *)
From S2P Require Import Prelude Text Affixes.
#[local] Open Scope string_scope.
#[local] Open Scope list_scope.
#[local] Open Scope Z_scope.

(** [core/src/error.rs]; the wrapped I/O and JSON errors are kept as text. *)
Inductive Error :=
  | Io (text : string)
  | CommandNotFound (cmd : string)
  | InvalidChallenge (text : string)
  | Json (text : string)
  | Config (text : string)
  | Mpp (text : string)
  | PaymentRejected (text : string)
  | RequestValidation (text : string).
#[global] Instance Error_eq_dec : EqDecision Error.
Proof. solve_decision. Defined.

(** The derived [Display]. *)
Definition error_text (e : Error) : string :=
  match e with
  | Io t => "I/O error: " +:+ t
  | CommandNotFound c => "Command not found: " +:+ c +:+ ". Is it installed?"
  | InvalidChallenge t => "Failed to parse 402 challenge from response: " +:+ t
  | Json t => "JSON serialization error: " +:+ t
  | Config t => "Configuration error: " +:+ t
  | Mpp t => "MPP payment error: " +:+ t
  | PaymentRejected t => "Payment rejected: " +:+ t
  | RequestValidation t => "Request validation error: " +:+ t
  end.

Abbreviation res := (result Error).

(** 32-byte public keys, as their bytes. *)
Abbreviation Pubkey := (list Z).

(** ** Token amounts *)

(** [for (index, byte) in fraction.bytes().enumerate()]. *)
Fixpoint fraction_units (decimals : Z) (index : Z) (bytes : list Z) (acc : Z) : res Z :=
  match bytes with
  | [] => Ok acc
  | byte :: bytes =>
      let digit := byte - 48 in
      let place := 10 ^ (decimals - index - 1) in
      acc' ← ok_or (checked_add 64 acc (digit * place)) (Config "Amount is too large");
      fraction_units decimals (index + 1) bytes acc'
  end.

Definition parse_token_amount (text : string) (decimals : Z) : res Z :=
  _ ← reject_if (18 <? decimals) (Config "Token decimals too large");
  let s := trim text in
  _ ← reject_if (bool_decide (s = "")) (Config "Amount must not be empty");
  _ ← reject_if (String.prefix "-" s) (Config "Amount must be positive");
  let invalid := Config ("Invalid amount: " +:+ s +:+ " (max " +:+ show decimals +:+ " decimal places)") in
  let parts := split_on (Ascii.ascii_of_nat 46) s in
  let whole := default "" (parts !! 0%nat) in
  let fraction := default "" (parts !! 1%nat) in
  _ ← reject_if
        (match parts !! 2%nat with Some _ => true | None => false end
         || bool_decide (whole = "")
         || negb (forallb is_ascii_digit (str_bytes whole))
         || negb (forallb is_ascii_digit (str_bytes fraction))
         || (decimals <? Z.of_nat (String.length fraction)))
        invalid;
  let scale := 10 ^ decimals in
  w ← ok_or (parse_u64_digits whole) (Config ("Invalid amount: " +:+ s));
  whole_units ← ok_or (checked_mul 64 w scale) (Config "Amount is too large");
  frac ← fraction_units decimals 0 (str_bytes fraction) 0;
  ok_or (checked_add 64 whole_units frac) (Config "Amount is too large").

(** Left-pad with zeros to [width] digits, as [{:0width$}] does. *)
Definition pad_zeros (width : nat) (l : list Z) : list Z :=
  replicate (width - length l) 0 ++ l.

(** [while fraction.ends_with('0') { fraction.pop(); }]. *)
Fixpoint drop_zeros (l : list Z) : list Z :=
  match l with 0 :: l => drop_zeros l | _ => l end.
Definition strip_trailing_zeros (l : list Z) : list Z := reverse (drop_zeros (reverse l)).

Definition format_token_amount (raw decimals : Z) : string :=
  if decimals =? 0 then show raw
  else
    let scale := wrapping 64 (10 ^ decimals) in
    let whole := raw / scale in
    let fraction := raw mod scale in
    if fraction =? 0 then show whole
    else show whole +:+ "." +:+
         string_of_digits (strip_trailing_zeros (pad_zeros (Z.to_nat decimals) (digits fraction))).

(** *** Round trip of the amounts *)

Lemma fraction_units_val decimals ds : ∀ index acc,
  Forall is_digit ds → 0 ≤ index → index + zlen ds ≤ decimals → 0 ≤ acc →
  acc + digits_val ds * 10 ^ (decimals - index - zlen ds) < 2 ^ 64 →
  fraction_units decimals index (map (λ d, 48 + d) ds) acc =
  Ok (acc + digits_val ds * 10 ^ (decimals - index - zlen ds)).
Proof.
  induction ds as [|d ds IH]; intros index acc Hd Hi Hlen Hacc Hfit.
  { change (digits_val []) with 0. simpl. f_equal. lia. }
  apply Forall_cons_1 in Hd as [[Hd0 Hd9] Hds].
  pose proof (digits_val_bound _ Hds) as Hv. rewrite digits_val_cons in *.
  unfold zlen in *. cbn [length map fraction_units] in *. rewrite Nat2Z.inj_succ in *.
  pose proof (Z.pow_pos_nonneg 10 (decimals - index - Z.succ (Z.of_nat (length ds)))) as Hp.
  assert (10 ^ Z.of_nat (length ds) * 10 ^ (decimals - index - Z.succ (Z.of_nat (length ds))) =
          10 ^ (decimals - index - 1)) as E.
  { rewrite <- Z.pow_add_r by lia. f_equal. lia. }
  replace (48 + d - 48) with d by lia.
  specialize (IH (index + 1) (acc + d * 10 ^ (decimals - index - 1)) Hds).
  replace (decimals - (index + 1) - Z.of_nat (length ds))
    with (decimals - index - Z.succ (Z.of_nat (length ds))) in IH by lia.
  rewrite checked_add_in by (split; nia).
  cbn [ok_or]. rewrite bind_ok_simpl, IH by nia. f_equal. nia.
Qed.

Lemma drop_zeros_spec l : ∃ n, l = replicate n 0 ++ drop_zeros l.
Proof.
  induction l as [|d l [n IH]]; [by exists 0%nat|].
  destruct (decide (d = 0)) as [->|Hd].
  - exists (S n). cbn [drop_zeros replicate app]. by rewrite <- IH.
  - exists 0%nat. by destruct d.
Qed.

Lemma strip_trailing_zeros_spec l : ∃ n, l = strip_trailing_zeros l ++ replicate n 0.
Proof.
  destruct (drop_zeros_spec (reverse l)) as [n E]. exists n. unfold strip_trailing_zeros.
  rewrite <- (reverse_involutive l) at 1. by rewrite E, reverse_app, reverse_replicate at 1.
Qed.

(** Splitting the printed forms back. *)
(** What the printed amount parses to, once trimmed and split. *)
Lemma parse_split_amount text decimals ds fs :
  0 ≤ decimals ≤ 18 → Forall is_digit ds → ds ≠ [] → Forall is_digit fs → zlen fs ≤ decimals →
  trim text = text → head (str_bytes text) = Some (48 + default 0 (head ds)) →
  split_on (Ascii.ascii_of_nat 46) text =
    string_of_digits ds :: (if bool_decide (fs = []) then [] else [string_of_digits fs]) →
  digits_val ds * 10 ^ decimals + digits_val fs * 10 ^ (decimals - zlen fs) < 2 ^ 64 →
  parse_token_amount text decimals =
  Ok (digits_val ds * 10 ^ decimals + digits_val fs * 10 ^ (decimals - zlen fs)).
Proof.
  intros Hdec Hds Hne Hfs Hlen Htrim Hhead Hsplit Hfit. unfold parse_token_amount.
  rewrite Htrim, Hsplit. destruct (Z.ltb_spec 18 decimals); [lia|].
  assert (text ≠ "") as Htext by (by intros ->).
  assert (String.prefix "-" text = false) as ->.
  { destruct text as [|c text]; [done|]. destruct ds as [|d ds]; [done|].
    injection Hhead as Hhead. apply Forall_cons_1 in Hds as [[] _]. cbn [String.prefix].
    match goal with |- context [Ascii.ascii_dec ?a ?b] => destruct (Ascii.ascii_dec a b) as [<-|] end;
      [|done]. assert (45 = 48 + d) by exact Hhead. lia. }
  rewrite (bool_decide_eq_false_2 _ Htext). cbn [reject_if]. rewrite !bind_ok_simpl.
  match goal with |- context [?l !! 2%nat] => set (parts := l) end.
  assert (parts !! 2%nat = None) as -> by (unfold parts; by case_bool_decide).
  assert (default "" (parts !! 0%nat) = string_of_digits ds) as -> by done.
  assert (default "" (parts !! 1%nat) = string_of_digits fs) as ->.
  { unfold parts. case_bool_decide; [by subst|done]. }
  rewrite !str_bytes_digits_ascii, length_string_of_digits by done.
  assert (string_of_digits ds ≠ "") as Hw by (by destruct ds).
  rewrite (bool_decide_eq_false_2 _ Hw). cbn [negb orb].
  destruct (Z.ltb_spec decimals (Z.of_nat (length fs))); [unfold zlen in *; lia|].
  cbn [reject_if]. rewrite bind_ok_simpl.
  pose proof (digits_val_bound _ Hds). pose proof (digits_val_bound _ Hfs).
  pose proof (Z.pow_pos_nonneg 10 decimals). pose proof (Z.pow_pos_nonneg 10 (decimals - zlen fs)).
  assert (parse_u64_digits (string_of_digits ds) = Some (digits_val ds)) as ->.
  { unfold parse_u64_digits. rewrite str_bytes_digits_val by done.
    destruct (string_of_digits ds); [done|]. apply try_from_in. split; [lia|nia]. }
  cbn [ok_or]. rewrite bind_ok_simpl, checked_mul_in by (split; nia).
  cbn [ok_or]. rewrite bind_ok_simpl, str_bytes_digits, fraction_units_val
    by (try done; rewrite ?Z.sub_0_r; nia).
  rewrite Z.sub_0_r, bind_ok_simpl, Z.add_0_l, checked_add_in by (split; nia). done.
Qed.

Lemma parse_whole_amount ds decimals :
  0 ≤ decimals ≤ 18 → Forall is_digit ds → ds ≠ [] → digits_val ds * 10 ^ decimals < 2 ^ 64 →
  parse_token_amount (string_of_digits ds) decimals = Ok (digits_val ds * 10 ^ decimals).
Proof.
  intros Hdec Hds Hne Hfit. erewrite (parse_split_amount _ decimals ds []); try done.
  - change (digits_val []) with 0. f_equal. lia.
  - change (zlen []) with 0. lia.
  - apply trim_plain, digits_plain, Hds.
  - rewrite str_bytes_digits by done. by destruct ds.
  - apply split_on_none. intros b. by apply digits_no_dot.
  - change (digits_val []) with 0. lia.
Qed.

Lemma parse_decimal_amount ds fs decimals :
  0 ≤ decimals ≤ 18 → Forall is_digit ds → ds ≠ [] → Forall is_digit fs → fs ≠ [] →
  zlen fs ≤ decimals →
  digits_val ds * 10 ^ decimals + digits_val fs * 10 ^ (decimals - zlen fs) < 2 ^ 64 →
  parse_token_amount (string_of_digits ds +:+ "." +:+ string_of_digits fs) decimals =
  Ok (digits_val ds * 10 ^ decimals + digits_val fs * 10 ^ (decimals - zlen fs)).
Proof.
  intros Hdec Hds Hne Hfs Hfne Hlen Hfit. apply parse_split_amount; try done.
  - apply trim_plain. rewrite !str_bytes_app. rewrite !Forall_app.
    split_and!; [by apply digits_plain|repeat constructor|by apply digits_plain].
  - rewrite !str_bytes_app, str_bytes_digits by done. by destruct ds.
  - change ("." +:+ string_of_digits fs) with (String (Ascii.ascii_of_nat 46) (string_of_digits fs)).
    rewrite split_on_app by (intros b; by apply digits_no_dot).
    rewrite split_on_none by (intros b; by apply digits_no_dot).
    by rewrite bool_decide_eq_false_2.
Qed.

(** The fraction [format_token_amount] prints denotes the fraction. *)
Lemma printed_fraction decimals fraction :
  0 < decimals → 0 < fraction < 10 ^ decimals →
  let fs := strip_trailing_zeros (pad_zeros (Z.to_nat decimals) (digits fraction)) in
  Forall is_digit fs ∧ fs ≠ [] ∧ zlen fs ≤ decimals ∧
  digits_val fs * 10 ^ (decimals - zlen fs) = fraction.
Proof.
  intros Hdec Hfrac fs. destruct (digits_spec fraction) as (Hd & _ & Hv); [lia|].
  pose proof (length_digits fraction (Z.to_nat decimals)) as Hlen.
  rewrite Z2Nat.id in Hlen by lia. specialize (Hlen Hfrac).
  destruct (strip_trailing_zeros_spec (pad_zeros (Z.to_nat decimals) (digits fraction))) as [n E].
  fold fs in E.
  assert (Forall is_digit (fs ++ replicate n 0)) as [Hfs _]%Forall_app.
  { rewrite <- E. unfold pad_zeros. apply Forall_app; split; [|done].
    apply Forall_replicate. unfold is_digit. lia. }
  assert (length fs + n = Z.to_nat decimals)%nat as Hl.
  { rewrite <- (length_replicate n 0), <- length_app, <- E. unfold pad_zeros.
    rewrite length_app, length_replicate. lia. }
  assert (digits_val fs * 10 ^ Z.of_nat n = fraction) as Hval.
  { rewrite <- Hv at 1. pose proof (digits_val_app fs (replicate n 0)) as Happ.
    rewrite <- E, digits_val_zeros in Happ. unfold pad_zeros in Happ.
    rewrite digits_val_app, digits_val_zeros in Happ. unfold zlen in Happ.
    rewrite length_replicate in Happ. lia. }
  unfold zlen. split_and!; [done| |lia|].
  - intros ->. change (digits_val []) with 0 in Hval. lia.
  - by replace (decimals - Z.of_nat (length fs)) with (Z.of_nat n) by lia.
Qed.

(** Every raw amount printed for the user parses back to exactly that
    amount, for every decimals value the code accepts. *)
Theorem token_amount_roundtrip raw decimals :
  is_u64 raw → 0 ≤ decimals ≤ 18 →
  parse_token_amount (format_token_amount raw decimals) decimals = Ok raw.
Proof.
  intros [Hraw0 Hraw] Hdec. unfold format_token_amount.
  assert (Hsmall : 10 ^ decimals ≤ 10 ^ 18) by (apply Z.pow_le_mono_r; lia).
  assert (Hpos : 0 < 10 ^ decimals) by (apply Z.pow_pos_nonneg; lia).
  destruct (Z.eqb_spec decimals 0) as [->|Hd].
  { destruct (digits_spec raw) as (Hds & Hne & Hv); [done|].
    unfold show. rewrite parse_whole_amount by (rewrite ?Hv; try done; lia). f_equal. lia. }
  unfold wrapping. rewrite (Z.mod_small (10 ^ decimals)) by lia.
  pose proof (Z.div_mod raw (10 ^ decimals) ltac:(lia)) as Hdm.
  pose proof (Z.mod_pos_bound raw (10 ^ decimals) ltac:(lia)).
  destruct (digits_spec (raw / 10 ^ decimals)) as (Hds & Hne & Hv); [apply Z.div_pos; lia|].
  destruct (Z.eqb_spec (raw mod 10 ^ decimals) 0).
  { unfold show. rewrite parse_whole_amount by (rewrite ?Hv; try done; lia). f_equal. lia. }
  destruct (printed_fraction decimals (raw mod 10 ^ decimals)) as (Hfs & Hfne & Hlen & Hfv); [lia..|].
  unfold show. rewrite parse_decimal_amount by (rewrite ?Hv, ?Hfv; try done; lia).
  f_equal. lia.
Qed.

Lemma token_amount_roundtrip_witness :
  format_token_amount 1250000 6 = "1.25" ∧ parse_token_amount (format_token_amount 1250000 6) 6 = Ok 1250000.
Proof. split; [vm_compute; reflexivity|]. apply token_amount_roundtrip; [split; lia|lia]. Defined.

(** ** The manifest *)

Definition MAX_TRANSFER_ROWS : Z := 100000.
Definition MAX_CSV_BYTES : Z := 16 * 1024 * 1024.
Definition MANIFEST_VERSION : list Z := str_bytes "pay-push:v1".

Record ManifestContext := {
  network_genesis_hash : list Z;
  ctx_mint : Pubkey;
  ctx_token_program : Pubkey;
  ctx_decimals : Z
}.

Record TransferRow := {
  row_number : Z;
  row_recipient : Pubkey;
  row_amount_raw : Z
}.

Record TransferManifest := {
  manifest_context : ManifestContext;
  manifest_rows : list TransferRow;
  total_amount_raw : Z;
  manifest_hash : list Z
}.

(** [{:02x}] per byte. *)
Definition hex_digit (n : Z) : Ascii.ascii :=
  if n <? 10 then digit_char n else Ascii.ascii_of_N (Z.to_N (87 + n)).
Definition hash_hex (hash : list Z) : string :=
  foldr (λ b s, String (hex_digit (b / 16)) (String (hex_digit (b mod 16)) s)) "" hash.

(** The loop of [reject_empty_records] from [line], [index] onwards. *)
Fixpoint reject_empty_go (input : list Z) (line : Z) (in_quotes record_has_content : bool) : res unit :=
  match input with
  | [] => Ok tt
  | byte :: rest =>
      if in_quotes then
        if byte =? 34 then
          match rest with
          | next :: rest' =>
              if next =? 34 then reject_empty_go rest' line true record_has_content
              else reject_empty_go rest line false record_has_content
          | [] => reject_empty_go rest line false record_has_content
          end
        else reject_empty_go rest line true record_has_content
      else if byte =? 34 then reject_empty_go rest line true true
      else if (byte =? 13) || (byte =? 10) then
        if negb record_has_content
        then Err (Config ("CSV has an empty record at line " +:+ show line))
        else
          match rest with
          | next :: rest' =>
              if (byte =? 13) && (next =? 10) then reject_empty_go rest' (line + 1) false false
              else reject_empty_go rest (line + 1) false false
          | [] => reject_empty_go rest (line + 1) false false
          end
      else reject_empty_go rest line false true
  end.
Definition reject_empty_records (input : list Z) : res unit := reject_empty_go input 1 false false.

(** A byte-order mark before the first column name is ignored. *)
Definition strip_bom (s : string) : string :=
  match s with
  | String a (String b (String c s')) =>
      if (byte_of a =? 239) && (byte_of b =? 187) && (byte_of c =? 191) then s' else s
  | _ => s
  end.

Definition header_column (acc : option Z * option Z) (index : Z) (name : string) :
    res (option Z * option Z) :=
  let '(recipient_column, amount_column) := acc in
  if bool_decide (name = "recipient") then
    match recipient_column with
    | None => Ok (Some index, amount_column)
    | Some _ => Err (Config ("CSV header has duplicate `" +:+ name +:+ "` column"))
    end
  else if bool_decide (name = "amount") then
    match amount_column with
    | None => Ok (recipient_column, Some index)
    | Some _ => Err (Config ("CSV header has duplicate `" +:+ name +:+ "` column"))
    end
  else Err (Config ("CSV header has unknown `" +:+ name +:+ "` column")).

Definition parse_header (header : list string) : res (Z * Z) :=
  match header with
  | [first; second] =>
      acc ← header_column (None, None) 0 (strip_bom first);
      acc ← header_column acc 1 second;
      match acc with
      | (Some r, Some a) => Ok (r, a)
      | _ => Err (Config "CSV header must contain both `recipient` and `amount` columns")
      end
  | _ => Err (Config "CSV header must contain exactly `recipient,amount`")
  end.

Definition require_nonempty_unpadded (value : string) (row : Z) (field : string) : res unit :=
  _ ← reject_if (bool_decide (value = ""))
        (Config ("CSV line " +:+ show row +:+ " " +:+ field +:+ " must not be empty"));
  reject_if (bool_decide (trim value ≠ value))
    (Config ("CSV line " +:+ show row +:+ " " +:+ field +:+
             " must not contain leading or trailing whitespace")).

(** [hash_part]: the length prefix and the bytes, fed to the hasher. *)
Definition hash_part (value : list Z) : list Z := le_bytes 8 (zlen value) ++ value.

(** Everything [canonical_hash] feeds to BLAKE3, in order. *)
Definition row_preimage (row : TransferRow) : list Z :=
  hash_part (row_recipient row) ++ hash_part (le_bytes 8 (row_amount_raw row)).
Definition canonical_preimage (ctx : ManifestContext) (rows : list TransferRow) : list Z :=
  hash_part MANIFEST_VERSION ++
  hash_part (network_genesis_hash ctx) ++
  hash_part (ctx_mint ctx) ++
  hash_part (ctx_token_program ctx) ++
  hash_part [ctx_decimals ctx] ++
  hash_part (le_bytes 8 (zlen rows)) ++
  concat (map row_preimage rows).

Section parse.
(** The csv crate's record reader, [Pubkey::from_str] and BLAKE3. *)
Context (csv_records : list Z → list (result string (list string))).
Context (pubkey_from_str : string → result string Pubkey).
Context (blake3 : list Z → list Z).

Definition canonical_hash (ctx : ManifestContext) (rows : list TransferRow) : list Z :=
  blake3 (canonical_preimage ctx rows).

Definition csv_error (text : string) : Error := Config ("Invalid CSV: " +:+ text).

(** The loop state: the rows so far, the first line of each recipient, the
    running total. *)
Record parse_state := {
  ps_rows : list TransferRow;
  ps_recipient_lines : gmap Pubkey Z;
  ps_total : Z
}.

Definition column (record : list string) (c : Z) : string := default "" (record !! Z.to_nat c).

Definition parse_record (ctx : ManifestContext) (recipient_column amount_column : Z)
    (st : parse_state) (record : result string (list string)) : res parse_state :=
  record ← map_err csv_error record;
  let row := zlen (ps_rows st) + 2 in
  let line := "CSV line " +:+ show row in
  _ ← reject_if (zlen (ps_rows st) =? MAX_TRANSFER_ROWS)
        (Config ("CSV exceeds the " +:+ show MAX_TRANSFER_ROWS +:+ "-row limit (line " +:+ show row +:+ ")"));
  _ ← reject_if (negb (length record =? 2)%nat)
        (Config (line +:+ " must contain exactly recipient and amount"));
  let recipient_input := column record recipient_column in
  let amount_input := column record amount_column in
  _ ← require_nonempty_unpadded recipient_input row "recipient";
  _ ← require_nonempty_unpadded amount_input row "amount";
  recipient ← map_err (λ e, Config (line +:+ " has invalid recipient: " +:+ e))
                (pubkey_from_str recipient_input);
  _ ← match ps_recipient_lines st !! recipient with
      | Some first_line => Err (Config (line +:+ " recipient duplicates line " +:+ show first_line))
      | None => Ok tt
      end;
  amount ← map_err (λ e, Config (line +:+ " has invalid amount: " +:+ error_text e))
             (parse_token_amount amount_input (ctx_decimals ctx));
  _ ← reject_if (amount =? 0) (Config (line +:+ " amount must be positive"));
  total ← ok_or (checked_add 64 (ps_total st) amount)
            (Config ("CSV total exceeds u64 at line " +:+ show row));
  Ok {| ps_rows := ps_rows st ++ [ {| row_number := row; row_recipient := recipient;
                                     row_amount_raw := amount |} ];
        ps_recipient_lines := <[recipient := row]> (ps_recipient_lines st);
        ps_total := total |}.

Definition parse_manifest_csv (reader : result string (list Z)) (ctx : ManifestContext) :
    res TransferManifest :=
  input ← map_err Io reader;
  _ ← reject_if (MAX_CSV_BYTES <? zlen input)
        (Config ("CSV exceeds the " +:+ show (MAX_CSV_BYTES / (1024 * 1024)) +:+ " MiB size limit"));
  _ ← reject_empty_records input;
  match csv_records input with
  | [] => Err (Config "CSV must contain a header row")
  | header :: records =>
      header ← map_err csv_error header;
      columns ← parse_header header;
      st ← try_fold (parse_record ctx columns.1 columns.2)
             {| ps_rows := []; ps_recipient_lines := ∅; ps_total := 0 |} records;
      _ ← reject_if (bool_decide (ps_rows st = []))
            (Config "CSV must contain at least one payout row");
      Ok {| manifest_context := ctx; manifest_rows := ps_rows st; total_amount_raw := ps_total st;
            manifest_hash := canonical_hash ctx (ps_rows st) |}
  end.

(** ** What a parsed manifest guarantees *)

(** The row a data record turns into. *)
Definition record_row (ctx : ManifestContext) (columns : Z * Z)
    (record : result string (list string)) (row : TransferRow) : Prop :=
  ∃ fields, record = Ok fields ∧ length fields = 2%nat ∧
    pubkey_from_str (column fields columns.1) = Ok (row_recipient row) ∧
    parse_token_amount (column fields columns.2) (ctx_decimals ctx) = Ok (row_amount_raw row).

Record manifest_wf (m : TransferManifest) : Prop := {
  wf_nonempty : manifest_rows m ≠ [];
  wf_bounded : zlen (manifest_rows m) ≤ MAX_TRANSFER_ROWS;
  wf_numbers : map row_number (manifest_rows m) = seqZ 2 (zlen (manifest_rows m));
  wf_recipients : NoDup (map row_recipient (manifest_rows m));
  wf_amounts : Forall (λ r, 0 < row_amount_raw r) (manifest_rows m);
  wf_total : total_amount_raw m = zsum (map row_amount_raw (manifest_rows m));
  wf_total_u64 : is_u64 (total_amount_raw m);
  wf_hash : manifest_hash m = canonical_hash (manifest_context m) (manifest_rows m)
}.

Lemma manifest_numbers m : manifest_wf m → NoDup (map row_number (manifest_rows m)).
Proof. intros Hwf. rewrite (wf_numbers _ Hwf). apply NoDup_seqZ. Qed.

(** The loop invariant of the record loop. *)
Record parse_inv (ctx : ManifestContext) (columns : Z * Z)
    (done : list (result string (list string))) (st : parse_state) : Prop := {
  pi_rows : Forall2 (record_row ctx columns) done (ps_rows st);
  pi_bounded : zlen (ps_rows st) ≤ MAX_TRANSFER_ROWS;
  pi_numbers : map row_number (ps_rows st) = seqZ 2 (zlen (ps_rows st));
  pi_recipients : NoDup (map row_recipient (ps_rows st));
  pi_lines : ∀ r, r ∈ map row_recipient (ps_rows st) → is_Some (ps_recipient_lines st !! r);
  pi_amounts : Forall (λ r, 0 < row_amount_raw r) (ps_rows st);
  pi_total : ps_total st = zsum (map row_amount_raw (ps_rows st));
  pi_total_u64 : is_u64 (ps_total st)
}.

Lemma parse_inv_init ctx columns :
  parse_inv ctx columns [] {| ps_rows := []; ps_recipient_lines := ∅; ps_total := 0 |}.
Proof. split; simpl; try constructor; try done. by intros r ?%not_elem_of_nil. Qed.

Lemma parse_token_amount_u64 text decimals v : parse_token_amount text decimals = Ok v → is_u64 v.
Proof. unfold parse_token_amount. intros H. by inv_ok. Qed.

Lemma parse_record_inv ctx columns done st record st' :
  parse_inv ctx columns done st →
  parse_record ctx columns.1 columns.2 st record = Ok st' →
  parse_inv ctx columns (done ++ [record]) st'.
Proof.
  intros [Hrows Hb Hn Hr Hl Ha Ht Hu] H. unfold parse_record in H. inv_ok.
  prop_bools. repeat case_match; inv_ok. simplify_eq/=.
  match goal with H : parse_token_amount _ _ = Ok ?a, H' : (?a =? 0) = false |- _ =>
    rename H into Hamt; rename H' into Hpos end.
  apply Z.eqb_neq in Hpos. destruct (parse_token_amount_u64 _ _ _ Hamt) as [Hamt0 _].
  split; cbn [ps_rows ps_recipient_lines ps_total].
  - apply Forall2_app; [done|]. constructor; [|constructor]. eexists. split_and!; eauto.
    by apply Nat.eqb_eq.
  - match goal with H : (zlen _ =? _) = false |- _ => apply Z.eqb_neq in H end.
    unfold zlen in *. rewrite length_app. simpl. unfold MAX_TRANSFER_ROWS in *. lia.
  - unfold zlen in *. rewrite map_app, length_app, Hn. simpl length.
    rewrite Nat2Z.inj_add, seqZ_app by lia. simpl. f_equal. unfold seqZ. simpl. f_equal. lia.
  - rewrite map_app. apply NoDup_app. split_and!; [done| |apply NoDup_singleton].
    intros r Hin Hin'. simpl in Hin'. apply list_elem_of_singleton in Hin' as ->.
    apply Hl in Hin as [? Hin]. congruence.
  - intros r. rewrite map_app, elem_of_app. intros [Hin|Hin].
    + rewrite lookup_insert_is_Some'. right. auto.
    + simpl in Hin. apply list_elem_of_singleton in Hin as ->. rewrite lookup_insert_eq. eauto.
  - apply Forall_app; split; [done|]. constructor; [simpl; lia|constructor].
  - rewrite map_app, zsum_app, <- Ht. simpl. rewrite zsum_cons. change (zsum []) with 0. lia.
  - done.
Qed.

Lemma try_fold_parse_inv ctx columns records : ∀ done st st',
  parse_inv ctx columns done st →
  try_fold (parse_record ctx columns.1 columns.2) st records = Ok st' →
  parse_inv ctx columns (done ++ records) st'.
Proof.
  induction records as [|r records IH]; intros done st st' Hst H; simpl in H; inv_ok.
  { by rewrite app_nil_r. }
  replace (done ++ r :: records) with ((done ++ [r]) ++ records) by (by rewrite <- app_assoc).
  eapply IH; [|exact H]. eapply parse_record_inv; eauto.
Qed.

Lemma parsed_manifest_rows input ctx m :
  parse_manifest_csv (Ok input) ctx = Ok m →
  manifest_wf m ∧ manifest_context m = ctx ∧
  ∃ header records columns,
    csv_records input = Ok header :: records ∧ parse_header header = Ok columns ∧
    Forall2 (record_row ctx columns) records (manifest_rows m).
Proof.
  unfold parse_manifest_csv. intros H. inv_ok. destruct (csv_records a) as [|h records] eqn:Hcsv; [done|].
  inv_ok. prop_bools.
  match goal with H : try_fold _ _ _ = Ok _ |- _ =>
    apply (try_fold_parse_inv _ _ _ [] _ _ (parse_inv_init _ _)) in H as [] end.
  split_and!; [by split|done|]. simpl in *. eexists _, _, _. split_and!; eauto; by f_equal.
Qed.

(** C38. A manifest the parser accepts has one row per data record, in order,
    with the recipient and amount of that record; rows are numbered
    consecutively from two, recipients are distinct, amounts positive, the
    total is their sum and fits [u64], and the hash is that of the normalized
    rows. *)
Theorem parsed_manifest_is_well_formed input ctx m :
  parse_manifest_csv (Ok input) ctx = Ok m →
  manifest_wf m ∧ manifest_context m = ctx ∧
  ∃ header records columns,
    csv_records input = Ok header :: records ∧ parse_header header = Ok columns ∧
    Forall2 (record_row ctx columns) records (manifest_rows m).
Proof. apply parsed_manifest_rows. Qed.

End parse.

(** ** Hexadecimal digests *)
Lemma hex_digit_inj n m : 0 ≤ n < 16 → 0 ≤ m < 16 → hex_digit n = hex_digit m → n = m.
Proof.
  intros Hn Hm.
  assert (n ∈ seqZ 0 16) as Hn' by (apply elem_of_seqZ; lia). assert (m ∈ seqZ 0 16) as Hm' by (apply elem_of_seqZ; lia).
  assert (Forall (λ a, Forall (λ b, hex_digit a = hex_digit b → a = b) (seqZ 0 16)) (seqZ 0 16)) as Hall
    by (apply (bool_decide_unpack _); vm_compute; exact I).
  rewrite Forall_forall in Hall. specialize (Hall n Hn'). rewrite Forall_forall in Hall. by apply Hall.
Qed.

Definition is_hex (b : Z) : Prop := 48 ≤ b ≤ 57 ∨ 97 ≤ b ≤ 102.

#[global] Instance is_hex_dec b : Decision (is_hex b).
Proof. unfold is_hex. apply _. Defined.

Lemma hex_digit_byte n : 0 ≤ n < 16 → is_hex (byte_of (hex_digit n)).
Proof.
  intros Hn. assert (Forall (λ n, is_hex (byte_of (hex_digit n))) (seqZ 0 16)) as HF
    by (apply (bool_decide_unpack _); by vm_compute).
  rewrite Forall_forall in HF. apply HF, elem_of_seqZ. lia.
Qed.

Lemma hash_hex_bytes h : Forall is_u8 h →
  Forall is_hex (str_bytes (hash_hex h)) ∧ length (str_bytes (hash_hex h)) = (2 * length h)%nat.
Proof.
  induction 1 as [|b h [Hb0 Hb] _ [IH Hl]]; [by split; [constructor|]|]. cbn [hash_hex foldr str_bytes length].
  change (foldr _ "" h) with (hash_hex h). split; [|lia].
  constructor; [|constructor; [|done]]; apply hex_digit_byte; [|by apply Z.mod_pos_bound].
  split; [by apply Z.div_pos|]. apply Z.div_lt_upper_bound; lia.
Qed.

Lemma hash_hex_inj h1 h2 : Forall is_u8 h1 → Forall is_u8 h2 → hash_hex h1 = hash_hex h2 → h1 = h2.
Proof.
  intros H1. revert h2. induction H1 as [|a h1 Ha _ IH]; intros h2 [|b h2' Hb H2]; simpl; try done.
  intros [= Ehi Elo E]. unfold in_range in *. change (2 ^ 8) with 256 in *.
  apply hex_digit_inj in Ehi; [|split; [apply Z.div_pos; lia|apply Z.div_lt_upper_bound; lia]..].
  apply hex_digit_inj in Elo; [|apply Z.mod_pos_bound; lia..].
  f_equal; [|by apply IH]. rewrite (Z.div_mod a 16), (Z.div_mod b 16) by lia. lia.
Qed.

(** ** The canonical hash binds the whole manifest *)

Lemma hash_part_inj a b x y :
  zlen a < 2 ^ 64 → zlen b < 2 ^ 64 → hash_part a ++ x = hash_part b ++ y → a = b ∧ x = y.
Proof.
  unfold hash_part. intros Ha Hb E. rewrite <- !app_assoc in E.
  apply app_inj_1 in E as [El E]; [|by rewrite !length_le_bytes].
  apply le_bytes_inj in El; [|unfold zlen in *; lia..].
  apply app_inj_1 in E; [done|]. unfold zlen in El. lia.
Qed.

(** Fixed-size arrays: 32-byte keys and hashes, one-byte decimals. *)
Definition is_key (k : list Z) : Prop := length k = 32%nat.
Record context_sized (ctx : ManifestContext) : Prop := {
  sized_genesis : is_key (network_genesis_hash ctx);
  sized_mint : is_key (ctx_mint ctx);
  sized_program : is_key (ctx_token_program ctx)
}.

Lemma key_len k : is_key k → zlen k < 2 ^ 64.
Proof. unfold is_key, zlen. intros ->. lia. Qed.

Lemma rows_preimage_inj rows1 rows2 :
  length rows1 = length rows2 →
  Forall (λ r, is_key (row_recipient r) ∧ is_u64 (row_amount_raw r)) rows1 →
  Forall (λ r, is_key (row_recipient r) ∧ is_u64 (row_amount_raw r)) rows2 →
  concat (map row_preimage rows1) = concat (map row_preimage rows2) →
  map row_recipient rows1 = map row_recipient rows2 ∧
  map row_amount_raw rows1 = map row_amount_raw rows2.
Proof.
  revert rows2. induction rows1 as [|r1 rows1 IH]; intros [|r2 rows2] Hlen H1 H2 E;
    try discriminate Hlen; [done|].
  apply Forall_cons_1 in H1 as [[Hk1 Hu1] H1]. apply Forall_cons_1 in H2 as [[Hk2 Hu2] H2].
  cbn [map concat] in E. unfold row_preimage at 1 3 in E. rewrite <- !app_assoc in E.
  apply hash_part_inj in E as [Er E]; [|by apply key_len..].
  apply hash_part_inj in E as [Ea E]; [|unfold zlen; rewrite length_le_bytes; lia..].
  apply le_bytes_inj in Ea; [|unfold in_range in *; lia..].
  destruct (IH rows2) as [IHr IHa]; [by injection Hlen|done..|].
  cbn [map]. by rewrite Er, Ea, IHr, IHa.
Qed.

Lemma canonical_preimage_inj ctx1 ctx2 rows1 rows2 :
  context_sized ctx1 → context_sized ctx2 →
  zlen rows1 < 2 ^ 64 → zlen rows2 < 2 ^ 64 →
  Forall (λ r, is_key (row_recipient r) ∧ is_u64 (row_amount_raw r)) rows1 →
  Forall (λ r, is_key (row_recipient r) ∧ is_u64 (row_amount_raw r)) rows2 →
  canonical_preimage ctx1 rows1 = canonical_preimage ctx2 rows2 →
  ctx1 = ctx2 ∧ map row_recipient rows1 = map row_recipient rows2 ∧
  map row_amount_raw rows1 = map row_amount_raw rows2.
Proof.
  intros [] [] Hl1 Hl2 Hr1 Hr2 E. unfold canonical_preimage in E.
  apply hash_part_inj in E as [_ E]; [|done..].
  apply hash_part_inj in E as [Eg E]; [|by apply key_len..].
  apply hash_part_inj in E as [Em E]; [|by apply key_len..].
  apply hash_part_inj in E as [Ep E]; [|by apply key_len..].
  apply hash_part_inj in E as [Ed E]; [|done..].
  apply hash_part_inj in E as [El E]; [|unfold zlen; rewrite length_le_bytes; lia..].
  apply le_bytes_inj in El; [|unfold zlen in *; lia..].
  apply rows_preimage_inj in E as [? ?]; [|unfold zlen in El; lia|done..].
  split_and!; [|done..]. destruct ctx1, ctx2. simpl in *. congruence.
Qed.

Lemma rows_determined rows1 rows2 :
  map row_number rows1 = map row_number rows2 →
  map row_recipient rows1 = map row_recipient rows2 →
  map row_amount_raw rows1 = map row_amount_raw rows2 → rows1 = rows2.
Proof.
  revert rows2. induction rows1 as [|r1 rows1 IH]; intros [|r2 rows2] Hn Hr Ha; try done.
  destruct r1, r2. simplify_eq/=. f_equal. by apply IH.
Qed.

Section binding.
Context (csv_records : list Z → list (result string (list string))).
Context (pubkey_from_str : string → result string Pubkey).
Context (blake3 : list Z → list Z).
Hypothesis pubkey_sized : ∀ s k, pubkey_from_str s = Ok k → is_key k.

Lemma parsed_rows_sized input ctx m :
  parse_manifest_csv csv_records pubkey_from_str blake3 (Ok input) ctx = Ok m →
  Forall (λ r, is_key (row_recipient r) ∧ is_u64 (row_amount_raw r)) (manifest_rows m).
Proof.
  intros H. apply parsed_manifest_rows in H as (_ & _ & header & records & columns & _ & _ & Hrows).
  induction Hrows as [|rec row records rows (fields & _ & _ & Hk & Ha) _ IH]; constructor; [|done].
  split; [eauto|eapply parse_token_amount_u64, Ha].
Qed.

Lemma equal_hash_equal_manifest input1 input2 ctx1 ctx2 m1 m2 :
  context_sized ctx1 → context_sized ctx2 →
  parse_manifest_csv csv_records pubkey_from_str blake3 (Ok input1) ctx1 = Ok m1 →
  parse_manifest_csv csv_records pubkey_from_str blake3 (Ok input2) ctx2 = Ok m2 →
  manifest_hash m1 = manifest_hash m2 →
  (canonical_hash blake3 ctx1 (manifest_rows m1) = canonical_hash blake3 ctx2 (manifest_rows m2) →
   canonical_preimage ctx1 (manifest_rows m1) = canonical_preimage ctx2 (manifest_rows m2)) →
  m1 = m2.
Proof.
  intros Hc1 Hc2 H1 H2 Hh Hcoll.
  pose proof (parsed_rows_sized _ _ _ H1) as Hs1. pose proof (parsed_rows_sized _ _ _ H2) as Hs2.
  apply parsed_manifest_rows in H1 as ([] & <- & _). apply parsed_manifest_rows in H2 as ([] & <- & _).
  unfold MAX_TRANSFER_ROWS in *.
  destruct (canonical_preimage_inj _ _ (manifest_rows m1) (manifest_rows m2) Hc1 Hc2) as (Ectx & Er & Ea); try done; try lia.
  { apply Hcoll. congruence. }
  assert (manifest_rows m1 = manifest_rows m2) as Erows.
  { apply rows_determined; [|done..]. rewrite wf_numbers0, wf_numbers1. f_equal.
    unfold zlen. f_equal. apply (f_equal length) in Er. by rewrite !length_map in Er. }
  destruct m1, m2. simpl in *. congruence.
Qed.

(** The manifest hash identifies the payout: two CSV files, read in the
    same or in different contexts, whose manifests have the same hash give
    the same manifest (network, mint, program, decimals, every row and the
    total), unless BLAKE3 collides on their two encodings. *)
Theorem manifest_hash_binds_payout input1 input2 ctx1 ctx2 m1 m2 :
  context_sized ctx1 → context_sized ctx2 →
  parse_manifest_csv csv_records pubkey_from_str blake3 (Ok input1) ctx1 = Ok m1 →
  parse_manifest_csv csv_records pubkey_from_str blake3 (Ok input2) ctx2 = Ok m2 →
  manifest_hash m1 = manifest_hash m2 →
  (canonical_hash blake3 ctx1 (manifest_rows m1) = canonical_hash blake3 ctx2 (manifest_rows m2) →
   canonical_preimage ctx1 (manifest_rows m1) = canonical_preimage ctx2 (manifest_rows m2)) →
  m1 = m2.
Proof. apply equal_hash_equal_manifest. Qed.
End binding.

(** ** A concrete run *)
Module Sample.
(** Newline-separated records of comma-separated, unquoted fields. *)
Definition csv_lines (input : list Z) : list (result string (list string)) :=
  map (λ l, Ok (split_on (Ascii.ascii_of_nat 44) l))
    (List.filter (λ l, negb (bool_decide (l = ""))) (split_on (Ascii.ascii_of_nat 10) (string_of_bytes input))).
Definition key_of_text (s : string) : result string Pubkey :=
  if (String.length s =? 32)%nat then Ok (str_bytes s) else Err "Invalid".
Definition ctx : ManifestContext := {|
  network_genesis_hash := replicate 32 7; ctx_mint := replicate 32 8;
  ctx_token_program := replicate 32 9; ctx_decimals := 6 |}.
Definition alice : string := "AAAAAAAAAAAAAAAAAAAAAAAAAAAAAAAA".
Definition bob : string := "BBBBBBBBBBBBBBBBBBBBBBBBBBBBBBBB".
Definition newline : string := String (Ascii.ascii_of_nat 10) "".
Definition input : list Z :=
  str_bytes ("recipient,amount" +:+ newline +:+ alice +:+ ",1.25" +:+ newline +:+ bob +:+ ",0.000001" +:+ newline).
(** The same payout with the columns the other way round. *)
Definition input' : list Z :=
  str_bytes ("amount,recipient" +:+ newline +:+ "1.250," +:+ alice +:+ newline +:+ "0.000001," +:+ bob).
Abbreviation parse := (parse_manifest_csv csv_lines key_of_text (λ x, x)).
Definition row1 : TransferRow := {| row_number := 2; row_recipient := str_bytes alice; row_amount_raw := 1250000 |}.
Definition row2 : TransferRow := {| row_number := 3; row_recipient := str_bytes bob; row_amount_raw := 1 |}.
Definition manifest : TransferManifest := {|
  manifest_context := ctx; manifest_rows := [row1; row2]; total_amount_raw := 1250001;
  manifest_hash := canonical_preimage ctx [row1; row2] |}.

Example duplicate_recipient :
  parse (Ok (str_bytes ("recipient,amount" +:+ newline +:+ alice +:+ ",1" +:+ newline +:+ alice +:+ ",2"))) ctx
  = Err (Config "CSV line 3 recipient duplicates line 2").
Proof. vm_compute. reflexivity. Qed.
End Sample.

Lemma parsed_manifest_is_well_formed_witness :
  Sample.parse (Ok Sample.input) Sample.ctx = Ok Sample.manifest ∧
  manifest_wf (λ x, x) Sample.manifest.
Proof.
  assert (Sample.parse (Ok Sample.input) Sample.ctx = Ok Sample.manifest) as H by (vm_compute; reflexivity).
  split; [exact H|].
  exact (proj1 (parsed_manifest_is_well_formed Sample.csv_lines Sample.key_of_text (λ x, x)
          Sample.input Sample.ctx Sample.manifest H)).
Defined.

Lemma key_of_text_sized s k : Sample.key_of_text s = Ok k → is_key k.
Proof.
  unfold Sample.key_of_text. case_match eqn:E; [|done]. intros [= <-]. apply Nat.eqb_eq in E.
  unfold is_key. by rewrite length_str_bytes.
Qed.

Lemma manifest_hash_binds_payout_witness :
  Sample.input ≠ Sample.input' ∧
  ∀ m', Sample.parse (Ok Sample.input') Sample.ctx = Ok m' → Sample.manifest = m'.
Proof.
  split; [intros E; vm_compute in E; discriminate E|]. intros m' H.
  assert (Sample.parse (Ok Sample.input') Sample.ctx = Ok Sample.manifest) as H' by (vm_compute; reflexivity).
  apply (manifest_hash_binds_payout Sample.csv_lines Sample.key_of_text (λ x, x) key_of_text_sized
           Sample.input Sample.input' Sample.ctx Sample.ctx).
  - split; reflexivity.
  - split; reflexivity.
  - vm_compute. reflexivity.
  - exact H.
  - rewrite H' in H. injection H as <-. reflexivity.
  - intros E. exact E.
Defined.
