(* ===== verification/PushPlanner.v ===== *)
(** * PushPlanner: fee mode and deterministic packing of payout chunks

    [core/src/client/push/planner.rs] and [push/mod.rs].  The PayKit builders
    (instructions, message compilation, packet-size check), program addresses
    and PDA derivation live outside the repository: they are the fields of
    the class [Kit]. *)
From S2P Require Import Prelude Text F64 PushManifest.
#[local] Open Scope string_scope.
#[local] Open Scope list_scope.
#[local] Open Scope Z_scope.

(** ** Transactions, as the payout code sees them *)
Record AccountMeta := { meta_pubkey : Pubkey; meta_signer : bool; meta_writable : bool }.
Record Instruction := {
  ix_program : Pubkey;
  ix_accounts : list AccountMeta;
  ix_data : list Z
}.
Record CompiledInstruction := {
  program_id_index : Z;
  accounts : list Z;
  data : list Z
}.
Record VersionedMessage := {
  static_account_keys : list Pubkey;
  instructions : list CompiledInstruction;
  recent_blockhash : list Z
}.
Record VersionedTransaction := {
  message : VersionedMessage;
  signatures : list (list Z)
}.

(** [pay_kit::mpp::client::TransferEntry]. *)
Record TransferEntry := {
  te_recipient : Pubkey;
  te_amount : Z;
  te_ata_creation_required : bool;
  te_memo : option string
}.

Class Kit := {
  MAX_SPLITS : Z;
  SOLANA_MAX_COMPUTE_UNIT_LIMIT : Z;
  compute_budget_program_id : Pubkey;
  memo_program_id : Pubkey;
  associated_token_program_id : Pubkey;
  token_program_id : Pubkey;
  token_2022_program_id : Pubkey;
  system_program_id : Pubkey;
  find_program_address : list (list Z) → Pubkey → Pubkey;
  unit_price_instruction : Z → Instruction;
  unit_limit_instruction : Z → Instruction;
  (** [ComputeBudgetOptions::validate] of a price and a limit. *)
  compute_budget_validate : Z → Z → result string unit;
  build_spl_transfer_batch_instructions :
    Pubkey → Pubkey → Pubkey → Z → Pubkey → list TransferEntry → result string (list Instruction);
  (** Version 0 transactions: fee payer, instructions, blockhash. *)
  build_unsigned_unchecked : Pubkey → list Instruction → list Z → result string VersionedTransaction;
  build_unsigned : Pubkey → list Instruction → list Z → result string VersionedTransaction;
  check_transaction_size : VersionedTransaction → result string Z
}.

(** ** [push/mod.rs] *)
Definition MANIFEST_HASH_PREFIX_LEN : nat := 8.
Definition manifest_hash_prefix (hash_hex : string) : string :=
  String.substring 0 (Nat.min (String.length hash_hex) MANIFEST_HASH_PREFIX_LEN) hash_hex.

(** ** Bounds *)
Definition MIN_FEE_RESERVE_LAMPORTS : Z := 10000.
Definition MAX_STATIC_ACCOUNT_KEYS : Z := 64.
Definition TOKEN_ACCOUNT_LEN : Z := 165.
Definition TOKEN_2022_BASE_ATA_LEN : Z := TOKEN_ACCOUNT_LEN + 1 + 4.
Definition PACKING_COMPUTE_UNIT_CEILING : Z := 1200000.
Definition COMPUTE_BUDGET_OVERHEAD_UNITS : Z := 500.
Definition MEMO_OVERHEAD_UNITS : Z := 500.
Definition TRANSFER_CHECKED_UNITS : Z := 10000.
Definition ATA_CREATE_UNITS : Z := 25000.
Definition ATA_CREATE_IDEMPOTENT_DISCRIMINATOR : Z := 1.
Definition COMPUTE_UNIT_LIMIT_DISCRIMINATOR : Z := 2.
Definition COMPUTE_UNIT_PRICE_DISCRIMINATOR : Z := 3.
Definition TRANSFER_CHECKED_DISCRIMINATOR : Z := 12.

(** ** Fee mode *)
Inductive FeePayerMode := SelfFunded | Gasless.
#[global] Instance FeePayerMode_eq_dec : EqDecision FeePayerMode.
Proof. solve_decision. Defined.

Inductive FeeModeRequest := AutoRequest | SelfFundedRequest | GaslessRequest.

Record SelfFundedCost := {
  estimated_fee_lamports : Z;
  missing_ata_rent_lamports : Z;
  reserve_lamports : Z
}.

Definition total_lamports (cost : SelfFundedCost) : res Z :=
  ok_or (sum ← checked_add 64 (estimated_fee_lamports cost) (missing_ata_rent_lamports cost);
         checked_add 64 sum (reserve_lamports cost))
    (Config "self-funded cost overflowed u64 lamports").

Definition compute_reserve_lamports (estimated_fee_lamports : Z) : Z :=
  Z.max (wrapping 64 (wrapping 128 (estimated_fee_lamports * 5) / 100)) MIN_FEE_RESERVE_LAMPORTS.

Definition decide_fee_mode (requested : FeeModeRequest) (sol_lamports : Z) (cost : SelfFundedCost)
    (gasless_available : bool) : res FeePayerMode :=
  total ← total_lamports cost;
  let self_funded_covered := total <=? sol_lamports in
  match requested with
  | SelfFundedRequest =>
      if self_funded_covered then Ok SelfFunded
      else Err (Config ("self-funded mode requires " +:+ show total +:+ " lamports (fee " +:+
             show (estimated_fee_lamports cost) +:+ " + rent " +:+
             show (missing_ata_rent_lamports cost) +:+ " + reserve " +:+
             show (reserve_lamports cost) +:+ ") but the sender only has " +:+
             show sol_lamports +:+ " lamports of SOL"))
  | GaslessRequest =>
      if gasless_available then Ok Gasless
      else Err (Config "gasless mode requires pay-api, which is unavailable")
  | AutoRequest =>
      if self_funded_covered then Ok SelfFunded
      else if gasless_available then Ok Gasless
      else Err (Config ("auto fee mode could not proceed: self-funded needs " +:+ show total +:+
             " lamports but the sender only has " +:+ show sol_lamports +:+
             ", and pay-api (gasless fallback) is unavailable"))
  end.

(** ** Rent *)
Definition rent_exempt_minimum_lamports (data_len : Z) : Z :=
  let ACCOUNT_STORAGE_OVERHEAD := 128 in
  let DEFAULT_LAMPORTS_PER_BYTE_YEAR := 1000000000 / 100 * 365 / (1024 * 1024) in
  let DEFAULT_EXEMPTION_THRESHOLD := f64_of_Z 2 in
  f64_as_u64 (f64_mul
    (f64_of_Z (wrapping 64 ((ACCOUNT_STORAGE_OVERHEAD + data_len) * DEFAULT_LAMPORTS_PER_BYTE_YEAR)))
    DEFAULT_EXEMPTION_THRESHOLD).

(** ** The ATA snapshot and the plan *)
Record DestinationAtaStatus := {
  dest_recipient : Pubkey;
  dest_ata : Pubkey;
  dest_exists : bool
}.
Record AtaSnapshot := {
  sender_ata : Pubkey;
  sender_ata_exists : bool;
  destinations : list DestinationAtaStatus
}.
Definition missing_count (ata : AtaSnapshot) : Z :=
  zlen (List.filter (λ d, negb (dest_exists d)) (destinations ata)).

Record PlannedTransferEntry := {
  entry_row_number : Z;
  entry_recipient : Pubkey;
  entry_amount_raw : Z;
  entry_ata_creation_required : bool
}.
Record PlannedChunk := {
  chunk_index : Z;
  entries : list PlannedTransferEntry;
  compute_unit_price_micro_lamports : Z;
  compute_unit_limit : Z;
  memo : string;
  serialized_len : Z
}.
Record TransactionPlan := {
  plan_fee_payer_mode : FeePayerMode;
  plan_fee_payer : Pubkey;
  chunks : list PlannedChunk
}.

Definition row_numbers (chunk : PlannedChunk) : list Z := map entry_row_number (entries chunk).
Definition token_total_raw (chunk : PlannedChunk) : res Z :=
  checked_sum 64 (Config "chunk token total overflowed u64") 0 (map entry_amount_raw (entries chunk)).
Definition total_transactions (plan : TransactionPlan) : Z := zlen (chunks plan).
Definition total_token_raw (plan : TransactionPlan) : res Z :=
  try_fold (λ acc chunk,
    total ← token_total_raw chunk;
    ok_or (checked_add 64 acc total) (Config "plan token total overflowed u64")) 0 (chunks plan).

Lemma total_token_raw_fits plan :
  let amounts := map entry_amount_raw (concat (map entries (chunks plan))) in
  Forall (λ a, 0 ≤ a) amounts → zsum amounts < 2 ^ 64 →
  total_token_raw plan = Ok (zsum amounts).
Proof.
  unfold total_token_raw. simpl.
  cut (∀ acc, 0 ≤ acc →
    Forall (λ a, 0 ≤ a) (map entry_amount_raw (concat (map entries (chunks plan)))) →
    acc + zsum (map entry_amount_raw (concat (map entries (chunks plan)))) < 2 ^ 64 →
    try_fold (λ acc chunk,
      total ← token_total_raw chunk;
      ok_or (checked_add 64 acc total) (Config "plan token total overflowed u64")) acc (chunks plan) =
    Ok (acc + zsum (map entry_amount_raw (concat (map entries (chunks plan)))))).
  { intros Hcut Hpos Hfit. by rewrite Hcut. }
  induction (chunks plan) as [|c cs IH]; intros acc Hacc Hpos Hfit; simpl in *.
  { change (zsum []) with 0. by rewrite Z.add_0_r. }
  rewrite map_app, zsum_app in *. apply Forall_app in Hpos as [Hc Hcs].
  pose proof (zsum_nonneg _ Hc). pose proof (zsum_nonneg _ Hcs).
  assert (token_total_raw c = Ok (0 + zsum (map entry_amount_raw (entries c)))) as ->
    by (apply checked_sum_fits; [done..|lia]).
  rewrite bind_ok_simpl, checked_add_in by (split; lia). simpl. rewrite IH by (done || lia).
  f_equal. lia.
Qed.

Definition estimate_compute_units (transfer_count ata_create_count : Z) : Z :=
  Z.min (COMPUTE_BUDGET_OVERHEAD_UNITS + MEMO_OVERHEAD_UNITS +
         transfer_count * TRANSFER_CHECKED_UNITS + ata_create_count * ATA_CREATE_UNITS)
    PACKING_COMPUTE_UNIT_CEILING.

(** Rust's [u64::div_ceil]. *)
Definition div_ceil (a b : Z) : Z := (a + b - 1) / b.

#[global] Instance TransferRow_inhabited : Inhabited TransferRow :=
  populate {| row_number := 0; row_recipient := []; row_amount_raw := 0 |}.
#[global] Instance DestinationAtaStatus_inhabited : Inhabited DestinationAtaStatus :=
  populate {| dest_recipient := []; dest_ata := []; dest_exists := false |}.

Section planner.
Context `{Kit}.

Definition MAX_GASLESS_TRANSFERS_PER_CHUNK : Z := MAX_SPLITS.

Definition token_account_len (token_program : Pubkey) : Z :=
  if bool_decide (token_program = token_2022_program_id)
  then TOKEN_2022_BASE_ATA_LEN else TOKEN_ACCOUNT_LEN.

Definition refine_compute_unit_limit (units_consumed : Z) : Z :=
  let scaled := div_ceil (saturating_mul 64 units_consumed 115) 100 in
  let with_margin := saturating_add 64 scaled 10000 in
  Z.min with_margin SOLANA_MAX_COMPUTE_UNIT_LIMIT.

Definition derive_associated_token_address (owner mint token_program : Pubkey) : Pubkey :=
  find_program_address [owner; token_program; mint] associated_token_program_id.

Definition kit_error (e : string) : Error := Mpp e.

Definition compute_unit_price_instruction (micro_lamports : Z) : Instruction :=
  unit_price_instruction micro_lamports.
Definition compute_unit_limit_instruction (units : Z) : Instruction :=
  unit_limit_instruction units.

(** The last entry of a chunk carries the memo. *)
Definition memo_at_last (memo : string) (last position : nat) : option string :=
  if (position =? last)%nat then Some memo else None.

Section pack.
Context (manifest : TransferManifest) (ata : AtaSnapshot) (fee_payer_mode : FeePayerMode).
Context (sender fee_payer : Pubkey) (unit_price : Z).

(** Rows are indexed as the source indexes them; packing only ever uses
    indices below [manifest.rows.len()] ([packed_rows_in_order]). *)
Definition row_at (i : nat) : TransferRow := manifest_rows manifest !!! i.
Definition dest_at (i : nat) : DestinationAtaStatus := destinations ata !!! i.

Definition planned_entry (i : nat) : PlannedTransferEntry := {|
  entry_row_number := row_number (row_at i);
  entry_recipient := row_recipient (row_at i);
  entry_amount_raw := row_amount_raw (row_at i);
  entry_ata_creation_required := negb (dest_exists (dest_at i)) |}.

Definition kit_entry (memo : string) (last position i : nat) : TransferEntry := {|
  te_recipient := row_recipient (row_at i);
  te_amount := row_amount_raw (row_at i);
  te_ata_creation_required := negb (dest_exists (dest_at i));
  te_memo := memo_at_last memo last position |}.

Definition build_planned_chunk (row_indices : list nat) (chunk_index : Z) (manifest_prefix : string) :
    res PlannedChunk :=
  _ ← reject_if (bool_decide (fee_payer_mode = Gasless) &&
                 (MAX_GASLESS_TRANSFERS_PER_CHUNK <? zlen row_indices))
        (Config ("gasless chunks are capped at " +:+ show MAX_GASLESS_TRANSFERS_PER_CHUNK +:+
                 " payouts (MPP split limit)"));
  let memo := "pay-push:v1:" +:+ manifest_prefix +:+ ":" +:+ show chunk_index in
  let last := (length row_indices - 1)%nat in
  let ata_create_count := zlen (List.filter (λ i, negb (dest_exists (dest_at i))) row_indices) in
  let kit_entries := imap (kit_entry memo last) row_indices in
  let compute_unit_limit := estimate_compute_units (zlen kit_entries) ata_create_count in
  _ ← map_err kit_error (compute_budget_validate unit_price compute_unit_limit);
  batch ← map_err kit_error (build_spl_transfer_batch_instructions sender
            (ctx_mint (manifest_context manifest)) (ctx_token_program (manifest_context manifest))
            (ctx_decimals (manifest_context manifest)) fee_payer kit_entries);
  let instructions := compute_unit_price_instruction unit_price ::
                      compute_unit_limit_instruction compute_unit_limit :: batch in
  transaction ← map_err Config (build_unsigned_unchecked fee_payer instructions (replicate 32 0));
  let account_keys := zlen (static_account_keys (message transaction)) in
  _ ← reject_if (MAX_STATIC_ACCOUNT_KEYS <? account_keys)
        (Config ("chunk needs " +:+ show account_keys +:+
                 " account keys, exceeding the conservative " +:+ show MAX_STATIC_ACCOUNT_KEYS +:+
                 "-key limit"));
  serialized_len ← map_err kit_error (check_transaction_size transaction);
  Ok {| chunk_index := chunk_index;
        entries := map planned_entry row_indices;
        compute_unit_price_micro_lamports := unit_price;
        compute_unit_limit := compute_unit_limit;
        memo := memo;
        serialized_len := serialized_len |}.

Context (first_chunk_index : Z).

Definition next_index (chunks : list PlannedChunk) : res Z :=
  ok_or (count ← try_from 32 (zlen chunks); checked_add 32 first_chunk_index count)
    (Config "chunk index overflowed u32").

Definition cannot_fit (row_index : nat) (reason : string) : Error :=
  Config ("CSV row " +:+ show (row_number (row_at row_index)) +:+
          " cannot fit in a transaction on its own: " +:+ reason).

(** One iteration of the row loop: the finished chunks and the row indices of
    the open one. *)
Definition pack_row (prefix : string) (st : list PlannedChunk * list nat) (row_index : nat) :
    res (list PlannedChunk * list nat) :=
  let '(chunks, pending) := st in
  let pending_rows := pending ++ [row_index] in
  chunk_index ← next_index chunks;
  let gasless_cap_exceeded :=
    bool_decide (fee_payer_mode = Gasless) && (MAX_GASLESS_TRANSFERS_PER_CHUNK <? zlen pending_rows) in
  let build_result :=
    if gasless_cap_exceeded then None else Some (build_planned_chunk pending_rows chunk_index prefix) in
  match build_result with
  | Some (Ok _) => Ok (chunks, pending_rows)
  | _ =>
      _ ← reject_if (length pending_rows =? 1)%nat
            (cannot_fit row_index
               match build_result with
               | Some (Err e) => error_text e
               | _ => "gasless chunks are capped at " +:+ show MAX_GASLESS_TRANSFERS_PER_CHUNK +:+ " payouts"
               end);
      finalized ← build_planned_chunk pending chunk_index prefix;
      let chunks := chunks ++ [finalized] in
      next_chunk_index ← next_index chunks;
      match build_planned_chunk [row_index] next_chunk_index prefix with
      | Err e => Err (cannot_fit row_index (error_text e))
      | Ok _ => Ok (chunks, [row_index])
      end
  end.

(** [for (row, dest) in rows.zip(destinations)]. *)
Definition check_recipients : res unit :=
  try_fold (λ _ rd, reject_if (bool_decide (row_recipient rd.1 ≠ dest_recipient rd.2))
    (Config ("ATA snapshot row " +:+ show (row_number rd.1) +:+ " recipient mismatch"))) tt
    (zip (manifest_rows manifest) (destinations ata)).

Definition pack_chunks_from : res TransactionPlan :=
  _ ← reject_if (negb (length (manifest_rows manifest) =? length (destinations ata))%nat)
        (Config "ATA snapshot row count does not match the manifest");
  _ ← check_recipients;
  let prefix := manifest_hash_prefix (hash_hex (manifest_hash manifest)) in
  st ← try_fold (pack_row prefix) ([], []) (seq 0 (length (manifest_rows manifest)));
  let '(chunks, pending_rows) := st in
  chunks ← (if bool_decide (pending_rows = []) then Ok chunks
            else chunk_index ← next_index chunks;
                 chunk ← build_planned_chunk pending_rows chunk_index prefix;
                 Ok (chunks ++ [chunk]));
  Ok {| plan_fee_payer_mode := fee_payer_mode; plan_fee_payer := fee_payer; chunks := chunks |}.

(** *** What packing guarantees *)

Lemma build_planned_chunk_Ok idx k prefix c :
  build_planned_chunk idx k prefix = Ok c →
  chunk_index c = k ∧ entries c = map planned_entry idx ∧
  compute_unit_price_micro_lamports c = unit_price ∧
  memo c = "pay-push:v1:" +:+ prefix +:+ ":" +:+ show k ∧
  (fee_payer_mode = Gasless → zlen idx ≤ MAX_GASLESS_TRANSFERS_PER_CHUNK).
Proof.
  unfold build_planned_chunk. intros Hb. inv_ok. simpl. split_and!; try done.
  intros Hg. rewrite (bool_decide_eq_true_2 _ Hg) in *. simpl in *.
  match goal with H : (_ <? zlen idx) = false |- _ => apply Z.ltb_ge in H end. lia.
Qed.

(** The rows [0 .. seen) are split into closed segments, one per finished
    chunk, and the open one. *)
Record pack_inv (prefix : string) (seen : nat) (segs : list (list nat))
    (chunks : list PlannedChunk) (pending : list nat) : Prop := {
  pk_cover : concat segs ++ pending = seq 0 seen;
  pk_built : Forall2 (λ seg c, seg ≠ [] ∧ build_planned_chunk seg (chunk_index c) prefix = Ok c) segs chunks;
  pk_index : map chunk_index chunks = seqZ first_chunk_index (zlen chunks);
  pk_u32 : Forall is_u32 (map chunk_index chunks);
  pk_open : pending ≠ [] →
    is_u32 (first_chunk_index + zlen chunks) ∧
    is_ok (build_planned_chunk pending (first_chunk_index + zlen chunks) prefix) = true;
  pk_idle : pending = [] → seen = 0%nat ∧ segs = [] ∧ chunks = [];
  pk_greedy : ∀ k seg, segs !! k = Some seg →
    is_ok (build_planned_chunk (seg ++ [length (concat (take (S k) segs))])
             (first_chunk_index + Z.of_nat k) prefix) = false
}.

Lemma next_index_Ok l k :
  next_index l = Ok k → k = first_chunk_index + zlen l ∧ is_u32 k.
Proof.
  unfold next_index. intros Hk%ok_or_Ok. apply bind_Some in Hk as (n & Hn & Hk).
  apply try_from_Some in Hn as [-> _]. by apply try_from_Some in Hk as [-> ?].
Qed.

Lemma next_index_fits l :
  0 ≤ first_chunk_index → first_chunk_index + zlen l < 2 ^ 32 →
  next_index l = Ok (first_chunk_index + zlen l).
Proof.
  intros Hf Hfit. pose proof (zlen_nonneg l). unfold next_index. rewrite try_from_in by (split; lia). simpl.
  by rewrite checked_add_in by (split; lia).
Qed.

Lemma map_index_snoc (l : list PlannedChunk) c :
  map chunk_index l = seqZ first_chunk_index (zlen l) →
  chunk_index c = first_chunk_index + zlen l →
  map chunk_index (l ++ [c]) = seqZ first_chunk_index (zlen (l ++ [c])).
Proof.
  intros Hl Hc. rewrite map_app, Hl. simpl. rewrite Hc. unfold zlen.
  rewrite length_app, Nat.add_1_r, seqZ_S. done.
Qed.

(** Closing the open segment. *)
Lemma pack_inv_close prefix seen segs chunks pending c :
  pack_inv prefix seen segs chunks pending → pending ≠ [] →
  build_planned_chunk pending (first_chunk_index + zlen chunks) prefix = Ok c →
  (seen = length (concat (segs ++ [pending]))) ∧
  Forall2 (λ seg c, seg ≠ [] ∧ build_planned_chunk seg (chunk_index c) prefix = Ok c)
    (segs ++ [pending]) (chunks ++ [c]) ∧
  map chunk_index (chunks ++ [c]) = seqZ first_chunk_index (zlen (chunks ++ [c])) ∧
  Forall is_u32 (map chunk_index (chunks ++ [c])).
Proof.
  intros [Hc Hb Hi Hu Ho _ _] Hne Hbuild. destruct (Ho Hne) as [Hr _].
  destruct (build_planned_chunk_Ok _ _ _ _ Hbuild) as (Hk & _).
  split_and!.
  - rewrite concat_app. simpl. rewrite app_nil_r, Hc. by rewrite length_seq.
  - apply Forall2_app; [done|]. constructor; [|constructor]. split; [done|]. by rewrite Hk.
  - by apply map_index_snoc.
  - rewrite map_app. apply Forall_app; split; [done|]. constructor; [by rewrite Hk|constructor].
Qed.

Lemma build_over_cap idx k prefix :
  bool_decide (fee_payer_mode = Gasless) && (MAX_GASLESS_TRANSFERS_PER_CHUNK <? zlen idx) = true →
  is_ok (build_planned_chunk idx k prefix) = false.
Proof. unfold build_planned_chunk. by intros ->. Qed.

Lemma pack_row_inv prefix seen segs chunks pending st' :
  pack_inv prefix seen segs chunks pending →
  pack_row prefix (chunks, pending) seen = Ok st' →
  ∃ segs', pack_inv prefix (S seen) segs' st'.1 st'.2.
Proof.
  intros Hinv Hrow. unfold pack_row in Hrow. apply bind_Ok in Hrow as (k & Hk & Hrow).
  apply next_index_Ok in Hk as [-> Hk].
  pose proof Hinv as [Hc Hb Hi Hu Ho Hidle Hg].
  assert (is_ok (build_planned_chunk (pending ++ [seen]) (first_chunk_index + zlen chunks) prefix) = true ∧
          st' = (chunks, pending ++ [seen]) ∨
          is_ok (build_planned_chunk (pending ++ [seen]) (first_chunk_index + zlen chunks) prefix) = false ∧
          pending ≠ [] ∧ ∃ c c',
          build_planned_chunk pending (first_chunk_index + zlen chunks) prefix = Ok c ∧
          is_u32 (first_chunk_index + zlen (chunks ++ [c])) ∧
          build_planned_chunk [seen] (first_chunk_index + zlen (chunks ++ [c])) prefix = Ok c' ∧
          st' = (chunks ++ [c], [seen])) as [[Hok ->]|(Hno & Hne & c & c' & Hc1 & Hr & Hc2 & ->)].
  { destruct (bool_decide _ && _) eqn:Hcap.
    - right. split; [by apply build_over_cap|].
      apply bind_Ok in Hrow as ([] & Hl & Hrow). apply reject_if_Ok in Hl.
      apply bind_Ok in Hrow as (c & Hbc & Hrow). apply bind_Ok in Hrow as (k & Hk' & Hrow).
      apply next_index_Ok in Hk' as [-> ?]. case_match; inv_ok.
      split; [by intros ->|]. eauto 10.
    - destruct (build_planned_chunk (pending ++ [seen]) _ prefix) eqn:Hbp; [left; by inv_ok|].
      right. split; [done|]. apply bind_Ok in Hrow as ([] & Hl & Hrow). apply reject_if_Ok in Hl.
      apply bind_Ok in Hrow as (c & Hbc & Hrow). apply bind_Ok in Hrow as (k & Hk' & Hrow).
      apply next_index_Ok in Hk' as [-> ?]. case_match; inv_ok.
      split; [by intros ->|]. eauto 10. }
  - exists segs. simpl. split; try done.
    + rewrite app_assoc, Hc. by rewrite seq_S.
    + by destruct pending.
  - exists (segs ++ [pending]). simpl.
    destruct (pack_inv_close _ _ _ _ _ _ Hinv Hne Hc1) as (Hlen & Hb' & Hi' & Hu').
    split; try done.
    + rewrite seq_S, concat_app. simpl. by rewrite app_nil_r, Hc.
    + intros _. split; [done|]. by rewrite Hc2.
    + intros j seg Hj. apply lookup_app_Some in Hj as [Hj|[Hge Hj]].
      * rewrite take_app_le by (apply lookup_lt_Some in Hj; lia). by apply Hg.
      * apply list_lookup_singleton_Some in Hj as [Hj <-].
        assert (j = length segs) as -> by lia.
        rewrite take_ge by (rewrite length_app; simpl; lia). rewrite <- Hlen.
        rewrite (Forall2_length _ _ _ Hb). exact Hno.
Qed.

Lemma pack_rows_inv prefix n : ∀ seen segs st st',
  pack_inv prefix seen segs st.1 st.2 →
  try_fold (pack_row prefix) st (seq seen n) = Ok st' →
  ∃ segs', pack_inv prefix (seen + n) segs' st'.1 st'.2.
Proof.
  induction n as [|n IH]; intros seen segs [chunks pending] st' Hst Hfold; simpl in Hfold.
  { injection Hfold as <-. exists segs. by rewrite Nat.add_0_r. }
  apply bind_Ok in Hfold as (st & Hrow & Hfold).
  destruct (pack_row_inv _ _ _ _ _ _ Hst Hrow) as [segs' Hinv].
  destruct (IH _ _ _ _ Hinv Hfold) as [segs'' ?]. exists segs''. by rewrite Nat.add_succ_r.
Qed.

Lemma pack_inv_init prefix : pack_inv prefix 0 [] [] [].
Proof. split; simpl; try done; constructor. Qed.

(** The segments behind a complete plan. *)
Lemma packed_rows_in_order plan :
  pack_chunks_from = Ok plan →
  let prefix := manifest_hash_prefix (hash_hex (manifest_hash manifest)) in
  length (manifest_rows manifest) = length (destinations ata) ∧
  check_recipients = Ok tt ∧
  ∃ segs, concat segs = seq 0 (length (manifest_rows manifest)) ∧
    Forall2 (λ seg c, seg ≠ [] ∧ build_planned_chunk seg (chunk_index c) prefix = Ok c)
      segs (chunks plan) ∧
    map chunk_index (chunks plan) = seqZ first_chunk_index (zlen (chunks plan)) ∧
    Forall is_u32 (map chunk_index (chunks plan)) ∧
    ∀ k seg, (S k < length segs)%nat → segs !! k = Some seg →
      is_ok (build_planned_chunk (seg ++ [length (concat (take (S k) segs))])
               (first_chunk_index + Z.of_nat k) prefix) = false.
Proof.
  intros Hpack prefix. unfold pack_chunks_from in Hpack. fold prefix in Hpack.
  apply bind_Ok in Hpack as ([] & Hlen & Hpack). apply reject_if_Ok, negb_false_iff, Nat.eqb_eq in Hlen.
  apply bind_Ok in Hpack as ([] & Hrec & Hpack).
  apply bind_Ok in Hpack as ([cs pending] & Hfold & Hpack).
  apply bind_Ok in Hpack as (cs' & Hlast & Hplan). injection Hplan as <-.
  split; [done|]. split; [done|]. simpl.
  destruct (pack_rows_inv _ _ _ _ ([], []) _ (pack_inv_init prefix) Hfold) as [segs Hinv]. simpl in Hinv.
  case_bool_decide as Hp.
  - injection Hlast as <-. pose proof Hinv as [Hc Hb Hi Hu _ Hidle Hg].
    exists segs. subst pending. rewrite app_nil_r in Hc. split_and!; try done.
    intros k seg _. apply Hg.
  - apply bind_Ok in Hlast as (k & Hk & Hlast). apply bind_Ok in Hlast as (c & Hbc & Hlast).
    injection Hlast as <-. apply next_index_Ok in Hk as [-> _].
    destruct (pack_inv_close _ _ _ _ _ _ Hinv Hp Hbc) as (_ & Hb' & Hi' & Hu').
    destruct Hinv as [Hc _ _ _ _ _ Hg]. exists (segs ++ [pending]). split_and!; try done.
    + rewrite concat_app. simpl. by rewrite app_nil_r.
    + intros j seg Hj Hseg. rewrite length_app in Hj. simpl in Hj.
      rewrite lookup_app_l in Hseg by lia. rewrite take_app_le by lia. by apply Hg.
Qed.

(** The entry a row and its destination's ATA status determine. *)
Definition entry_for (row : TransferRow) (dest : DestinationAtaStatus) : PlannedTransferEntry := {|
  entry_row_number := row_number row;
  entry_recipient := row_recipient row;
  entry_amount_raw := row_amount_raw row;
  entry_ata_creation_required := negb (dest_exists dest) |}.

Lemma planned_entries_all :
  length (manifest_rows manifest) = length (destinations ata) →
  map planned_entry (seq 0 (length (manifest_rows manifest))) =
  zip_with entry_for (manifest_rows manifest) (destinations ata).
Proof.
  intros Hlen. apply list_eq. intros i. rewrite lookup_zip_with.
  destruct (decide (i < length (manifest_rows manifest))%nat) as [Hi|Hi].
  - destruct (lookup_lt_is_Some_2 _ _ Hi) as [row Hrow].
    destruct (lookup_lt_is_Some_2 (destinations ata) i) as [dest Hdest]; [lia|].
    rewrite list_lookup_fmap, lookup_seq_lt, Hrow, Hdest by lia. simpl. f_equal.
    unfold planned_entry, entry_for, row_at, dest_at.
    by rewrite (list_lookup_total_correct _ _ _ Hrow), (list_lookup_total_correct _ _ _ Hdest).
  - rewrite lookup_ge_None_2 by (rewrite length_map, length_seq; lia).
    by rewrite (lookup_ge_None_2 (manifest_rows manifest)) by lia.
Qed.

Lemma segs_entries prefix segs cs :
  Forall2 (λ seg c, seg ≠ [] ∧ build_planned_chunk seg (chunk_index c) prefix = Ok c) segs cs →
  concat (map entries cs) = map planned_entry (concat segs) ∧
  Forall (λ c, entries c ≠ [] ∧
    (fee_payer_mode = Gasless → zlen (entries c) ≤ MAX_GASLESS_TRANSFERS_PER_CHUNK)) cs.
Proof.
  induction 1 as [|seg c segs cs [Hne Hb] _ [IHe IHf]]; [split; [done|constructor]|].
  destruct (build_planned_chunk_Ok _ _ _ _ Hb) as (_ & He & _ & _ & Hg).
  simpl. rewrite map_app, He, IHe. split; [done|]. constructor; [|done]. split.
  - rewrite He. by destruct seg.
  - rewrite He. unfold zlen in *. by rewrite length_map.
Qed.

Lemma packed_chunks_preserve plan :
  pack_chunks_from = Ok plan →
  concat (map entries (chunks plan)) = zip_with entry_for (manifest_rows manifest) (destinations ata) ∧
  concat (map row_numbers (chunks plan)) = map row_number (manifest_rows manifest) ∧
  map chunk_index (chunks plan) = seqZ first_chunk_index (zlen (chunks plan)) ∧
  Forall is_u32 (map chunk_index (chunks plan)) ∧
  Forall (λ c, entries c ≠ [] ∧
    (fee_payer_mode = Gasless → zlen (entries c) ≤ MAX_GASLESS_TRANSFERS_PER_CHUNK)) (chunks plan).
Proof.
  intros (Hlen & _ & segs & Hc & Hb & Hi & Hu & _)%packed_rows_in_order.
  destruct (segs_entries _ _ _ Hb) as [He Hf]. rewrite Hc, planned_entries_all in He by done.
  split_and!; try done. unfold row_numbers.
  rewrite <- (map_map entries (map entry_row_number)), <- concat_map, He.
  clear -Hlen. revert Hlen. generalize (destinations ata).
  induction (manifest_rows manifest) as [|r rows IH]; intros [|d ds] Hlen; try done.
  simpl. f_equal. apply IH. by injection Hlen.
Qed.

(** C36. Packing neither drops, duplicates, reorders nor alters a payout: the
    entries of the chunks, concatenated, are the manifest's rows in order,
    each with its ATA-creation flag; no chunk is empty, chunk indices are
    consecutive [u32] values from the first free one, and a gasless chunk
    stays within the split limit. *)
Theorem packing_preserves_payouts plan :
  pack_chunks_from = Ok plan →
  concat (map entries (chunks plan)) = zip_with entry_for (manifest_rows manifest) (destinations ata) ∧
  concat (map row_numbers (chunks plan)) = map row_number (manifest_rows manifest) ∧
  map chunk_index (chunks plan) = seqZ first_chunk_index (zlen (chunks plan)) ∧
  Forall is_u32 (map chunk_index (chunks plan)) ∧
  Forall (λ c, entries c ≠ [] ∧
    (fee_payer_mode = Gasless → zlen (entries c) ≤ MAX_GASLESS_TRANSFERS_PER_CHUNK)) (chunks plan).
Proof. apply packed_chunks_preserve. Qed.

(** Packing is greedy: no chunk but the last could have taken the row
    that follows it, so a chunk is only closed when the next row would break
    a bound (packet size, account keys, compute budget or the gasless cap). *)
Theorem packing_is_greedy plan k c c' e :
  pack_chunks_from = Ok plan →
  chunks plan !! k = Some c → chunks plan !! S k = Some c' → head (entries c') = Some e →
  ∃ rows next, entries c = map planned_entry rows ∧ e = planned_entry next ∧
    is_ok (build_planned_chunk (rows ++ [next]) (chunk_index c)
             (manifest_hash_prefix (hash_hex (manifest_hash manifest)))) = false.
Proof.
  intros (Hlen & _ & segs & Hc & Hb & Hi & _ & Hg)%packed_rows_in_order Hk Hk' He.
  destruct (Forall2_lookup_r _ _ _ _ _ Hb Hk) as (seg & Hseg & _ & Hbc).
  destruct (Forall2_lookup_r _ _ _ _ _ Hb Hk') as (seg' & Hseg' & Hne' & Hbc').
  destruct (build_planned_chunk_Ok _ _ _ _ Hbc) as (_ & Hec & _).
  destruct (build_planned_chunk_Ok _ _ _ _ Hbc') as (_ & Hec' & _).
  destruct seg' as [|next seg']; [done|]. rewrite Hec' in He. injection He as <-.
  exists seg, next. split_and!; [done..|].
  assert (chunk_index c = first_chunk_index + Z.of_nat k) as ->.
  { assert (map chunk_index (chunks plan) !! k = Some (chunk_index c)) as Hm
      by (by rewrite list_lookup_fmap, Hk).
    rewrite Hi in Hm. apply lookup_seqZ in Hm. lia. }
  assert (next = length (concat (take (S k) segs))) as ->.
  { rewrite <- (take_drop (S k) segs), concat_app, (drop_S _ _ _ Hseg') in Hc. simpl in Hc.
    assert (seq 0 (length (manifest_rows manifest)) !! length (concat (take (S k) segs)) = Some next) as Hl.
    { rewrite <- Hc, lookup_app_r, Nat.sub_diag by lia. done. }
    apply lookup_seq in Hl. lia. }
  apply Hg; [|done]. apply lookup_lt_Some in Hseg'. done.
Qed.

(** *** Packing succeeds whenever every row fits on its own *)

Lemma segs_count prefix segs cs :
  Forall2 (λ seg c, seg ≠ [] ∧ build_planned_chunk seg (chunk_index c) prefix = Ok c) segs cs →
  (length cs ≤ length (concat segs))%nat.
Proof.
  induction 1 as [|seg c segs cs [Hne _] _ IH]; simpl; [lia|].
  rewrite length_app. destruct seg; [done|]. simpl. lia.
Qed.

Lemma pack_inv_count prefix seen segs cs pending :
  pack_inv prefix seen segs cs pending → (length cs + length pending ≤ seen)%nat.
Proof.
  intros [Hc Hb _ _ _ _ _]. apply segs_count in Hb. apply (f_equal length) in Hc.
  rewrite length_app, length_seq in Hc. lia.
Qed.

Lemma is_ok_true {E A} (r : result E A) : is_ok r = true → ∃ a, r = Ok a.
Proof. destruct r; [eauto|done]. Qed.

Section progress.
Context (prefix : string) (n : nat).
Hypothesis first_nonneg : 0 ≤ first_chunk_index.
Hypothesis indices_fit : first_chunk_index + Z.of_nat n ≤ 2 ^ 32.
Hypothesis row_fits : ∀ i k, (i < n)%nat → first_chunk_index ≤ k < first_chunk_index + Z.of_nat n →
  is_ok (build_planned_chunk [i] k prefix) = true.

Lemma pack_row_progress seen segs cs pending :
  pack_inv prefix seen segs cs pending → (seen < n)%nat →
  ∃ st', pack_row prefix (cs, pending) seen = Ok st'.
Proof.
  intros Hinv Hseen. pose proof (pack_inv_count _ _ _ _ _ Hinv) as Hcount.
  pose proof (zlen_nonneg cs) as Hcs. unfold zlen in *. unfold pack_row.
  rewrite next_index_fits by (unfold zlen; lia). rewrite bind_ok_simpl.
  assert (first_chunk_index ≤ first_chunk_index + zlen cs < first_chunk_index + Z.of_nat n) as Hr
    by (unfold zlen; lia).
  match goal with |- ∃ st', match ?b with _ => _ end = _ => set (br := b) end.
  assert ((∃ c, br = Some (Ok c)) ∨
          pending ≠ [] ∧ (br = None ∨ ∃ e, br = Some (Err e))) as [[c ->]|[Hne Hbr]]; [|by eauto|].
  { destruct pending as [|i pending].
    - left. unfold br. destruct (is_ok_true _ (row_fits seen _ Hseen Hr)) as [c Hc]. simpl.
      destruct (bool_decide _ && _) eqn:Hcap; [|by rewrite Hc; eauto].
      apply (build_over_cap [seen] (first_chunk_index + zlen cs) prefix) in Hcap.
      by rewrite Hc in Hcap.
    - unfold br. case_match; [by eauto 10|].
      destruct (build_planned_chunk _ _ _); eauto 10. }
  destruct Hinv as [_ _ _ _ Ho _ _]. destruct (Ho Hne) as [_ Hb].
  apply is_ok_true in Hb as [c Hc].
  assert ((length (pending ++ [seen]) =? 1)%nat = false) as Hl.
  { apply Nat.eqb_neq. rewrite length_app. destruct pending; [done|]. simpl. lia. }
  assert (length pending ≠ 0)%nat by (by destruct pending).
  assert (first_chunk_index ≤ first_chunk_index + zlen (cs ++ [c]) < first_chunk_index + Z.of_nat n) as Hr'.
  { unfold zlen. rewrite length_app. simpl. lia. }
  destruct (is_ok_true _ (row_fits _ _ Hseen Hr')) as [c' Hc'].
  exists (cs ++ [c], [seen]).
  destruct Hbr as [-> |[e ->]]; rewrite Hl; cbn [reject_if]; rewrite bind_ok_simpl, Hc, bind_ok_simpl;
    (rewrite next_index_fits, bind_ok_simpl, Hc'; [done|lia|]);
    unfold zlen; rewrite length_app; simpl; lia.
Qed.

Lemma pack_rows_progress k : ∀ seen segs st,
  pack_inv prefix seen segs st.1 st.2 → (seen + k ≤ n)%nat →
  ∃ st' segs', try_fold (pack_row prefix) st (seq seen k) = Ok st' ∧
    pack_inv prefix (seen + k) segs' st'.1 st'.2.
Proof.
  induction k as [|k IH]; intros seen segs [cs pending] Hinv Hk.
  { exists (cs, pending), segs. by rewrite Nat.add_0_r. }
  destruct (pack_row_progress _ _ _ _ Hinv) as [st Hst]; [lia|]. cbn [fst snd] in Hst.
  destruct (pack_row_inv _ _ _ _ _ _ Hinv Hst) as [segs1 Hinv1].
  destruct (IH (S seen) segs1 st Hinv1) as (st' & segs' & Hfold & Hinv'); [lia|].
  exists st', segs'. cbn [seq try_fold]. rewrite Hst, bind_ok_simpl. split; [done|].
  by replace (seen + S k)%nat with (S seen + k)%nat by lia.
Qed.
End progress.

Lemma check_recipients_Ok :
  Forall2 (λ row dest, row_recipient row = dest_recipient dest) (manifest_rows manifest) (destinations ata) →
  check_recipients = Ok tt.
Proof.
  unfold check_recipients.
  induction 1 as [|row dest rows ds Heq _ IH]; [done|]. cbn [zip zip_with try_fold fst snd].
  rewrite bool_decide_eq_false_2 by (intros Hne; by apply Hne). exact IH.
Qed.

(** Packing always produces a plan when the ATA snapshot matches the
    manifest, every row fits in a transaction on its own and the chunk
    indices fit [u32]: closing a chunk can never fail, since what is closed
    was just built. *)
Theorem packing_succeeds_when_rows_fit :
  let n := length (manifest_rows manifest) in
  Forall2 (λ row dest, row_recipient row = dest_recipient dest) (manifest_rows manifest) (destinations ata) →
  0 ≤ first_chunk_index → first_chunk_index + Z.of_nat n ≤ 2 ^ 32 →
  (∀ i k, (i < n)%nat → first_chunk_index ≤ k < first_chunk_index + Z.of_nat n →
     is_ok (build_planned_chunk [i] k (manifest_hash_prefix (hash_hex (manifest_hash manifest)))) = true) →
  ∃ plan, pack_chunks_from = Ok plan.
Proof.
  intros n Hmatch Hf Hfit Hrows. unfold pack_chunks_from.
  rewrite (proj2 (Nat.eqb_eq _ _) (Forall2_length _ _ _ Hmatch)). cbn [negb reject_if].
  rewrite bind_ok_simpl, check_recipients_Ok, bind_ok_simpl by done.
  set (prefix := manifest_hash_prefix _) in *. fold n.
  destruct (pack_rows_progress prefix n Hf Hfit Hrows n 0 [] ([], [])) as ([cs pending] & segs & -> & Hinv);
    [apply pack_inv_init|lia|].
  rewrite bind_ok_simpl. simpl in Hinv. case_bool_decide as Hp; [by eexists|].
  pose proof (pack_inv_count _ _ _ _ _ Hinv) as Hcount.
  destruct Hinv as [_ _ _ _ Ho _ _]. destruct (Ho Hp) as [_ Hb]. apply is_ok_true in Hb as [c Hc].
  assert (length pending ≠ 0)%nat by (by destruct pending).
  rewrite next_index_fits, bind_ok_simpl, Hc by (unfold zlen; lia). by eexists.
Qed.

(** The plan pays exactly the manifest's authorized total. *)
Theorem packed_total_is_manifest_total blake3 plan :
  manifest_wf blake3 manifest → pack_chunks_from = Ok plan →
  total_token_raw plan = Ok (total_amount_raw manifest).
Proof.
  intros Hwf (Hlen & _ & segs & Hc & Hb & _)%packed_rows_in_order.
  destruct (segs_entries _ _ _ Hb) as [He _]. rewrite Hc, planned_entries_all in He by done.
  assert (map entry_amount_raw (concat (map entries (chunks plan))) =
          map row_amount_raw (manifest_rows manifest)) as Ha.
  { rewrite He. clear -Hlen. revert Hlen. generalize (destinations ata).
    induction (manifest_rows manifest) as [|r rows IH]; intros [|d ds] Hlen; try done.
    simpl. f_equal. apply IH. by injection Hlen. }
  destruct Hwf as [_ _ _ _ Hpos Htot Hu _].
  rewrite Htot, <- Ha. apply total_token_raw_fits.
  - rewrite Ha. apply Forall_map. eapply Forall_impl; [exact Hpos|]. simpl. lia.
  - rewrite Ha, <- Htot. apply Hu.
Qed.

End pack.

Definition pack_chunks (manifest : TransferManifest) (ata : AtaSnapshot)
    (fee_payer_mode : FeePayerMode) (sender fee_payer : Pubkey) (unit_price : Z) :
    res TransactionPlan :=
  pack_chunks_from manifest ata fee_payer_mode sender fee_payer unit_price 0.

Definition build_chunk_transaction (chunk : PlannedChunk) (mint token_program : Pubkey) (decimals : Z)
    (sender fee_payer : Pubkey) (blockhash : list Z) : res VersionedTransaction :=
  last ← ok_or (checked_sub 64 (zlen (entries chunk)) 1)
           (Config "cannot build a transaction for a chunk with no entries");
  let kit_entries := imap (λ position entry, {|
        te_recipient := entry_recipient entry;
        te_amount := entry_amount_raw entry;
        te_ata_creation_required := entry_ata_creation_required entry;
        te_memo := memo_at_last (memo chunk) (Z.to_nat last) position |}) (entries chunk) in
  batch ← map_err kit_error
            (build_spl_transfer_batch_instructions sender mint token_program decimals fee_payer kit_entries);
  map_err Config (build_unsigned fee_payer
    (compute_unit_price_instruction (compute_unit_price_micro_lamports chunk) ::
     compute_unit_limit_instruction (compute_unit_limit chunk) :: batch) blockhash).
End planner.

(** ** Fee mode and compute units *)

(** The fee mode is decided exactly as documented: a cost that does not
    fit [u64] is an error; otherwise the sender pays exactly when that was not
    ruled out and the balance covers fee, rent and reserve, and pay-api pays
    exactly when it is available and was asked for, or the automatic mode is
    short of SOL.  A forced mode never falls back to the other. *)
Theorem fee_mode_decision requested sol cost available :
  is_u64 (estimated_fee_lamports cost) → is_u64 (missing_ata_rent_lamports cost) →
  is_u64 (reserve_lamports cost) →
  let total := estimated_fee_lamports cost + missing_ata_rent_lamports cost + reserve_lamports cost in
  let decision := decide_fee_mode requested sol cost available in
  (2 ^ 64 ≤ total → is_ok decision = false) ∧
  (total < 2 ^ 64 →
     (decision = Ok SelfFunded ↔ requested ≠ GaslessRequest ∧ total ≤ sol) ∧
     (decision = Ok Gasless ↔
        available = true ∧ (requested = GaslessRequest ∨ requested = AutoRequest ∧ sol < total))).
Proof.
  intros [] [] []. simpl. unfold decide_fee_mode, total_lamports. split; intros Ht.
  - destruct (checked_add 64 (estimated_fee_lamports cost) _) as [s|] eqn:Hs; [|done].
    apply try_from_Some in Hs as [-> _]. simpl.
    destruct (checked_add 64 (_ + _) _) as [s|] eqn:Hs; [|done].
    apply try_from_Some in Hs as [-> []]. lia.
  - rewrite checked_add_in by (split; lia). simpl. rewrite checked_add_in by (split; lia). simpl.
    destruct (Z.leb_spec (estimated_fee_lamports cost + missing_ata_rent_lamports cost
                          + reserve_lamports cost) sol); destruct requested, available; naive_solver lia.
Qed.

Lemma fee_mode_decision_witness :
  let cost := {| estimated_fee_lamports := 5000; missing_ata_rent_lamports := 2039280;
                 reserve_lamports := 10000 |} in
  decide_fee_mode AutoRequest 2054280 cost true = Ok SelfFunded ∧
  decide_fee_mode AutoRequest 2054279 cost true = Ok Gasless.
Proof.
  intros cost. split.
  - apply (fee_mode_decision AutoRequest 2054280 cost true); vm_compute; intuition congruence.
  - apply (fee_mode_decision AutoRequest 2054279 cost true); vm_compute; intuition congruence.
Defined.

(** The rent of the two account sizes the planner knows. *)
Lemma rent_of_token_accounts `{Kit} token_program :
  rent_exempt_minimum_lamports (token_account_len token_program) =
  if bool_decide (token_program = token_2022_program_id) then 2074080 else 2039280.
Proof. unfold token_account_len. case_bool_decide; vm_compute; reflexivity. Qed.

(** The refined compute-unit limit is the consumption plus fifteen
    percent, rounded up, plus the fixed margin, and never more than the
    cluster ceiling; saturation never lowers it below that formula. *)
Theorem refined_limit_covers_consumption `{Kit} units :
  is_u64 units → 0 ≤ SOLANA_MAX_COMPUTE_UNIT_LIMIT < 2 ^ 32 →
  let limit := refine_compute_unit_limit units in
  is_u32 limit ∧ limit ≤ SOLANA_MAX_COMPUTE_UNIT_LIMIT ∧
  (limit < SOLANA_MAX_COMPUTE_UNIT_LIMIT →
     115 * units ≤ 100 * (limit - 10000) < 115 * units + 100).
Proof.
  intros [Hu0 Hu] Hmax. unfold refine_compute_unit_limit, div_ceil, saturating_add, saturating_mul.
  assert (0 ≤ Z.min (2 ^ 64 - 1) (units * 115)) by lia.
  pose proof (Z.div_mod (Z.min (2 ^ 64 - 1) (units * 115) + 100 - 1) 100 ltac:(lia)).
  pose proof (Z.mod_pos_bound (Z.min (2 ^ 64 - 1) (units * 115) + 100 - 1) 100 ltac:(lia)).
  unfold in_range. simpl. lia.
Qed.

(** ** A concrete kit *)
Module SampleKit.
Definition key (n : Z) : Pubkey := replicate 32 n.
Definition ata_of (owner : Pubkey) : Pubkey := map (λ b, (b + 128) mod 256) owner.
Definition meta (k : Pubkey) : AccountMeta := {| meta_pubkey := k; meta_signer := false; meta_writable := true |}.

Definition entry_instructions (sender mint program : Pubkey) (decimals : Z) (payer : Pubkey)
    (e : TransferEntry) : list Instruction :=
  (if te_ata_creation_required e
   then [ {| ix_program := key 3;
             ix_accounts := map meta [payer; ata_of (te_recipient e); te_recipient e; mint; key 0; program];
             ix_data := [1] |} ] else []) ++
  [ {| ix_program := program;
       ix_accounts := map meta [ata_of sender; mint; ata_of (te_recipient e); sender];
       ix_data := 12 :: le_bytes 8 (te_amount e) ++ [decimals] |} ] ++
  match te_memo e with
  | Some memo => [ {| ix_program := key 2; ix_accounts := []; ix_data := str_bytes memo |} ]
  | None => []
  end.

(** Static keys: the fee payer first, every other key once. *)
Definition keys_of (payer : Pubkey) (ixs : list Instruction) : list Pubkey :=
  payer :: filter (λ k, k ≠ payer)
    (remove_dups (concat (map (λ ix, ix_program ix :: map meta_pubkey (ix_accounts ix)) ixs))).
Definition index_of (keys : list Pubkey) (k : Pubkey) : Z :=
  match list_find (λ x, x = k) keys with Some (i, _) => Z.of_nat i | None => 0 end.
Definition compile (payer : Pubkey) (ixs : list Instruction) (hash : list Z) : VersionedTransaction :=
  let keys := keys_of payer ixs in {|
    message := {| static_account_keys := keys;
                  instructions := map (λ ix, {|
                    program_id_index := index_of keys (ix_program ix);
                    accounts := map (λ m, index_of keys (meta_pubkey m)) (ix_accounts ix);
                    data := ix_data ix |}) ixs;
                  recent_blockhash := hash |};
    signatures := [replicate 64 0] |}.
Definition wire_size (tx : VersionedTransaction) : Z :=
  100 + 32 * zlen (static_account_keys (message tx)) +
  zsum (map (λ ix, 3 + zlen (accounts ix) + zlen (data ix)) (instructions (message tx))).

#[global] Instance kit : Kit := {|
  MAX_SPLITS := 8;
  SOLANA_MAX_COMPUTE_UNIT_LIMIT := 1400000;
  compute_budget_program_id := key 1;
  memo_program_id := key 2;
  associated_token_program_id := key 3;
  token_program_id := key 4;
  token_2022_program_id := key 5;
  system_program_id := key 0;
  find_program_address := λ seeds _, ata_of (default [] (head seeds));
  unit_price_instruction := λ n, {| ix_program := key 1; ix_accounts := []; ix_data := 3 :: le_bytes 8 n |};
  unit_limit_instruction := λ n, {| ix_program := key 1; ix_accounts := []; ix_data := 2 :: le_bytes 4 n |};
  compute_budget_validate := λ _ limit, if 1400000 <? limit then Err "limit" else Ok tt;
  build_spl_transfer_batch_instructions := λ sender mint program decimals payer es,
    Ok (concat (map (entry_instructions sender mint program decimals payer) es));
  build_unsigned_unchecked := λ payer ixs hash, Ok (compile payer ixs hash);
  build_unsigned := λ payer ixs hash,
    if 1232 <? wire_size (compile payer ixs hash) then Err "too large" else Ok (compile payer ixs hash);
  check_transaction_size := λ tx, if 1232 <? wire_size tx then Err "too large" else Ok (wire_size tx)
|}.

(** Sixteen recipients, of which the first five lack an ATA. *)
Definition sender : Pubkey := key 10.
Definition rows : list TransferRow :=
  map (λ i, {| row_number := i; row_recipient := key (18 + i); row_amount_raw := 100 * i |}) (seqZ 2 16).
Definition ctx : ManifestContext := {|
  network_genesis_hash := key 7; ctx_mint := key 8; ctx_token_program := key 4; ctx_decimals := 6 |}.
Definition manifest : TransferManifest := {|
  manifest_context := ctx; manifest_rows := rows; total_amount_raw := 15200;
  manifest_hash := canonical_preimage ctx rows |}.
Definition ata : AtaSnapshot := {|
  sender_ata := ata_of sender; sender_ata_exists := true;
  destinations := map (λ r, {| dest_recipient := row_recipient r; dest_ata := ata_of (row_recipient r);
                               dest_exists := 6 <? row_number r |}) rows |}.
Abbreviation pack_from first := (pack_chunks_from manifest ata SelfFunded sender sender 1000 first).
Definition plan : TransactionPlan :=
  match pack_from 4 with
  | Ok p => p
  | Err _ => {| plan_fee_payer_mode := Gasless; plan_fee_payer := []; chunks := [] |}
  end.

Definition chunk_at (k : nat) : PlannedChunk :=
  default {| chunk_index := 0; entries := []; compute_unit_price_micro_lamports := 0;
             compute_unit_limit := 0; memo := ""; serialized_len := 0 |} (chunks plan !! k).

Lemma manifest_is_wf : manifest_wf (λ x, x) manifest.
Proof.
  split; try (vm_compute; congruence).
  - apply (bool_decide_unpack _). vm_compute. exact I.
  - apply (bool_decide_unpack _). vm_compute. exact I.
  - vm_compute. intuition congruence.
Qed.

Lemma packs : pack_from 4 = Ok plan.
Proof. vm_compute. reflexivity. Qed.
Example sizes : map row_numbers (chunks plan) = [[2; 3; 4; 5; 6; 7; 8; 9; 10; 11; 12; 13]; [14; 15; 16; 17]].
Proof. vm_compute. reflexivity. Qed.
End SampleKit.

Lemma packing_preserves_payouts_witness :
  concat (map row_numbers (chunks SampleKit.plan)) = seqZ 2 16 ∧
  map chunk_index (chunks SampleKit.plan) = [4; 5].
Proof.
  destruct (packing_preserves_payouts SampleKit.manifest SampleKit.ata SelfFunded SampleKit.sender
              SampleKit.sender 1000 4 SampleKit.plan SampleKit.packs) as (_ & Hrows & Hidx & _).
  split; [exact Hrows|]. rewrite Hidx. vm_compute. reflexivity.
Defined.

Lemma packing_is_greedy_witness :
  ∃ rows next,
    entries (SampleKit.chunk_at 0) = map (planned_entry SampleKit.manifest SampleKit.ata) rows ∧
    planned_entry SampleKit.manifest SampleKit.ata 12 = planned_entry SampleKit.manifest SampleKit.ata next ∧
    is_ok (build_planned_chunk SampleKit.manifest SampleKit.ata SelfFunded SampleKit.sender
             SampleKit.sender 1000 (rows ++ [next]) (chunk_index (SampleKit.chunk_at 0))
             (manifest_hash_prefix (hash_hex (manifest_hash SampleKit.manifest)))) = false.
Proof.
  apply (packing_is_greedy SampleKit.manifest SampleKit.ata SelfFunded SampleKit.sender
           SampleKit.sender 1000 4 SampleKit.plan 0 (SampleKit.chunk_at 0) (SampleKit.chunk_at 1)).
  - exact SampleKit.packs.
  - vm_compute. reflexivity.
  - vm_compute. reflexivity.
  - vm_compute. reflexivity.
Defined.

Lemma packing_succeeds_when_rows_fit_witness :
  ∃ plan, pack_chunks_from SampleKit.manifest SampleKit.ata SelfFunded SampleKit.sender
            SampleKit.sender 1000 4 = Ok plan.
Proof.
  apply (packing_succeeds_when_rows_fit SampleKit.manifest SampleKit.ata SelfFunded SampleKit.sender
           SampleKit.sender 1000 4).
  - unfold SampleKit.ata, SampleKit.manifest. simpl. repeat constructor.
  - lia.
  - vm_compute. congruence.
  - intros i k Hi Hk.
    assert (forallb (λ i, forallb (λ k, is_ok (build_planned_chunk SampleKit.manifest SampleKit.ata
              SelfFunded SampleKit.sender SampleKit.sender 1000 [i] k
              (manifest_hash_prefix (hash_hex (manifest_hash SampleKit.manifest)))))
              (seqZ 4 16)) (seq 0 16) = true) as Hall by (vm_compute; reflexivity).
    rewrite forallb_forall in Hall. specialize (Hall i). rewrite forallb_forall in Hall.
    apply Hall; [apply in_seq; simpl in Hi; lia|]. apply list_elem_of_In, elem_of_seqZ. simpl in Hk. lia.
Defined.

Lemma packed_total_is_manifest_total_witness :
  total_token_raw SampleKit.plan = Ok 15200.
Proof.
  apply (packed_total_is_manifest_total SampleKit.manifest SampleKit.ata SelfFunded SampleKit.sender
           SampleKit.sender 1000 4 (λ x, x) SampleKit.plan).
  - exact SampleKit.manifest_is_wf.
  - exact SampleKit.packs.
Defined.

Lemma refined_limit_covers_consumption_witness :
  refine_compute_unit_limit 100001 = 125002 ∧
  115 * 100001 ≤ 100 * (refine_compute_unit_limit 100001 - 10000) < 115 * 100001 + 100.
Proof.
  split; [vm_compute; reflexivity|].
  apply (refined_limit_covers_consumption 100001); vm_compute; intuition congruence.
Defined.
