(* ===== verification/PushPermit.v ===== *)
(** * PushPermit: the one-approval batch signing permit

    [core/src/client/push/permit.rs].  The clock, the loaded signer, the wire
    encoder and base58 display are parameters; the permit's own state is
    passed explicitly, and every operation returns the next state together
    with its result, since a failed call may still have changed it. *)
From S2P Require Import Prelude Text PushManifest PushPlanner.
#[local] Open Scope string_scope.
#[local] Open Scope list_scope.
#[local] Open Scope Z_scope.

Definition MAX_RESIGN_ATTEMPTS_PER_CHUNK : Z := 5.

(** ** The plan shown is the plan signed *)

Definition expected_rows (manifest : TransferManifest) : gmap Z (Pubkey * Z) :=
  foldl (λ m row, <[row_number row := (row_recipient row, row_amount_raw row)]> m) ∅
    (manifest_rows manifest).

(** [expected.remove(&entry.row_number)] and the comparison, for one entry. *)
Definition match_entry (expected : gmap Z (Pubkey * Z)) (entry : PlannedTransferEntry) :
    res (gmap Z (Pubkey * Z)) :=
  match expected !! entry_row_number entry with
  | Some (recipient, amount_raw) =>
      if bool_decide (recipient = entry_recipient entry) && (amount_raw =? entry_amount_raw entry)
      then Ok (delete (entry_row_number entry) expected)
      else Err (Config ("plan row " +:+ show (entry_row_number entry) +:+
                        " does not match the authorized manifest's recipient/amount"))
  | None => Err (Config ("plan row " +:+ show (entry_row_number entry) +:+
                         " is not present in the authorized manifest"))
  end.

Definition validate_plan_matches_manifest (manifest : TransferManifest) (plan : TransactionPlan) : res unit :=
  expected ← try_fold (λ expected chunk, try_fold match_entry expected (entries chunk))
               (expected_rows manifest) (chunks plan);
  reject_if (negb (bool_decide (expected = ∅)))
    (Config ("plan is missing " +:+ show (Z.of_nat (size expected)) +:+
             " manifest row(s) that were shown for approval")).

(** ** State *)
Record SignedChunkRecord := {
  rec_blockhash : list Z;
  rec_last_valid_block_height : Z;
  rec_attempts : Z
}.
Record BlockhashExpiryProof := {
  previous_blockhash : list Z;
  previous_last_valid_block_height : Z;
  confirmed_current_block_height : Z
}.
Record SignedChunk := {
  signed_chunk_index : Z;
  signed_row_numbers : list Z;
  signed_signature : list Z;
  signed_transaction_base64 : string;
  signed_blockhash : list Z;
  signed_last_valid_block_height : Z
}.
Record BatchAuthorizationSummary := {
  sum_account : string;
  sum_currency : string;
  sum_currency_decimals : Z;
  sum_network : string;
  recipient_total_raw : Z;
  max_total_raw : Z
}.
Record BatchSigningPermit := {
  permit_manifest_hash : list Z;
  account_pubkey : Pubkey;
  permit_genesis_hash : list Z;
  permit_mint : Pubkey;
  permit_token_program : Pubkey;
  permit_decimals : Z;
  source_ata : Pubkey;
  fee_payer_mode : FeePayerMode;
  permit_fee_payer : Pubkey;
  permit_chunks : list PlannedChunk;
  max_token_raw : Z;
  max_transactions : Z;
  expires_at : Z;
  signed_amount_raw : Z;
  signed_tx_count : Z;
  signed_chunks : gmap Z SignedChunkRecord
}.

Definition with_reservation (p : BatchSigningPermit) (amount count : Z) : BatchSigningPermit := {|
  permit_manifest_hash := permit_manifest_hash p; account_pubkey := account_pubkey p;
  permit_genesis_hash := permit_genesis_hash p; permit_mint := permit_mint p;
  permit_token_program := permit_token_program p; permit_decimals := permit_decimals p;
  source_ata := source_ata p; fee_payer_mode := fee_payer_mode p;
  permit_fee_payer := permit_fee_payer p; permit_chunks := permit_chunks p;
  max_token_raw := max_token_raw p; max_transactions := max_transactions p;
  expires_at := expires_at p; signed_amount_raw := amount; signed_tx_count := count;
  signed_chunks := signed_chunks p |}.
Definition with_record (p : BatchSigningPermit) (k : Z) (r : SignedChunkRecord) : BatchSigningPermit := {|
  permit_manifest_hash := permit_manifest_hash p; account_pubkey := account_pubkey p;
  permit_genesis_hash := permit_genesis_hash p; permit_mint := permit_mint p;
  permit_token_program := permit_token_program p; permit_decimals := permit_decimals p;
  source_ata := source_ata p; fee_payer_mode := fee_payer_mode p;
  permit_fee_payer := permit_fee_payer p; permit_chunks := permit_chunks p;
  max_token_raw := max_token_raw p; max_transactions := max_transactions p;
  expires_at := expires_at p; signed_amount_raw := signed_amount_raw p;
  signed_tx_count := signed_tx_count p; signed_chunks := <[k := r]> (signed_chunks p) |}.

(** ** Message validation *)
Record MessageView := {
  account_keys : list Pubkey;
  view_instructions : list CompiledInstruction
}.
Definition message_view (m : VersionedMessage) : MessageView :=
  {| account_keys := static_account_keys m; view_instructions := instructions m |}.

Definition config_error (chunk_index : Z) (detail : string) : Error :=
  Config ("chunk " +:+ show chunk_index +:+ ": " +:+ detail).

Definition instruction_at (m : MessageView) (index : nat) (k : Z) : res CompiledInstruction :=
  ok_or (view_instructions m !! index)
    (config_error k "prepared transaction is missing an expected instruction").

Definition account_at (m : MessageView) (index k : Z) : res Pubkey :=
  ok_or (account_keys m !! Z.to_nat index) (config_error k "instruction account index out of range").

(** [ix.accounts[i]]: the callers check the length first. *)
Definition nth_account (m : MessageView) (ix : CompiledInstruction) (i : nat) (k : Z) : res Pubkey :=
  account_at m (accounts ix !!! i) k.

(** [ix.data[from..from + n]] as a little-endian integer. *)
Definition data_int (ix : CompiledInstruction) (from n : nat) : Z :=
  from_le_bytes (take n (drop from (data ix))).

Section permit.
Context `{Kit}.
Context (pubkey_text : Pubkey → string).

Definition decode_compute_unit_price (m : MessageView) (ix : CompiledInstruction) (k : Z) : res Z :=
  program_id ← account_at m (program_id_index ix) k;
  _ ← reject_if (bool_decide (program_id ≠ compute_budget_program_id))
        (config_error k "expected a compute-unit-price instruction");
  _ ← reject_if (bool_decide (head (data ix) ≠ Some COMPUTE_UNIT_PRICE_DISCRIMINATOR) ||
                 negb (length (data ix) =? 9)%nat)
        (config_error k "malformed compute-unit-price instruction");
  Ok (data_int ix 1 8).

Definition decode_compute_unit_limit (m : MessageView) (ix : CompiledInstruction) (k : Z) : res Z :=
  program_id ← account_at m (program_id_index ix) k;
  _ ← reject_if (bool_decide (program_id ≠ compute_budget_program_id))
        (config_error k "expected a compute-unit-limit instruction");
  _ ← reject_if (bool_decide (head (data ix) ≠ Some COMPUTE_UNIT_LIMIT_DISCRIMINATOR) ||
                 negb (length (data ix) =? 5)%nat)
        (config_error k "malformed compute-unit-limit instruction");
  Ok (data_int ix 1 4).

Definition validate_ata_create (m : MessageView) (ix : CompiledInstruction)
    (fee_payer owner expected_ata mint token_program : Pubkey) (k : Z) : res unit :=
  program_id ← account_at m (program_id_index ix) k;
  _ ← reject_if (bool_decide (program_id ≠ associated_token_program_id))
        (config_error k "expected an ATA-create instruction");
  _ ← reject_if (bool_decide (data ix ≠ [ATA_CREATE_IDEMPOTENT_DISCRIMINATOR]))
        (config_error k "ATA-create instruction is not the idempotent variant");
  _ ← reject_if (negb (length (accounts ix) =? 6)%nat)
        (config_error k "malformed ATA-create instruction");
  payer ← nth_account m ix 0 k;
  ata ← nth_account m ix 1 k;
  owner_account ← nth_account m ix 2 k;
  mint_account ← nth_account m ix 3 k;
  system_program ← nth_account m ix 4 k;
  token_program_account ← nth_account m ix 5 k;
  _ ← reject_if (bool_decide (payer ≠ fee_payer))
        (config_error k "ATA-create is not paid by the authorized fee payer");
  _ ← reject_if (bool_decide (ata ≠ expected_ata))
        (config_error k "ATA-create targets an unexpected address");
  _ ← reject_if (bool_decide (owner_account ≠ owner))
        (config_error k "ATA-create targets an owner outside the planned recipient set");
  _ ← reject_if (bool_decide (mint_account ≠ mint))
        (config_error k "ATA-create references the wrong mint");
  _ ← reject_if (bool_decide (system_program ≠ system_program_id))
        (config_error k "ATA-create references the wrong system program");
  reject_if (bool_decide (token_program_account ≠ token_program))
    (config_error k "ATA-create references the wrong token program").

Definition validate_transfer_checked (m : MessageView) (ix : CompiledInstruction)
    (source mint expected_destination authority : Pubkey) (amount_raw decimals k : Z) : res unit :=
  program_id ← account_at m (program_id_index ix) k;
  _ ← reject_if (bool_decide (program_id ≠ token_program_id) &&
                 bool_decide (program_id ≠ token_2022_program_id))
        (config_error k "expected a Token/Token-2022 transfer instruction");
  _ ← reject_if (negb (length (accounts ix) =? 4)%nat)
        (config_error k "malformed transfer_checked instruction");
  _ ← reject_if (negb (length (data ix) =? 10)%nat ||
                 negb ((data ix !!! 0%nat) =? TRANSFER_CHECKED_DISCRIMINATOR))
        (config_error k "expected a transfer_checked instruction");
  let amount := data_int ix 1 8 in
  let ix_decimals := data ix !!! 9%nat in
  source_account ← nth_account m ix 0 k;
  mint_account ← nth_account m ix 1 k;
  destination ← nth_account m ix 2 k;
  authority_account ← nth_account m ix 3 k;
  _ ← reject_if (bool_decide (source_account ≠ source))
        (config_error k "transfer source ATA does not match the permit");
  _ ← reject_if (bool_decide (mint_account ≠ mint))
        (config_error k "transfer references the wrong mint");
  _ ← reject_if (bool_decide (destination ≠ expected_destination))
        (config_error k "transfer destination does not match the planned recipient");
  _ ← reject_if (bool_decide (authority_account ≠ authority))
        (config_error k "transfer authority does not match the permit's account");
  _ ← reject_if (negb (amount =? amount_raw))
        (config_error k ("transfer amount " +:+ show amount +:+
                         " does not match the planned amount " +:+ show amount_raw));
  reject_if (negb (ix_decimals =? decimals))
    (config_error k "transfer decimals do not match the mint").

Definition validate_memo (m : MessageView) (ix : CompiledInstruction) (expected_memo : string) (k : Z) :
    res unit :=
  program_id ← account_at m (program_id_index ix) k;
  _ ← reject_if (bool_decide (program_id ≠ memo_program_id))
        (config_error k "expected a memo instruction");
  if is_utf8 (data ix) then
    if bool_decide (data ix = str_bytes expected_memo) then Ok tt
    else Err (config_error k ("memo `" +:+ string_of_bytes (data ix) +:+
                "` does not match the planned memo `" +:+ expected_memo +:+ "`"))
  else Err (config_error k "memo is not valid UTF-8").

Definition allowed_programs : list Pubkey :=
  [compute_budget_program_id; associated_token_program_id; token_program_id;
   token_2022_program_id; memo_program_id].

Definition check_program (m : MessageView) (k : Z) (ix : CompiledInstruction) : res unit :=
  program_id ← ok_or (account_keys m !! Z.to_nat (program_id_index ix))
                 (config_error k "instruction program id index out of range");
  reject_if (negb (bool_decide (program_id ∈ allowed_programs)))
    (config_error k ("instruction uses disallowed program " +:+ pubkey_text program_id)).

(** The loop body over the planned entries: validate one entry's
    instructions at the cursor and return the advanced cursor. *)
Definition validate_entry (p : BatchSigningPermit) (m : MessageView) (k : Z) (cursor : nat)
    (entry : PlannedTransferEntry) : res nat :=
  let expected_dest_ata :=
    derive_associated_token_address (entry_recipient entry) (permit_mint p) (permit_token_program p) in
  cursor ← (if entry_ata_creation_required entry then
              ix ← instruction_at m cursor k;
              _ ← validate_ata_create m ix (permit_fee_payer p) (entry_recipient entry)
                    expected_dest_ata (permit_mint p) (permit_token_program p) k;
              Ok (S cursor)
            else Ok cursor);
  ix ← instruction_at m cursor k;
  _ ← validate_transfer_checked m ix (source_ata p) (permit_mint p) expected_dest_ata
        (account_pubkey p) (entry_amount_raw entry) (permit_decimals p) k;
  Ok (S cursor).

Definition validate_prepared_transaction (p : BatchSigningPermit) (plan : PlannedChunk)
    (tx : VersionedTransaction) : res unit :=
  let m := message_view (message tx) in
  let k := chunk_index plan in
  actual_fee_payer ← ok_or (head (account_keys m)) (config_error k "prepared transaction has no accounts");
  _ ← reject_if (bool_decide (actual_fee_payer ≠ permit_fee_payer p))
        (config_error k ("fee payer " +:+ pubkey_text actual_fee_payer +:+
           " does not match the authorized fee payer " +:+ pubkey_text (permit_fee_payer p)));
  _ ← try_fold (λ _ ix, check_program m k ix) tt (view_instructions m);
  price_ix ← instruction_at m 0 k;
  price ← decode_compute_unit_price m price_ix k;
  _ ← reject_if (compute_unit_price_micro_lamports plan <? price)
        (config_error k ("compute-unit price " +:+ show price +:+ " exceeds the approved ceiling of " +:+
           show (compute_unit_price_micro_lamports plan)));
  limit_ix ← instruction_at m 1 k;
  limit ← decode_compute_unit_limit m limit_ix k;
  _ ← reject_if (compute_unit_limit plan <? limit)
        (config_error k ("compute-unit limit " +:+ show limit +:+ " exceeds the approved ceiling of " +:+
           show (compute_unit_limit plan)));
  cursor ← try_fold (validate_entry p m k) 2%nat (entries plan);
  memo_ix ← instruction_at m cursor k;
  _ ← validate_memo m memo_ix (memo plan) k;
  let cursor := S cursor in
  reject_if (negb (cursor =? length (view_instructions m))%nat)
    (config_error k ("prepared transaction has " +:+
       show (zlen (view_instructions m) - Z.of_nat cursor) +:+
       " unexpected trailing instruction(s)")).

(** ** Authorization *)

(** [load_signer] is the outcome of showing the prompt and loading the
    signer: its public key or an error. *)
Definition authorize (network_genesis_hash : list Z) (manifest : TransferManifest)
    (plan : TransactionPlan) (summary : BatchAuthorizationSummary) (now ttl : Z)
    (load_signer : res Pubkey) : res BatchSigningPermit :=
  _ ← validate_plan_matches_manifest manifest plan;
  account ← load_signer;
  Ok {| permit_manifest_hash := manifest_hash manifest;
        account_pubkey := account;
        permit_genesis_hash := network_genesis_hash;
        permit_mint := ctx_mint (manifest_context manifest);
        permit_token_program := ctx_token_program (manifest_context manifest);
        permit_decimals := ctx_decimals (manifest_context manifest);
        source_ata := derive_associated_token_address account (ctx_mint (manifest_context manifest))
                        (ctx_token_program (manifest_context manifest));
        fee_payer_mode := plan_fee_payer_mode plan;
        permit_fee_payer := plan_fee_payer plan;
        permit_chunks := chunks plan;
        max_token_raw := max_total_raw summary;
        max_transactions := zlen (chunks plan);
        expires_at := now + ttl;
        signed_amount_raw := 0;
        signed_tx_count := 0;
        signed_chunks := ∅ |}.

Definition plan_for (p : BatchSigningPermit) (k : Z) : res PlannedChunk :=
  ok_or (find (λ c, chunk_index c =? k) (permit_chunks p))
    (Config ("permit has no chunk index " +:+ show k)).

Definition ensure_not_expired (p : BatchSigningPermit) (now : Z) : res unit :=
  reject_if (expires_at p <? now)
    (Config "batch signing permit has expired; re-run `pay push --resume` to authorize again").

(** The signer fills its own signature slot; the encoder serializes. *)
Record Signer := {
  sign_slot : VersionedTransaction → result string VersionedTransaction;
  encode : VersionedTransaction → result string string
}.

Definition sign_transaction_bytes (p : BatchSigningPermit) (signer : Signer) (prepared : VersionedTransaction) :
    res (list Z * list Z * string) :=
  tx ← map_err (λ e, Config ("failed to sign prepared transaction: " +:+ e)) (sign_slot signer prepared);
  signer_index ← ok_or (fst <$> list_find (λ key, key = account_pubkey p) (static_account_keys (message tx)))
                   (Config "signer is not in the prepared transaction");
  let signature := signatures tx !!! signer_index in
  let blockhash := recent_blockhash (message tx) in
  encoded ← map_err (λ e, Config ("failed to serialize signed transaction: " +:+ e)) (encode signer tx);
  Ok (signature, blockhash, encoded).

Definition signed_chunk (plan : PlannedChunk) (k : Z) (out : list Z * list Z * string) (lvbh : Z) : SignedChunk :=
  let '(signature, blockhash, encoded) := out in {|
    signed_chunk_index := k;
    signed_row_numbers := row_numbers plan;
    signed_signature := signature;
    signed_transaction_base64 := encoded;
    signed_blockhash := blockhash;
    signed_last_valid_block_height := lvbh |}.

(** The checks of [sign_chunk] up to the reservation: the chunk's plan and
    the projected amount. *)
Definition sign_checks (p : BatchSigningPermit) (now k : Z) (prepared : VersionedTransaction) :
    res (PlannedChunk * Z) :=
  _ ← ensure_not_expired p now;
  _ ← reject_if (bool_decide (is_Some (signed_chunks p !! k)))
        (Config ("chunk " +:+ show k +:+
                 " was already signed; use resign_chunk with a blockhash expiry proof"));
  plan ← plan_for p k;
  _ ← validate_prepared_transaction p plan prepared;
  chunk_total ← token_total_raw plan;
  projected_amount ← ok_or (checked_add 64 (signed_amount_raw p) chunk_total)
                       (Config "signed amount overflowed u64");
  _ ← reject_if (max_token_raw p <? projected_amount)
        (Config ("chunk " +:+ show k +:+ " would sign " +:+ show chunk_total +:+
           " raw units, exceeding the authorized ceiling of " +:+ show (max_token_raw p) +:+
           " (already signed " +:+ show (signed_amount_raw p) +:+ ")"));
  _ ← reject_if (max_transactions p <? signed_tx_count p + 1)
        (Config ("chunk " +:+ show k +:+ " would exceed the authorized transaction count ceiling of " +:+
                 show (max_transactions p)));
  Ok (plan, projected_amount).

Definition sign_chunk (p : BatchSigningPermit) (now : Z) (signer : Signer) (k : Z)
    (prepared : VersionedTransaction) (lvbh : Z) : BatchSigningPermit * res SignedChunk :=
  match sign_checks p now k prepared with
  | Err e => (p, Err e)
  | Ok (plan, projected_amount) =>
      let p := with_reservation p projected_amount (signed_tx_count p + 1) in
      match sign_transaction_bytes p signer prepared with
      | Err e => (p, Err e)
      | Ok out =>
          (with_record p k {| rec_blockhash := out.1.2; rec_last_valid_block_height := lvbh; rec_attempts := 1 |},
           Ok (signed_chunk plan k out lvbh))
      end
  end.

Definition resign_checks (p : BatchSigningPermit) (now k : Z) (prepared : VersionedTransaction)
    (expiry : BlockhashExpiryProof) : res (PlannedChunk * SignedChunkRecord) :=
  _ ← ensure_not_expired p now;
  record ← ok_or (signed_chunks p !! k)
             (Config ("chunk " +:+ show k +:+ " has no prior signature to re-sign; call sign_chunk first"));
  _ ← reject_if (bool_decide (previous_blockhash expiry ≠ rec_blockhash record) ||
                 negb (previous_last_valid_block_height expiry =? rec_last_valid_block_height record))
        (Config ("chunk " +:+ show k +:+ ": expiry proof does not match the permit's recorded prior signature"));
  _ ← reject_if (confirmed_current_block_height expiry <=? previous_last_valid_block_height expiry)
        (Config ("chunk " +:+ show k +:+ ": prior blockhash has not proven expired yet (confirmed height " +:+
           show (confirmed_current_block_height expiry) +:+ " <= last valid height " +:+
           show (previous_last_valid_block_height expiry) +:+ ")"));
  _ ← reject_if (MAX_RESIGN_ATTEMPTS_PER_CHUNK <=? rec_attempts record)
        (Config ("chunk " +:+ show k +:+ " exceeded the bounded re-sign attempt limit (" +:+
                 show MAX_RESIGN_ATTEMPTS_PER_CHUNK +:+ ")"));
  _ ← reject_if (bool_decide (recent_blockhash (message prepared) = rec_blockhash record))
        (Config ("chunk " +:+ show k +:+ ": re-sign must use a fresh blockhash, not the expired one"));
  plan ← plan_for p k;
  _ ← validate_prepared_transaction p plan prepared;
  Ok (plan, record).

Definition resign_chunk (p : BatchSigningPermit) (now : Z) (signer : Signer) (k : Z)
    (prepared : VersionedTransaction) (lvbh : Z) (expiry : BlockhashExpiryProof) :
    BatchSigningPermit * res SignedChunk :=
  match resign_checks p now k prepared expiry with
  | Err e => (p, Err e)
  | Ok (plan, record) =>
      match sign_transaction_bytes p signer prepared with
      | Err e => (p, Err e)
      | Ok out =>
          (with_record p k {| rec_blockhash := out.1.2; rec_last_valid_block_height := lvbh;
                              rec_attempts := rec_attempts record + 1 |},
           Ok (signed_chunk plan k out lvbh))
      end
  end.
End permit.

(** ** The plan check *)

Definition row_key (row : TransferRow) : Z * (Pubkey * Z) :=
  (row_number row, (row_recipient row, row_amount_raw row)).
Definition entry_key (entry : PlannedTransferEntry) : Z * (Pubkey * Z) :=
  (entry_row_number entry, (entry_recipient entry, entry_amount_raw entry)).

Lemma expected_rows_list rows : ∀ m : gmap Z (Pubkey * Z),
  NoDup (map row_number rows) → (∀ row, row ∈ rows → m !! row_number row = None) →
  map_to_list (foldl (λ m row, <[row_number row := (row_recipient row, row_amount_raw row)]> m) m rows)
  ≡ₚ map row_key rows ++ map_to_list m.
Proof.
  induction rows as [|row rows IH]; intros m Hnd Hm; simpl; [done|].
  apply NoDup_cons in Hnd as [Hni Hnd]. rewrite IH; [|done|].
  - rewrite map_to_list_insert by (apply Hm; constructor).
    symmetry. apply Permutation_middle.
  - intros row' Hin. rewrite lookup_insert_ne; [apply Hm; by constructor|].
    intros Heq. apply Hni. rewrite Heq. by apply list_elem_of_fmap_2.
Qed.

Lemma match_entry_Ok expected entry expected' :
  match_entry expected entry = Ok expected' →
  map_to_list expected ≡ₚ entry_key entry :: map_to_list expected'.
Proof.
  unfold match_entry. intros Hm. repeat case_match; simplify_eq/=. prop_bools.
  match goal with H : (_ =? _) = true |- _ => apply Z.eqb_eq in H end. subst.
  symmetry. by apply map_to_list_delete.
Qed.

Lemma match_entries_Ok es : ∀ expected expected',
  try_fold match_entry expected es = Ok expected' →
  map_to_list expected ≡ₚ map entry_key es ++ map_to_list expected'.
Proof.
  induction es as [|e es IH]; intros expected expected' Hf; simpl in Hf; inv_ok; [done|].
  match goal with H : match_entry _ _ = Ok _ |- _ => apply match_entry_Ok in H as -> end.
  simpl. by rewrite (IH _ _ Hf).
Qed.

Lemma match_chunks_concat cs : ∀ expected,
  try_fold (λ expected chunk, try_fold match_entry expected (entries chunk)) expected cs =
  try_fold match_entry expected (concat (map entries cs)).
Proof.
  induction cs as [|c cs IH]; intros expected; simpl; [done|].
  rewrite try_fold_app. destruct (try_fold match_entry expected (entries c)); [apply IH|done].
Qed.

(** A plan the permit accepts is the approved manifest: the plan's
    entries, over all chunks, are a permutation of the manifest's rows (same
    row numbers, recipients and amounts, none added or dropped). *)
Theorem accepted_plan_is_the_manifest blake3 manifest plan :
  manifest_wf blake3 manifest → validate_plan_matches_manifest manifest plan = Ok tt →
  map entry_key (concat (map entries (chunks plan))) ≡ₚ map row_key (manifest_rows manifest).
Proof.
  intros Hwf Hv. unfold validate_plan_matches_manifest in Hv. inv_ok. prop_bools. subst.
  match goal with H : try_fold _ _ _ = Ok _ |- _ =>
    rewrite match_chunks_concat in H; apply match_entries_Ok in H as Hp end.
  rewrite map_to_list_empty, app_nil_r in Hp. rewrite <- Hp. unfold expected_rows.
  rewrite expected_rows_list; [by rewrite map_to_list_empty, app_nil_r| |done].
  rewrite (wf_numbers _ _ Hwf). apply NoDup_seqZ.
Qed.

Lemma match_entries_complete es : ∀ expected,
  map_to_list expected ≡ₚ map entry_key es → try_fold match_entry expected es = Ok ∅.
Proof.
  induction es as [|e es IH]; intros expected Hp; cbn [try_fold].
  { f_equal. apply map_to_list_empty_iff. by apply Permutation_nil. }
  assert (expected !! entry_row_number e = Some (entry_recipient e, entry_amount_raw e)) as Hl.
  { apply elem_of_map_to_list. rewrite Hp. constructor. }
  assert (match_entry expected e = Ok (delete (entry_row_number e) expected)) as ->.
  { unfold match_entry. by rewrite Hl, bool_decide_eq_true_2, Z.eqb_refl. }
  rewrite bind_ok_simpl. apply IH. apply (Permutation_cons_inv (a := entry_key e)). simpl in Hp. rewrite <- Hp.
  by apply map_to_list_delete.
Qed.

(** The permit accepts every plan the planner packs from the approved
    manifest, also from what is left of one: distinct row numbers are all it
    takes. *)
Theorem packed_plan_is_accepted `{Kit} manifest ata mode sender payer price first plan :
  NoDup (map row_number (manifest_rows manifest)) →
  pack_chunks_from manifest ata mode sender payer price first = Ok plan →
  validate_plan_matches_manifest manifest plan = Ok tt.
Proof.
  intros Hnd (Hlen & _ & segs & Hc & Hb & _)%packed_rows_in_order.
  destruct (segs_entries _ _ _ _ _ _ _ _ _ Hb) as [He _].
  rewrite Hc, planned_entries_all in He by done.
  unfold validate_plan_matches_manifest. rewrite match_chunks_concat, match_entries_complete; [done|].
  unfold expected_rows. rewrite expected_rows_list; [| |done].
  - rewrite map_to_list_empty, app_nil_r, He. apply reflexive_eq.
    clear -Hlen. revert Hlen. generalize (destinations ata).
    induction (manifest_rows manifest) as [|r rows IH]; intros [|d ds] Hlen; try done.
    simpl. f_equal. apply IH. by injection Hlen.
  - done.
Qed.

(** ** What a transaction does

    An independent reading of a message: what each instruction asks the five
    programs to do, by the programs' own instruction formats. *)
Inductive Effect :=
  | SetPrice (micro_lamports : Z)
  | SetLimit (units : Z)
  | CreateAta (payer ata owner mint system token_program : Pubkey)
  | Transfer (source mint destination authority : Pubkey) (amount decimals : Z)
  | Memo (text : list Z).

Section effects.
Context `{Kit}.

Definition decode_effect (keys : list Pubkey) (ix : CompiledInstruction) : option Effect :=
  program ← keys !! Z.to_nat (program_id_index ix);
  if bool_decide (program = compute_budget_program_id) then
    match data ix with
    | tag :: arg =>
        if (tag =? 3) && (length arg =? 8)%nat then Some (SetPrice (from_le_bytes arg))
        else if (tag =? 2) && (length arg =? 4)%nat then Some (SetLimit (from_le_bytes arg))
        else None
    | [] => None
    end
  else if bool_decide (program = associated_token_program_id) then
    args ← mapM (λ i, keys !! Z.to_nat i) (accounts ix);
    match data ix, args with
    | [1], [payer; ata; owner; mint; system; token_program] =>
        Some (CreateAta payer ata owner mint system token_program)
    | _, _ => None
    end
  else if bool_decide (program = token_program_id) || bool_decide (program = token_2022_program_id) then
    args ← mapM (λ i, keys !! Z.to_nat i) (accounts ix);
    match data ix, args with
    | 12 :: [b0; b1; b2; b3; b4; b5; b6; b7; decimals], [source; mint; destination; authority] =>
        Some (Transfer source mint destination authority
                (from_le_bytes [b0; b1; b2; b3; b4; b5; b6; b7]) decimals)
    | _, _ => None
    end
  else if bool_decide (program = memo_program_id) then Some (Memo (data ix))
  else None.

Definition decode_effects (m : VersionedMessage) : option (list Effect) :=
  mapM (decode_effect (static_account_keys m)) (instructions m).

(** Total token amount a message moves. *)
Definition effect_amount (e : Effect) : Z :=
  match e with Transfer _ _ _ _ amount _ => amount | _ => 0 end.
Definition payout (m : VersionedMessage) : Z :=
  zsum (map effect_amount (default [] (decode_effects m))).

(** What the plan says an entry does. *)
Definition entry_effects (p : BatchSigningPermit) (e : PlannedTransferEntry) : list Effect :=
  let ata := derive_associated_token_address (entry_recipient e) (permit_mint p) (permit_token_program p) in
  (if entry_ata_creation_required e
   then [CreateAta (permit_fee_payer p) ata (entry_recipient e) (permit_mint p)
           system_program_id (permit_token_program p)]
   else []) ++
  [Transfer (source_ata p) (permit_mint p) ata (account_pubkey p) (entry_amount_raw e) (permit_decimals p)].

Context (pubkey_text : Pubkey → string).

(** The five programs have different addresses. *)
Hypothesis program_ids_distinct : NoDup allowed_programs.

(** Decide program-id tests from the hypothesis. *)
Lemma ids_differ :
  associated_token_program_id ≠ compute_budget_program_id ∧
  token_program_id ≠ compute_budget_program_id ∧ token_2022_program_id ≠ compute_budget_program_id ∧
  memo_program_id ≠ compute_budget_program_id ∧
  token_program_id ≠ associated_token_program_id ∧ token_2022_program_id ≠ associated_token_program_id ∧
  memo_program_id ≠ associated_token_program_id ∧
  memo_program_id ≠ token_program_id ∧ memo_program_id ≠ token_2022_program_id.
Proof.
  unfold allowed_programs in program_ids_distinct.
  rewrite !NoDup_cons in program_ids_distinct. rewrite !not_elem_of_cons in program_ids_distinct.
  destruct program_ids_distinct as ((? & ? & ? & ? & _) & (? & ? & ? & _) & (? & ? & _) & (? & _) & _).
  split_and!; congruence.
Qed.

Ltac decide_ids :=
  pose proof ids_differ as (? & ? & ? & ? & ? & ? & ? & ? & ?);
  repeat first [rewrite bool_decide_eq_true_2 by congruence | rewrite bool_decide_eq_false_2 by congruence].

Lemma decode_price_effect m ix k price :
  decode_compute_unit_price m ix k = Ok price →
  decode_effect (account_keys m) ix = Some (SetPrice price).
Proof.
  unfold decode_compute_unit_price, account_at, decode_effect. intros Hd. inv_ok. prop_bools.
  match goal with H : account_keys m !! _ = Some _ |- _ => rewrite H end. simpl.
  repeat match goal with H : ¬ (_ ≠ _) |- _ => apply dec_stable in H end. subst. decide_ids.
  destruct (data ix) as [|tag arg] eqn:Hdata; [done|]. simplify_eq/=.
  unfold data_int. rewrite Hdata. cbn [drop].
  match goal with H : (length arg =? 8)%nat = true |- _ => rewrite H; apply Nat.eqb_eq in H; rename H into Hl end.
  by rewrite drop_0, take_ge by lia.
Qed.

Lemma decode_limit_effect m ix k limit :
  decode_compute_unit_limit m ix k = Ok limit →
  decode_effect (account_keys m) ix = Some (SetLimit limit).
Proof.
  unfold decode_compute_unit_limit, account_at, decode_effect. intros Hd. inv_ok. prop_bools.
  match goal with H : account_keys m !! _ = Some _ |- _ => rewrite H end. simpl.
  repeat match goal with H : ¬ (_ ≠ _) |- _ => apply dec_stable in H end. subst. decide_ids.
  destruct (data ix) as [|tag arg] eqn:Hdata; [done|]. simplify_eq/=.
  unfold data_int. rewrite Hdata. cbn [drop].
  match goal with H : (length arg =? 4)%nat = true |- _ => rewrite H; apply Nat.eqb_eq in H; rename H into Hl end.
  by rewrite drop_0, take_ge by lia.
Qed.

Lemma validate_memo_effect m ix text k u :
  validate_memo m ix text k = Ok u → decode_effect (account_keys m) ix = Some (Memo (str_bytes text)).
Proof.
  unfold validate_memo, account_at, decode_effect. intros Hd. inv_ok. prop_bools.
  match goal with H : account_keys m !! _ = Some _ |- _ => rewrite H end. simpl.
  repeat match goal with H : ¬ (_ ≠ _) |- _ => apply dec_stable in H end. subst. decide_ids. simpl.
  repeat case_match; simplify_eq. prop_bools. congruence.
Qed.

Lemma validate_ata_create_effect m ix payer owner ata mint program k u :
  validate_ata_create m ix payer owner ata mint program k = Ok u →
  decode_effect (account_keys m) ix = Some (CreateAta payer ata owner mint system_program_id program).
Proof.
  unfold validate_ata_create, nth_account, account_at, decode_effect. intros Hd. inv_ok. prop_bools.
  repeat match goal with H : ¬ (_ ≠ _) |- _ => apply dec_stable in H end. subst.
  match goal with H : account_keys m !! Z.to_nat (program_id_index ix) = Some _ |- _ => rewrite H end. simpl.
  decide_ids.
  match goal with H : (length (accounts ix) =? 6)%nat = true |- _ => apply Nat.eqb_eq in H; rename H into Hl end.
  destruct (accounts ix) as [|x0 [|x1 [|x2 [|x3 [|x4 [|x5 []]]]]]]; simpl in Hl; try lia.
  unfold mapM. simpl in *.
  repeat match goal with H : account_keys m !! _ = Some _ |- _ => rewrite H; clear H; simpl end.
  match goal with H : data ix = _ |- _ => rewrite H end. reflexivity.
Qed.

Lemma validate_transfer_effect m ix source mint dest authority amount decimals k u :
  validate_transfer_checked m ix source mint dest authority amount decimals k = Ok u →
  decode_effect (account_keys m) ix = Some (Transfer source mint dest authority amount decimals).
Proof.
  unfold validate_transfer_checked, nth_account, account_at, decode_effect. intros Hd. inv_ok. prop_bools.
  repeat match goal with H : ¬ (_ ≠ _) |- _ => apply dec_stable in H end. subst.
  match goal with H : account_keys m !! Z.to_nat (program_id_index ix) = Some ?q,
    H' : bool_decide _ && bool_decide _ = false |- _ =>
      rewrite H; clear H; rename q into program; apply andb_false_iff in H' end.
  assert (program = token_program_id ∨ program = token_2022_program_id) as Hprog.
  { match goal with H' : _ ∨ _ |- _ => destruct H' as [H'|H']; prop_bools; apply dec_stable in H' end; auto. }
  match goal with H : (length (accounts ix) =? 4)%nat = true |- _ => apply Nat.eqb_eq in H; rename H into Hl end.
  match goal with H : (length (data ix) =? 10)%nat = true |- _ => apply Nat.eqb_eq in H; rename H into Hdl end.
  unfold data_int in *.
  destruct (accounts ix) as [|x0 [|x1 [|x2 [|x3 []]]]]; simpl in Hl; try lia.
  destruct (data ix) as [|t [|b0 [|b1 [|b2 [|b3 [|b4 [|b5 [|b6 [|b7 [|dd []]]]]]]]]]]; simpl in Hdl; try lia.
  cbn in *. repeat match goal with H : (_ =? _) = true |- _ => apply Z.eqb_eq in H end. subst.
  assert (bool_decide (program = token_program_id) || bool_decide (program = token_2022_program_id) = true) as Ht.
  { apply orb_true_iff. destruct Hprog; [left|right]; by apply bool_decide_eq_true. }
  unfold mbind, option_bind. rewrite Ht.
  pose proof ids_differ as (? & ? & ? & ? & ? & ? & ? & ? & ?).
  rewrite (bool_decide_eq_false_2 (program = compute_budget_program_id)) by (destruct Hprog; congruence).
  rewrite (bool_decide_eq_false_2 (program = associated_token_program_id)) by (destruct Hprog; congruence).
  unfold mapM. simpl.
  repeat match goal with H : account_keys m !! _ = Some _ |- _ => rewrite H; clear H; simpl end.
  unfold TRANSFER_CHECKED_DISCRIMINATOR. reflexivity.
Qed.

Lemma validate_entry_effects p m k cursor e cursor' :
  validate_entry p m k cursor e = Ok cursor' →
  ∃ ixs, drop cursor (view_instructions m) = ixs ++ drop cursor' (view_instructions m) ∧
    mapM (decode_effect (account_keys m)) ixs = Some (entry_effects p e).
Proof.
  unfold validate_entry, entry_effects. intros Hv. apply bind_Ok in Hv as (c & Hc & Hv).
  apply bind_Ok in Hv as (ix & Hix & Hv). apply bind_Ok in Hv as ([] & Ht & [= <-]).
  apply ok_or_Ok in Hix. apply validate_transfer_effect in Ht.
  destruct (entry_ata_creation_required e); [|injection Hc as <-].
  - apply bind_Ok in Hc as (ix0 & Hix0 & Hc). apply bind_Ok in Hc as ([] & Ha & [= <-]).
    apply ok_or_Ok in Hix0. apply validate_ata_create_effect in Ha.
    exists [ix0; ix]. rewrite (drop_S _ _ _ Hix0), (drop_S _ _ _ Hix). split; [done|].
    unfold mapM. simpl. by rewrite Ha, Ht.
  - exists [ix]. rewrite (drop_S _ _ _ Hix). split; [done|]. unfold mapM. simpl. by rewrite Ht.
Qed.

Lemma mapM_app_Some {A B} (f : A → option B) l k x y :
  mapM f l = Some x → mapM f k = Some y → mapM f (l ++ k) = Some (x ++ y).
Proof. rewrite !mapM_Some. apply Forall2_app. Qed.

Lemma validate_entries_effects p m k es : ∀ cursor cursor',
  try_fold (validate_entry p m k) cursor es = Ok cursor' →
  ∃ ixs, drop cursor (view_instructions m) = ixs ++ drop cursor' (view_instructions m) ∧
    mapM (decode_effect (account_keys m)) ixs = Some (concat (map (entry_effects p) es)).
Proof.
  induction es as [|e es IH]; intros cursor cursor' Hv.
  { injection Hv as <-. by exists []. }
  apply bind_Ok in Hv as (c & He & Hv).
  apply validate_entry_effects in He as (ixs & Hd & Hm). apply IH in Hv as (ixs' & Hd' & Hm').
  exists (ixs ++ ixs'). split; [by rewrite Hd, Hd', app_assoc|]. by apply mapM_app_Some.
Qed.

Lemma validated_transaction p plan tx :
  validate_prepared_transaction pubkey_text p plan tx = Ok tt →
  head (static_account_keys (message tx)) = Some (permit_fee_payer p) ∧
  ∃ price limit, price ≤ compute_unit_price_micro_lamports plan ∧ limit ≤ compute_unit_limit plan ∧
    decode_effects (message tx) =
    Some (SetPrice price :: SetLimit limit :: concat (map (entry_effects p) (entries plan)) ++
          [Memo (str_bytes (memo plan))]).
Proof.
  unfold validate_prepared_transaction, decode_effects. intros Hv.
  apply bind_Ok in Hv as (payer & Hpayer & Hv). apply ok_or_Ok in Hpayer.
  apply bind_Ok in Hv as ([] & Hfp & Hv). apply reject_if_Ok in Hfp.
  apply bind_Ok in Hv as ([] & _ & Hv).
  apply bind_Ok in Hv as (ix0 & H0 & Hv). apply ok_or_Ok in H0.
  apply bind_Ok in Hv as (price & Hp & Hv). apply bind_Ok in Hv as ([] & Hpl & Hv).
  apply bind_Ok in Hv as (ix1 & H1 & Hv). apply ok_or_Ok in H1.
  apply bind_Ok in Hv as (limit & Hl & Hv). apply bind_Ok in Hv as ([] & Hll & Hv).
  apply bind_Ok in Hv as (cursor & Hes & Hv).
  apply bind_Ok in Hv as (ix2 & H2 & Hv). apply ok_or_Ok in H2.
  apply bind_Ok in Hv as ([] & Hmemo & Hend).
  apply reject_if_Ok in Hpl, Hll, Hend. apply Z.ltb_ge in Hpl, Hll.
  apply negb_false_iff, Nat.eqb_eq in Hend.
  apply decode_price_effect in Hp. apply decode_limit_effect in Hl. apply validate_memo_effect in Hmemo.
  apply validate_entries_effects in Hes as (ixs & Hd & Hm). simpl in *.
  apply bool_decide_eq_false, dec_stable in Hfp. subst payer.
  split; [done|]. exists price, limit. split_and!; [done..|].
  rewrite (drop_S _ _ _ H2), (drop_ge _ (S cursor)) in Hd by lia.
  assert (instructions (message tx) = [ix0; ix1] ++ ixs ++ [ix2]) as ->.
  { rewrite <- Hd. destruct (instructions (message tx)) as [|? [|? ?]]; simplify_eq/=. done. }
  apply (mapM_app_Some _ _ _ [SetPrice price; SetLimit limit]).
  { unfold mapM. simpl. by rewrite Hp, Hl. }
  apply mapM_app_Some; [done|]. unfold mapM. simpl. by rewrite Hmemo.
Qed.

(** C15. A transaction that passes validation does exactly what the chunk's
    plan says and nothing else: read by the programs' own formats, it is paid
    by the authorized fee payer, bids at most the approved compute budget,
    and then performs, in order, each planned ATA creation and each planned
    transfer (source, mint, destination, authority, amount and decimals),
    followed by the planned memo. *)
Theorem validated_transaction_effects p plan tx :
  validate_prepared_transaction pubkey_text p plan tx = Ok tt →
  head (static_account_keys (message tx)) = Some (permit_fee_payer p) ∧
  ∃ price limit, price ≤ compute_unit_price_micro_lamports plan ∧ limit ≤ compute_unit_limit plan ∧
    decode_effects (message tx) =
    Some (SetPrice price :: SetLimit limit :: concat (map (entry_effects p) (entries plan)) ++
          [Memo (str_bytes (memo plan))]).
Proof. apply validated_transaction. Qed.

Lemma effect_amounts_entries p es :
  zsum (map effect_amount (concat (map (entry_effects p) es))) = zsum (map entry_amount_raw es).
Proof.
  induction es as [|e es IH]; [done|]. cbn [map concat]. rewrite map_app, zsum_app, zsum_cons, IH.
  f_equal. unfold entry_effects. destruct (entry_ata_creation_required e); simpl;
    rewrite ?zsum_cons; change (zsum []) with 0; lia.
Qed.

Lemma validated_payout p plan tx :
  validate_prepared_transaction pubkey_text p plan tx = Ok tt →
  payout (message tx) = zsum (map entry_amount_raw (entries plan)).
Proof.
  intros (_ & price & limit & _ & _ & Hd)%validated_transaction. unfold payout. rewrite Hd.
  cbn [from_option id map]. rewrite !zsum_cons, map_app, zsum_app, effect_amounts_entries. simpl.
  change (zsum [0]) with 0. lia.
Qed.

(** ** Every history of calls

    Each call carries its own clock reading and signer; the log keeps the
    transactions for which a signature was released. *)
Record call := {
  call_now : Z;
  call_signer : Signer;
  call_chunk : Z;
  call_tx : VersionedTransaction;
  call_lvbh : Z;
  (** [Some proof] for [resign_chunk]. *)
  call_expiry : option BlockhashExpiryProof
}.

Definition perform (p : BatchSigningPermit) (c : call) : BatchSigningPermit * res SignedChunk :=
  match call_expiry c with
  | None => sign_chunk pubkey_text p (call_now c) (call_signer c) (call_chunk c) (call_tx c) (call_lvbh c)
  | Some e => resign_chunk pubkey_text p (call_now c) (call_signer c) (call_chunk c) (call_tx c) (call_lvbh c) e
  end.

Definition perform_logged (st : BatchSigningPermit * list call) (c : call) : BatchSigningPermit * list call :=
  let '(p, log) := st in
  let '(p', r) := perform p c in
  (p', if is_ok r then log ++ [c] else log).
Definition history (p : BatchSigningPermit) (cs : list call) : BatchSigningPermit * list call :=
  foldl perform_logged (p, []) cs.

(** Signing fills a signature slot and leaves the message alone. *)
Definition keeps_message (s : Signer) : Prop :=
  ∀ tx tx', sign_slot s tx = Ok tx' → message tx' = message tx.

Definition releases_of (log : list call) (k : Z) : list call :=
  List.filter (λ c, call_chunk c =? k) log.

(** What the log says of one more release [c] after [log]. *)
Definition fresh_release (log : list call) (c : call) : Prop :=
  match call_expiry c with
  | None => releases_of log (call_chunk c) = []
  | Some e => ∃ prev, last (releases_of log (call_chunk c)) = Some prev ∧
      previous_blockhash e = recent_blockhash (message (call_tx prev)) ∧
      previous_last_valid_block_height e = call_lvbh prev ∧
      call_lvbh prev < confirmed_current_block_height e ∧
      recent_blockhash (message (call_tx c)) ≠ recent_blockhash (message (call_tx prev))
  end.

Definition chunk_amount (p : BatchSigningPermit) (k : Z) : Z :=
  match plan_for p k with Ok plan => zsum (map entry_amount_raw (entries plan)) | Err _ => 0 end.

(** The permit's terms: everything but the running counters. *)
Definition terms (p : BatchSigningPermit) : BatchSigningPermit := {|
  permit_manifest_hash := permit_manifest_hash p; account_pubkey := account_pubkey p;
  permit_genesis_hash := permit_genesis_hash p; permit_mint := permit_mint p;
  permit_token_program := permit_token_program p; permit_decimals := permit_decimals p;
  source_ata := source_ata p; fee_payer_mode := fee_payer_mode p;
  permit_fee_payer := permit_fee_payer p; permit_chunks := permit_chunks p;
  max_token_raw := max_token_raw p; max_transactions := max_transactions p;
  expires_at := expires_at p; signed_amount_raw := 0; signed_tx_count := 0; signed_chunks := ∅ |}.

Definition valid_release (p : BatchSigningPermit) (c : call) : Prop :=
  ∃ plan, plan_for p (call_chunk c) = Ok plan ∧
    validate_prepared_transaction pubkey_text p plan (call_tx c) = Ok tt.

Record permit_inv (t p : BatchSigningPermit) (log : list call) : Prop := {
  pm_terms : terms p = t;
  pm_valid : Forall (valid_release t) log;
  pm_fresh : ∀ l c l', log = l ++ c :: l' → fresh_release l c;
  pm_reserved : zsum (map (chunk_amount t) (elements (dom (signed_chunks p)))) ≤ signed_amount_raw p;
  pm_amount : 0 ≤ signed_amount_raw p ≤ max_token_raw t;
  pm_count : 0 ≤ signed_tx_count p ≤ max_transactions t;
  pm_records : ∀ k, match signed_chunks p !! k with
    | None => releases_of log k = []
    | Some r => ∃ prev, last (releases_of log k) = Some prev ∧
        rec_blockhash r = recent_blockhash (message (call_tx prev)) ∧
        rec_last_valid_block_height r = call_lvbh prev ∧
        rec_attempts r = zlen (releases_of log k) ∧ rec_attempts r ≤ MAX_RESIGN_ATTEMPTS_PER_CHUNK
    end
}.

Lemma validate_terms p plan tx :
  validate_prepared_transaction pubkey_text (terms p) plan tx = validate_prepared_transaction pubkey_text p plan tx.
Proof. reflexivity. Qed.

Lemma chunk_amount_terms p k : chunk_amount (terms p) k = chunk_amount p k.
Proof. reflexivity. Qed.

Lemma releases_snoc log c k :
  releases_of (log ++ [c]) k = releases_of log k ++ (if call_chunk c =? k then [c] else []).
Proof. unfold releases_of. rewrite List.filter_app. simpl. by destruct (call_chunk c =? k). Qed.

Lemma fresh_snoc log c :
  (∀ l c l', log = l ++ c :: l' → fresh_release l c) → fresh_release log c →
  ∀ l c' l', log ++ [c] = l ++ c' :: l' → fresh_release l c'.
Proof.
  intros Hlog Hc l c' l' E. destruct l' as [|x l' _] using rev_ind.
  - apply app_inj_tail in E as [-> ->]. done.
  - rewrite app_comm_cons, app_assoc in E. apply app_inj_tail in E as [E _]. eauto.
Qed.

Lemma sign_bytes_blockhash p s tx out :
  keeps_message s → sign_transaction_bytes p s tx = Ok out → out.1.2 = recent_blockhash (message tx).
Proof.
  unfold sign_transaction_bytes. intros Hs Ho. inv_ok. simpl.
  match goal with H : sign_slot _ _ = Ok _ |- _ => apply Hs in H as -> end. done.
Qed.

(** The bookkeeping after a release: the record of its chunk is replaced and
    the others are untouched. *)
Lemma records_after_release p log c r :
  (∀ k, match signed_chunks p !! k with
    | None => releases_of log k = []
    | Some r => ∃ prev, last (releases_of log k) = Some prev ∧
        rec_blockhash r = recent_blockhash (message (call_tx prev)) ∧
        rec_last_valid_block_height r = call_lvbh prev ∧
        rec_attempts r = zlen (releases_of log k) ∧ rec_attempts r ≤ MAX_RESIGN_ATTEMPTS_PER_CHUNK
    end) →
  rec_blockhash r = recent_blockhash (message (call_tx c)) →
  rec_last_valid_block_height r = call_lvbh c →
  rec_attempts r = zlen (releases_of log (call_chunk c)) + 1 →
  rec_attempts r ≤ MAX_RESIGN_ATTEMPTS_PER_CHUNK →
  ∀ k, match <[call_chunk c := r]> (signed_chunks p) !! k with
    | None => releases_of (log ++ [c]) k = []
    | Some r => ∃ prev, last (releases_of (log ++ [c]) k) = Some prev ∧
        rec_blockhash r = recent_blockhash (message (call_tx prev)) ∧
        rec_last_valid_block_height r = call_lvbh prev ∧
        rec_attempts r = zlen (releases_of (log ++ [c]) k) ∧ rec_attempts r ≤ MAX_RESIGN_ATTEMPTS_PER_CHUNK
    end.
Proof.
  intros Hrec Hb Hl Ha Hm k. rewrite releases_snoc. specialize (Hrec k).
  destruct (Z.eqb_spec (call_chunk c) k) as [<-|Hne].
  - rewrite lookup_insert_eq. exists c. rewrite last_snoc. unfold zlen in *.
    rewrite length_app. simpl. split_and!; try done. lia.
  - rewrite lookup_insert_ne, app_nil_r by done. done.
Qed.

Lemma sign_preserves t p log c p' r :
  keeps_message (call_signer c) → call_expiry c = None → permit_inv t p log →
  sign_chunk pubkey_text p (call_now c) (call_signer c) (call_chunk c) (call_tx c) (call_lvbh c) = (p', r) →
  permit_inv t p' (if is_ok r then log ++ [c] else log).
Proof.
  intros Hs He Hinv Hsign. pose proof Hinv as [Ht Hv Hf Hr Ha Hc Hrec]. subst t.
  unfold sign_chunk in Hsign. destruct (sign_checks _ _ _ _ _) as [[plan amt]|e] eqn:Hchk;
    [|by injection Hsign as <- <-].
  unfold sign_checks in Hchk. inv_ok. simplify_eq. prop_bools.
  match goal with H : (max_token_raw p <? _) = false |- _ => apply Z.ltb_ge in H; rename H into Hmax end.
  match goal with H : (max_transactions p <? _) = false |- _ => apply Z.ltb_ge in H; rename H into Htx end.
  match goal with H : token_total_raw plan = Ok _ |- _ =>
    pose proof (checked_sum_nonneg _ _ _ _ _ (Z.le_refl 0) H) as Hpos; apply checked_sum_Ok in H; subst end.
  match goal with H : plan_for p _ = Ok _ |- _ => rename H into Hplan end.
  match goal with H : is_u64 _ |- _ => destruct H as [? _] end.
  assert (chunk_amount (terms p) (call_chunk c) = zsum (map entry_amount_raw (entries plan))) as Hamt
    by (unfold chunk_amount; by rewrite (Hplan : plan_for (terms p) _ = _)).
  destruct (sign_transaction_bytes _ _ _) as [out|e] eqn:Hout; injection Hsign as <- <-.
  - apply sign_bytes_blockhash in Hout; [|done]. simpl. split; simpl; try done; try lia.
    + apply Forall_app; split; [done|]. constructor; [|constructor].
      exists plan. split; [exact Hplan|]. match goal with H : validate_prepared_transaction _ _ _ _ = Ok ?u |- _ => destruct u; exact H end.
    + apply fresh_snoc; [done|]. unfold fresh_release. rewrite He. specialize (Hrec (call_chunk c)).
      destruct (signed_chunks p !! call_chunk c) eqn:Hsc; [|done].
      match goal with H : ¬ is_Some _ |- _ => destruct H; eauto end.
    + assert (call_chunk c ∉ dom (signed_chunks p)) as Hnd by (by rewrite elem_of_dom).
      rewrite dom_insert_L, elements_union_singleton by done. cbn [map].
      rewrite zsum_cons, Hamt. lia.
    + apply (records_after_release p); try done. simpl. specialize (Hrec (call_chunk c)). destruct (signed_chunks p !! call_chunk c) eqn:Hsc.
      * match goal with H : ¬ is_Some _ |- _ => destruct H; eauto end.
      * by rewrite Hrec.
  - simpl. split; simpl; try done; lia.
Qed.

Lemma resign_preserves t p log c e p' r :
  keeps_message (call_signer c) → call_expiry c = Some e → permit_inv t p log →
  resign_chunk pubkey_text p (call_now c) (call_signer c) (call_chunk c) (call_tx c) (call_lvbh c) e = (p', r) →
  permit_inv t p' (if is_ok r then log ++ [c] else log).
Proof.
  intros Hs He Hinv Hsign. pose proof Hinv as [Ht Hv Hf Hr Ha Hc Hrec]. subst t.
  unfold resign_chunk in Hsign. destruct (resign_checks _ _ _ _ _ _) as [[plan rec]|err] eqn:Hchk;
    [|by injection Hsign as <- <-].
  destruct (sign_transaction_bytes _ _ _) as [out|err] eqn:Hout; injection Hsign as <- <-; [|done].
  apply sign_bytes_blockhash in Hout; [|done].
  unfold resign_checks in Hchk. inv_ok. simplify_eq. prop_bools.
  repeat match goal with
  | H : (_ <=? _) = false |- _ => apply Z.leb_gt in H
  | H : (_ =? _) = true |- _ => apply Z.eqb_eq in H
  | H : ¬ (_ ≠ _) |- _ => apply dec_stable in H
  end.
  match goal with H : plan_for p _ = Ok _ |- _ => rename H into Hplan end.
  match goal with H : signed_chunks p !! _ = Some _ |- _ => rename H into Hrecord end.
  pose proof (Hrec (call_chunk c)) as Hk. rewrite Hrecord in Hk.
  destruct Hk as (prev & Hlast & Hb & Hl & Hatt & Hmax).
  simpl. split; simpl; try done; try lia.
  - apply Forall_app; split; [done|]. constructor; [|constructor].
    exists plan. split; [exact Hplan|]. match goal with H : validate_prepared_transaction _ _ _ _ = Ok ?u |- _ => destruct u; exact H end.
  - apply fresh_snoc; [done|]. unfold fresh_release. rewrite He. exists prev. split_and!; congruence || lia.
  - rewrite dom_insert_lookup_L by eauto. done.
  - apply (records_after_release p); try done; simpl; lia.
Qed.

Lemma perform_preserves t p log c :
  keeps_message (call_signer c) → permit_inv t p log →
  permit_inv t (perform_logged (p, log) c).1 (perform_logged (p, log) c).2.
Proof.
  intros Hs Hinv. simpl. destruct (perform p c) as [p' r] eqn:Hp. unfold perform in Hp. simpl.
  destruct (call_expiry c) eqn:He; [eapply resign_preserves|eapply sign_preserves]; eauto.
Qed.

Lemma history_inv t p cs : ∀ log,
  Forall (λ c, keeps_message (call_signer c)) cs → permit_inv t p log →
  permit_inv t (foldl perform_logged (p, log) cs).1 (foldl perform_logged (p, log) cs).2.
Proof.
  revert p. induction cs as [|c cs IH]; intros p log Hcs Hinv; [done|].
  apply Forall_cons_1 in Hcs as [Hc Hcs]. cbn [foldl].
  pose proof (perform_preserves _ _ _ _ Hc Hinv) as Hinv'.
  destruct (perform_logged (p, log) c) as [p' log']. by apply IH.
Qed.

(** A permit on which nothing has been signed. *)
Definition unused (p : BatchSigningPermit) : Prop :=
  terms p = p ∧ 0 ≤ max_token_raw p ∧ 0 ≤ max_transactions p.

Lemma unused_inv p : unused p → permit_inv p p [].
Proof.
  intros (Ht & Hm & Hx). rewrite <- Ht. split; simpl; try done. by intros [].
Qed.

(** The selected chunks' amounts are part of what was reserved. *)
Lemma selected_sum (f : Z → Z) (ks l : list Z) :
  (∀ k, 0 ≤ f k) → NoDup ks → (∀ k, k ∈ ks → k ∈ l) → zsum (map f ks) ≤ zsum (map f l).
Proof.
  intros Hf Hnd Hin. destruct (submseteq_Permutation ks l) as [l' Hl'].
  { by apply NoDup_submseteq. }
  rewrite (zsum_permutation _ _ (Permutation_map f Hl')), map_app, zsum_app.
  pose proof (zsum_nonneg (map f l')) as Hnn. rewrite Forall_map in Hnn.
  specialize (Hnn (proj2 (Forall_forall _ _) (λ x _, Hf x))). lia.
Qed.

(** C4. Whatever the caller does (any sequence of sign and re-sign calls with
    any prepared transactions, clocks and proofs, including calls that fail),
    if at most one of the signatures released for each chunk lands, the
    tokens moved, as the token program reads the signed messages, never
    exceed the authorized ceiling; the transaction count stays within its
    ceiling, and at most five signatures are ever released for a chunk. *)
Theorem permit_never_overspends p cs landed :
  unused p → Forall (λ c, keeps_message (call_signer c)) cs →
  Forall (λ chunk, Forall (λ e, is_u64 (entry_amount_raw e)) (entries chunk)) (permit_chunks p) →
  (∀ c, c ∈ landed → c ∈ (history p cs).2) → NoDup (map call_chunk landed) →
  zsum (map (λ c, payout (message (call_tx c))) landed) ≤ max_token_raw p ∧
  signed_amount_raw (history p cs).1 ≤ max_token_raw p ∧
  signed_tx_count (history p cs).1 ≤ max_transactions p ∧
  ∀ k, zlen (releases_of (history p cs).2 k) ≤ MAX_RESIGN_ATTEMPTS_PER_CHUNK.
Proof.
  intros Hun Hcs Hamts. pose proof (history_inv p p cs [] Hcs (unused_inv p Hun)) as Hinv.
  unfold history. destruct (foldl perform_logged (p, []) cs) as [p' released]. simpl in Hinv |- *.
  intros Hin Hnd. destruct Hinv as [Ht Hv _ Hres Ha Hc Hrec]. split_and!; try lia.
  - rewrite Forall_forall in Hv.
    assert (zsum (map (λ c, payout (message (call_tx c))) landed) =
            zsum (map (chunk_amount p) (map call_chunk landed))) as ->.
    { f_equal. rewrite map_map. apply map_ext_in. intros c Hc'.
      apply list_elem_of_In, Hin, Hv in Hc' as (plan & Hp & Hval).
      rewrite (validated_payout _ _ _ Hval). unfold chunk_amount. by rewrite Hp. }
    transitivity (signed_amount_raw p'); [|lia]. etransitivity; [|exact Hres].
    apply selected_sum; [|done|].
    + intros k. unfold chunk_amount, plan_for.
      destruct (find _ _) as [plan|] eqn:Hfind; [|done]. simpl.
      apply find_some in Hfind as [Hf _]. apply list_elem_of_In in Hf.
      rewrite Forall_forall in Hamts. apply zsum_nonneg, Forall_map.
      eapply Forall_impl; [by apply Hamts|]. intros e []. done.
    + intros k (c & -> & Hc')%list_elem_of_fmap. apply elem_of_elements, elem_of_dom.
      specialize (Hrec (call_chunk c)). destruct (signed_chunks p' !! call_chunk c); [eauto|].
      exfalso. apply Hin in Hc'. assert (c ∈ releases_of released (call_chunk c)) as Hr.
      { apply list_elem_of_In, List.filter_In. split; [by apply list_elem_of_In|apply Z.eqb_refl]. }
      rewrite Hrec in Hr. by apply not_elem_of_nil in Hr.
  - intros k. specialize (Hrec k). destruct (signed_chunks p' !! k) as [r|].
    + destruct Hrec as (prev & _ & _ & _ & <- & ?). done.
    + rewrite Hrec. done.
Qed.

(** The signatures released for a chunk replace one another: the first is
    its only one so far, and each later one uses another blockhash and comes
    with a proof, matching the previous release, of a height past the
    previous one's last valid block. *)
Theorem resign_only_after_proven_expiry p cs :
  unused p → Forall (λ c, keeps_message (call_signer c)) cs →
  ∀ l c l', (history p cs).2 = l ++ c :: l' → fresh_release l c.
Proof.
  intros Hun Hcs. destruct (history_inv p p cs [] Hcs (unused_inv p Hun)) as [_ _ Hf _ _ _ _].
  exact Hf.
Qed.
End effects.

(** ** The interface to the transaction builder

    What the kit documents about the instructions and messages it builds. *)
Definition entry_instructions `{Kit} (sender mint token_program : Pubkey) (decimals : Z) (payer : Pubkey)
    (e : TransferEntry) (ixs : list Instruction) : Prop :=
  let ata owner := derive_associated_token_address owner mint token_program in
  ∃ create transfer note, ixs = create ++ [transfer] ++ note ∧
    (if te_ata_creation_required e then
       ∃ ix, create = [ix] ∧ ix_program ix = associated_token_program_id ∧ ix_data ix = [1] ∧
         map meta_pubkey (ix_accounts ix) =
         [payer; ata (te_recipient e); te_recipient e; mint; system_program_id; token_program]
     else create = []) ∧
    ix_program transfer = token_program ∧
    ix_data transfer = 12 :: le_bytes 8 (te_amount e) ++ [decimals] ∧
    map meta_pubkey (ix_accounts transfer) = [ata sender; mint; ata (te_recipient e); sender] ∧
    match te_memo e with
    | Some text => ∃ ix, note = [ix] ∧ ix_program ix = memo_program_id ∧ ix_data ix = str_bytes text
    | None => note = []
    end.

(** A compiled instruction stands for an instruction under a key table. *)
Definition resolves (keys : list Pubkey) (ix : Instruction) (ci : CompiledInstruction) : Prop :=
  keys !! Z.to_nat (program_id_index ci) = Some (ix_program ix) ∧
  Forall2 (λ i k, keys !! Z.to_nat i = Some k) (accounts ci) (map meta_pubkey (ix_accounts ix)) ∧
  data ci = ix_data ix.

Class KitLaws `{Kit} : Prop := {
  ids_distinct : NoDup allowed_programs;
  price_law : ∀ n, ix_program (unit_price_instruction n) = compute_budget_program_id ∧
    ix_data (unit_price_instruction n) = 3 :: le_bytes 8 n;
  limit_law : ∀ n, ix_program (unit_limit_instruction n) = compute_budget_program_id ∧
    ix_data (unit_limit_instruction n) = 2 :: le_bytes 4 n;
  batch_law : ∀ sender mint program decimals payer es ixs,
    build_spl_transfer_batch_instructions sender mint program decimals payer es = Ok ixs →
    ∃ groups, ixs = concat groups ∧ Forall2 (entry_instructions sender mint program decimals payer) es groups;
  build_law : ∀ payer ixs hash tx, build_unsigned payer ixs hash = Ok tx →
    head (static_account_keys (message tx)) = Some payer ∧ recent_blockhash (message tx) = hash ∧
    Forall2 (resolves (static_account_keys (message tx))) ixs (instructions (message tx))
}.

Section interface.
Context `{KitLaws}.
Context (pubkey_text : Pubkey → string).

Lemma account_at_Ok m i k key : account_keys m !! Z.to_nat i = Some key → account_at m i k = Ok key.
Proof. unfold account_at. by intros ->. Qed.

(** Pass the equality guards whose two sides are the same. *)
Ltac pass_guards :=
  repeat first
    [ rewrite bind_ok_simpl
    | rewrite bool_decide_eq_false_2 by (let Hne := fresh in intros Hne; by apply Hne)
    | rewrite Z.eqb_refl
    | progress cbn [reject_if negb orb andb] ].

Lemma price_accepted m ci k n :
  resolves (account_keys m) (unit_price_instruction n) ci → is_u64 n → decode_compute_unit_price m ci k = Ok n.
Proof.
  intros (Hp & _ & Hd) Hn. destruct (price_law n) as [Hprog Hdata]. rewrite Hprog in Hp. rewrite Hdata in Hd.
  unfold decode_compute_unit_price, data_int. rewrite (account_at_Ok _ _ _ _ Hp), Hd.
  cbn [length head drop Nat.eqb]. rewrite drop_0, take_ge by (by rewrite length_le_bytes).
  rewrite from_le_bytes_le_bytes, length_le_bytes by done. cbn [Nat.eqb]. pass_guards. reflexivity.
Qed.

Lemma limit_accepted m ci k n :
  resolves (account_keys m) (unit_limit_instruction n) ci → is_u32 n → decode_compute_unit_limit m ci k = Ok n.
Proof.
  intros (Hp & _ & Hd) Hn. destruct (limit_law n) as [Hprog Hdata]. rewrite Hprog in Hp. rewrite Hdata in Hd.
  unfold decode_compute_unit_limit, data_int. rewrite (account_at_Ok _ _ _ _ Hp), Hd.
  cbn [length head drop Nat.eqb]. rewrite drop_0, take_ge by (by rewrite length_le_bytes).
  rewrite from_le_bytes_le_bytes, length_le_bytes by done. cbn [Nat.eqb]. pass_guards. reflexivity.
Qed.

Lemma nth_account_Ok m ci ks i k key :
  Forall2 (λ i k, account_keys m !! Z.to_nat i = Some k) (accounts ci) ks → ks !! i = Some key →
  nth_account m ci i k = Ok key.
Proof.
  intros Hf Hi. destruct (Forall2_lookup_r _ _ _ _ _ Hf Hi) as (a & Ha & Hk).
  unfold nth_account. rewrite (list_lookup_total_correct _ _ _ Ha). by apply account_at_Ok.
Qed.

Lemma ata_create_accepted m ci ix payer owner ata mint program k :
  resolves (account_keys m) ix ci → ix_program ix = associated_token_program_id → ix_data ix = [1] →
  map meta_pubkey (ix_accounts ix) = [payer; ata; owner; mint; system_program_id; program] →
  validate_ata_create m ci payer owner ata mint program k = Ok tt.
Proof.
  intros (Hp & Ha & Hd) Hprog Hdata Hacc. rewrite Hprog in Hp. rewrite Hacc in Ha. rewrite Hdata in Hd.
  unfold validate_ata_create. rewrite (account_at_Ok _ _ _ _ Hp), Hd.
  pose proof (Forall2_length _ _ _ Ha) as Hl. rewrite Hl. cbn [length Nat.eqb]. pass_guards.
  rewrite (nth_account_Ok _ _ _ 0 k payer Ha), (nth_account_Ok _ _ _ 1 k ata Ha),
    (nth_account_Ok _ _ _ 2 k owner Ha), (nth_account_Ok _ _ _ 3 k mint Ha),
    (nth_account_Ok _ _ _ 4 k system_program_id Ha), (nth_account_Ok _ _ _ 5 k program Ha) by done.
  pass_guards. reflexivity.
Qed.

Lemma transfer_accepted m ci ix source mint dest authority amount decimals k :
  resolves (account_keys m) ix ci →
  ix_program ix = token_program_id ∨ ix_program ix = token_2022_program_id →
  ix_data ix = 12 :: le_bytes 8 amount ++ [decimals] → is_u64 amount →
  map meta_pubkey (ix_accounts ix) = [source; mint; dest; authority] →
  validate_transfer_checked m ci source mint dest authority amount decimals k = Ok tt.
Proof.
  intros (Hp & Ha & Hd) Hprog Hdata Hamt Hacc. rewrite Hacc in Ha. rewrite Hdata in Hd.
  unfold validate_transfer_checked, data_int. rewrite (account_at_Ok _ _ _ _ Hp), bind_ok_simpl, Hd.
  replace (bool_decide (ix_program ix ≠ token_program_id) && bool_decide (ix_program ix ≠ token_2022_program_id))
    with false.
  2:{ destruct Hprog as [-> | ->]; [by rewrite bool_decide_eq_false_2 by (intros Hne; by apply Hne)|].
      by rewrite andb_comm, bool_decide_eq_false_2 by (intros Hne; by apply Hne). }
  pose proof (Forall2_length _ _ _ Ha) as Hl. rewrite Hl. cbn [length Nat.eqb negb reject_if]. pass_guards.
  rewrite length_app, length_le_bytes. cbn [length Nat.add Nat.eqb negb orb].
  change ((12 :: le_bytes 8 amount ++ [decimals]) !!! 0%nat) with 12.
  change ((12 :: le_bytes 8 amount ++ [decimals]) !!! 9%nat) with decimals.
  change (take 8 (drop 1 (12 :: le_bytes 8 amount ++ [decimals]))) with (le_bytes 8 amount).
  rewrite from_le_bytes_le_bytes by done. unfold TRANSFER_CHECKED_DISCRIMINATOR. pass_guards.
  rewrite (nth_account_Ok _ _ _ 0 k source Ha), (nth_account_Ok _ _ _ 1 k mint Ha),
    (nth_account_Ok _ _ _ 2 k dest Ha), (nth_account_Ok _ _ _ 3 k authority Ha) by done.
  pass_guards. reflexivity.
Qed.

Lemma memo_accepted m ci ix text k :
  resolves (account_keys m) ix ci → ix_program ix = memo_program_id → ix_data ix = str_bytes text →
  is_utf8 (str_bytes text) = true → validate_memo m ci text k = Ok tt.
Proof.
  intros (Hp & _ & Hd) Hprog Hdata Hutf. rewrite Hprog in Hp. rewrite Hdata in Hd.
  unfold validate_memo. rewrite (account_at_Ok _ _ _ _ Hp), Hd, Hutf.
  rewrite (bool_decide_eq_true_2 (str_bytes text = str_bytes text)) by done. pass_guards. reflexivity.
Qed.

(** The instructions of an entry are accepted at the cursor. *)
Lemma entry_accepted p m k cursor e te groups cis rest :
  permit_token_program p = token_program_id ∨ permit_token_program p = token_2022_program_id →
  source_ata p = derive_associated_token_address (account_pubkey p) (permit_mint p) (permit_token_program p) →
  is_u64 (entry_amount_raw e) →
  te_recipient te = entry_recipient e → te_amount te = entry_amount_raw e →
  te_ata_creation_required te = entry_ata_creation_required e →
  entry_instructions (account_pubkey p) (permit_mint p) (permit_token_program p) (permit_decimals p)
    (permit_fee_payer p) te groups →
  Forall2 (resolves (account_keys m)) groups cis →
  drop cursor (view_instructions m) = cis ++ rest →
  ∃ cursor' note, validate_entry p m k cursor e = Ok cursor' ∧
    drop cursor' (view_instructions m) = note ++ rest ∧
    (te_memo te = None → note = []) ∧
    ∀ text, te_memo te = Some text → is_utf8 (str_bytes text) = true →
      ∃ ci, note = [ci] ∧ validate_memo m ci text k = Ok tt.
Proof.
  intros Hprog Hsrc Hu Hrec Hamt Hcreate (create & transfer & note & -> & Hc & Htp & Htd & Hta & Hn) Hres Hdrop.
  apply Forall2_app_inv_l in Hres as (cc & crest & Hcc & Hres & ->).
  apply Forall2_app_inv_l in Hres as (ct & cnote & Hct & Hcn & ->).
  apply Forall2_cons_inv_l in Hct as (cit & ? & Hcit & Hnil & ->). apply Forall2_nil_inv_l in Hnil as ->.
  rewrite Hrec, Hamt, Hcreate in *. rewrite <- Hsrc in Hta.
  assert (∃ c, (if entry_ata_creation_required e then
              ix ← instruction_at m cursor k;
              _ ← validate_ata_create m ix (permit_fee_payer p) (entry_recipient e)
                    (derive_associated_token_address (entry_recipient e) (permit_mint p) (permit_token_program p))
                    (permit_mint p) (permit_token_program p) k;
              Ok (S cursor)
            else Ok cursor) = Ok c ∧
          drop c (view_instructions m) = cit :: cnote ++ rest) as (c & Hcur & Hd).
  { destruct (entry_ata_creation_required e); [|subst create].
    - destruct Hc as (ix & -> & Hp & Hdt & Ha).
      apply Forall2_cons_inv_l in Hcc as (cic & ? & Hcic & Hnil & ->). apply Forall2_nil_inv_l in Hnil as ->.
      exists (S cursor). simpl in Hdrop.
      assert (view_instructions m !! cursor = Some cic) as Hl
        by (by rewrite <- (Nat.add_0_r cursor), <- lookup_drop, Hdrop).
      rewrite (drop_S _ _ _ Hl) in Hdrop. injection Hdrop as Hdrop. split; [|done].
      unfold instruction_at. rewrite Hl. cbn [ok_or].
      by rewrite bind_ok_simpl, (ata_create_accepted _ _ _ _ _ _ _ _ k Hcic Hp Hdt Ha).
    - apply Forall2_nil_inv_l in Hcc as ->. by exists cursor. }
  assert (view_instructions m !! c = Some cit) as Hl
    by (by rewrite <- (Nat.add_0_r c), <- lookup_drop, Hd).
  rewrite (drop_S _ _ _ Hl) in Hd. injection Hd as Hd.
  exists (S c), cnote. split_and!; [|done| |].
  - unfold validate_entry. rewrite Hcur, bind_ok_simpl. unfold instruction_at at 1. rewrite Hl. cbn [ok_or].
    rewrite bind_ok_simpl, (transfer_accepted _ _ transfer); try done. by rewrite Htp.
  - intros Hm. rewrite Hm in Hn. subst note. by apply Forall2_nil_inv_l in Hcn.
  - intros text Hm Hutf. rewrite Hm in Hn. destruct Hn as (ix & -> & Hp & Hdt).
    apply Forall2_cons_inv_l in Hcn as (ci & ? & Hci & Hnil & ->). apply Forall2_nil_inv_l in Hnil as ->.
    exists ci. split; [done|]. by eapply memo_accepted.
Qed.

(** Only the last entry carries the memo. *)
Fixpoint memo_last (text : string) (tes : list TransferEntry) : Prop :=
  match tes with
  | [] => False
  | [te] => te_memo te = Some text
  | te :: tes => te_memo te = None ∧ memo_last text tes
  end.

Definition same_transfer (e : PlannedTransferEntry) (te : TransferEntry) : Prop :=
  te_recipient te = entry_recipient e ∧ te_amount te = entry_amount_raw e ∧
  te_ata_creation_required te = entry_ata_creation_required e.

Section accepted.
Context (p : BatchSigningPermit) (m : MessageView) (k : Z) (text : string).
Hypothesis token_program : permit_token_program p = token_program_id ∨ permit_token_program p = token_2022_program_id.
Hypothesis source : source_ata p =
  derive_associated_token_address (account_pubkey p) (permit_mint p) (permit_token_program p).
Hypothesis memo_utf8 : is_utf8 (str_bytes text) = true.

Lemma entries_accepted es tes groups : ∀ cursor cis,
  Forall2 same_transfer es tes → Forall (λ e, is_u64 (entry_amount_raw e)) es → memo_last text tes →
  Forall2 (entry_instructions (account_pubkey p) (permit_mint p) (permit_token_program p) (permit_decimals p)
             (permit_fee_payer p)) tes groups →
  Forall2 (resolves (account_keys m)) (concat groups) cis →
  drop cursor (view_instructions m) = cis →
  ∃ cursor' ci, try_fold (validate_entry p m k) cursor es = Ok cursor' ∧
    drop cursor' (view_instructions m) = [ci] ∧ validate_memo m ci text k = Ok tt.
Proof.
  revert tes groups. induction es as [|e es IH]; intros tes groups cursor cis Hs Hu Hm Hg Hr Hd.
  { apply Forall2_nil_inv_l in Hs as ->. done. }
  apply Forall2_cons_inv_l in Hs as (te & tes' & (Hrec & Hamt & Hcreate) & Hs & ->).
  apply Forall_cons_1 in Hu as [Hu Hus].
  apply Forall2_cons_inv_l in Hg as (g & groups' & Hg & Hgs & ->). simpl in Hr.
  apply Forall2_app_inv_l in Hr as (cg & crest & Hcg & Hcr & ->).
  destruct (entry_accepted p m k cursor e te g cg crest token_program source Hu Hrec Hamt Hcreate Hg Hcg Hd)
    as (c & note & Hval & Hdrop & Hnone & Hsome).
  cbn [try_fold]. rewrite Hval, bind_ok_simpl.
  destruct tes' as [|te' tes'].
  - apply Forall2_nil_inv_r in Hs as ->. apply Forall2_nil_inv_l in Hgs as ->.
    apply Forall2_nil_inv_l in Hcr as ->. rewrite app_nil_r in Hdrop.
    destruct (Hsome text Hm memo_utf8) as (ci & -> & Hmv). exists c, ci. done.
  - destruct Hm as [Hnm Hm]. rewrite (Hnone Hnm) in Hdrop. eapply IH; eauto.
Qed.
End accepted.

Lemma entry_programs sender mint program decimals payer te g :
  program = token_program_id ∨ program = token_2022_program_id →
  entry_instructions sender mint program decimals payer te g →
  Forall (λ ix, ix_program ix ∈ allowed_programs) g.
Proof.
  intros Hp (create & transfer & note & -> & Hc & Htp & _ & _ & Hn). unfold allowed_programs.
  rewrite !Forall_app, Forall_singleton. split_and!.
  - destruct (te_ata_creation_required te); [|by subst]. destruct Hc as (ix & -> & Hix & _).
    rewrite Forall_singleton, Hix, !elem_of_cons. tauto.
  - rewrite Htp, !elem_of_cons. tauto.
  - destruct (te_memo te); [|by subst]. destruct Hn as (ix & -> & Hix & _).
    rewrite Forall_singleton, Hix, !elem_of_cons. tauto.
Qed.

Lemma programs_accepted m k ixs :
  Forall (λ ix, ix_program ix ∈ allowed_programs) ixs →
  ∀ cis, Forall2 (resolves (account_keys m)) ixs cis →
  try_fold (λ _ ix, check_program pubkey_text m k ix) tt cis = Ok tt.
Proof.
  intros Ha cis Hr. induction Hr as [|ix ci ixs cis (Hp & _) _ IH]; [done|].
  apply Forall_cons_1 in Ha as [Hix Ha]. cbn [try_fold].
  assert (check_program pubkey_text m k ci = Ok tt) as ->; [|exact (IH Ha)].
  unfold check_program. rewrite Hp. cbn [ok_or]. by rewrite bind_ok_simpl, bool_decide_eq_true_2.
Qed.

Lemma imap_memo_last (f : PlannedTransferEntry → option string → TransferEntry) text es : ∀ j,
  (∀ e o, te_memo (f e o) = o) → es ≠ [] →
  memo_last text (imap (λ pos e, f e (memo_at_last text (j + length es - 1) (j + pos))) es).
Proof.
  induction es as [|e es IH]; intros j Hf Hne; [done|]. rewrite imap_cons. unfold memo_at_last at 1.
  destruct es as [|e' es].
  - simpl. rewrite Hf, Nat.add_0_r. by replace (j =? j + 1 - 1)%nat with true by (symmetry; apply Nat.eqb_eq; lia).
  - specialize (IH (S j) Hf ltac:(done)).
    assert (∀ a b : nat, a = b → imap (λ pos e, f e (memo_at_last text a (S j + pos))) (e' :: es) =
      imap ((λ pos e, f e (memo_at_last text b (j + pos))) ∘ S) (e' :: es)) as Hext.
    { intros a b ->. apply imap_ext. intros i x _. simpl. by rewrite Nat.add_succ_r. }
    rewrite (Hext _ (j + length (e :: e' :: es) - 1)%nat) in IH by (simpl; lia).
    split; [|exact IH]. rewrite Hf. simpl.
    by replace (j + 0 =? j + S (S (length es)) - 1)%nat with false by (symmetry; apply Nat.eqb_neq; lia).
Qed.

(** Validation succeeds once each of its steps does. *)
Lemma validate_accepts p chunk tx ci0 ci1 ci cursor :
  let m := message_view (message tx) in
  let k := chunk_index chunk in
  head (account_keys m) = Some (permit_fee_payer p) →
  try_fold (λ _ ix, check_program pubkey_text m k ix) tt (view_instructions m) = Ok tt →
  instruction_at m 0 k = Ok ci0 → instruction_at m 1 k = Ok ci1 →
  decode_compute_unit_price m ci0 k = Ok (compute_unit_price_micro_lamports chunk) →
  decode_compute_unit_limit m ci1 k = Ok (compute_unit_limit chunk) →
  try_fold (validate_entry p m k) 2%nat (entries chunk) = Ok cursor →
  drop cursor (view_instructions m) = [ci] → validate_memo m ci (memo chunk) k = Ok tt →
  validate_prepared_transaction pubkey_text p chunk tx = Ok tt.
Proof.
  intros m k Hpayer Hprogs Hi0 Hi1 Hprice Hlimit Hfold Hdrop Hmv.
  unfold validate_prepared_transaction. fold m k. rewrite Hpayer. cbn [ok_or]. pass_guards.
  rewrite Hprogs. pass_guards. rewrite Hi0. pass_guards. rewrite Hprice. pass_guards.
  rewrite Z.ltb_irrefl. pass_guards. rewrite Hi1. pass_guards. rewrite Hlimit. pass_guards.
  rewrite Z.ltb_irrefl. pass_guards. rewrite Hfold. pass_guards.
  assert (view_instructions m !! cursor = Some ci) as Hl
    by (by rewrite <- (Nat.add_0_r cursor), <- lookup_drop, Hdrop).
  unfold instruction_at. rewrite Hl. cbn [ok_or]. pass_guards. rewrite Hmv. pass_guards.
  apply (f_equal length) in Hdrop. rewrite length_drop in Hdrop. cbn [length] in Hdrop.
  replace (S cursor =? length (view_instructions m))%nat with true by (symmetry; apply Nat.eqb_eq; lia).
  reflexivity.
Qed.

(** The kit entries [build_chunk_transaction] makes. *)
Lemma kit_entries_shape chunk :
  entries chunk ≠ [] →
  let tes := imap (λ position entry, {|
        te_recipient := entry_recipient entry;
        te_amount := entry_amount_raw entry;
        te_ata_creation_required := entry_ata_creation_required entry;
        te_memo := memo_at_last (memo chunk) (Z.to_nat (zlen (entries chunk) - 1)) position |}) (entries chunk) in
  Forall2 same_transfer (entries chunk) tes ∧ memo_last (memo chunk) tes.
Proof.
  intros Hne tes. split.
  - apply Forall2_same_length_lookup_2; [unfold tes; by rewrite length_imap|].
    intros j e te He Hte. unfold tes in Hte. rewrite list_lookup_imap, He in Hte. by injection Hte as <-.
  - pose proof (imap_memo_last (λ e o, {| te_recipient := entry_recipient e; te_amount := entry_amount_raw e;
      te_ata_creation_required := entry_ata_creation_required e; te_memo := o |})
      (memo chunk) (entries chunk) 0 (λ _ _, eq_refl) Hne) as Hml.
    unfold tes. replace (Z.to_nat (zlen (entries chunk) - 1)) with (0 + length (entries chunk) - 1)%nat
      by (unfold zlen; lia). exact Hml.
Qed.

(** The permit accepts what the executor prepares: the transaction
    [build_chunk_transaction] makes from a planned chunk, on any blockhash,
    passes the permit's validation for that chunk, so a run never stalls on
    its own transactions. *)
Theorem prepared_chunk_is_accepted p chunk blockhash tx :
  permit_token_program p = token_program_id ∨ permit_token_program p = token_2022_program_id →
  source_ata p = derive_associated_token_address (account_pubkey p) (permit_mint p) (permit_token_program p) →
  Forall (λ e, is_u64 (entry_amount_raw e)) (entries chunk) →
  is_u64 (compute_unit_price_micro_lamports chunk) → is_u32 (compute_unit_limit chunk) →
  is_utf8 (str_bytes (memo chunk)) = true →
  build_chunk_transaction chunk (permit_mint p) (permit_token_program p) (permit_decimals p)
    (account_pubkey p) (permit_fee_payer p) blockhash = Ok tx →
  validate_prepared_transaction pubkey_text p chunk tx = Ok tt.
Proof.
  intros Hprog Hsrc Hamts Hprice Hlimit Hutf Hb. unfold build_chunk_transaction in Hb.
  apply bind_Ok in Hb as (last & Hlast & Hb). apply ok_or_Ok in Hlast.
  apply bind_Ok in Hb as (batch & Hbatch & Hb). apply map_err_Ok in Hb, Hbatch.
  apply try_from_Some in Hlast as [-> [Hlast _]].
  assert (entries chunk ≠ []) as Hne by (intros He; rewrite He in Hlast; unfold zlen in Hlast; cbn [length] in Hlast; lia).
  apply batch_law in Hbatch as (groups & -> & Hg).
  apply build_law in Hb as (Hpayer & _ & Hres).
  apply Forall2_cons_inv_l in Hres as (ci0 & cis0 & Hr0 & Hres & Hinstr).
  apply Forall2_cons_inv_l in Hres as (ci1 & cis & Hr1 & Hres & ->).
  set (m := message_view (message tx)).
  destruct (kit_entries_shape chunk Hne) as [Hsame Hmemo].
  destruct (entries_accepted p m (chunk_index chunk) (memo chunk) Hprog Hsrc Hutf (entries chunk) _ groups
              2 cis Hsame Hamts Hmemo Hg Hres) as (cursor & ci & Hfold & Hdrop & Hmv).
  { change (view_instructions m) with (instructions (message tx)). by rewrite Hinstr. }
  apply (validate_accepts p chunk tx ci0 ci1 ci cursor); try done; fold m.
  - change (view_instructions m) with (instructions (message tx)). rewrite Hinstr.
    apply (programs_accepted m _ (compute_unit_price_instruction (compute_unit_price_micro_lamports chunk) ::
      compute_unit_limit_instruction (compute_unit_limit chunk) :: concat groups)).
    + constructor; [|constructor].
      * unfold compute_unit_price_instruction. rewrite (proj1 (price_law _)). constructor.
      * unfold compute_unit_limit_instruction. rewrite (proj1 (limit_law _)). constructor.
      * apply Forall_concat. clear -Hg Hprog pubkey_text. induction Hg; constructor; [|done]. by eapply entry_programs.
    + constructor; [exact Hr0|]. constructor; [exact Hr1|exact Hres].
  - unfold instruction_at. by rewrite (Hinstr : view_instructions m = _).
  - unfold instruction_at. by rewrite (Hinstr : view_instructions m = _).
  - exact (price_accepted m ci0 _ _ Hr0 Hprice).
  - exact (limit_accepted m ci1 _ _ Hr1 Hlimit).
Qed.
End interface.

(** ** A concrete permit *)
Module SamplePermit.
Import SampleKit.
Definition text (_ : Pubkey) : string := "key".
Definition summary : BatchAuthorizationSummary := {|
  sum_account := "default"; sum_currency := "USDC"; sum_currency_decimals := 6; sum_network := "mainnet";
  recipient_total_raw := 15200; max_total_raw := 15200 |}.
Definition blank : BatchSigningPermit := {|
  permit_manifest_hash := []; account_pubkey := []; permit_genesis_hash := []; permit_mint := [];
  permit_token_program := []; permit_decimals := 0; source_ata := []; fee_payer_mode := SelfFunded;
  permit_fee_payer := []; permit_chunks := []; max_token_raw := 0; max_transactions := 0; expires_at := 0;
  signed_amount_raw := 0; signed_tx_count := 0; signed_chunks := ∅ |}.
Definition permit : BatchSigningPermit :=
  match authorize (key 7) manifest plan summary 1000 3600 (Ok sender) with Ok p => p | Err _ => blank end.

Definition tx_on (k : nat) (blockhash : list Z) : VersionedTransaction :=
  match build_chunk_transaction (chunk_at k) (key 8) (key 4) 6 sender sender blockhash with
  | Ok tx => tx
  | Err _ => compile [] [] []
  end.
Definition signer : Signer := {|
  sign_slot := λ tx, Ok {| message := message tx; signatures := [replicate 64 9] |};
  encode := λ _, Ok "AQ==" |}.
Definition sign_call (k : nat) (c : Z) (bh : list Z) (lvbh : Z) (expiry : option BlockhashExpiryProof) : call :=
  {| call_now := 1500; call_signer := signer; call_chunk := c; call_tx := tx_on k bh;
     call_lvbh := lvbh; call_expiry := expiry |}.
(** Sign chunk 4, try to sign it again, sign chunk 5, re-sign 4 too early,
    re-sign 4 once it has expired. *)
Definition calls : list call :=
  [ sign_call 0 4 (key 70) 200 None;
    sign_call 0 4 (key 71) 300 None;
    sign_call 1 5 (key 72) 250 None;
    sign_call 0 4 (key 73) 400 (Some {| previous_blockhash := key 70; previous_last_valid_block_height := 200;
                                        confirmed_current_block_height := 200 |});
    sign_call 0 4 (key 73) 400 (Some {| previous_blockhash := key 70; previous_last_valid_block_height := 200;
                                        confirmed_current_block_height := 201 |}) ].

Definition released : list call :=
  [ sign_call 0 4 (key 70) 200 None; sign_call 1 5 (key 72) 250 None;
    sign_call 0 4 (key 73) 400 (Some {| previous_blockhash := key 70; previous_last_valid_block_height := 200;
                                        confirmed_current_block_height := 201 |}) ].
Lemma history_released : (history text permit calls).2 = released.
Proof. vm_compute. reflexivity. Qed.

Lemma programs_distinct : NoDup allowed_programs.
Proof. apply (bool_decide_unpack _). vm_compute. exact I. Qed.

Lemma permit_unused : unused permit.
Proof. split; [vm_compute; reflexivity|]. split; vm_compute; congruence. Qed.

Lemma signer_keeps : keeps_message signer.
Proof. intros tx tx' [= <-]. reflexivity. Qed.

Lemma calls_keep : Forall (λ c, keeps_message (call_signer c)) calls.
Proof. repeat constructor; exact signer_keeps. Qed.

Lemma amounts_fit : Forall (λ chunk, Forall (λ e, is_u64 (entry_amount_raw e)) (entries chunk)) (permit_chunks permit).
Proof. apply (bool_decide_unpack _). vm_compute. exact I. Qed.

(** The sample kit keeps the promises of [KitLaws]. *)
Lemma index_of_lookup keys k : k ∈ keys → keys !! Z.to_nat (index_of keys k) = Some k.
Proof.
  intros Hk. unfold index_of. destruct (list_find (λ x, x = k) keys) as [[i x]|] eqn:Hf.
  - apply list_find_Some in Hf as (Hi & -> & _). by rewrite Nat2Z.id.
  - apply list_find_None in Hf. rewrite Forall_forall in Hf. by destruct (Hf k).
Qed.

Lemma keys_of_elem payer ixs ix k :
  ix ∈ ixs → k ∈ ix_program ix :: map meta_pubkey (ix_accounts ix) → k ∈ keys_of payer ixs.
Proof.
  intros Hix Hk. unfold keys_of. rewrite elem_of_cons, list_elem_of_filter, elem_of_remove_dups.
  destruct (decide (k = payer)); [by left|right]. split; [done|].
  apply list_elem_of_In, in_concat. eexists. split; [|by apply list_elem_of_In].
  apply in_map_iff. exists ix. split; [done|by apply list_elem_of_In].
Qed.

Lemma compile_resolves payer ixs hash :
  Forall2 (resolves (static_account_keys (message (compile payer ixs hash)))) ixs
    (instructions (message (compile payer ixs hash))).
Proof.
  simpl. apply Forall2_fmap_r, Forall_Forall2_diag, Forall_forall. intros ix Hix. split_and!; [| |done]; simpl.
  - apply index_of_lookup. eapply keys_of_elem; [done|constructor].
  - apply Forall2_fmap_l, Forall2_fmap_r, Forall_Forall2_diag, Forall_forall. intros mt Hmt.
    apply index_of_lookup. eapply keys_of_elem; [done|]. right. by apply list_elem_of_fmap_2.
Qed.

#[global] Instance kit_laws : KitLaws.
Proof.
  split.
  - exact programs_distinct.
  - done.
  - done.
  - intros sender mint program decimals payer es ixs [= <-].
    exists (map (SampleKit.entry_instructions sender mint program decimals payer) es). split; [done|].
    apply Forall2_fmap_r, Forall_Forall2_diag, Forall_true. intros te.
    unfold entry_instructions, SampleKit.entry_instructions.
    do 3 eexists. split; [reflexivity|]. split_and!; try done.
    + destruct (te_ata_creation_required te); [|done]. eexists. split_and!; try done.
    + destruct (te_memo te); [|done]. eexists. split_and!; done.
  - intros payer ixs hash tx Hb. simpl in Hb. destruct (1232 <? _); [done|]. injection Hb as <-.
    split_and!; [done|done|apply compile_resolves].
Qed.
End SamplePermit.

Lemma accepted_plan_is_the_manifest_witness :
  map entry_key (concat (map entries (chunks SampleKit.plan))) ≡ₚ map row_key SampleKit.rows.
Proof.
  apply (accepted_plan_is_the_manifest (λ x, x) SampleKit.manifest SampleKit.plan).
  - exact SampleKit.manifest_is_wf.
  - vm_compute. reflexivity.
Defined.

Lemma packed_plan_is_accepted_witness :
  validate_plan_matches_manifest SampleKit.manifest SampleKit.plan = Ok tt.
Proof.
  assert (NoDup (map row_number (manifest_rows SampleKit.manifest))) as Hnd
    by (rewrite (wf_numbers _ _ SampleKit.manifest_is_wf); apply NoDup_seqZ).
  exact (packed_plan_is_accepted SampleKit.manifest SampleKit.ata SelfFunded SampleKit.sender
           SampleKit.sender 1000 4 SampleKit.plan Hnd SampleKit.packs).
Defined.

Lemma validated_transaction_effects_witness :
  ∃ price limit, price ≤ 1000 ∧ limit ≤ 246000 ∧
    decode_effects (message (SamplePermit.tx_on 0 (SampleKit.key 70))) =
    Some (SetPrice price :: SetLimit limit ::
          concat (map (entry_effects SamplePermit.permit) (entries (SampleKit.chunk_at 0))) ++
          [Memo (str_bytes (memo (SampleKit.chunk_at 0)))]).
Proof.
  apply (validated_transaction_effects SamplePermit.text SamplePermit.programs_distinct SamplePermit.permit
           (SampleKit.chunk_at 0) (SamplePermit.tx_on 0 (SampleKit.key 70))).
  vm_compute. reflexivity.
Defined.

Lemma permit_never_overspends_witness :
  let landed := drop 1 SamplePermit.released in
  zsum (map (λ c, payout (message (call_tx c))) landed) = 15200 ∧ max_token_raw SamplePermit.permit = 15200 ∧
  zsum (map (λ c, payout (message (call_tx c))) landed) ≤ max_token_raw SamplePermit.permit.
Proof.
  intros landed. split; [vm_compute; reflexivity|]. split; [vm_compute; reflexivity|].
  refine (proj1 (permit_never_overspends SamplePermit.text SamplePermit.programs_distinct SamplePermit.permit
           SamplePermit.calls landed SamplePermit.permit_unused SamplePermit.calls_keep SamplePermit.amounts_fit _ _)).
  - rewrite SamplePermit.history_released. intros c Hc. by right.
  - apply (bool_decide_unpack _). vm_compute. exact I.
Defined.

Lemma resign_only_after_proven_expiry_witness :
  fresh_release (take 2 SamplePermit.released) (List.last SamplePermit.released (SamplePermit.sign_call 0 0 [] 0 None)).
Proof.
  refine (resign_only_after_proven_expiry SamplePermit.text SamplePermit.permit SamplePermit.calls
           SamplePermit.permit_unused SamplePermit.calls_keep _ _ [] _).
  rewrite SamplePermit.history_released. reflexivity.
Defined.

Lemma prepared_chunk_is_accepted_witness :
  validate_prepared_transaction SamplePermit.text SamplePermit.permit (SampleKit.chunk_at 1)
    (SamplePermit.tx_on 1 (SampleKit.key 72)) = Ok tt.
Proof.
  apply (prepared_chunk_is_accepted SamplePermit.text SamplePermit.permit (SampleKit.chunk_at 1) (SampleKit.key 72)).
  - left. vm_compute. reflexivity.
  - vm_compute. reflexivity.
  - apply (bool_decide_unpack _). vm_compute. exact I.
  - vm_compute. intuition congruence.
  - vm_compute. intuition congruence.
  - vm_compute. reflexivity.
  - vm_compute. reflexivity.
Defined.
