(* ===== verification/PushJournal.v ===== *)
(** * PushJournal: the durable payout journal and its resume reducer

    [core/src/client/push/journal.rs].  The file is its byte contents; every
    write carries the outcome the operating system gave it, so that short
    writes, failed syncs and crashes are explicit.  JSON encoding of one
    event is the class [EventCodec]. *)
From S2P Require Import Prelude Text Affixes Landing PushManifest PushPlanner.
#[local] Open Scope string_scope.
#[local] Open Scope list_scope.
#[local] Open Scope Z_scope.

(** ** Events *)
Inductive JournalEventKind :=
  | RunCreated (manifest_hash_hex network currency mint token_program : string) (decimals row_count total_amount_raw : Z)
      (requested_fee_mode : string)
  | PreflightCompleted (fee_payer_mode : string)
      (estimated_fee_lamports missing_ata_rent_lamports reserve_lamports chunk_count max_token_raw : Z)
  | AuthorizationGranted (account_pubkey : string) (max_token_raw max_transactions expires_at : Z)
  | ChunkPrepared (chunk_index : Z) (row_numbers : list Z) (memo : string)
  | ChunkSigned (chunk_index : Z) (row_numbers : list Z) (signature signed_transaction_base64 blockhash : string)
      (last_valid_block_height : Z)
  | ChunkBroadcast (chunk_index : Z) (signature : string)
  | ChunkConfirmed (chunk_index : Z) (signature : string)
  | ChunkFailed (chunk_index : Z) (reason : string) (retryable : bool)
  | RunInterrupted (reason : string) (confirmed failed remaining : Z)
  | RunCompleted (confirmed failed unknown : Z).

Definition event_chunk_index (kind : JournalEventKind) : option Z :=
  match kind with
  | ChunkPrepared k _ _ | ChunkSigned k _ _ _ _ _ | ChunkBroadcast k _
  | ChunkConfirmed k _ | ChunkFailed k _ _ => Some k
  | _ => None
  end.

Record JournalEvent := {
  sequence : Z;
  timestamp : Z;
  kind : JournalEventKind
}.

(** [serde_json] on journal events: text of one event and back. *)
Class EventCodec := {
  event_to_string : JournalEvent → string;
  event_from_str : string → result string JournalEvent
}.

(** Credential that a [chunk_signed] event is durable. *)
Record ChunkBroadcastPermit := { permit_chunk_index : Z }.

(** ** The file lock *)
Inductive TryLock := Locked | WouldBlock | LockError (e : string).
Definition LOCK_RETRIES : nat := 40.

(** The loop of [lock_exclusive] with [retries] attempts left after this
    one; the answers of successive [try_lock] calls are given. *)
Fixpoint lock_loop (path : string) (retries : nat) (answers : nat → TryLock) (attempt : nat) : res unit :=
  match answers attempt with
  | Locked => Ok tt
  | LockError e => Err (Config ("failed to lock journal " +:+ path +:+ ": " +:+ e))
  | WouldBlock =>
      match retries with
      | S retries => lock_loop path retries answers (S attempt)
      | O => Err (Config ("journal " +:+ path +:+ " is in use by another pay process; wait for it to finish"))
      end
  end.
Definition lock_exclusive (path : string) (answers : nat → TryLock) : res unit :=
  lock_loop path LOCK_RETRIES answers 0.

(** ** The writer *)
Record Journal := {
  journal_file : string;
  journal_path : string;
  next_sequence : Z
}.

(** What the operating system did with one [write_all]; [flush];
    [sync_data]. *)
Inductive Io :=
  | IoDone
  | WriteFailed (written : nat) (e : string)
  | FlushFailed (e : string)
  | SyncFailed (e : string).

Definition line_of (text : string) : string := text +:+ String newline "".

Definition with_file (j : Journal) (content : string) (next : Z) : Journal :=
  {| journal_file := content; journal_path := journal_path j; next_sequence := next |}.

Definition fee_payer_mode_label (mode : FeePayerMode) : string :=
  match mode with SelfFunded => "self_funded" | Gasless => "gasless" end.

(** [str::split_inclusive('\n')]. *)
Fixpoint split_lines (s : string) : list string :=
  match s with
  | EmptyString => []
  | String c s' =>
      if Ascii.eqb c newline then String c EmptyString :: split_lines s'
      else match split_lines s' with
           | [] => [String c EmptyString]
           | l :: ls => String c l :: ls
           end
  end.

(** [trim_end_matches(['\r', '\n'])]. *)
Fixpoint trim_eol (s : string) : string :=
  match s with
  | EmptyString => EmptyString
  | String c s' =>
      let t := trim_eol s' in
      if (Ascii.eqb c newline || Ascii.eqb c carriage_return) && bool_decide (t = "") then EmptyString
      else String c t
  end.

(** [pair[1].sequence <= pair[0].sequence] for some adjacent pair. *)
Fixpoint check_monotonic (path : string) (events : list JournalEvent) : res unit :=
  match events with
  | a :: rest =>
      match rest with
      | b :: _ =>
          if sequence b <=? sequence a then
            Err (Config ("journal " +:+ path +:+ " has non-monotonic sequence numbers (" +:+
                   show (sequence a) +:+ " then " +:+ show (sequence b) +:+ ")"))
          else check_monotonic path rest
      | [] => Ok tt
      end
  | [] => Ok tt
  end.

Section journal.
Context `{EventCodec}.

(** The line loop of [load_events]: the events read and, when the final line
    is partial, the offset the file is cut to. *)
Fixpoint load_lines (path : string) (lines : list string) (index : Z) (offset : nat) (events : list JournalEvent) :
    res (list JournalEvent * option nat) :=
  match lines with
  | [] => Ok (events, None)
  | raw_line :: rest =>
      let line := trim_eol raw_line in
      let next := (offset + String.length raw_line)%nat in
      if bool_decide (trim line = "") then load_lines path rest (index + 1) next events
      else
        match event_from_str line with
        | Ok event => load_lines path rest (index + 1) next (events ++ [event])
        | Err e =>
            match rest with
            | [] => Ok (events, Some offset)
            | _ => Err (Config ("journal " +:+ path +:+ " is corrupted at line " +:+ show (index + 1) +:+ ": " +:+ e))
            end
        end
  end.

(** Returns the file as it is afterwards and the result; [set_len] is the
    outcome of truncating. *)
Definition load_events (path : string) (content : option string) (set_len : result string unit) :
    option string * res (list JournalEvent) :=
  match content with
  | None => (None, Ok [])
  | Some raw =>
      if negb (is_utf8 (str_bytes raw)) then
        (Some raw, Err (Config ("failed to read journal " +:+ path +:+ ": stream did not contain valid UTF-8")))
      else
      match load_lines path (split_lines raw) 0 0 [] with
      | Err e => (Some raw, Err e)
      | Ok (events, None) => (Some raw, _ ← check_monotonic path events; Ok events)
      | Ok (events, Some offset) =>
          match set_len with
          | Err e => (Some raw, Err (Config ("failed to truncate partial journal line in " +:+ path +:+ ": " +:+ e)))
          | Ok _ => (Some (String.substring 0 offset raw), _ ← check_monotonic path events; Ok events)
          end
      end
  end.

(** [create_new]: the open fails when the file exists. *)
Definition create_new (path : string) (opened : result string unit) (answers : nat → TryLock) : res Journal :=
  _ ← map_err (λ e, Config ("failed to create journal " +:+ path +:+ ": " +:+ e)) opened;
  _ ← lock_exclusive path answers;
  Ok {| journal_file := ""; journal_path := path; next_sequence := 1 |}.

Definition open_existing (path : string) (content : string) (opened : result string unit)
    (answers : nat → TryLock) (set_len : result string unit) : res (Journal * list JournalEvent) :=
  _ ← map_err (λ e, Config ("failed to open journal " +:+ path +:+ ": " +:+ e)) opened;
  _ ← lock_exclusive path answers;
  let '(content', loaded) := load_events path (Some content) set_len in
  events ← loaded;
  let next := match last events with Some e => sequence e + 1 | None => 1 end in
  Ok ({| journal_file := default "" content'; journal_path := path; next_sequence := next |}, events).

Definition append_event (j : Journal) (now : Z) (io : Io) (k : JournalEventKind) : Journal * res JournalEvent :=
  let event := {| sequence := next_sequence j; timestamp := now; kind := k |} in
  let line := line_of (event_to_string event) in
  match io with
  | WriteFailed written e =>
      (with_file j (journal_file j +:+ String.substring 0 written line) (next_sequence j),
       Err (Config ("failed to write journal event: " +:+ e)))
  | FlushFailed e =>
      (with_file j (journal_file j +:+ line) (next_sequence j),
       Err (Config ("failed to flush journal event: " +:+ e)))
  | SyncFailed e =>
      (with_file j (journal_file j +:+ line) (next_sequence j),
       Err (Config ("failed to fsync journal event: " +:+ e)))
  | IoDone => (with_file j (journal_file j +:+ line) (next_sequence j + 1), Ok event)
  end.

Definition append_run_created (j : Journal) (now : Z) (io : Io)
    (manifest_hash_hex network currency mint token_program : string) (decimals row_count total_amount_raw : Z)
    (requested_fee_mode : string) : Journal * res JournalEvent :=
  append_event j now io (RunCreated manifest_hash_hex network currency mint token_program decimals row_count
                           total_amount_raw requested_fee_mode).
Definition append_preflight_completed (j : Journal) (now : Z) (io : Io) (mode : FeePayerMode)
    (fee rent reserve chunk_count max_token_raw : Z) : Journal * res JournalEvent :=
  append_event j now io (PreflightCompleted (fee_payer_mode_label mode) fee rent reserve chunk_count max_token_raw).
Definition append_authorization_granted (j : Journal) (now : Z) (io : Io) (account_pubkey : string)
    (max_token_raw max_transactions expires_at : Z) : Journal * res JournalEvent :=
  append_event j now io (AuthorizationGranted account_pubkey max_token_raw max_transactions expires_at).
Definition append_chunk_prepared (j : Journal) (now : Z) (io : Io) (k : Z) (row_numbers : list Z) (memo : string) :
    Journal * res JournalEvent :=
  append_event j now io (ChunkPrepared k row_numbers memo).
Definition append_chunk_signed (j : Journal) (now : Z) (io : Io) (k : Z) (row_numbers : list Z)
    (signature signed_transaction_base64 blockhash : string) (last_valid_block_height : Z) :
    Journal * res (JournalEvent * ChunkBroadcastPermit) :=
  let '(j', r) := append_event j now io
    (ChunkSigned k row_numbers signature signed_transaction_base64 blockhash last_valid_block_height) in
  (j', event ← r; Ok (event, {| permit_chunk_index := k |})).
Definition append_chunk_broadcast (j : Journal) (now : Z) (io : Io) (permit : ChunkBroadcastPermit) (signature : string) :
    Journal * res JournalEvent :=
  append_event j now io (ChunkBroadcast (permit_chunk_index permit) signature).
Definition append_chunk_confirmed (j : Journal) (now : Z) (io : Io) (k : Z) (signature : string) :
    Journal * res JournalEvent :=
  append_event j now io (ChunkConfirmed k signature).
Definition append_chunk_failed (j : Journal) (now : Z) (io : Io) (k : Z) (reason : string) (retryable : bool) :
    Journal * res JournalEvent :=
  append_event j now io (ChunkFailed k reason retryable).
Definition append_run_interrupted (j : Journal) (now : Z) (io : Io) (reason : string) (confirmed failed remaining : Z) :
    Journal * res JournalEvent :=
  append_event j now io (RunInterrupted reason confirmed failed remaining).
Definition append_run_completed (j : Journal) (now : Z) (io : Io) (confirmed failed unknown : Z) :
    Journal * res JournalEvent :=
  append_event j now io (RunCompleted confirmed failed unknown).
End journal.

(** ** Resume *)
Inductive ChunkResumeAction :=
  | Skip
  | RebroadcastIdenticalBytes (signed_transaction_base64 : string)
  | RepresentGaslessCredential (signed_transaction_base64 : string)
  | RecordConfirmedThenSkip (signature : string)
  | RetryAfterFailure (proof : Replaceable)
  | RebuildWithFreshBlockhash (proof : Replaceable)
  | NeedsSigning
  | StopUnknown (signature : string).

(** The scan over the log: the latest signature and whether it was confirmed
    afterwards. *)
Definition resume_scan (k : Z) (st : option (string * string * Z) * bool) (event : JournalEvent) :
    option (string * string * Z) * bool :=
  if bool_decide (event_chunk_index (kind event) = Some k) then
    match kind event with
    | ChunkSigned _ _ signature bytes _ lvbh => (Some (signature, bytes, lvbh), false)
    | ChunkConfirmed _ _ => (st.1, true)
    | _ => st
    end
  else st.

Definition reduce_chunk_resume_action (k : Z) (events : list JournalEvent) (mode : FeePayerMode)
    (landing : RecordedPayout → Landing) : ChunkResumeAction :=
  let '(last_signed, confirmed) := foldl (resume_scan k) (None, false) events in
  if confirmed then Skip
  else match last_signed with
  | None => NeedsSigning
  | Some (signature, bytes, lvbh) =>
      match mode with
      | Gasless => RepresentGaslessCredential bytes
      | SelfFunded =>
          match landing {| payout_signature := signature; last_valid_block_height := Some lvbh |} with
          | LandingConfirmed => RecordConfirmedThenSkip signature
          | LandingReplaceable proof =>
              match replace_reason proof with
              | ReplaceFailed => RetryAfterFailure proof
              | ReplaceExpired => RebuildWithFreshBlockhash proof
              end
          | MayLand => RebroadcastIdenticalBytes bytes
          | LandingUnknown => StopUnknown signature
          end
      end
  end.

(** ** The codec's promises

    One event is one JSON object on one line; an object cut short does not
    parse, and neither does the beginning of an object, whole or not, with
    the beginning of another one after it. *)
Class EventCodecLaws `{EventCodec} : Prop := {
  codec_roundtrip : ∀ e, event_from_str (event_to_string e) = Ok e;
  codec_object : ∀ e, ∃ s, event_to_string e = String (Ascii.ascii_of_nat 123) s;
  codec_one_line : ∀ e b, b ∈ str_bytes (event_to_string e) → b ≠ 10 ∧ b ≠ 13;
  codec_utf8 : ∀ e, is_utf8 (str_bytes (event_to_string e)) = true;
  codec_cut : ∀ e n, (n < String.length (event_to_string e))%nat →
    is_ok (event_from_str (String.substring 0 n (event_to_string e))) = false;
  codec_joined : ∀ e e' n m, (0 < n)%nat → (0 < m)%nat →
    is_ok (event_from_str (String.substring 0 n (event_to_string e) +:+ String.substring 0 m (event_to_string e'))) = false
}.

(** *** Lines *)
Definition no_eol (s : string) : Prop := ∀ b, b ∈ str_bytes s → b ≠ 10 ∧ b ≠ 13.

Lemma byte_of_inj a b : byte_of a = byte_of b → a = b.
Proof.
  intros E. assert (str_bytes (String a "") = str_bytes (String b "")) as Eb by (simpl; by rewrite E).
  by apply str_bytes_inj in Eb as [= ->].
Qed.

Lemma no_eol_cons c s : no_eol (String c s) → c ≠ newline ∧ c ≠ carriage_return ∧ no_eol s.
Proof.
  intros Hs. destruct (Hs (byte_of c)) as [H10 H13]; [constructor|].
  split_and!; [by intros -> | by intros -> |]. intros b Hb. apply Hs. by constructor.
Qed.

Lemma split_lines_line s t : no_eol s → split_lines (line_of s +:+ t) = line_of s :: split_lines t.
Proof.
  unfold line_of. induction s as [|c s IH]; intros Hs.
  { change (("" +:+ String newline "") +:+ t) with (String newline t). cbn [split_lines].
    by rewrite Ascii.eqb_refl. }
  apply no_eol_cons in Hs as (Hc & _ & Hs).
  change ((String c s +:+ String newline "") +:+ t) with (String c ((s +:+ String newline "") +:+ t)).
  cbn [split_lines]. destruct (Ascii.eqb_spec c newline); [done|]. by rewrite (IH Hs).
Qed.

Lemma split_lines_tail s : no_eol s → s ≠ "" → split_lines s = [s].
Proof.
  induction s as [|c s IH]; intros Hs Hne; [done|]. apply no_eol_cons in Hs as (Hc & _ & Hs).
  cbn [split_lines]. destruct (Ascii.eqb_spec c newline); [done|].
  destruct s as [|d s]; [done|]. by rewrite (IH Hs).
Qed.

Lemma trim_eol_plain s : no_eol s → trim_eol s = s.
Proof.
  induction s as [|c s IH]; intros Hs; [done|]. apply no_eol_cons in Hs as (Hc & Hr & Hs).
  cbn [trim_eol]. rewrite (IH Hs). destruct (Ascii.eqb_spec c newline), (Ascii.eqb_spec c carriage_return); done.
Qed.

Lemma trim_eol_line s : no_eol s → trim_eol (line_of s) = s.
Proof.
  unfold line_of. induction s as [|c s IH]; intros Hs; [done|]. apply no_eol_cons in Hs as (Hc & Hr & Hs).
  change (String c s +:+ String newline "") with (String c (s +:+ String newline "")).
  cbn [trim_eol]. rewrite (IH Hs). destruct (Ascii.eqb_spec c newline), (Ascii.eqb_spec c carriage_return); done.
Qed.

Lemma check_monotonic_seq path es n :
  map sequence es = seqZ n (zlen es) → check_monotonic path es = Ok tt.
Proof.
  revert n. induction es as [|a es IH]; intros n Hs; [done|].
  unfold zlen in Hs. cbn [length map] in Hs. rewrite Nat2Z.inj_succ, seqZ_cons in Hs by lia.
  injection Hs as Ha Hs. replace (Z.pred (Z.succ (Z.of_nat (length es)))) with (zlen es) in Hs by (unfold zlen; lia).
  cbn [check_monotonic]. destruct es as [|b es]; [done|].
  assert (sequence b = Z.succ n) as Hb.
  { unfold zlen in Hs. cbn [length map] in Hs. rewrite Nat2Z.inj_succ, seqZ_cons in Hs by lia. by injection Hs. }
  destruct (Z.leb_spec (sequence b) (sequence a)); [lia|]. by eapply IH.
Qed.

(** Reopening when the file and the lock are available. *)
Abbreviation reopen j content :=
  (open_existing (journal_path j) content (Ok tt) (λ _, Locked) (Ok tt)).

Section durability.
Context `{EventCodecLaws}.

Definition journal_lines (es : list JournalEvent) : string :=
  foldr (λ e s, line_of (event_to_string e) +:+ s) "" es.

Lemma journal_lines_snoc es e : journal_lines (es ++ [e]) = journal_lines es +:+ line_of (event_to_string e).
Proof.
  induction es as [|e' es IH]; [apply string_app_nil_r|].
  cbn [journal_lines foldr app]. fold (journal_lines (es ++ [e])). fold (journal_lines es).
  by rewrite IH, string_app_assoc.
Qed.

Lemma codec_no_eol e : no_eol (event_to_string e).
Proof. intros b. apply codec_one_line. Qed.

Lemma split_lines_journal es s :
  split_lines (journal_lines es +:+ s) = map (λ e, line_of (event_to_string e)) es ++ split_lines s.
Proof.
  induction es as [|e es IH]; [done|]. cbn [journal_lines foldr map app]. fold (journal_lines es).
  rewrite string_app_assoc, split_lines_line, IH by apply codec_no_eol. done.
Qed.

Lemma journal_lines_utf8 es : is_utf8 (str_bytes (journal_lines es)) = true.
Proof.
  induction es as [|e es IH]; [done|]. cbn [journal_lines foldr]. fold (journal_lines es). unfold line_of.
  rewrite !str_bytes_app. apply is_utf8_app; [|done]. apply is_utf8_app; [apply codec_utf8|done].
Qed.

Lemma codec_length_pos e : (0 < String.length (event_to_string e))%nat.
Proof. destruct (codec_object e) as [s ->]. simpl. lia. Qed.

Lemma codec_trailing e e' : is_ok (event_from_str (event_to_string e +:+ event_to_string e')) = false.
Proof.
  pose proof (codec_joined e e' _ _ (codec_length_pos e) (codec_length_pos e')) as Hj. by rewrite !substring_full in Hj.
Qed.

Lemma codec_visible e : trim (event_to_string e) ≠ "".
Proof. destruct (codec_object e) as [s ->]. by apply trim_visible. Qed.

Lemma load_lines_events path es rest : ∀ index offset acc,
  load_lines path (map (λ e, line_of (event_to_string e)) es ++ rest) index offset acc =
  load_lines path rest (index + zlen es) (offset + String.length (journal_lines es)) (acc ++ es).
Proof.
  induction es as [|e es IH]; intros index offset acc.
  { by rewrite app_nil_r, Nat.add_0_r, Z.add_0_r. }
  cbn [map app load_lines]. rewrite trim_eol_line by apply codec_no_eol.
  rewrite bool_decide_eq_false_2 by apply codec_visible. rewrite codec_roundtrip, IH.
  cbn [journal_lines foldr]. fold (journal_lines es). rewrite length_string_app.
  f_equal; [unfold zlen; simpl length; lia|lia|by rewrite <- app_assoc].
Qed.

(** A journal holding exactly [es]. *)
Record journal_holds (j : Journal) (es : list JournalEvent) : Prop := {
  holds_file : journal_file j = journal_lines es;
  holds_sequence : map sequence es = seqZ 1 (zlen es);
  holds_next : next_sequence j = zlen es + 1
}.

Lemma last_sequence es :
  map sequence es = seqZ 1 (zlen es) →
  match last es with Some e => sequence e + 1 | None => 1 end = zlen es + 1.
Proof.
  intros Hs. destruct es as [|e es _] using rev_ind; [done|]. rewrite last_snoc.
  rewrite map_app in Hs. unfold zlen in *. rewrite length_app in *. cbn [length map] in *.
  rewrite Nat.add_1_r, seqZ_S in Hs. apply app_inj_2 in Hs as [_ [= ->]]; [|done]. lia.
Qed.

Lemma reopen_clean j es : journal_holds j es → reopen j (journal_lines es) = Ok (j, es).
Proof.
  intros [Hf Hs Hn]. unfold open_existing, load_events. cbn [map_err]. rewrite bind_ok_simpl.
  rewrite journal_lines_utf8. cbn [negb].
  pose proof (split_lines_journal es "") as Hsplit. rewrite string_app_nil_r in Hsplit. cbn [split_lines] in Hsplit.
  rewrite Hsplit, load_lines_events. cbn [load_lines app].
  rewrite (check_monotonic_seq _ _ _ Hs), !bind_ok_simpl. unfold default.
  rewrite last_sequence by done. rewrite <- Hf, <- Hn. by destruct j.
Qed.

(** Reopening when the last line does not parse. *)
Lemma reopen_garbled j es line tail :
  journal_holds j es → no_eol line → trim line ≠ "" → is_ok (event_from_str line) = false →
  tail = "" ∨ tail = String newline "" → is_utf8 (str_bytes (line +:+ tail)) = true →
  reopen j (journal_lines es +:+ (line +:+ tail)) = Ok (j, es).
Proof.
  intros [Hf Hs Hn] Heol Hvis Hbad Htail Hutf.
  assert (line ≠ "") as Hne by (by intros ->).
  assert (split_lines (line +:+ tail) = [line +:+ tail] ∧ trim_eol (line +:+ tail) = line) as [Hsplit Htrim].
  { destruct Htail as [->| ->].
    - rewrite string_app_nil_r. split; [by apply split_lines_tail|by apply trim_eol_plain].
    - pose proof (split_lines_line _ "" Heol) as E. rewrite string_app_nil_r in E.
      split; [exact E|by apply trim_eol_line]. }
  unfold open_existing, load_events. cbn [map_err]. rewrite bind_ok_simpl.
  rewrite str_bytes_app, is_utf8_app by (done || apply journal_lines_utf8). cbn [negb].
  rewrite split_lines_journal, load_lines_events, Hsplit. cbn [load_lines app Nat.add].
  rewrite Htrim, bool_decide_eq_false_2 by done. destruct (event_from_str line); [done|].
  rewrite (check_monotonic_seq _ _ _ Hs), !bind_ok_simpl. unfold default.
  rewrite substring_app_le, substring_full by lia. rewrite last_sequence by done. rewrite <- Hf, <- Hn. by destruct j.
Qed.

(** Reopening when the last record was cut short. *)
Lemma substring_no_eol n e : no_eol (String.substring 0 n (event_to_string e)).
Proof.
  intros b. rewrite str_bytes_substring. intros (i & Hi & _)%elem_of_take. by eapply codec_no_eol, list_elem_of_lookup_2.
Qed.

Lemma substring_visible n e s : trim (String.substring 0 (S n) (event_to_string e) +:+ s) ≠ "".
Proof.
  destruct (codec_object e) as [t ->].
  change (String.substring 0 (S n) (String (Ascii.ascii_of_nat 123) t) +:+ s)
    with (String (Ascii.ascii_of_nat 123) (String.substring 0 n t +:+ s)). by apply trim_visible.
Qed.

Lemma reopen_torn j es e n :
  journal_holds j es → (n < String.length (event_to_string e))%nat →
  is_utf8 (str_bytes (String.substring 0 n (event_to_string e))) = true →
  reopen j (journal_lines es +:+ String.substring 0 n (event_to_string e)) = Ok (j, es).
Proof.
  intros Hj Hn Hutf. destruct n as [|n].
  { replace (String.substring 0 0 (event_to_string e)) with "" by (by destruct (event_to_string e)).
    rewrite string_app_nil_r. by apply reopen_clean. }
  rewrite <- (string_app_nil_r (String.substring 0 (S n) (event_to_string e))).
  apply reopen_garbled; [done|apply substring_no_eol| |by apply codec_cut|by left|by rewrite string_app_nil_r].
  rewrite <- (string_app_nil_r (String.substring 0 (S n) (event_to_string e))). apply substring_visible.
Qed.

Lemma append_done_holds j es now k :
  journal_holds j es →
  let e := {| sequence := next_sequence j; timestamp := now; kind := k |} in
  journal_holds (append_event j now IoDone k).1 (es ++ [e]).
Proof.
  intros [Hf Hs Hn] e. split; simpl.
  - by rewrite Hf, journal_lines_snoc.
  - rewrite map_app, Hs. unfold zlen in *. rewrite length_app, Nat.add_1_r, seqZ_S. simpl. do 2 f_equal. lia.
  - unfold zlen in *. rewrite length_app. simpl. lia.
Qed.

(** Reopening when only the newline of the last record is missing. *)
Lemma reopen_unterminated j es now k :
  journal_holds j es →
  let e := {| sequence := next_sequence j; timestamp := now; kind := k |} in
  reopen j (journal_lines es +:+ event_to_string e) =
    Ok ({| journal_file := journal_lines es +:+ event_to_string e; journal_path := journal_path j;
           next_sequence := zlen (es ++ [e]) + 1 |}, es ++ [e]).
Proof.
  intros Hj e. pose proof (append_done_holds j es now k Hj) as [_ Hs' _]. fold e in Hs'.
  unfold open_existing, load_events. cbn [map_err]. rewrite bind_ok_simpl.
  rewrite str_bytes_app, is_utf8_app by (apply codec_utf8 || apply journal_lines_utf8). cbn [negb].
  destruct (codec_object e) as [t Ht].
  rewrite split_lines_journal, load_lines_events, split_lines_tail by (apply codec_no_eol || by rewrite Ht).
  cbn [load_lines app]. rewrite trim_eol_plain, bool_decide_eq_false_2 by (apply codec_no_eol || apply codec_visible).
  rewrite codec_roundtrip. unfold default.
  rewrite (check_monotonic_seq _ _ _ Hs'), !bind_ok_simpl, last_sequence by done. done.
Qed.

(** What is recovered after an append that did not succeed, when the file is
    found in order: the record, or nothing of it. *)
Lemma recover_failed_append j es now io k j' es' :
  journal_holds j es → io ≠ IoDone →
  reopen j (journal_file (append_event j now io k).1) = Ok (j', es') → journal_holds j' es' →
  es' = es ∨ es' = es ++ [ {| sequence := next_sequence j; timestamp := now; kind := k |} ].
Proof.
  intros Hj Hio Hre Hj'. set (e := {| sequence := next_sequence j; timestamp := now; kind := k |}).
  pose proof (append_done_holds j es now k Hj) as Hdone. fold e in Hdone.
  pose proof (reopen_clean _ _ Hdone) as Hclean. cbn [append_event fst with_file journal_path] in Hclean.
  assert (reopen j (journal_lines (es ++ [e])) = Ok (j', es') → es' = es ++ [e]) as Hwhole by (intros E; congruence).
  rewrite journal_lines_snoc in Hwhole. rewrite <- (holds_file _ _ Hj) in Hwhole.
  destruct io as [|written err|err|err]; [done| |right; exact (Hwhole Hre)..].
  cbn [append_event fst with_file journal_file] in Hre. fold e in Hre.
  destruct (lt_eq_lt_dec written (String.length (event_to_string e))) as [[Hlt|Heq]|Hgt].
  - left. unfold line_of in Hre. rewrite substring_app_le, (holds_file _ _ Hj) in Hre by lia.
    rewrite (reopen_torn j es) in Hre; [congruence|done..|].
    unfold open_existing, load_events in Hre. cbn [map_err] in Hre. rewrite bind_ok_simpl in Hre.
    rewrite str_bytes_app, is_utf8_app_valid in Hre by apply journal_lines_utf8.
    by destruct (is_utf8 _).
  - exfalso. unfold line_of in Hre. rewrite substring_app_le, Heq, substring_full, (holds_file _ _ Hj) in Hre by lia.
    pose proof (reopen_unterminated j es now k Hj) as Hun. cbv zeta in Hun. fold e in Hun.
    rewrite Hre in Hun. injection Hun as -> ->.
    apply holds_file in Hj'. cbn [journal_file] in Hj'. fold e in Hj'. rewrite journal_lines_snoc in Hj'.
    apply (f_equal String.length) in Hj'. unfold line_of in Hj'. rewrite !length_string_app in Hj'. simpl in Hj'. lia.
  - right. apply Hwhole. rewrite <- Hre. f_equal. symmetry. f_equal.
    assert (String.length (line_of (event_to_string e)) ≤ written)%nat as Hle.
    { unfold line_of. rewrite length_string_app. simpl. lia. }
    apply str_bytes_inj. rewrite str_bytes_substring, take_ge; [done|]. by rewrite length_str_bytes.
Qed.

(** An opened file is valid UTF-8. *)
Lemma reopen_utf8 j content r : reopen j content = Ok r → is_utf8 (str_bytes content) = true.
Proof.
  unfold open_existing, load_events. cbn [map_err]. rewrite bind_ok_simpl. by destruct (is_utf8 _).
Qed.

(** Reopening when the last sequence number is used twice. *)
Lemma check_monotonic_repeat path l a b :
  sequence b ≤ sequence a → is_ok (check_monotonic path (l ++ [a; b])) = false.
Proof.
  intros Hab. induction l as [|x l IH]; cbn [app check_monotonic].
  - by destruct (Z.leb_spec (sequence b) (sequence a)); [|lia].
  - destruct (l ++ [a; b]) as [|y rest] eqn:E; [by destruct l|]. by destruct (_ <=? _).
Qed.

Lemma reopen_repeated j es e1 e2 tail :
  sequence e2 ≤ sequence e1 → tail = "" ∨ tail = String newline "" →
  is_ok (reopen j (journal_lines (es ++ [e1]) +:+ (event_to_string e2 +:+ tail))) = false.
Proof.
  intros Hseq Htail. unfold open_existing, load_events. cbn [map_err]. rewrite bind_ok_simpl.
  destruct (is_utf8 _); [|done]. cbn [negb].
  assert (split_lines (event_to_string e2 +:+ tail) = [event_to_string e2 +:+ tail] ∧
          trim_eol (event_to_string e2 +:+ tail) = event_to_string e2) as [Hsplit Htrim].
  { destruct Htail as [->| ->].
    - rewrite string_app_nil_r. destruct (codec_object e2) as [t Ht].
      split; [apply split_lines_tail; [apply codec_no_eol|by rewrite Ht]|apply trim_eol_plain, codec_no_eol].
    - pose proof (split_lines_line _ "" (codec_no_eol e2)) as E. rewrite string_app_nil_r in E.
      split; [exact E|apply trim_eol_line, codec_no_eol]. }
  rewrite split_lines_journal, load_lines_events, Hsplit. cbn [load_lines app].
  rewrite Htrim, bool_decide_eq_false_2, codec_roundtrip by apply codec_visible. rewrite <- app_assoc.
  pose proof (check_monotonic_repeat (journal_path j) es e1 e2 Hseq) as Hbad.
  cbn [app]. by destruct (check_monotonic _ _).
Qed.

(** The bytes an append leaves in the file. *)
Definition written (io : Io) (line : string) : string :=
  match io with WriteFailed n _ => String.substring 0 n line | _ => line end.

Lemma append_file j now io k :
  journal_file (append_event j now io k).1 =
  journal_file j +:+ written io (line_of (event_to_string {| sequence := next_sequence j; timestamp := now; kind := k |})).
Proof. by destruct io. Qed.

(** Nothing, the beginning of the object, the object, or the whole line. *)
Lemma written_cases io e :
  written io (line_of (event_to_string e)) = "" ∨
  (∃ n, written io (line_of (event_to_string e)) = String.substring 0 (S n) (event_to_string e)) ∨
  written io (line_of (event_to_string e)) = line_of (event_to_string e).
Proof.
  destruct io as [|n err|err|err]; [by right; right| |by right; right..]. unfold written.
  destruct (decide (n ≤ String.length (event_to_string e))%nat) as [Hle|Hgt].
  - unfold line_of. rewrite substring_app_le by done. destruct n as [|n]; [|by right; left; exists n].
    left. by destruct (event_to_string e).
  - right. right. apply str_bytes_inj. rewrite str_bytes_substring, take_ge; [done|]. rewrite length_str_bytes.
    unfold line_of. rewrite length_string_app. simpl. lia.
Qed.

(** What is recovered after one append, when the file is found in order. *)
Lemma recover_append j es now io k j' es' :
  journal_holds j es →
  let e := {| sequence := next_sequence j; timestamp := now; kind := k |} in
  reopen j (journal_lines es +:+ written io (line_of (event_to_string e))) = Ok (j', es') → journal_holds j' es' →
  es' = es ∨ es' = es ++ [e].
Proof.
  intros Hj e Hre Hj'. rewrite <- (holds_file _ _ Hj) in Hre. unfold e in Hre. rewrite <- append_file in Hre.
  assert (io = IoDone ∨ io ≠ IoDone) as [->|Hio] by (destruct io; auto); [|by eapply recover_failed_append].
  right. pose proof (append_done_holds j es now k Hj) as Hdone. fold e in Hdone.
  pose proof (reopen_clean _ _ Hdone) as Hcl. rewrite <- (holds_file _ _ Hdone) in Hcl.
  cbn [append_event fst with_file journal_path journal_file] in Hre, Hcl. congruence.
Qed.

(** Two records on one line, the first without its newline. *)
Lemma reopen_merged j es e1 n1 e2 n2 tail r :
  journal_holds j es → tail = "" ∨ tail = String newline "" →
  reopen j (journal_lines es +:+ (String.substring 0 (S n1) (event_to_string e1) +:+
    (String.substring 0 (S n2) (event_to_string e2) +:+ tail))) = Ok r → r = (j, es).
Proof.
  intros Hj Htail Hre. pose proof (reopen_utf8 _ _ _ Hre) as Hutf.
  rewrite str_bytes_app, is_utf8_app_valid in Hutf by apply journal_lines_utf8.
  rewrite <- (string_app_assoc (String.substring 0 (S n1) _)) in Hre, Hutf. rewrite reopen_garbled in Hre; [congruence|done|..|done|done].
  - intros b. rewrite str_bytes_app, elem_of_app. intros [Hb|Hb]; by apply substring_no_eol in Hb.
  - apply substring_visible.
  - apply codec_joined; lia.
Qed.

(** A record of a sequence number that is used already. *)
Lemma reopen_used j es e1 e2 w j' es' :
  journal_holds j (es ++ [e1]) → sequence e2 ≤ sequence e1 →
  (∃ n, w = String.substring 0 (S n) (event_to_string e2)) ∨ w = line_of (event_to_string e2) →
  reopen j (journal_lines (es ++ [e1]) +:+ w) = Ok (j', es') → es' = es ++ [e1].
Proof.
  intros Hj Hseq Hw Hre.
  assert (∀ tail, tail = "" ∨ tail = String newline "" →
    journal_lines (es ++ [e1]) +:+ w ≠ journal_lines (es ++ [e1]) +:+ (event_to_string e2 +:+ tail)) as Hnot.
  { intros tail Htail E. rewrite E in Hre. pose proof (reopen_repeated j es e1 e2 tail Hseq Htail) as Hbad.
    by rewrite Hre in Hbad. }
  destruct Hw as [[n ->]| ->]; [|by destruct (Hnot (String newline "")); [right|]].
  destruct (decide (S n < String.length (event_to_string e2))%nat) as [Hlt|Hge].
  - rewrite (reopen_torn j) in Hre; [congruence|done..|]. pose proof (reopen_utf8 _ _ _ Hre) as Hutf.
    by rewrite str_bytes_app, is_utf8_app_valid in Hutf by apply journal_lines_utf8.
  - destruct (Hnot ""); [by left|]. f_equal. rewrite string_app_nil_r. apply str_bytes_inj.
    rewrite str_bytes_substring, take_ge; [done|]. rewrite length_str_bytes. lia.
Qed.

(** What is recovered after an append that did not succeed and another one
    after it, when the file is found in order. *)
Lemma recover_two_appends j es now1 io1 k1 now2 io2 k2 j' es' :
  journal_holds j es → io1 ≠ IoDone →
  let e now k := {| sequence := next_sequence j; timestamp := now; kind := k |} in
  reopen j (journal_file (append_event (append_event j now1 io1 k1).1 now2 io2 k2).1) = Ok (j', es') →
  journal_holds j' es' →
  es' = es ∨ es' = es ++ [e now1 k1] ∨ es' = es ++ [e now2 k2].
Proof.
  intros Hj Hio e Hre Hj'.
  assert (next_sequence (append_event j now1 io1 k1).1 = next_sequence j) as Hn by (by destruct io1).
  rewrite append_file, Hn, append_file, (holds_file _ _ Hj), string_app_assoc in Hre.
  fold (e now1 k1) (e now2 k2) in Hre.
  destruct (written_cases io1 (e now1 k1)) as [E1|E1].
  { rewrite E1 in Hre. cbn [String.app] in Hre. destruct (recover_append j es now2 io2 k2 j' es' Hj Hre Hj'); auto. }
  destruct (written_cases io2 (e now2 k2)) as [E2|E2].
  { rewrite E2, string_app_nil_r in Hre. destruct (recover_append j es now1 io1 k1 j' es' Hj Hre Hj'); auto. }
  destruct E1 as [[n1 E1]|E1]; rewrite E1 in Hre.
  - left. destruct E2 as [[n2 E2]|E2]; rewrite E2 in Hre.
    + rewrite <- (string_app_nil_r (String.substring 0 (S n2) _)) in Hre.
      apply (reopen_merged _ _ _ _ _ _ "" _ Hj (or_introl eq_refl)) in Hre. congruence.
    + unfold line_of in Hre. pose proof (codec_length_pos (e now2 k2)) as Hpos.
      destruct (String.length (event_to_string (e now2 k2))) as [|n2] eqn:Hlen; [lia|].
      rewrite <- (substring_full (event_to_string (e now2 k2))), Hlen in Hre.
      apply (reopen_merged _ _ _ _ _ _ (String newline "") _ Hj (or_intror eq_refl)) in Hre. congruence.
  - right. left. pose proof (append_done_holds j es now1 k1 Hj) as Hdone. fold (e now1 k1) in Hdone.
    rewrite <- string_app_assoc, <- journal_lines_snoc in Hre.
    exact (reopen_used _ es (e now1 k1) (e now2 k2) _ _ _ Hdone (Z.le_refl _) E2 Hre).
Qed.

(** The path and the events determine a journal that is in order. *)
Lemma holds_unique j j' es :
  journal_holds j es → journal_holds j' es → journal_path j = journal_path j' → j = j'.
Proof. destruct j, j'. intros [] [] ?. simpl in *. congruence. Qed.

Lemma reopen_path j content j' es' : reopen j content = Ok (j', es') → journal_path j' = journal_path j.
Proof.
  unfold open_existing. intros Hre. inv_ok. destruct (load_events _ _ _) as [content' loaded]. by inv_ok.
Qed.

(** Everything that can happen to a journal: records are appended durably,
    the process dies while [written] bytes of the next record are on disk,
    and the run is resumed from what it finds. *)
Inductive journal_run : Journal → list JournalEvent → Prop :=
  | run_new path :
      journal_run {| journal_file := ""; journal_path := path; next_sequence := 1 |} []
  | run_append j es now k :
      journal_run j es →
      journal_run (append_event j now IoDone k).1
        (es ++ [ {| sequence := next_sequence j; timestamp := now; kind := k |} ])
  | run_torn j es now k written e j' es' :
      journal_run j es →
      (written < String.length (event_to_string {| sequence := next_sequence j; timestamp := now; kind := k |}))%nat →
      is_utf8 (str_bytes (String.substring 0 written
        (event_to_string {| sequence := next_sequence j; timestamp := now; kind := k |}))) = true →
      reopen j (journal_file (append_event j now (WriteFailed written e) k).1) = Ok (j', es') →
      journal_run j' es'
  | run_unacknowledged j es now k e j' es' :
      journal_run j es →
      reopen j (journal_file (append_event j now (SyncFailed e) k).1) = Ok (j', es') →
      journal_run j' es'.

Lemma journal_run_holds j es : journal_run j es → journal_holds j es.
Proof.
  induction 1 as [path|j es now k _ IH|j es now k written e j' es' _ IH Hw Hutf Hre|j es now k e j' es' _ IH Hre].
  - split; done.
  - by apply append_done_holds.
  - cbn [append_event fst with_file journal_file] in Hre.
    unfold line_of in Hre. rewrite substring_app_le, (holds_file _ _ IH) in Hre by lia.
    rewrite (reopen_torn _ es) in Hre by done. by injection Hre as <- <-.
  - pose proof (append_done_holds j es now k IH) as Hj.
    pose proof (reopen_clean _ _ Hj) as Hcl. rewrite <- (holds_file _ _ Hj) in Hcl.
    cbn [append_event fst with_file journal_file journal_path] in Hre, Hcl.
    rewrite Hcl in Hre. by injection Hre as <- <-.
Qed.


(** The one prefix that is not safe: when the crash leaves a whole JSON
    object but not its newline, the journal is reopened with the event but
    with the newline still missing; the next append succeeds onto the same
    line, and the following reopening discards both events as a partial
    line, the durably acknowledged one included. *)
Theorem missing_newline_loses_durable_events j es now k now2 k2 :
  journal_run j es →
  let e := {| sequence := next_sequence j; timestamp := now; kind := k |} in
  ∃ j1, reopen j (journal_file (append_event j now
                    (WriteFailed (String.length (event_to_string e)) "crash") k).1) = Ok (j1, es ++ [e]) ∧
    is_ok (append_event j1 now2 IoDone k2).2 = true ∧
    reopen j (journal_file (append_event j1 now2 IoDone k2).1) = Ok (j, es).
Proof.
  intros Hj%journal_run_holds e. pose proof Hj as [Hf Hs Hn].
  exists {| journal_file := journal_lines es +:+ event_to_string e; journal_path := journal_path j;
            next_sequence := zlen (es ++ [e]) + 1 |}.
  split_and!; [|done|].
  - simpl. fold e. unfold line_of. rewrite substring_app_le, substring_full, Hf by lia.
    by apply reopen_unterminated.
  - simpl. set (e2 := {| sequence := _; timestamp := now2; kind := k2 |}). unfold line_of.
    rewrite string_app_assoc, <- (string_app_assoc (event_to_string e)).
    fold (line_of (event_to_string e +:+ event_to_string e2)).
    destruct (codec_object e) as [t Ht]. apply (reopen_garbled j es _ (String newline "")); [done|..].
    + intros b. rewrite str_bytes_app, elem_of_app. intros [Hb|Hb]; by apply codec_no_eol in Hb.
    + rewrite Ht. change (String (Ascii.ascii_of_nat 123) t +:+ event_to_string e2)
        with (String (Ascii.ascii_of_nat 123) (t +:+ event_to_string e2)). by apply trim_visible.
    + apply codec_trailing.
    + by right.
    + rewrite !str_bytes_app. apply is_utf8_app; [apply is_utf8_app; apply codec_utf8|done].
Qed.

(** A failed sync leaves the record in the file but not in the sequence
    counter: if the run then appends another event, both carry the same
    sequence number and the journal can no longer be opened at all. *)
Theorem append_after_failed_sync_bricks_journal j es now k err now2 k2 :
  journal_run j es →
  let j1 := (append_event j now (SyncFailed err) k).1 in
  is_ok (append_event j1 now2 IoDone k2).2 = true ∧
  is_ok (reopen j (journal_file (append_event j1 now2 IoDone k2).1)) = false.
Proof.
  intros Hj%journal_run_holds j1. split; [done|]. subst j1. simpl.
  rewrite (holds_file _ _ Hj), <- journal_lines_snoc. apply reopen_repeated; [done|by right].
Qed.

(** A broadcast credential is only ever issued once the signature is
    recoverable: if [append_chunk_signed] returns one, reopening the file
    yields the signed event, and the credential is for that chunk. *)
Theorem broadcast_permit_implies_recoverable j es now io k rows sig bytes bh lvbh j' e permit :
  journal_run j es →
  append_chunk_signed j now io k rows sig bytes bh lvbh = (j', Ok (e, permit)) →
  permit_chunk_index permit = k ∧ kind e = ChunkSigned k rows sig bytes bh lvbh ∧
  reopen j' (journal_file j') = Ok (j', es ++ [e]).
Proof.
  intros Hj%journal_run_holds Ha. unfold append_chunk_signed in Ha.
  destruct io; try by (simpl in Ha; injection Ha).
  pose proof (append_done_holds j es now (ChunkSigned k rows sig bytes bh lvbh) Hj) as Hj'.
  cbn [append_event fst snd] in Ha, Hj'. rewrite bind_ok_simpl in Ha. injection Ha as <- <- <-.
  split_and!; [done..|]. rewrite (holds_file _ _ Hj'). by apply reopen_clean.
Qed.
End durability.

(** ** What resuming may do *)
Lemma existsb_false_Forall {A} (f : A → bool) l : false = existsb f l → Forall (λ x, f x = false) l.
Proof.
  induction l as [|x l IH]; simpl; [constructor|]. intros E. symmetry in E. apply orb_false_iff in E as [? ?].
  constructor; auto.
Qed.

Definition is_signed (k : Z) (e : JournalEvent) : bool :=
  match kind e with ChunkSigned k' _ _ _ _ _ => k' =? k | _ => false end.
Definition is_confirmed (k : Z) (e : JournalEvent) : bool :=
  match kind e with ChunkConfirmed k' _ => k' =? k | _ => false end.

(** The scan keeps the latest signature of the chunk and whether a
    confirmation follows it. *)
Definition scan_spec (k : Z) (events : list JournalEvent) (st : option (string * string * Z) * bool) : Prop :=
  (st.1 = None ↔ Forall (λ e, is_signed k e = false) events) ∧
  (∀ sig bytes lvbh, st.1 = Some (sig, bytes, lvbh) →
     ∃ l e rows bh l', events = l ++ e :: l' ∧ kind e = ChunkSigned k rows sig bytes bh lvbh ∧
       Forall (λ e, is_signed k e = false) l' ∧ (st.2 = existsb (is_confirmed k) l')) ∧
  (st.1 = None → st.2 = existsb (is_confirmed k) events).

Lemma scan_spec_snoc k events e st :
  scan_spec k events st → scan_spec k (events ++ [e]) (resume_scan k st e).
Proof.
  intros (Hn & Hs & Hc). destruct st as [signed confirmed]. simpl in *.
  assert (resume_scan k (signed, confirmed) e =
    (match kind e with ChunkSigned k' _ sig bytes _ lvbh => if k' =? k then Some (sig, bytes, lvbh) else signed
     | _ => signed end,
     if is_signed k e then false else confirmed || is_confirmed k e)) as ->.
  { unfold resume_scan, is_signed, is_confirmed. destruct (kind e); simpl; try case_bool_decide; simplify_eq/=;
      rewrite ?Z.eqb_refl, ?orb_false_r, ?orb_true_r; try done;
      destruct (Z.eqb_spec chunk_index k); rewrite ?orb_false_r; congruence. }
  destruct (is_signed k e) eqn:Hsig; unfold is_signed in Hsig.
  - destruct (kind e) as [| | | |k' rows sig bytes bh lvbh| | | | |] eqn:Hk; try done. rewrite Hsig.
    apply Z.eqb_eq in Hsig as ->. split_and!; simpl; try done.
    + split; [done|]. rewrite Forall_app, Forall_singleton. intros [_ Hf]. unfold is_signed in Hf.
      by rewrite Hk, Z.eqb_refl in Hf.
    + intros ? ? ? [= <- <- <-]. exists events, e, rows, bh, []. by split_and!.
  - assert (match kind e with ChunkSigned k' _ s b _ l => if k' =? k then Some (s, b, l) else signed
            | _ => signed end = signed) as -> by (destruct (kind e); try done; by rewrite Hsig).
    assert (is_signed k e = false) as Hse by exact Hsig.
    split_and!; simpl.
    + rewrite Forall_app, Forall_singleton, Hn. tauto.
    + intros sig bytes lvbh Hst. destruct (Hs _ _ _ Hst) as (l & e' & rows & bh & l' & -> & Hk & Hf & ->).
      exists l, e', rows, bh, (l' ++ [e]). split_and!; [by rewrite <- app_assoc|done| |].
      * rewrite Forall_app, Forall_singleton. done.
      * rewrite existsb_app. simpl. by rewrite orb_false_r.
    + intros Hst. rewrite existsb_app, (Hc Hst). simpl. by rewrite orb_false_r.
Qed.

Lemma resume_scan_spec k events : scan_spec k events (foldl (resume_scan k) (None, false) events).
Proof.
  induction events as [|e events IH] using rev_ind.
  - by split_and!; simpl.
  - rewrite foldl_app. simpl. by apply scan_spec_snoc.
Qed.

(** The landing answer for one payout, from two honest reads of the chain. *)
Definition landing_of {C E} `{ChainState C E} (at_tip at_statuses : C) (payout : RecordedPayout) : Landing :=
  match confirm_not_landed at_tip at_statuses [payout] with
  | Ok [l] => l
  | _ => LandingUnknown
  end.

(** Resuming a self-funded run never pays a chunk again while a recorded
    signature of it could still take effect: a chunk is signed as if new
    only when the log holds neither a signature nor a confirmation of it,
    and is rebuilt or retried only when the latest recorded signature can
    never land. *)
Theorem resume_replaces_only_dead_signatures `{Ledger} {C E} `{ChainState C E} (at_tip at_statuses : C) k events :
  honest_reads at_tip at_statuses →
  (∀ e rows sig bytes bh lvbh, e ∈ events → kind e = ChunkSigned k rows sig bytes bh lvbh → valid_until sig ≤ lvbh) →
  match reduce_chunk_resume_action k events SelfFunded (landing_of at_tip at_statuses) with
  | NeedsSigning => Forall (λ e, is_signed k e = false ∧ is_confirmed k e = false) events
  | RetryAfterFailure _ | RebuildWithFreshBlockhash _ =>
      ∃ l e rows sig bytes bh lvbh l', events = l ++ e :: l' ∧ kind e = ChunkSigned k rows sig bytes bh lvbh ∧
        Forall (λ e, is_signed k e = false ∧ is_confirmed k e = false) l' ∧ never_lands sig
  | _ => True
  end.
Proof.
  intros Hhonest Hvalid. unfold reduce_chunk_resume_action.
  destruct (foldl _ _ _) as [signed confirmed] eqn:Hscan.
  pose proof (resume_scan_spec k events) as (Hnone & Hsome & Hconf). rewrite Hscan in *. simpl in *.
  destruct confirmed; [done|]. destruct signed as [[[sig bytes] lvbh]|].
  - destruct (Hsome _ _ _ eq_refl) as (l & e & rows & bh & l' & Hev & Hk & Hf & Hc).
    assert (Forall (λ e, is_signed k e = false ∧ is_confirmed k e = false) l') as Hl'.
    { apply Forall_and. split; [done|]. by apply existsb_false_Forall. }
    destruct (landing_of _ _ _) as [| | |proof] eqn:Hland; try done.
    assert (never_lands sig) as Hnl.
    { unfold landing_of in Hland. destruct (confirm_not_landed _ _ _) as [[|x [|y ls]]|] eqn:Hc'; try done. subst x.
      apply (replaceable_cannot_land at_tip at_statuses
        [ {| payout_signature := sig; last_valid_block_height := Some lvbh |} ] [LandingReplaceable proof] 0
        {| payout_signature := sig; last_valid_block_height := Some lvbh |} proof Hhonest Hc'); [done..|].
      intros lv [= <-]. eapply Hvalid, Hk. rewrite Hev. apply elem_of_app. right. constructor. }
    destruct (replace_reason proof); exists l, e, rows, sig, bytes, bh, lvbh, l'; done.
  - apply Forall_and. split; [by apply Hnone|]. apply existsb_false_Forall. by apply Hconf.
Qed.

(** ** A concrete codec *)
Module SampleCodec.
(** Events as tuples of their tag, texts, integers, row numbers and flag. *)
Definition flat := (Z * list string * list Z * list Z * bool)%type.
Definition flatten (k : JournalEventKind) : flat :=
  match k with
  | RunCreated a b c d e x y z m => (0, [a; b; c; d; e; m], [x; y; z], [], false)
  | PreflightCompleted m a b c d e => (1, [m], [a; b; c; d; e], [], false)
  | AuthorizationGranted p a b c => (2, [p], [a; b; c], [], false)
  | ChunkPrepared k rows m => (3, [m], [k], rows, false)
  | ChunkSigned k rows s t b l => (4, [s; t; b], [k; l], rows, false)
  | ChunkBroadcast k s => (5, [s], [k], [], false)
  | ChunkConfirmed k s => (6, [s], [k], [], false)
  | ChunkFailed k r f => (7, [r], [k], [], f)
  | RunInterrupted r a b c => (8, [r], [a; b; c], [], false)
  | RunCompleted a b c => (9, [], [a; b; c], [], false)
  end.
Definition unflatten (f : flat) : JournalEventKind :=
  match f with
  | (0, [a; b; c; d; e; m], [x; y; z], _, _) => RunCreated a b c d e x y z m
  | (1, [m], [a; b; c; d; e], _, _) => PreflightCompleted m a b c d e
  | (2, [p], [a; b; c], _, _) => AuthorizationGranted p a b c
  | (3, [m], [k], rows, _) => ChunkPrepared k rows m
  | (4, [s; t; b], [k; l], rows, _) => ChunkSigned k rows s t b l
  | (5, [s], [k], _, _) => ChunkBroadcast k s
  | (6, [s], [k], _, _) => ChunkConfirmed k s
  | (7, [r], [k], _, f) => ChunkFailed k r f
  | (8, [r], [a; b; c], _, _) => RunInterrupted r a b c
  | (_, _, [a; b; c], _, _) => RunCompleted a b c
  | _ => RunCompleted 0 0 0
  end.
Definition flat_event (e : JournalEvent) : Z * Z * flat := (sequence e, timestamp e, flatten (kind e)).
Definition unflat_event (f : Z * Z * flat) : JournalEvent :=
  {| sequence := f.1.1; timestamp := f.1.2; kind := unflatten f.2 |}.
Lemma unflat_flat e : unflat_event (flat_event e) = e.
Proof. by destruct e as [n t []]. Qed.

(** The object is a brace, a number in binary (least significant bit first)
    and a brace. *)
Fixpoint to_bits (p : positive) : list Z :=
  match p with
  | xH => [49]
  | xO p => 48 :: to_bits p
  | xI p => 49 :: to_bits p
  end.
Fixpoint of_bits (l : list Z) : option positive :=
  match l with
  | [] => None
  | [b] => if b =? 49 then Some xH else None
  | b :: l =>
      p ← of_bits l;
      if b =? 48 then Some (xO p) else if b =? 49 then Some (xI p) else None
  end.
Definition to_text (e : JournalEvent) : string :=
  string_of_bytes (123 :: to_bits (encode (flat_event e)) ++ [125]).
Definition of_text (s : string) : result string JournalEvent :=
  match str_bytes s with
  | 123 :: rest =>
      match reverse rest with
      | 125 :: bits =>
          match of_bits (reverse bits) ≫= decode with
          | Some f => Ok (unflat_event f)
          | None => Err "expected a number"
          end
      | _ => Err "EOF while parsing an object"
      end
  | _ => Err "expected value"
  end.
#[global] Instance codec : EventCodec := {| event_to_string := to_text; event_from_str := of_text |}.

Lemma to_bits_bytes p : Forall (λ b, b = 48 ∨ b = 49) (to_bits p).
Proof. induction p; simpl; constructor; auto. Qed.

Lemma of_to_bits p : of_bits (to_bits p) = Some p.
Proof.
  induction p as [p IH|p IH|]; [| |done]; cbn [to_bits of_bits];
    (destruct (to_bits p) eqn:E; [by destruct p|rewrite <- E, IH in *; done]).
Qed.

Lemma of_bits_bytes l p : of_bits l = Some p → Forall (λ b, b = 48 ∨ b = 49) l.
Proof.
  revert p. induction l as [|b [|c l] IH]; intros p Hl; [done| |].
  - cbn [of_bits] in Hl. destruct (Z.eqb_spec b 49); [|done]. constructor; [by right|constructor].
  - cbn [of_bits] in Hl. apply bind_Some in Hl as (q & Hq & Hl). constructor; [|by eapply IH].
    destruct (Z.eqb_spec b 48); [auto|]. destruct (Z.eqb_spec b 49); [auto|done].
Qed.

Lemma text_bytes e : str_bytes (to_text e) = 123 :: to_bits (encode (flat_event e)) ++ [125].
Proof.
  unfold to_text. assert (∀ l, Forall (λ b, 0 ≤ b < 256) l → str_bytes (string_of_bytes l) = l) as Hback.
  { induction 1 as [|b l Hb _ IH]; [done|]. cbn [string_of_bytes foldr str_bytes]. f_equal; [|exact IH].
    unfold byte_of. rewrite Ascii.N_ascii_embedding by lia. lia. }
  apply Hback. constructor; [lia|]. apply Forall_app. split; [|repeat constructor; lia].
  eapply Forall_impl; [apply to_bits_bytes|]. intros b [-> | ->]; lia.
Qed.

Lemma of_text_braces s body :
  str_bytes s = 123 :: body ++ [125] →
  of_text s = match of_bits body ≫= decode with
              | Some f => Ok (unflat_event f)
              | None => Err "expected a number"
              end.
Proof.
  intros Hb. unfold of_text. rewrite Hb. cbv beta iota. rewrite reverse_app.
  change (reverse [125] ++ reverse body) with (125 :: reverse body). cbv beta iota.
  by rewrite reverse_involutive.
Qed.

Lemma roundtrip e : of_text (to_text e) = Ok e.
Proof.
  rewrite (of_text_braces _ _ (text_bytes e)), of_to_bits. cbn [mbind option_bind].
  by rewrite decode_encode, unflat_flat.
Qed.

Lemma cut e n : (n < String.length (to_text e))%nat → is_ok (of_text (String.substring 0 n (to_text e))) = false.
Proof.
  rewrite <- length_str_bytes, text_bytes. cbn [length]. rewrite length_app. cbn [length]. intros Hn.
  unfold of_text. rewrite str_bytes_substring, text_bytes.
  destruct n as [|n]; [done|]. cbn [take]. rewrite take_app_le by lia. cbv beta iota.
  destruct (reverse (take n _)) as [|b l] eqn:E; [done|].
  assert (b ∈ to_bits (encode (flat_event e))) as Hin.
  { assert (b ∈ take n (to_bits (encode (flat_event e)))) as (i & Hi & _)%elem_of_take
      by (apply elem_of_reverse; rewrite E; constructor). by eapply list_elem_of_lookup_2. }
  pose proof (to_bits_bytes (encode (flat_event e))) as Hbits. rewrite Forall_forall in Hbits.
  by destruct (Hbits b Hin) as [-> | ->].
Qed.

Lemma inner_brace s x y : str_bytes s = 123 :: x ++ 123 :: y → is_ok (of_text s) = false.
Proof.
  intros Hb. destruct y as [|b y _] using rev_ind.
  { unfold of_text. rewrite Hb. cbv beta iota. by rewrite reverse_app. }
  destruct (decide (b = 125)) as [->|Hne].
  - rewrite (of_text_braces _ (x ++ 123 :: y)) by (rewrite Hb, <- app_assoc; done).
    destruct (of_bits _) as [p|] eqn:Hp; [|done]. apply of_bits_bytes in Hp.
    rewrite Forall_app, Forall_cons in Hp. destruct Hp as [_ [Hp _]]. lia.
  - unfold of_text. rewrite Hb. cbv beta iota. rewrite app_comm_cons, app_assoc, reverse_app.
    change (reverse [b] ++ reverse (x ++ 123 :: y)) with (b :: reverse (x ++ 123 :: y)). cbv beta iota.
    repeat case_match; simplify_eq; try done.
Qed.

Lemma joined e e' n m : (0 < n)%nat → (0 < m)%nat →
  is_ok (of_text (String.substring 0 n (to_text e) +:+ String.substring 0 m (to_text e'))) = false.
Proof.
  intros Hn Hm. destruct n as [|n], m as [|m]; [lia..|].
  eapply inner_brace. rewrite str_bytes_app, !str_bytes_substring, !text_bytes. cbn [take app]. reflexivity.
Qed.

#[global] Instance codec_laws : EventCodecLaws.
Proof.
  split.
  - exact roundtrip.
  - intros e. by eexists.
  - intros e b. change (event_to_string e) with (to_text e). rewrite text_bytes, elem_of_cons, elem_of_app.
    intros [->|[Hin| ->%list_elem_of_singleton]]; [lia| |lia].
    pose proof (to_bits_bytes (encode (flat_event e))) as Hbits. rewrite Forall_forall in Hbits.
    destruct (Hbits b Hin); lia.
  - intros e. change (event_to_string e) with (to_text e). rewrite text_bytes.
    apply (is_utf8_app [123]); [done|]. apply is_utf8_app; [|done].
    induction (to_bits_bytes (encode (flat_event e))) as [|b l Hb _ IH]; [done|]. cbn [is_utf8].
    by destruct Hb as [-> | ->].
  - exact cut.
  - exact joined.
Qed.
End SampleCodec.

(** A journal with one signed chunk. *)
Module SampleJournal.
Definition empty : Journal := {| journal_file := ""; journal_path := "run.jsonl"; next_sequence := 1 |}.
Definition signed (sig : string) : JournalEventKind := ChunkSigned 0 [2; 3] sig "AQ==" "hash" 15.
Definition one : Journal := (append_event empty 100 IoDone (signed "sigB")).1.
Definition one_event : JournalEvent := {| sequence := 1; timestamp := 100; kind := signed "sigB" |}.
Lemma one_runs : journal_run one [one_event].
Proof. apply (run_append empty [] 100), run_new. Qed.
End SampleJournal.


Lemma missing_newline_loses_durable_events_witness :
  let e := {| sequence := next_sequence SampleJournal.one; timestamp := 101; kind := RunInterrupted "crash" 0 0 1 |} in
  ∃ j1, reopen SampleJournal.one (journal_file (append_event SampleJournal.one 101
          (WriteFailed (String.length (event_to_string e)) "crash") (RunInterrupted "crash" 0 0 1)).1) =
        Ok (j1, [SampleJournal.one_event] ++ [e]) ∧
    is_ok (append_event j1 102 IoDone (SampleJournal.signed "sigC")).2 = true ∧
    reopen SampleJournal.one (journal_file (append_event j1 102 IoDone (SampleJournal.signed "sigC")).1) =
    Ok (SampleJournal.one, [SampleJournal.one_event]).
Proof.
  exact (missing_newline_loses_durable_events SampleJournal.one [SampleJournal.one_event] 101
           (RunInterrupted "crash" 0 0 1) 102 (SampleJournal.signed "sigC") SampleJournal.one_runs).
Defined.

Lemma append_after_failed_sync_bricks_journal_witness :
  is_ok (reopen SampleJournal.one (journal_file (append_event
    (append_event SampleJournal.one 101 (SyncFailed "EIO") (SampleJournal.signed "sigC")).1
    102 IoDone (RunInterrupted "fsync" 0 0 1)).1)) = false.
Proof.
  exact (proj2 (append_after_failed_sync_bricks_journal SampleJournal.one [SampleJournal.one_event] 101
           (SampleJournal.signed "sigC") "EIO" 102 (RunInterrupted "fsync" 0 0 1) SampleJournal.one_runs)).
Defined.

Lemma broadcast_permit_implies_recoverable_witness :
  reopen SampleJournal.one (journal_file SampleJournal.one) = Ok (SampleJournal.one, [] ++ [SampleJournal.one_event]).
Proof.
  assert (append_chunk_signed SampleJournal.empty 100 IoDone 0 [2; 3] "sigB" "AQ==" "hash" 15 =
    (SampleJournal.one, Ok (SampleJournal.one_event, {| permit_chunk_index := 0 |}))) as H
    by reflexivity.
  exact (proj2 (proj2 (broadcast_permit_implies_recoverable SampleJournal.empty [] 100 IoDone 0 [2; 3] "sigB" "AQ=="
           "hash" 15 SampleJournal.one SampleJournal.one_event {| permit_chunk_index := 0 |} (run_new _) H))).
Defined.

Lemma resume_replaces_only_dead_signatures_witness :
  ∃ l e rows sig bytes bh lvbh l', [SampleJournal.one_event] = l ++ e :: l' ∧
    kind e = ChunkSigned 0 rows sig bytes bh lvbh ∧
    Forall (λ e, is_signed 0 e = false ∧ is_confirmed 0 e = false) l' ∧ never_lands sig.
Proof.
  exact (resume_replaces_only_dead_signatures (C := unit) (E := string) tt tt 0 [SampleJournal.one_event]
    sample_honest (λ e rows sig bytes bh lvbh Hin Hk,
      ltac:(apply list_elem_of_singleton in Hin as ->; injection Hk; intros; subst; simpl; lia))).
Defined.
