(* ===== verification/PushExecutor.v ===== *)
(** * PushExecutor: the bounded sign / journal / broadcast pipeline

    [core/src/client/push/executor.rs].  The transport, the clock, the disk
    and the signer are a [World] whose answers are unconstrained; the polling
    loops run on fuel, and a run that has used it up is in the outcome
    [Running] with the state it has reached, so that what is proved of the
    state holds at every point of a run. *)
From S2P Require Import Prelude Text Landing PushManifest PushPlanner PushPermit PushJournal.
#[local] Open Scope string_scope.
#[local] Open Scope list_scope.
#[local] Open Scope Z_scope.

Definition DEFAULT_MAX_IN_FLIGHT : Z := 32.
Definition DEFAULT_POLL_INTERVAL : Z := 800.

Record ChunkTxContext := {
  ctx_sender : Pubkey;
  tx_mint : Pubkey;
  tx_token_program : Pubkey;
  tx_decimals : Z
}.
Record PreparedChunkContext := {
  prepared_fee_payer : Pubkey;
  prepared_blockhash : list Z;
  prepared_last_valid_block_height : Z
}.
Inductive BroadcastOutcome :=
  | Pending (signature : list Z)
  | Settled (signature : list Z).
Inductive PendingStatus :=
  | StillPending
  | PendingConfirmed
  | PendingFailed (reason : string).
Record PendingSignature := {
  pending_signature : list Z;
  pending_last_valid_block_height : Z
}.
Record PushExecutorConfig := {
  max_in_flight : Z;
  poll_interval : Z
}.
Definition default_config : PushExecutorConfig :=
  {| max_in_flight := DEFAULT_MAX_IN_FLIGHT; poll_interval := DEFAULT_POLL_INTERVAL |}.
Record RunSummary := {
  summary_confirmed : Z;
  summary_failed : Z
}.
Record InFlightChunk := {
  flight_chunk_index : Z;
  flight_signature : list Z;
  flight_last_valid_block_height : Z
}.

(** The trait [ChunkBroadcaster], with the clock, the disk and the signer. *)
Class World (W : Type) := {
  prepare : W → PlannedChunk → W * res PreparedChunkContext;
  broadcast : W → SignedChunk → W * res BroadcastOutcome;
  poll_pending : W → list PendingSignature → W * res (list PendingStatus);
  world_now : W → W * Z;
  world_io : W → W * Io;
  world_signer : W → Signer
}.

(** One call of [broadcast]: what was sent, the prepared transaction it was
    signed from, the journal file and the number of unsettled signatures at
    that moment. *)
Record Sending := {
  sent_chunk : SignedChunk;
  sent_tx : VersionedTransaction;
  sent_file : string;
  sent_in_flight : Z
}.

(** The chunk records of a log: the events that say which rows a chunk
    carries, with the signature and its expiry where there is one. *)
Definition chunk_record : Type := Z * list Z * option (string * Z).
Definition record_of (k : JournalEventKind) : option chunk_record :=
  match k with
  | ChunkPrepared k rows _ => Some (k, rows, None)
  | ChunkSigned k rows sig _ _ lvbh => Some (k, rows, Some (sig, lvbh))
  | _ => None
  end.
Definition chunk_log (es : list JournalEvent) : list chunk_record := omap (λ e, record_of (kind e)) es.
Definition record_index (r : chunk_record) : Z := r.1.1.

Lemma chunk_log_snoc es e : chunk_log (es ++ [e]) = chunk_log es ++ option_list (record_of (kind e)).
Proof. unfold chunk_log. rewrite omap_app. simpl. by destruct (record_of (kind e)). Qed.

Section executor.
Context `{Kit} `{EventCodec} {W : Type} `{World W}.
Context (pubkey_text : Pubkey → string) (signature_text hash_text : list Z → string).

Record ExecState := {
  ex_permit : BatchSigningPermit;
  ex_journal : Journal;
  ex_world : W;
  ex_in_flight : list InFlightChunk;
  ex_summary : RunSummary;
  ex_sent : list Sending
}.
Definition set_permit (s : ExecState) (p : BatchSigningPermit) : ExecState :=
  {| ex_permit := p; ex_journal := ex_journal s; ex_world := ex_world s; ex_in_flight := ex_in_flight s;
     ex_summary := ex_summary s; ex_sent := ex_sent s |}.
Definition set_journal (s : ExecState) (j : Journal) : ExecState :=
  {| ex_permit := ex_permit s; ex_journal := j; ex_world := ex_world s; ex_in_flight := ex_in_flight s;
     ex_summary := ex_summary s; ex_sent := ex_sent s |}.
Definition set_world (s : ExecState) (w : W) : ExecState :=
  {| ex_permit := ex_permit s; ex_journal := ex_journal s; ex_world := w; ex_in_flight := ex_in_flight s;
     ex_summary := ex_summary s; ex_sent := ex_sent s |}.
Definition set_in_flight (s : ExecState) (l : list InFlightChunk) : ExecState :=
  {| ex_permit := ex_permit s; ex_journal := ex_journal s; ex_world := ex_world s; ex_in_flight := l;
     ex_summary := ex_summary s; ex_sent := ex_sent s |}.
Definition set_summary (s : ExecState) (m : RunSummary) : ExecState :=
  {| ex_permit := ex_permit s; ex_journal := ex_journal s; ex_world := ex_world s; ex_in_flight := ex_in_flight s;
     ex_summary := m; ex_sent := ex_sent s |}.
Definition set_sent (s : ExecState) (l : list Sending) : ExecState :=
  {| ex_permit := ex_permit s; ex_journal := ex_journal s; ex_world := ex_world s; ex_in_flight := ex_in_flight s;
     ex_summary := ex_summary s; ex_sent := l |}.

(** ** The executor's monad *)
Inductive outcome (A : Type) :=
  | Returned (a : A)
  | Raised (e : Error)
  | Running.
#[global] Arguments Returned {A} _.
#[global] Arguments Raised {A} _.
#[global] Arguments Running {A}.

Definition exec (A : Type) : Type := ExecState → ExecState * outcome A.
#[global] Instance exec_ret : MRet exec := λ A a s, (s, Returned a).
#[global] Instance exec_bind : MBind exec := λ A B k m s,
  match m s with
  | (s', Returned a) => k a s'
  | (s', Raised e) => (s', Raised e)
  | (s', Running) => (s', Running)
  end.
Definition lift {A} (r : res A) : exec A := λ s,
  (s, match r with Ok a => Returned a | Err e => Raised e end).
Definition get_state : exec ExecState := λ s, (s, Returned s).
Definition modify (f : ExecState → ExecState) : exec unit := λ s, (f s, Returned tt).
Definition ask {A} (f : W → W * A) : exec A := λ s,
  let '(w, a) := f (ex_world s) in (set_world s w, Returned a).

(** A journal write: the disk answers, and the journal changes even when the
    write fails. *)
Definition journal_write {A} (f : Journal → Z → Io → Journal * res A) : exec A :=
  now ← ask world_now;
  io ← ask world_io;
  (λ s, let '(j, r) := f (ex_journal s) now io in lift r (set_journal s j)) : exec A.

(** [sign_off_runtime_thread]: [sign_chunk] on another thread, joined. *)
Definition sign_off_runtime_thread (k : Z) (tx : VersionedTransaction) (lvbh : Z) : exec SignedChunk :=
  now ← ask world_now;
  (λ s, let '(p, r) := sign_chunk pubkey_text (ex_permit s) now (world_signer (ex_world s)) k tx lvbh in
        lift r (set_permit s p)) : exec SignedChunk.

Definition confirm_one (s : ExecState) : ExecState :=
  set_summary s {| summary_confirmed := summary_confirmed (ex_summary s) + 1;
                   summary_failed := summary_failed (ex_summary s) |}.
Definition fail_one (s : ExecState) : ExecState :=
  set_summary s {| summary_confirmed := summary_confirmed (ex_summary s);
                   summary_failed := summary_failed (ex_summary s) + 1 |}.

(** The loop of [drain_in_flight] over the statuses: [in_flight] has been
    emptied by [drain], the chunks still pending are collected. *)
Fixpoint settle_statuses (l : list (InFlightChunk * PendingStatus)) (still : list InFlightChunk) :
    exec (list InFlightChunk) :=
  match l with
  | [] => mret still
  | (chunk, status) :: l =>
      match status with
      | StillPending => settle_statuses l (still ++ [chunk])
      | PendingConfirmed =>
          _ ← journal_write (λ j now io, append_chunk_confirmed j now io (flight_chunk_index chunk)
                                           (signature_text (flight_signature chunk)));
          _ ← modify confirm_one;
          settle_statuses l still
      | PendingFailed reason =>
          _ ← journal_write (λ j now io, append_chunk_failed j now io (flight_chunk_index chunk) reason true);
          _ ← modify fail_one;
          settle_statuses l still
      end
  end.

Definition pending_of (c : InFlightChunk) : PendingSignature :=
  {| pending_signature := flight_signature c;
     pending_last_valid_block_height := flight_last_valid_block_height c |}.

Definition drain_in_flight : exec unit :=
  s ← get_state;
  if bool_decide (ex_in_flight s = []) then mret tt
  else
    r ← ask (λ w, poll_pending w (map pending_of (ex_in_flight s)));
    statuses ← lift r;
    _ ← lift (reject_if (negb (length statuses =? length (ex_in_flight s))%nat)
          (Config "poll_pending returned a different number of statuses than signatures queried"));
    _ ← modify (λ s, set_in_flight s []);
    still_pending ← settle_statuses (zip (ex_in_flight s) statuses) [];
    modify (λ s, set_in_flight s still_pending).

(** [while in_flight.len() >= limit { drain }]. *)
Fixpoint drain_until_below (limit : Z) (fuel : nat) : exec unit :=
  s ← get_state;
  if limit <=? zlen (ex_in_flight s) then
    match fuel with
    | O => (λ s, (s, Running)) : exec unit
    | S fuel => _ ← drain_in_flight; drain_until_below limit fuel
    end
  else mret tt.

Context (ctx : ChunkTxContext) (config : PushExecutorConfig).

Definition send (signed : SignedChunk) (tx : VersionedTransaction) : exec (res BroadcastOutcome) :=
  _ ← modify (λ s, set_sent s (ex_sent s ++
        [ {| sent_chunk := signed; sent_tx := tx; sent_file := journal_file (ex_journal s);
             sent_in_flight := zlen (ex_in_flight s) |} ]));
  ask (λ w, broadcast w signed).

Definition run_chunk (fuel : nat) (chunk : PlannedChunk) : exec unit :=
  _ ← drain_until_below (max_in_flight config) fuel;
  r ← ask (λ w, prepare w chunk);
  prepared ← lift r;
  transaction ← lift (build_chunk_transaction chunk (tx_mint ctx) (tx_token_program ctx) (tx_decimals ctx)
                        (ctx_sender ctx) (prepared_fee_payer prepared) (prepared_blockhash prepared));
  signed ← sign_off_runtime_thread (chunk_index chunk) transaction (prepared_last_valid_block_height prepared);
  permit ← journal_write (λ j now io,
             append_chunk_signed j now io (signed_chunk_index signed) (signed_row_numbers signed)
               (signature_text (signed_signature signed)) (signed_transaction_base64 signed)
               (hash_text (signed_blockhash signed)) (signed_last_valid_block_height signed));
  let broadcast_permit := snd permit in
  outcome ← send signed transaction;
  match outcome with
  | Ok (Pending signature) =>
      _ ← journal_write (λ j now io, append_chunk_broadcast j now io broadcast_permit (signature_text signature));
      modify (λ s, set_in_flight s (ex_in_flight s ++
        [ {| flight_chunk_index := signed_chunk_index signed; flight_signature := signature;
             flight_last_valid_block_height := signed_last_valid_block_height signed |} ]))
  | Ok (Settled signature) =>
      _ ← journal_write (λ j now io, append_chunk_broadcast j now io broadcast_permit (signature_text signature));
      _ ← journal_write (λ j now io, append_chunk_confirmed j now io (signed_chunk_index signed) (signature_text signature));
      modify confirm_one
  | Err error =>
      _ ← journal_write (λ j now io, append_chunk_failed j now io (signed_chunk_index signed) (error_text error) true);
      modify fail_one
  end.

Fixpoint run_chunks (fuel : nat) (chunks : list PlannedChunk) : exec unit :=
  match chunks with
  | [] => mret tt
  | chunk :: chunks => _ ← run_chunk fuel chunk; run_chunks fuel chunks
  end.

(** The final [while !in_flight.is_empty()] is the same loop with limit 1. *)
Definition run (fuel : nat) (chunks : list PlannedChunk) : exec RunSummary :=
  _ ← modify (λ s, set_summary (set_in_flight s []) {| summary_confirmed := 0; summary_failed := 0 |});
  _ ← run_chunks fuel chunks;
  _ ← drain_until_below 1 fuel;
  s ← get_state;
  mret (ex_summary s).

(** ** Invariants of a run *)
Context `{!EventCodecLaws}.
Hypothesis program_ids_distinct : NoDup allowed_programs.
Hypothesis signers_keep_messages : ∀ w : W, keeps_message (world_signer w).

(** A transmission is recoverable from the journal as it was on disk at that
    moment, and the in-flight window had room. *)
Definition sending_ok (path : string) (x : Sending) : Prop :=
  (∃ j es e, open_existing path (sent_file x) (Ok tt) (λ _, Locked) (Ok tt) = Ok (j, es) ∧ e ∈ es ∧
     kind e = ChunkSigned (signed_chunk_index (sent_chunk x)) (signed_row_numbers (sent_chunk x))
       (signature_text (signed_signature (sent_chunk x))) (signed_transaction_base64 (sent_chunk x))
       (hash_text (signed_blockhash (sent_chunk x))) (signed_last_valid_block_height (sent_chunk x))) ∧
  sent_in_flight x < max_in_flight config.

(** Each of these prepared transactions was signed by the permit under its
    terms, for that chunk. *)
Definition ticket : Type := VersionedTransaction * SignedChunk.
Definition ticket_of (x : Sending) : ticket := (sent_tx x, sent_chunk x).
Definition signed_under (t : BatchSigningPermit) (p : BatchSigningPermit) (ts : list ticket) : Prop :=
  ∃ log, permit_inv pubkey_text t p log ∧
    Forall (λ tk : ticket, ∃ c plan, c ∈ log ∧ call_tx c = tk.1 ∧ call_chunk c = signed_chunk_index tk.2 ∧
      plan_for t (signed_chunk_index tk.2) = Ok plan ∧ signed_row_numbers tk.2 = row_numbers plan) ts.

(** What the journal says of a signed chunk. *)
Definition signed_record (c : SignedChunk) : chunk_record :=
  (signed_chunk_index c, signed_row_numbers c,
   Some (signature_text (signed_signature c), signed_last_valid_block_height c)).

Definition sent_indices (s : ExecState) : list Z :=
  map (λ x, signed_chunk_index (sent_chunk x)) (ex_sent s).

(** While the run goes on; [owed] counts transmissions whose outcome is not
    in the tally yet, [base] is the chunk log the run started from, and
    [unsent] the chunk whose record is written but which is not sent yet. *)
Record running (t : BatchSigningPermit) (path : string) (base : list chunk_record) (sent : list Z) (flight : list InFlightChunk) (owed : Z)
    (extra : list ticket) (unsent : list SignedChunk) (s : ExecState) : Prop := {
  rn_journal : ∃ es, journal_holds (ex_journal s) es ∧
    chunk_log es = base ++ map (λ x, signed_record (sent_chunk x)) (ex_sent s) ++ map signed_record unsent;
  rn_path : journal_path (ex_journal s) = path;
  rn_sent : Forall (sending_ok path) (ex_sent s);
  rn_order : sent_indices s = sent;
  rn_permit : signed_under t (ex_permit s) (map ticket_of (ex_sent s) ++ extra);
  rn_flight : ex_in_flight s = flight;
  rn_tally : summary_confirmed (ex_summary s) + summary_failed (ex_summary s) + zlen flight + owed =
             zlen (ex_sent s)
}.

(** The chunk log is that of the run's start, a record per transmission and
    possibly one more, of the next chunk. *)
Definition logged (base : list chunk_record) (chunks : list Z) (s : ExecState) (es : list JournalEvent) : Prop :=
  ∃ unsent rest,
    chunk_log es = base ++ map (λ x, signed_record (sent_chunk x)) (ex_sent s) ++ unsent ∧
    sent_indices s ++ map record_index unsent ++ rest = chunks.

(** [j'] is the journal [j], or [j] after one append that did not succeed;
    the record of that append is as good as the others. *)
Definition written_from (j j' : Journal) (good : list JournalEvent → Prop) (es : list JournalEvent) : Prop :=
  j' = j ∨ ∃ now io k, io ≠ IoDone ∧ j' = (append_event j now io k).1 ∧
    good (es ++ [ {| sequence := next_sequence j; timestamp := now; kind := k |} ]).

(** Once it has stopped, for whatever reason. *)
Record stopped (t : BatchSigningPermit) (path : string) (base : list chunk_record) (chunks : list Z)
    (s : ExecState) : Prop := {
  st_sent : Forall (sending_ok path) (ex_sent s);
  st_order : ∃ rest, sent_indices s ++ rest = chunks;
  st_journal : ∃ j es, journal_holds j es ∧ journal_path j = path ∧ logged base chunks s es ∧
    written_from j (ex_journal s) (logged base chunks s) es;
  st_permit : signed_under t (ex_permit s) (map ticket_of (ex_sent s))
}.

Section triples.
Context (t : BatchSigningPermit) (path : string) (base : list chunk_record) (chunks : list Z).

Definition triple {A} (P : ExecState → Prop) (m : exec A) (Q : A → ExecState → Prop) : Prop :=
  ∀ s, P s → match m s with
             | (s', Returned a) => Q a s'
             | (s', _) => stopped t path base chunks s'
             end.

Lemma triple_ret {A} (P : ExecState → Prop) (a : A) (Q : A → ExecState → Prop) :
  (∀ s, P s → Q a s) → triple P (mret a) Q.
Proof. intros HPQ s Hs. apply HPQ, Hs. Qed.

Lemma triple_bind {A B} P (m : exec A) (k : A → exec B) Q R :
  triple P m Q → (∀ a, triple (Q a) (k a) R) → triple P (m ≫= k) R.
Proof.
  intros Hm Hk s Hs. specialize (Hm s Hs). unfold mbind, exec_bind.
  destruct (m s) as [s' [a|e|]]; [apply Hk, Hm|done..].
Qed.

Lemma triple_weaken {A} P P' (m : exec A) (Q Q' : A → ExecState → Prop) :
  triple P' m Q' → (∀ s, P s → P' s) → (∀ a s, Q' a s → Q a s) → triple P m Q.
Proof.
  intros Hm HP HQ s Hs. specialize (Hm s (HP s Hs)). destruct (m s) as [s' [a|e|]]; [apply HQ, Hm|done..].
Qed.

Lemma running_stopped sent flight owed extra unsent rest s :
  sent ++ map signed_chunk_index unsent ++ rest = chunks →
  running t path base sent flight owed extra unsent s → stopped t path base chunks s.
Proof.
  intros <- [(es & Hj & Hl) Hpath Hs <- (log & Hp & Hf) _ _]. split; [done|by eexists| |].
  - exists (ex_journal s), es. split_and!; [done|done| |by left].
    exists (map signed_record unsent), rest. split; [done|]. by rewrite map_map.
  - exists log. split; [done|]. by apply Forall_app in Hf as [? _].
Qed.

Lemma failed_append_stops sent flight owed extra unsent rest s now io k :
  sent ++ map signed_chunk_index unsent ++ rest = chunks →
  running t path base sent flight owed extra unsent s → io ≠ IoDone →
  record_of k = None ∨ (unsent = [] ∧ ∃ r rest', record_of k = Some r ∧ sent ++ record_index r :: rest' = chunks) →
  ∀ s', ex_sent s' = ex_sent s → ex_permit s' = ex_permit s →
  ex_journal s' = (append_event (ex_journal s) now io k).1 → stopped t path base chunks s'.
Proof.
  intros Hc Hs Hio Hk s' Hse Hpe Hjo. pose proof Hs as [(es & Hj & Hl) Hpath _ Ho _ _ _].
  destruct (running_stopped _ _ _ _ _ _ _ Hc Hs) as [Hok Hord _ Hpm].
  assert (logged base chunks s es) as Hlog.
  { exists (map signed_record unsent), rest. split; [done|]. by rewrite map_map, Ho. }
  split; unfold logged, sent_indices in *; rewrite ?Hse, ?Hpe; try done.
  exists (ex_journal s), es. split_and!; [done..|]. right. exists now, io, k. split_and!; [done..|].
  destruct Hk as [Hk|(-> & r & rest' & Hk & Hc')]; rewrite chunk_log_snoc; simpl; rewrite Hk; simpl.
  - by rewrite app_nil_r.
  - exists [r], rest'. simpl in Hl. rewrite app_nil_r in Hl. rewrite Hl, <- app_assoc. split; [done|].
    by rewrite <- Ho in Hc'.
Qed.

(** Steps that only touch the world, or fail without changing anything. *)
Lemma triple_ask {A} sent flight owed extra unsent (f : W → W * A) :
  triple (running t path base sent flight owed extra unsent) (ask f) (λ _, running t path base sent flight owed extra unsent).
Proof. intros s []. unfold ask. destruct (f (ex_world s)) as [w a]. split; done. Qed.

Lemma triple_lift {A} sent flight owed extra unsent rest (r : res A) :
  sent ++ map signed_chunk_index unsent ++ rest = chunks →
  triple (running t path base sent flight owed extra unsent) (lift r) (λ a s, r = Ok a ∧ running t path base sent flight owed extra unsent s).
Proof.
  intros Hc s Hs. unfold lift. destruct r as [a|e]; [done|]. by eapply running_stopped.
Qed.

Lemma triple_journal_event sent flight owed extra unsent rest (f : Journal → Z → Io → Journal * res JournalEvent) k :
  (∀ j now io, f j now io = append_event j now io k) → record_of k = None →
  sent ++ map signed_chunk_index unsent ++ rest = chunks →
  triple (running t path base sent flight owed extra unsent) (journal_write f)
    (λ _, running t path base sent flight owed extra unsent).
Proof.
  intros Hf Hk Hc. unfold journal_write.
  eapply triple_bind; [apply triple_ask|]. intros now.
  eapply triple_bind; [apply triple_ask|]. intros io s Hs. rewrite Hf.
  destruct (append_event (ex_journal s) now io k) as [j r] eqn:Ha. unfold lift.
  pose proof Hs as [(es & Hj & Hl) Hp Hse Ho Hpm Hfl Ht].
  assert (io ≠ IoDone → stopped t path base chunks (set_journal s j)) as Hfail.
  { intros Hio. eapply failed_append_stops; [exact Hc|exact Hs|exact Hio|by left|done..|].
    simpl. by rewrite Ha. }
  destruct io; cbn [append_event] in Ha; injection Ha as <- <-; try (by apply Hfail).
  pose proof (append_done_holds _ _ now k Hj) as Hj'. simpl in Hj'.
  split; simpl; try done. eexists. split; [exact Hj'|]. rewrite chunk_log_snoc. simpl. by rewrite Hk, app_nil_r.
Qed.

Ltac journal_event :=
  eapply triple_journal_event; [intros; reflexivity|reflexivity|simpl; eassumption].

(** Counting one outcome. *)
Lemma triple_count sent flight owed extra unsent f :
  f = confirm_one ∨ f = fail_one →
  triple (running t path base sent flight owed extra unsent) (modify f) (λ _, running t path base sent flight (owed - 1) extra unsent).
Proof.
  intros Hf s []. unfold modify. destruct Hf as [-> | ->]; split; simpl; try done; lia.
Qed.

Lemma triple_settle sent rest l : ∀ still,
  sent ++ rest = chunks →
  triple (running t path base sent [] (zlen l + zlen still) [] []) (settle_statuses l still)
    (λ still', running t path base sent [] (zlen still') [] []).
Proof.
  induction l as [|[chunk status] l IH]; intros still Hc; cbn [settle_statuses].
  { apply triple_ret. intros s. done. }
  assert (zlen ((chunk, status) :: l) = zlen l + 1) as Hlen by (unfold zlen; simpl; lia).
  assert (∀ f, f = confirm_one ∨ f = fail_one →
    triple (running t path base sent [] (zlen ((chunk, status) :: l) + zlen still) [] []) (modify f)
      (λ _, running t path base sent [] (zlen l + zlen still) [] [])) as Hcount.
  { intros f Hf. eapply triple_weaken; [by apply (triple_count sent [] (zlen ((chunk, status) :: l) + zlen still) [] [] f)|done|].
    intros u s.
    by replace (zlen ((chunk, status) :: l) + zlen still - 1) with (zlen l + zlen still) by lia. }
  destruct status.
  - eapply triple_weaken; [by apply (IH (still ++ [chunk]))| |done]. intros s.
    unfold zlen in *. rewrite length_app. simpl.
    by replace (Z.of_nat (length l) + Z.of_nat (length still + 1)) with
      (Z.of_nat (S (length l)) + Z.of_nat (length still)) by lia.
  - eapply triple_bind; [by journal_event|]. intros ?.
    eapply triple_bind; [apply Hcount; by left|]. intros ?. by apply IH.
  - eapply triple_bind; [by journal_event|]. intros ?.
    eapply triple_bind; [apply Hcount; by right|]. intros ?. by apply IH.
Qed.

Lemma triple_get {A} (P : ExecState → Prop) (k : ExecState → exec A) Q :
  (∀ s0, P s0 → triple (λ s, s = s0) (k s0) Q) → triple P (get_state ≫= k) Q.
Proof. intros Hk s Hs. exact (Hk s Hs s eq_refl). Qed.

(** Draining keeps the tally and never adds to the window. *)
Lemma triple_drain sent flight rest :
  sent ++ rest = chunks →
  triple (running t path base sent flight 0 [] []) drain_in_flight
    (λ _ s, ∃ flight', running t path base sent flight' 0 [] [] s).
Proof.
  intros Hc. apply triple_get. intros s0 Hs0. pose proof (rn_flight _ _ _ _ _ _ _ _ _ Hs0) as Hfl. rewrite Hfl.
  case_bool_decide as Hempty; [apply triple_ret; intros s ->; eauto|].
  eapply triple_weaken with (P' := running t path base sent flight 0 [] []); [|by intros s ->|intros ? ? HQ; exact HQ].
  eapply triple_bind; [apply triple_ask|]. intros r.
  eapply triple_bind; [eapply triple_lift; simpl; eassumption|]. intros statuses.
  eapply triple_bind; [|intros ?].
  { eapply triple_weaken; [eapply (triple_lift sent flight 0 [] []); simpl; eassumption|by intros s []|intros ? ? HQ; exact HQ]. }
  intros s [Hlen Hs]. apply reject_if_Ok, negb_false_iff, Nat.eqb_eq in Hlen. revert s Hs.
  change (triple (running t path base sent flight 0 [] [])
    (_ ← modify (λ s, set_in_flight s []);
     still_pending ← settle_statuses (zip flight statuses) [];
     modify (λ s, set_in_flight s still_pending)) (λ _ s, ∃ flight', running t path base sent flight' 0 [] [] s)).
  eapply triple_bind with (Q := λ _, running t path base sent [] (zlen (zip flight statuses) + zlen []) [] []).
  { intros s []. unfold modify. split; simpl; try done. unfold zlen in *. rewrite length_zip. simpl. lia. }
  intros ?. eapply triple_bind; [by eapply triple_settle|]. intros still s []. unfold modify. exists still.
  split; simpl; try done. unfold zlen in *. simpl in *. lia.
Qed.

Lemma triple_drain_until sent limit rest fuel : ∀ flight,
  sent ++ rest = chunks →
  triple (running t path base sent flight 0 [] []) (drain_until_below limit fuel)
    (λ _ s, ∃ flight', zlen flight' < limit ∧ running t path base sent flight' 0 [] [] s).
Proof.
  induction fuel as [|fuel IH]; intros flight Hc; cbn [drain_until_below]; apply triple_get; intros s0 Hs0;
    rewrite (rn_flight _ _ _ _ _ _ _ _ _ Hs0); destruct (Z.leb_spec limit (zlen flight)).
  - intros s ->. eapply (running_stopped _ _ _ _ []); [exact Hc|exact Hs0].
  - apply triple_ret. intros s ->. eauto.
  - eapply triple_bind; [eapply triple_weaken; [by eapply (triple_drain sent flight)|by intros s ->|intros ? ? HQ; exact HQ]|].
    intros ? s (flight' & Hs). exact (IH flight' Hc s Hs).
  - apply triple_ret. intros s ->. eauto.
Qed.

Lemma triple_sign sent flight owed rest k tx lvbh :
  sent ++ rest = chunks →
  triple (running t path base sent flight owed [] []) (sign_off_runtime_thread k tx lvbh)
    (λ signed s, signed_chunk_index signed = k ∧ running t path base sent flight owed [(tx, signed)] [] s).
Proof.
  intros Hc. unfold sign_off_runtime_thread. eapply triple_bind; [apply triple_ask|]. intros now s Hs.
  destruct (sign_chunk _ _ _ _ _ _ _) as [p r] eqn:Hsign. unfold lift.
  pose proof Hs as [Hj Hp Hse Ho (log & Hpm & Hf) Hfl Ht].
  set (c := {| call_now := now; call_signer := world_signer (ex_world s); call_chunk := k; call_tx := tx;
               call_lvbh := lvbh; call_expiry := None |}).
  pose proof (sign_preserves pubkey_text _ _ log c p r (signers_keep_messages _) eq_refl Hpm Hsign) as Hpm'.
  rewrite app_nil_r in Hf. destruct r as [signed|e]; simpl in Hpm'.
  - assert (signed_chunk_index signed = k ∧ ∃ plan, plan_for t k = Ok plan ∧ signed_row_numbers signed = row_numbers plan)
      as (Hk & plan & Hplan & Hrows).
    { unfold sign_chunk in Hsign. destruct (sign_checks _ _ _ _ _) as [[plan amt]|] eqn:Hchk; [|done].
      unfold sign_checks in Hchk. inv_ok. simplify_eq.
      destruct (sign_transaction_bytes _ _ _) as [[[sig bh] enc]|]; simplify_eq/=. split; [done|].
      exists plan. split; [|done]. rewrite <- (pm_terms _ _ _ _ Hpm). done. }
    split; [done|]. split; simpl; try done. exists (log ++ [c]). split; [done|]. apply Forall_app. split.
    + eapply Forall_impl; [exact Hf|]. intros tk (c' & plan' & Hin & ?). exists c', plan'. rewrite elem_of_app. eauto.
    + constructor; [|constructor]. exists c, plan. simpl. rewrite Hk. split_and!; [|done..].
      apply elem_of_app. right. constructor.
  - eapply (running_stopped sent flight owed [] []); [exact Hc|]. split; simpl; try done. exists log.
    by rewrite app_nil_r.
Qed.

(** The journal holds the signed record of this chunk. *)
Definition recorded (signed : SignedChunk) (s : ExecState) : Prop :=
  ∃ es e, journal_holds (ex_journal s) es ∧ e ∈ es ∧
    kind e = ChunkSigned (signed_chunk_index signed) (signed_row_numbers signed)
      (signature_text (signed_signature signed)) (signed_transaction_base64 signed)
      (hash_text (signed_blockhash signed)) (signed_last_valid_block_height signed).

Lemma triple_journal_signed sent flight owed extra rest signed :
  sent ++ signed_chunk_index signed :: rest = chunks →
  triple (running t path base sent flight owed extra [])
    (journal_write (λ j now io,
       append_chunk_signed j now io (signed_chunk_index signed) (signed_row_numbers signed)
         (signature_text (signed_signature signed)) (signed_transaction_base64 signed)
         (hash_text (signed_blockhash signed)) (signed_last_valid_block_height signed)))
    (λ _ s, recorded signed s ∧ running t path base sent flight owed extra [signed] s).
Proof.
  intros Hc. unfold journal_write.
  eapply triple_bind; [apply triple_ask|]. intros now.
  eapply triple_bind; [apply triple_ask|]. intros io s Hs. unfold append_chunk_signed.
  set (ev := ChunkSigned _ _ _ _ _ _). pose proof Hs as [(es & Hj & Hl) Hp Hse Ho Hpm Hfl Ht].
  assert (io ≠ IoDone → stopped t path base chunks (set_journal s (append_event (ex_journal s) now io ev).1)) as Hfail.
  { intros Hio. eapply (failed_append_stops sent flight owed extra []); [exact Hc|exact Hs|exact Hio| |done..]. right. split; [done|].
    exists (signed_record signed), rest. done. }
  destruct io; cbn [append_event] in *; try (by apply Hfail).
  pose proof (append_done_holds _ _ now ev Hj) as Hj'. simpl in Hj'. simpl. split.
  - eexists. eexists. split; [exact Hj'|]. split; [apply elem_of_app; right; constructor|done].
  - split; simpl; try done. eexists. split; [exact Hj'|]. rewrite chunk_log_snoc, Hl. simpl.
    by rewrite !app_nil_r, <- app_assoc.
Qed.

Lemma triple_send sent flight rest signed tx :
  sent ++ signed_chunk_index signed :: rest = chunks → zlen flight < max_in_flight config →
  triple (λ s, recorded signed s ∧ running t path base sent flight 0 [(tx, signed)] [signed] s)
    (send signed tx)
    (λ _, running t path base (sent ++ [signed_chunk_index signed]) flight 1 [] []).
Proof.
  intros Hc Hroom. unfold send.
  eapply triple_bind with (Q := λ _, running t path base (sent ++ [signed_chunk_index signed]) flight 1 [] []).
  - intros s [(es & e & Hj & Hin & Hk) [(es' & Hj' & Hl) Hp Hse Ho Hpm Hfl Ht]]. unfold modify. split; simpl; try done.
    + exists es'. split; [done|]. rewrite Hl, map_app, app_nil_r. done.
    + apply Forall_app. split; [done|]. constructor; [|constructor]. split; simpl.
      * exists (ex_journal s), es, e. split; [|done]. rewrite (holds_file _ _ Hj), <- Hp. by apply reopen_clean.
      * by rewrite Hfl.
    + unfold sent_indices in *. simpl. rewrite map_app, Ho. done.
    + rewrite map_app, app_nil_r. exact Hpm.
    + unfold zlen in *. rewrite length_app. simpl. lia.
  - intros ?. apply triple_ask.
Qed.

Lemma triple_run_chunk sent flight rest fuel chunk :
  sent ++ chunk_index chunk :: rest = chunks →
  triple (running t path base sent flight 0 [] []) (run_chunk fuel chunk)
    (λ _ s, ∃ flight', running t path base (sent ++ [chunk_index chunk]) flight' 0 [] [] s).
Proof.
  intros Hc. unfold run_chunk. eapply triple_bind; [by eapply triple_drain_until|].
  intros ? s (flight' & Hroom & Hs). revert s Hs.
  match goal with |- ∀ s, _ → match ?m s with _ => _ end => change (triple (running t path base sent flight' 0 [] []) m
    (λ _ s, ∃ flight', running t path base (sent ++ [chunk_index chunk]) flight' 0 [] [] s)) end.
  eapply triple_bind; [apply triple_ask|]. intros r.
  eapply triple_bind; [eapply triple_lift; simpl; eassumption|]. intros prepared.
  eapply triple_bind; [eapply triple_weaken; [eapply (triple_lift sent flight' 0 [] []); simpl; eassumption|by intros s []|
    intros ? ? HQ; exact HQ]|]. intros tx.
  eapply triple_bind; [eapply triple_weaken; [by eapply (triple_sign sent flight' 0)|by intros s []|
    intros ? ? HQ; exact HQ]|].
  intros signed s [Hk Hs]. revert s Hs.
  match goal with |- ∀ s, _ → match ?m s with _ => _ end => change (triple (running t path base sent flight' 0 [(tx, signed)] []) m
    (λ _ s, ∃ flight', running t path base (sent ++ [chunk_index chunk]) flight' 0 [] [] s)) end.
  rewrite <- Hk in *.
  eapply triple_bind; [by eapply triple_journal_signed|]. intros permit.
  eapply triple_bind; [by eapply triple_send|]. intros answer.
  assert (sent ++ signed_chunk_index signed :: rest = (sent ++ [signed_chunk_index signed]) ++ rest) as Hsplit
    by (by rewrite <- app_assoc).
  rewrite Hsplit in Hc. destruct answer as [[signature|signature]|error].
  - eapply triple_bind; [by journal_event|]. intros ? s [Hj Hp Hse Ho Hpm Hfl Ht]. unfold modify.
    eexists. split; simpl; try done. rewrite Hfl. unfold zlen in *. rewrite length_app. simpl. lia.
  - eapply triple_bind; [by journal_event|]. intros ?.
    eapply triple_bind; [by journal_event|]. intros ?.
    eapply triple_weaken; [apply (triple_count (sent ++ [signed_chunk_index signed]) flight' 1 [] []); by left|done|]. intros ? s' Hs'. by exists flight'.
  - eapply triple_bind; [by journal_event|]. intros ?.
    eapply triple_weaken; [apply (triple_count (sent ++ [signed_chunk_index signed]) flight' 1 [] []); by right|done|]. intros ? s' Hs'. by exists flight'.
Qed.

Lemma triple_run_chunks fuel todo : ∀ sent flight,
  sent ++ map chunk_index todo = chunks →
  triple (running t path base sent flight 0 [] []) (run_chunks fuel todo)
    (λ _ s, ∃ flight', running t path base chunks flight' 0 [] [] s).
Proof.
  induction todo as [|chunk todo IH]; intros sent flight Hc; cbn [run_chunks].
  { apply triple_ret. intros s Hs. simpl in Hc. rewrite app_nil_r in Hc. subst. eauto. }
  eapply triple_bind; [by eapply triple_run_chunk|]. intros ? s (flight' & Hs).
  refine (IH _ flight' _ s Hs). by rewrite <- app_assoc.
Qed.
End triples.

(** Where a run starts: a journal as its own operations leave it and a permit
    that may already have been used. *)
Definition starts_from (t : BatchSigningPermit) (es : list JournalEvent) (s : ExecState) : Prop :=
  journal_holds (ex_journal s) es ∧ ex_sent s = [] ∧ ∃ log, permit_inv pubkey_text t (ex_permit s) log.
Definition startable (t : BatchSigningPermit) (s : ExecState) : Prop :=
  (∃ es, journal_run (ex_journal s) es) ∧ ex_sent s = [] ∧ ∃ log, permit_inv pubkey_text t (ex_permit s) log.

Lemma startable_starts t s : startable t s → ∃ es, starts_from t es s.
Proof. intros ((es & Hj%journal_run_holds) & ? & ?). by exists es. Qed.

Lemma run_triple t path es fuel todo :
  triple t path (chunk_log es) (map chunk_index todo)
    (λ s, starts_from t es s ∧ journal_path (ex_journal s) = path) (run fuel todo)
    (λ summary s, summary = ex_summary s ∧ running t path (chunk_log es) (map chunk_index todo) [] 0 [] [] s).
Proof.
  unfold run. eapply triple_bind with (Q := λ _, running t path (chunk_log es) [] [] 0 [] []).
  { intros s [(Hj & Hsent & log & Hp) Hpath]. unfold modify. split; simpl; try done.
    - exists es. rewrite Hsent, app_nil_r. done.
    - by rewrite Hsent.
    - unfold sent_indices. simpl. by rewrite Hsent.
    - rewrite Hsent. exists log. split; [done|constructor].
    - by rewrite Hsent. }
  intros ?. eapply triple_bind; [by apply triple_run_chunks|]. intros ? s (flight & Hs). revert s Hs.
  match goal with |- ∀ s, _ → match ?m s with _ => _ end => change (triple t path (chunk_log es) (map chunk_index todo)
    (running t path (chunk_log es) (map chunk_index todo) flight 0 [] []) m
    (λ summary s, summary = ex_summary s ∧ running t path (chunk_log es) (map chunk_index todo) [] 0 [] [] s)) end.
  eapply triple_bind; [by eapply (triple_drain_until t path (chunk_log es) (map chunk_index todo) _ 1 []), app_nil_r|].
  intros ? s (flight' & Hlen & Hs).
  assert (flight' = []) as -> by (destruct flight'; [done|unfold zlen in Hlen; simpl in Hlen; lia]).
  split; done.
Qed.

(** Wherever a run is or ends. *)
Lemma run_stopped t es fuel todo s s' r :
  starts_from t es s → run fuel todo s = (s', r) →
  stopped t (journal_path (ex_journal s)) (chunk_log es) (map chunk_index todo) s'.
Proof.
  intros Hs Hrun. pose proof (run_triple t (journal_path (ex_journal s)) es fuel todo s (conj Hs eq_refl)) as Hpost.
  rewrite Hrun in Hpost. destruct r as [a|e|]; [|done..].
  eapply (running_stopped _ _ _ _ _ _ _ _ []); [by apply app_nil_r|apply Hpost].
Qed.


(** A run that returns has settled everything: every chunk was sent, no
    signature is left in flight, and the confirmed and failed counts add up
    to the number of chunks. *)
Theorem completed_run_accounts_for_every_chunk t fuel todo s s' summary :
  startable t s → run fuel todo s = (s', Returned summary) →
  sent_indices s' = map chunk_index todo ∧ ex_in_flight s' = [] ∧
  summary_confirmed summary + summary_failed summary = zlen todo.
Proof.
  intros (es & Hs)%startable_starts Hrun.
  pose proof (run_triple t (journal_path (ex_journal s)) es fuel todo s (conj Hs eq_refl)) as Hpost.
  rewrite Hrun in Hpost. destruct Hpost as [-> [_ _ _ Ho _ Hfl Ht]]. split_and!; try done.
  unfold sent_indices, zlen in *. simpl in Ht. apply (f_equal length) in Ho. rewrite !length_map in Ho. lia.
Qed.
End executor.

(** ** The transports *)

(** [Value::as_u64], [Value::as_array]; numbers are integers here. *)
Definition json_u64 (v : json) : option Z := match v with JNum n => try_from 64 n | _ => None end.
(** [Value::pointer]. *)
Definition json_pointer (v : json) (path : list string) : option json :=
  foldl (λ (o : option json) k, match o with Some x => json_get x k | None => None end) (Some v) path.
Definition json_array (v : json) : option (list json) := match v with JArr l => Some l | _ => None end.

Definition classify_missing_signature (current_block_height last_valid_block_height : Z) : PendingStatus :=
  if last_valid_block_height <? current_block_height then
    PendingFailed ("signature not found and its blockhash expired (current height " +:+
      show current_block_height +:+ " > last valid height " +:+ show last_valid_block_height +:+ ")")
  else StillPending.

Section direct.
(** An HTTP client with its own state: each request gets a JSON answer or a
    transport error. *)
Context {R : Type} (post : R → json → R * res json).
Context (json_text : json → string) (signature_text : list Z → string).
Context (hash_from_str signature_from_str : string → option (list Z)).

Record DirectSolanaBroadcaster := {
  direct_http : R;
  direct_fee_payer : Pubkey;
  blockhash_cache : option (PreparedChunkContext * Z)
}.
Definition with_http (d : DirectSolanaBroadcaster) (r : R) : DirectSolanaBroadcaster :=
  {| direct_http := r; direct_fee_payer := direct_fee_payer d; blockhash_cache := blockhash_cache d |}.

Definition rpc_request (method : string) (params : list json) : json :=
  JObj [("jsonrpc", JStr "2.0"); ("id", JNum 1); ("method", JStr method); ("params", JArr params)].

Definition direct_call (r : R) (body : json) : R * res json :=
  let '(r, response) := post r body in
  (r, parsed ← response;
      match json_get parsed "error" with
      | Some error => Err (Config ("RPC returned an error: " +:+ json_text error))
      | None => ok_or (json_get parsed "result") (Config "RPC response is missing `result`")
      end).

Definition fetch_block_height (r : R) : R * res Z :=
  let '(r, result) := direct_call r (rpc_request "getBlockHeight" [JObj [("commitment", JStr "confirmed")]]) in
  (r, v ← result; ok_or (json_u64 v) (Config "malformed getBlockHeight response")).

(** [now] in milliseconds. *)
Definition direct_prepare (d : DirectSolanaBroadcaster) (now : Z) :
    DirectSolanaBroadcaster * res PreparedChunkContext :=
  let fetch :=
    let '(r, result) := direct_call (direct_http d)
      (rpc_request "getLatestBlockhash" [JObj [("commitment", JStr "confirmed")]]) in
    let parsed : res PreparedChunkContext :=
      v ← result;
      blockhash_str ← ok_or (json_pointer v ["value"; "blockhash"] ≫= json_str)
                        (Config "malformed getLatestBlockhash response");
      lvbh ← ok_or (json_pointer v ["value"; "lastValidBlockHeight"] ≫= json_u64)
               (Config "malformed getLatestBlockhash response");
      blockhash ← ok_or (hash_from_str blockhash_str)
                    (Config "getLatestBlockhash returned a malformed blockhash");
      Ok {| prepared_fee_payer := direct_fee_payer d; prepared_blockhash := blockhash;
            prepared_last_valid_block_height := lvbh |} in
    match parsed with
    | Ok prepared => ({| direct_http := r; direct_fee_payer := direct_fee_payer d;
                         blockhash_cache := Some (prepared, now) |}, Ok prepared)
    | Err e => (with_http d r, Err e)
    end in
  match blockhash_cache d with
  | Some (prepared, fetched_at) => if now - fetched_at <? 5000 then (d, Ok prepared) else fetch
  | None => fetch
  end.

Definition direct_broadcast (d : DirectSolanaBroadcaster) (signed : SignedChunk) :
    DirectSolanaBroadcaster * res BroadcastOutcome :=
  let '(r, result) := direct_call (direct_http d)
    (rpc_request "sendTransaction" [JStr (signed_transaction_base64 signed);
       JObj [("encoding", JStr "base64"); ("skipPreflight", JBool false);
             ("preflightCommitment", JStr "confirmed"); ("maxRetries", JNum 0)]]) in
  (with_http d r,
   v ← result;
   signature_str ← ok_or (json_str v) (Config "malformed sendTransaction response");
   signature ← ok_or (signature_from_str signature_str) (Config "sendTransaction returned a malformed signature");
   Ok (Pending signature)).

(** The status loop: the block height is fetched at most once, at the first
    [null] entry. *)
Fixpoint poll_entries (r : R) (height : option Z) (l : list (json * PendingSignature)) (statuses : list PendingStatus) :
    R * res (list PendingStatus) :=
  match l with
  | [] => (r, Ok statuses)
  | (entry, pending) :: l =>
      if json_is_null entry then
        match height with
        | Some h =>
            poll_entries r height l
              (statuses ++ [classify_missing_signature h (pending_last_valid_block_height pending)])
        | None =>
            match fetch_block_height r with
            | (r, Err e) => (r, Err e)
            | (r, Ok h) =>
                poll_entries r (Some h) l
                  (statuses ++ [classify_missing_signature h (pending_last_valid_block_height pending)])
            end
        end
      else if match json_get entry "err" with Some err => negb (json_is_null err) | None => false end then
        poll_entries r height l (statuses ++ [PendingFailed ("transaction failed on-chain: " +:+
          json_text (default JNull (json_get entry "err")))])
      else
        let confirmation := default "" (json_get entry "confirmationStatus" ≫= json_str) in
        poll_entries r height l (statuses ++
          [if bool_decide (confirmation = "confirmed") || bool_decide (confirmation = "finalized")
           then PendingConfirmed else StillPending])
  end.

Definition direct_poll_pending (d : DirectSolanaBroadcaster) (pending : list PendingSignature) :
    DirectSolanaBroadcaster * res (list PendingStatus) :=
  if bool_decide (pending = []) then (d, Ok [])
  else
    let '(r, result) := direct_call (direct_http d)
      (rpc_request "getSignatureStatuses"
         [JArr (map (λ p, JStr (signature_text (pending_signature p))) pending);
          JObj [("searchTransactionHistory", JBool true)]]) in
    let entries : res (list json) :=
      v ← result;
      entries ← ok_or (json_get v "value" ≫= json_array) (Config "malformed getSignatureStatuses response");
      _ ← reject_if (negb (length entries =? length pending)%nat)
            (Config "getSignatureStatuses returned a different number of entries than signatures queried");
      Ok entries in
    match entries with
    | Err e => (with_http d r, Err e)
    | Ok entries =>
        let '(r, statuses) := poll_entries r None (zip entries pending) [] in
        (with_http d r, statuses)
    end.
End direct.

Section gasless.
(** Each request gets a status code and a body, or a transport error. *)
Context {R : Type} (post : R → json → option string → R * res (Z * res json)).
Context (pubkey_text : Pubkey → string).
Context (pubkey_from_str hash_from_str signature_from_str : string → option (list Z)).

Record GaslessApiBroadcaster := {
  gasless_http : R;
  batch_id : string;
  gasless_sender : Pubkey;
  gasless_currency : string;
  gasless_network : string;
  gasless_decimals : Z;
  prepared_requests : gmap Z json
}.
Definition with_requests (g : GaslessApiBroadcaster) (r : R) (m : gmap Z json) : GaslessApiBroadcaster :=
  {| gasless_http := r; batch_id := batch_id g; gasless_sender := gasless_sender g;
     gasless_currency := gasless_currency g; gasless_network := gasless_network g;
     gasless_decimals := gasless_decimals g; prepared_requests := m |}.

Definition request_body (g : GaslessApiBroadcaster) (chunk : PlannedChunk) : json :=
  JObj [("batchId", JStr (batch_id g)); ("chunkIndex", JNum (chunk_index chunk));
        ("sender", JStr (pubkey_text (gasless_sender g))); ("currency", JStr (gasless_currency g));
        ("network", JStr (gasless_network g));
        ("transfers", JArr (map (λ entry, JObj [("rowId", JNum (entry_row_number entry));
           ("recipient", JStr (pubkey_text (entry_recipient entry)));
           ("amount", JStr (format_token_amount (entry_amount_raw entry) (gasless_decimals g)))])
           (entries chunk)))].

Definition gasless_prepare (g : GaslessApiBroadcaster) (chunk : PlannedChunk) :
    GaslessApiBroadcaster * res PreparedChunkContext :=
  let request := request_body g chunk in
  let '(r, response) := post (gasless_http g) request None in
  let quote : res (string * string * Z) :=
    answer ← response;
    let '(status, body) := answer in
    _ ← reject_if (negb (status =? 402)) (Config ("pay-api quote returned unexpected status " +:+ show status));
    body ← body;
    fee_payer ← ok_or (json_get body "feePayer" ≫= json_str) (Config "pay-api quote is missing feePayer");
    blockhash ← ok_or (json_get body "recentBlockhash" ≫= json_str) (Config "pay-api quote is missing recentBlockhash");
    lvbh ← ok_or (json_get body "challengeLastValidBlockHeight" ≫= json_u64)
             (Config "pay-api quote is missing challengeLastValidBlockHeight");
    Ok (fee_payer, blockhash, lvbh) in
  match quote with
  | Err e => (with_requests g r (prepared_requests g), Err e)
  | Ok (fee_payer_str, blockhash_str, lvbh) =>
      (with_requests g r (<[chunk_index chunk := request]> (prepared_requests g)),
       fee_payer ← ok_or (pubkey_from_str fee_payer_str) (Config "pay-api quote returned a malformed feePayer");
       blockhash ← ok_or (hash_from_str blockhash_str) (Config "pay-api quote returned a malformed recentBlockhash");
       Ok {| prepared_fee_payer := fee_payer; prepared_blockhash := blockhash;
             prepared_last_valid_block_height := lvbh |})
  end.

Definition gasless_broadcast (g : GaslessApiBroadcaster) (signed : SignedChunk) :
    GaslessApiBroadcaster * res BroadcastOutcome :=
  match prepared_requests g !! signed_chunk_index signed with
  | None => (g, Err (Config ("missing prepared gasless request for chunk " +:+ show (signed_chunk_index signed))))
  | Some request =>
      let '(r, response) := post (gasless_http g) request
        (Some ("Bearer " +:+ signed_transaction_base64 signed)) in
      let submitted : res (list Z) :=
        answer ← response;
        let '(status, body) := answer in
        _ ← reject_if (negb ((200 <=? status) && (status <? 300)))
              (Config ("pay-api submit returned unexpected status " +:+ show status));
        body ← body;
        signature_str ← ok_or (json_get body "signature" ≫= json_str)
                          (Config "pay-api submit response is missing signature");
        ok_or (signature_from_str signature_str) (Config "pay-api submit returned a malformed signature") in
      match submitted with
      | Err e => (with_requests g r (prepared_requests g), Err e)
      | Ok signature =>
          (with_requests g r (delete (signed_chunk_index signed) (prepared_requests g)), Ok (Settled signature))
      end
  end.

Definition gasless_poll_pending (g : GaslessApiBroadcaster) (_ : list PendingSignature) :
    GaslessApiBroadcaster * res (list PendingStatus) :=
  (g, Err (Config "GaslessApiBroadcaster::poll_pending should never be called: broadcast() never returns Pending")).
End gasless.

(** ** A node one block ahead

    The status list is read first and the height only afterwards. *)
Module Race.
Definition method_of (body : json) : string := default "" (json_get body "method" ≫= json_str).
(** Between the first and the second request the transaction lands in block
    100, its last valid one, and block 101 is confirmed. *)
Definition node (t : nat) (body : json) : nat * res json :=
  (S t, Ok (JObj [("result",
     if bool_decide (method_of body = "getBlockHeight") then JNum (if (t <? 1)%nat then 100 else 101)
     else JObj [("value", JArr [if (t <? 1)%nat then JNull
                                else JObj [("err", JNull); ("confirmationStatus", JStr "confirmed")]])])])).
Definition client (t : nat) : DirectSolanaBroadcaster (R := nat) :=
  {| direct_http := t; direct_fee_payer := []; blockhash_cache := None |}.
Definition poll (t : nat) := direct_poll_pending node (λ _, "error") (λ _, "sig") (client t)
  [ {| pending_signature := []; pending_last_valid_block_height := 100 |} ].
End Race.

(** A payout can be reported as failed although it landed: statuses are
    read before the block height, so a transaction that lands in its last
    valid block between the two reads is recorded as expired, while the same
    poll a moment later reports it confirmed. *)
Theorem landed_payout_can_be_reported_failed :
  (Race.poll 0).2 = Ok [classify_missing_signature 101 100] ∧
  classify_missing_signature 101 100 ≠ StillPending ∧
  (Race.poll 1).2 = Ok [PendingConfirmed].
Proof. vm_compute. split_and!; congruence. Qed.

(** ** A concrete run *)
Module SampleRun.
(** The first chunk settles by polling, the others at once. *)
#[global] Instance world : World nat := {|
  prepare := λ w _, (S w, Ok {| prepared_fee_payer := SampleKit.sender; prepared_blockhash := SampleKit.key 70;
                                prepared_last_valid_block_height := 200 |});
  broadcast := λ w signed, (S w, Ok (if signed_chunk_index signed =? 4 then Pending [1] else Settled [2]));
  poll_pending := λ w ps, (S w, Ok (map (λ _, PendingConfirmed) ps));
  world_now := λ w, (S w, 1500);
  world_io := λ w, (S w, IoDone);
  world_signer := λ _, SamplePermit.signer
|}.
Definition tx_context : ChunkTxContext := {|
  ctx_sender := SampleKit.sender; tx_mint := SampleKit.key 8; tx_token_program := SampleKit.key 4; tx_decimals := 6 |}.
Definition start : ExecState (W := nat) := {|
  ex_permit := SamplePermit.permit; ex_journal := SampleJournal.empty; ex_world := 0%nat; ex_in_flight := [];
  ex_summary := {| summary_confirmed := 0; summary_failed := 0 |}; ex_sent := [] |}.
Abbreviation go :=
  (run SamplePermit.text (λ _, "sig") (λ _, "hash") tx_context default_config 5 (chunks SampleKit.plan)).

Lemma start_ok : startable SamplePermit.text SamplePermit.permit start.
Proof.
  split; [exists []; apply run_new|]. split; [done|]. exists [].
  apply unused_inv, SamplePermit.permit_unused.
Qed.
Lemma signers_keep (w : nat) : keeps_message (world_signer w).
Proof. exact SamplePermit.signer_keeps. Qed.
End SampleRun.


Lemma completed_run_accounts_for_every_chunk_witness :
  ∃ summary, (SampleRun.go SampleRun.start).2 = Returned summary ∧
    summary_confirmed summary + summary_failed summary = zlen (chunks SampleKit.plan).
Proof.
  exists {| summary_confirmed := 2; summary_failed := 0 |}.
  assert ((SampleRun.go SampleRun.start).2 = Returned {| summary_confirmed := 2; summary_failed := 0 |}) as Hr
    by (vm_compute; reflexivity).
  split; [exact Hr|].
  destruct (completed_run_accounts_for_every_chunk SamplePermit.text (λ _, "sig") (λ _, "hash") SampleRun.tx_context
    default_config SampleRun.signers_keep SamplePermit.permit 5 (chunks SampleKit.plan) SampleRun.start
    (SampleRun.go SampleRun.start).1 {| summary_confirmed := 2; summary_failed := 0 |} SampleRun.start_ok) as (_ & _ & H).
  - rewrite <- Hr. exact (surjective_pairing (SampleRun.go SampleRun.start)).
  - exact H.
Defined.
