(* ===== verification/TransferBatch.v ===== *)
(** * TransferBatch: the hosted service that sponsors gasless payouts

    [pay-api-core/src/transfer_batch.rs] with its wire types
    ([pay-api-types/src/transfer_batch.rs]), the handler of
    [pay-api/src/endpoints/transfer_batches.rs] and the errors of
    [pay-api-core/src/error.rs].  The service checks a chunk a client signed,
    adds the fee payer's signature and broadcasts it.  Transactions are those
    of the payout planner; what PayKit, the signer and the RPC node answer is
    an argument. *)
From S2P Require Import Prelude F64 Text Affixes Landing PushManifest PushPlanner PushPermit.
#[local] Open Scope string_scope.
#[local] Open Scope list_scope.
#[local] Open Scope Z_scope.

(** ** Wire types *)
Definition MIN_TRANSFER_BATCH_TRANSFERS : Z := 1.
Definition MAX_TRANSFER_BATCH_TRANSFERS : Z := 8.
Definition BATCH_ID_HEX_LEN : Z := 64.

Inductive TransferNetwork := Mainnet | Devnet | Localnet.
#[global] Instance TransferNetwork_eq_dec : EqDecision TransferNetwork.
Proof. solve_decision. Defined.
Definition network_as_str (n : TransferNetwork) : string :=
  match n with Mainnet => "mainnet" | Devnet => "devnet" | Localnet => "localnet" end.
Definition network_from_str (s : string) : result string TransferNetwork :=
  if bool_decide (s = "mainnet") then Ok Mainnet
  else if bool_decide (s = "devnet") then Ok Devnet
  else if bool_decide (s = "localnet") then Ok Localnet
  else Err ("unknown transfer network: " +:+ s).

Record TransferBatchEntry := {
  row_id : Z;
  recipient : string;
  amount : string
}.
Record TransferBatchRequest := {
  rq_batch_id : string;
  rq_chunk_index : Z;
  rq_sender : string;
  rq_currency : string;
  rq_network : TransferNetwork;
  rq_transfers : list TransferBatchEntry
}.
Record TransferBatchChallengeBody := {
  cb_batch_id : string;
  cb_chunk_index : Z;
  transfer_count : Z;
  cb_recipient_amount_raw : string;
  fee_reimbursement_raw : string;
  cb_total_amount_raw : string;
  cb_estimated_fee_lamports : Z;
  missing_ata_count : Z;
  fee_payer : string;
  cb_recent_blockhash : string;
  challenge_expires_at : string;
  challenge_last_valid_block_height : Z
}.
Inductive TransferBatchStatus := Confirmed.
Record TransferBatchResponse := {
  rs_batch_id : string;
  rs_chunk_index : Z;
  row_ids : list Z;
  rs_signature : string;
  status : TransferBatchStatus
}.
Record TransferBatchErrorDetail := {
  detail_code : string;
  detail_message : string;
  detail_field : option string;
  detail_retryable : bool
}.

(** The derived [Deserialize] with [deny_unknown_fields]: every field once and
    nothing else. *)
Definition object_with (j : json) (names : list string) : option unit :=
  match j with
  | JObj fields =>
      if (length fields =? length names)%nat && forallb (λ n, bool_decide (is_Some (json_get j n))) names then Some tt else None
  | _ => None
  end.
Definition json_uint (w : Z) (j : json) : option Z := match j with JNum n => try_from w n | _ => None end.
Definition parse_entry (j : json) : option TransferBatchEntry :=
  _ ← object_with j ["rowId"; "recipient"; "amount"];
  row_id ← json_get j "rowId" ≫= json_uint 64;
  recipient ← json_get j "recipient" ≫= json_str;
  amount ← json_get j "amount" ≫= json_str;
  Some {| row_id := row_id; recipient := recipient; amount := amount |}.
Definition parse_request (j : json) : option TransferBatchRequest :=
  _ ← object_with j ["batchId"; "chunkIndex"; "sender"; "currency"; "network"; "transfers"];
  batch_id ← json_get j "batchId" ≫= json_str;
  chunk_index ← json_get j "chunkIndex" ≫= json_uint 32;
  sender ← json_get j "sender" ≫= json_str;
  currency ← json_get j "currency" ≫= json_str;
  network ← json_get j "network" ≫= json_str;
  network ← match network_from_str network with Ok n => Some n | Err _ => None end;
  transfers ← json_get j "transfers";
  transfers ← match transfers with JArr l => mapM parse_entry l | _ => None end;
  Some {| rq_batch_id := batch_id; rq_chunk_index := chunk_index; rq_sender := sender; rq_currency := currency;
          rq_network := network; rq_transfers := transfers |}.

(** ** Errors *)

(** [pay-api-core/src/error.rs]; a transport error is its source's text. *)
Inductive ApiError :=
  | InvalidAddress
  | InvalidMint (symbol mint : string)
  | InvalidCreditProgram (text : string)
  | ApiNetworkNotConfigured (text : string)
  | SendNotConfigured (text : string)
  | ApiUnsupportedCurrency (text : string)
  | ApiInvalidAmount (text : string)
  | PriceUnavailable
  | PaymentChallenge
  | InvalidPaymentCredential
  | Conflict (text : string)
  | FeePayerSigner
  | UnknownNetwork (text : string)
  | RpcTransport (source : string)
  | RpcTimeout (timeout_ms : Z)
  | RpcRateLimited
  | RpcResponse (text : string)
  | RpcMalformed
  | TokenAccountDecode
  | CreditAccountDecode.
Definition api_http_status (e : ApiError) : Z :=
  match e with
  | InvalidAddress | InvalidMint _ _ | InvalidCreditProgram _ | ApiInvalidAmount _ | ApiUnsupportedCurrency _
  | UnknownNetwork _ | ApiNetworkNotConfigured _ => 400
  | SendNotConfigured _ => 503
  | RpcRateLimited => 429
  | InvalidPaymentCredential => 402
  | Conflict _ => 409
  | RpcTimeout _ => 504
  | _ => 502
  end.
Definition api_error_text (e : ApiError) : string :=
  match e with
  | InvalidAddress => "invalid base58 address"
  | InvalidMint symbol mint => "invalid mint for stablecoin " +:+ symbol +:+ ": " +:+ mint
  | InvalidCreditProgram t => "invalid credit program: " +:+ t
  | ApiNetworkNotConfigured t => "network not configured: " +:+ t
  | SendNotConfigured t => "send endpoint is not configured: " +:+ t
  | ApiUnsupportedCurrency t => "unsupported stablecoin currency: " +:+ t
  | ApiInvalidAmount t => "invalid amount: " +:+ t
  | PriceUnavailable => "SOL/USD price is unavailable"
  | PaymentChallenge => "payment challenge failed"
  | InvalidPaymentCredential => "invalid payment credential"
  | Conflict t => "conflict: " +:+ t
  | FeePayerSigner => "fee-payer signer is unavailable"
  | UnknownNetwork t => t
  | RpcTransport _ => "RPC transport error"
  | RpcTimeout ms => "RPC timeout after " +:+ show ms +:+ "ms"
  | RpcRateLimited => "RPC rate limited"
  | RpcResponse t => "RPC returned error: " +:+ t
  | RpcMalformed => "malformed RPC response"
  | TokenAccountDecode => "malformed token account data"
  | CreditAccountDecode => "malformed credit account data"
  end.

Inductive TransferBatchError :=
  | InvalidBatchId
  | InvalidSender
  | UnsupportedCurrency (currency : string)
  | TransferCountOutOfBounds (actual : Z)
  | InvalidRecipient (index : Z)
  | InvalidAmount (index : Z) (amount : string) (decimals : Z)
  | DuplicateRowId (index first_index row_id : Z)
  | NetworkNotConfigured (network : string)
  | MalformedCredential (text : string)
  | TransactionMismatch (detail : string)
  | InvalidSenderSignature
  | FeePayerSlotAlreadySigned
  | SponsorNotConfigured (text : string)
  | SigningFailed (text : string)
  | Rpc (e : ApiError).
Abbreviation bres := (result TransferBatchError).

Definition transfers_at (index : Z) (field : string) : string := "transfers[" +:+ show index +:+ "]." +:+ field.
(** The derived [Display]. *)
Definition batch_error_text (e : TransferBatchError) : string :=
  match e with
  | InvalidBatchId => "batchId must be exactly 64 lowercase hex characters (a BLAKE3 digest)"
  | InvalidSender => "sender is not a valid base58 Solana address"
  | UnsupportedCurrency c => "unsupported currency `" +:+ c +:+ "`"
  | TransferCountOutOfBounds n => "transfers must contain between 1 and 8 entries, got " +:+ show n
  | InvalidRecipient i => transfers_at i "recipient is not a valid base58 Solana address"
  | InvalidAmount i a d => transfers_at i "amount `" +:+ a +:+ "` is not a valid positive decimal amount at " +:+ show d +:+ " decimals"
  | DuplicateRowId i f r => transfers_at i "rowId " +:+ show r +:+ " duplicates " +:+ transfers_at f "rowId"
  | NetworkNotConfigured n => "push is not configured for network `" +:+ n +:+ "`"
  | MalformedCredential t => "Authorization header is not a valid base64-encoded prepared transaction: " +:+ t
  | TransactionMismatch d => "prepared transaction does not match the authorized chunk: " +:+ d
  | InvalidSenderSignature => "sender's signature over the prepared transaction is missing or invalid"
  | FeePayerSlotAlreadySigned => "the fee-payer signature slot must be unsigned in the submitted transaction"
  | SponsorNotConfigured t => "push sponsor is not configured: " +:+ t
  | SigningFailed t => "failed to co-sign the prepared transaction: " +:+ t
  | Rpc e => api_error_text e
  end.

Definition http_status (e : TransferBatchError) : Z :=
  match e with
  | Rpc err => api_http_status err
  | SponsorNotConfigured _ => 503
  | SigningFailed _ => 502
  | _ => 400
  end.
Definition code (e : TransferBatchError) : string :=
  match e with
  | InvalidBatchId => "invalid_batch_id"
  | InvalidSender => "invalid_sender"
  | UnsupportedCurrency _ => "unsupported_currency"
  | TransferCountOutOfBounds _ => "invalid_transfer_count"
  | InvalidRecipient _ => "invalid_recipient"
  | InvalidAmount _ _ _ => "invalid_amount"
  | DuplicateRowId _ _ _ => "duplicate_row_id"
  | NetworkNotConfigured _ => "network_not_configured"
  | MalformedCredential _ => "malformed_credential"
  | TransactionMismatch _ => "transaction_mismatch"
  | InvalidSenderSignature => "invalid_sender_signature"
  | FeePayerSlotAlreadySigned => "fee_payer_slot_already_signed"
  | SponsorNotConfigured _ => "sponsor_not_configured"
  | SigningFailed _ => "signing_failed"
  | Rpc _ => "rpc_error"
  end.
Definition field (e : TransferBatchError) : option string :=
  match e with
  | InvalidBatchId => Some "batchId"
  | InvalidSender => Some "sender"
  | UnsupportedCurrency _ => Some "currency"
  | TransferCountOutOfBounds _ => Some "transfers"
  | InvalidRecipient index => Some (transfers_at index "recipient")
  | InvalidAmount index _ _ => Some (transfers_at index "amount")
  | DuplicateRowId index _ _ => Some (transfers_at index "rowId")
  | NetworkNotConfigured _ => Some "network"
  | _ => None
  end.
Definition retryable (e : TransferBatchError) : bool :=
  match e with
  | SponsorNotConfigured _ | SigningFailed _ => true
  | Rpc (RpcTimeout _ | RpcRateLimited | RpcTransport _) => true
  | _ => false
  end.
Definition to_body (e : TransferBatchError) : TransferBatchErrorDetail := {|
  detail_code := code e; detail_message := batch_error_text e; detail_field := field e; detail_retryable := retryable e |}.

(** ** Requests *)

(** [Stablecoin] of [pay-api-core/src/stablecoin.rs]. *)
Record Coin := {
  coin_symbol : string;
  coin_mint : Pubkey;
  coin_token_program : Pubkey;
  coin_decimals : Z
}.
Record ValidatedTransfer := {
  vt_row_id : Z;
  vt_recipient : Pubkey;
  vt_amount_raw : Z
}.
Record ValidatedChunk := {
  vc_batch_id : string;
  vc_chunk_index : Z;
  vc_sender : Pubkey;
  vc_network : TransferNetwork;
  vc_coin : Coin;
  vc_transfers : list ValidatedTransfer;
  vc_memo : string
}.
Definition recipient_amount_raw (c : ValidatedChunk) : option Z :=
  match checked_sum 64 tt 0 (map vt_amount_raw (vc_transfers c)) with Ok total => Some total | Err _ => None end.

Section request.
Context (pubkey_from_str : string → result string Pubkey) (pubkey_text : Pubkey → string).
(** [blake3::Hash::from_hex] and PayKit's [parse_units]. *)
Context (hash_from_hex : string → result string (list Z)) (parse_units : string → Z → result string string).

Definition parse_positive_base_units (amount : string) (decimals : Z) : option Z :=
  match parse_units (trim amount) decimals with
  | Ok raw =>
      match u64_from_str raw with
      | Ok parsed => if parsed =? 0 then None else Some parsed
      | Err _ => None
      end
  | Err _ => None
  end.

(** The loop over the transfers; [seen] are the row ids so far. *)
Fixpoint validate_transfers (coin : Coin) (index : Z) (seen : list Z) (entries : list TransferBatchEntry) :
    bres (list ValidatedTransfer) :=
  match entries with
  | [] => Ok []
  | entry :: entries =>
      _ ← match list_find (λ r, r = row_id entry) seen with
          | Some (first_index, _) => Err (DuplicateRowId index (Z.of_nat first_index) (row_id entry))
          | None => Ok tt
          end;
      recipient ← map_err (λ _, InvalidRecipient index) (pubkey_from_str (trim (recipient entry)));
      amount_raw ← ok_or (parse_positive_base_units (amount entry) (coin_decimals coin))
                     (InvalidAmount index (amount entry) (coin_decimals coin));
      transfers ← validate_transfers coin (index + 1) (seen ++ [row_id entry]) entries;
      Ok ({| vt_row_id := row_id entry; vt_recipient := recipient; vt_amount_raw := amount_raw |} :: transfers)
  end.

Definition find_coin (currency : string) (coins : list Coin) : option Coin :=
  find (λ c, eq_ignore_ascii_case (coin_symbol c) currency || bool_decide (pubkey_text (coin_mint c) = currency)) coins.

Definition validate_request (request : TransferBatchRequest) (stablecoins : list Coin) : bres ValidatedChunk :=
  _ ← reject_if (negb (zlen (str_bytes (rq_batch_id request)) =? BATCH_ID_HEX_LEN) ||
                 existsb is_ascii_uppercase (str_bytes (rq_batch_id request)) ||
                 negb (is_ok (hash_from_hex (rq_batch_id request))))
        InvalidBatchId;
  sender ← map_err (λ _, InvalidSender) (pubkey_from_str (trim (rq_sender request)));
  coin ← ok_or (find_coin (trim (rq_currency request)) stablecoins) (UnsupportedCurrency (rq_currency request));
  _ ← reject_if ((zlen (rq_transfers request) <? MIN_TRANSFER_BATCH_TRANSFERS) ||
                 (MAX_TRANSFER_BATCH_TRANSFERS <? zlen (rq_transfers request)))
        (TransferCountOutOfBounds (zlen (rq_transfers request)));
  transfers ← validate_transfers coin 0 [] (rq_transfers request);
  let batch_id := to_ascii_lowercase (rq_batch_id request) in
  Ok {| vc_batch_id := batch_id; vc_chunk_index := rq_chunk_index request; vc_sender := sender;
        vc_network := rq_network request; vc_coin := coin; vc_transfers := transfers;
        vc_memo := "pay-push:v1:" +:+ String.substring 0 MANIFEST_HASH_PREFIX_LEN batch_id +:+ ":" +:+
                   show (rq_chunk_index request) |}.
End request.

(** ** Quotes *)
Record TransferBatchSettings := {
  ceiling_unit_price : Z;
  ceiling_unit_limit : Z;
  estimated_fee_lamports : Z;
  ata_rent_lamports : Z;
  usd_per_sol : f64;
  challenge_ttl : Z;
  confirm_timeout : Z
}.
(** The sponsor's key, the settings, and the RPC endpoint of the network. *)
Record TransferBatchRuntime := {
  rt_rpc_url : string;
  fee_payer_pubkey : Pubkey;
  settings : TransferBatchSettings
}.
Definition runtime_resolve (chunk : ValidatedChunk) (networks : TransferNetwork → option string) (sponsor : Pubkey)
    (settings : TransferBatchSettings) : bres TransferBatchRuntime :=
  url ← ok_or (networks (vc_network chunk)) (NetworkNotConfigured (network_as_str (vc_network chunk)));
  Ok {| rt_rpc_url := url; fee_payer_pubkey := sponsor; settings := settings |}.

Definition fee_reimbursement_base_units (lamports : Z) (usd_per_sol : f64) (decimals : Z) : bres Z :=
  _ ← reject_if (negb (f64_is_finite usd_per_sol) || f64_leb usd_per_sol f64_zero)
        (SponsorNotConfigured "push.usdPerSol must be a positive finite number");
  let scale := f64_pow10 decimals in
  let raw := f64_ceil (f64_mul (f64_mul (f64_div (f64_of_Z lamports) (f64_of_Z 1000000000)) usd_per_sol) scale) in
  _ ← reject_if (negb (f64_is_finite raw) || f64_ltb raw f64_zero || f64_gtb raw (f64_of_Z u64_max))
        (SponsorNotConfigured "computed fee reimbursement is out of range");
  Ok (f64_as_u64 raw).

Section service.
Context `{Kit} (pubkey_text : Pubkey → string).

(** [associated_token_address] of [pay-api-core/src/ata.rs]. *)
Definition associated_token_address (owner mint token_program : Pubkey) : Pubkey :=
  find_program_address [owner; token_program; mint] associated_token_program_id.

(** [quote]: [accounts] and [latest] are the node's answers about the
    destination accounts asked for and the latest blockhash. *)
Definition quote_accounts (chunk : ValidatedChunk) : list Pubkey :=
  map (λ t, associated_token_address (vt_recipient t) (coin_mint (vc_coin chunk)) (coin_token_program (vc_coin chunk)))
    (vc_transfers chunk).
Definition quote (rt : TransferBatchRuntime) (chunk : ValidatedChunk) (rfc3339 : Z → string) (now : Z)
    (accounts : list Pubkey → result ApiError (list (option (list Z)))) (latest : result ApiError (string * Z)) :
    bres TransferBatchChallengeBody :=
  accounts ← map_err Rpc (accounts (quote_accounts chunk));
  let missing := zlen (List.filter (λ a, match a with None => true | Some _ => false end) accounts) in
  '(blockhash, last_valid) ← map_err Rpc latest;
  recipients ← ok_or (recipient_amount_raw chunk) (TransactionMismatch "recipient amount total overflowed u64");
  let lamports := saturating_add 64 (estimated_fee_lamports (settings rt))
                    (saturating_mul 64 missing (ata_rent_lamports (settings rt))) in
  fee ← fee_reimbursement_base_units lamports (usd_per_sol (settings rt)) (coin_decimals (vc_coin chunk));
  total ← ok_or (checked_add 64 recipients fee) (TransactionMismatch "total amount overflowed u64");
  Ok {| cb_batch_id := vc_batch_id chunk; cb_chunk_index := vc_chunk_index chunk;
        transfer_count := zlen (vc_transfers chunk); cb_recipient_amount_raw := show recipients;
        fee_reimbursement_raw := show fee; cb_total_amount_raw := show total; cb_estimated_fee_lamports := lamports;
        missing_ata_count := missing; fee_payer := pubkey_text (fee_payer_pubkey rt); cb_recent_blockhash := blockhash;
        challenge_expires_at := rfc3339 (now + challenge_ttl (settings rt));
        challenge_last_valid_block_height := last_valid |}.

(** ** Checking the prepared transaction *)
Definition mismatch (detail : string) : TransferBatchError := TransactionMismatch detail.

Definition instruction_at (m : MessageView) (index : nat) : bres CompiledInstruction :=
  ok_or (view_instructions m !! index) (mismatch "prepared transaction is missing an expected instruction").
Definition account_at (m : MessageView) (index : Z) : bres Pubkey :=
  ok_or (account_keys m !! Z.to_nat index) (mismatch "instruction account index out of range").
Definition nth_account (m : MessageView) (ix : CompiledInstruction) (i : nat) : bres Pubkey :=
  account_at m (accounts ix !!! i).

Definition decode_compute_unit_price (m : MessageView) (ix : CompiledInstruction) : bres Z :=
  program ← account_at m (program_id_index ix);
  _ ← reject_if (bool_decide (program ≠ compute_budget_program_id)) (mismatch "expected a compute-unit-price instruction");
  _ ← reject_if (bool_decide (head (data ix) ≠ Some COMPUTE_UNIT_PRICE_DISCRIMINATOR) || negb (length (data ix) =? 9)%nat)
        (mismatch "malformed compute-unit-price instruction");
  Ok (data_int ix 1 8).
Definition decode_compute_unit_limit (m : MessageView) (ix : CompiledInstruction) : bres Z :=
  program ← account_at m (program_id_index ix);
  _ ← reject_if (bool_decide (program ≠ compute_budget_program_id)) (mismatch "expected a compute-unit-limit instruction");
  _ ← reject_if (bool_decide (head (data ix) ≠ Some COMPUTE_UNIT_LIMIT_DISCRIMINATOR) || negb (length (data ix) =? 5)%nat)
        (mismatch "malformed compute-unit-limit instruction");
  Ok (data_int ix 1 4).

Definition validate_ata_create (m : MessageView) (ix : CompiledInstruction)
    (fee_payer owner expected_ata mint token_program : Pubkey) : bres unit :=
  _ ← reject_if (bool_decide (data ix ≠ [ATA_CREATE_IDEMPOTENT_DISCRIMINATOR]))
        (mismatch "ATA-create instruction is not the idempotent variant");
  _ ← reject_if (negb (length (accounts ix) =? 6)%nat) (mismatch "malformed ATA-create instruction");
  payer ← nth_account m ix 0;
  ata ← nth_account m ix 1;
  owner_account ← nth_account m ix 2;
  mint_account ← nth_account m ix 3;
  system_program ← nth_account m ix 4;
  token_program_account ← nth_account m ix 5;
  _ ← reject_if (bool_decide (payer ≠ fee_payer)) (mismatch "ATA-create is not paid by the sponsor's fee payer");
  _ ← reject_if (bool_decide (ata ≠ expected_ata)) (mismatch "ATA-create targets an unexpected address");
  _ ← reject_if (bool_decide (owner_account ≠ owner)) (mismatch "ATA-create targets an owner outside the authorized chunk");
  _ ← reject_if (bool_decide (mint_account ≠ mint)) (mismatch "ATA-create references the wrong mint");
  _ ← reject_if (bool_decide (system_program ≠ system_program_id)) (mismatch "ATA-create references the wrong system program");
  reject_if (bool_decide (token_program_account ≠ token_program)) (mismatch "ATA-create references the wrong token program").

Definition validate_transfer_checked (m : MessageView) (ix : CompiledInstruction)
    (source_ata mint expected_destination authority : Pubkey) (amount_raw decimals : Z) : bres unit :=
  program ← account_at m (program_id_index ix);
  _ ← reject_if (bool_decide (program ≠ token_program_id) && bool_decide (program ≠ token_2022_program_id))
        (mismatch "expected a Token/Token-2022 transfer instruction");
  _ ← reject_if (negb (length (accounts ix) =? 4)%nat) (mismatch "malformed transfer_checked instruction");
  _ ← reject_if (negb (length (data ix) =? 10)%nat || negb ((data ix !!! 0%nat) =? TRANSFER_CHECKED_DISCRIMINATOR))
        (mismatch "expected a transfer_checked instruction");
  let amount := data_int ix 1 8 in
  let ix_decimals := data ix !!! 9%nat in
  source ← nth_account m ix 0;
  mint_account ← nth_account m ix 1;
  destination ← nth_account m ix 2;
  authority_account ← nth_account m ix 3;
  _ ← reject_if (bool_decide (source ≠ source_ata)) (mismatch "transfer source ATA does not match the authorized sender");
  _ ← reject_if (bool_decide (mint_account ≠ mint)) (mismatch "transfer references the wrong mint");
  _ ← reject_if (bool_decide (destination ≠ expected_destination))
        (mismatch "transfer destination does not match the authorized chunk");
  _ ← reject_if (bool_decide (authority_account ≠ authority))
        (mismatch "transfer authority does not match the authorized sender");
  _ ← reject_if (negb (amount =? amount_raw))
        (mismatch ("transfer amount " +:+ show amount +:+ " does not match the authorized amount " +:+ show amount_raw));
  reject_if (negb (ix_decimals =? decimals)) (mismatch "transfer decimals do not match the mint").

Definition validate_memo (m : MessageView) (ix : CompiledInstruction) (expected_memo : string) : bres unit :=
  program ← account_at m (program_id_index ix);
  _ ← reject_if (bool_decide (program ≠ memo_program_id)) (mismatch "expected a memo instruction");
  if is_utf8 (data ix) then
    if bool_decide (data ix = str_bytes expected_memo) then Ok tt
    else Err (mismatch ("memo `" +:+ string_of_bytes (data ix) +:+ "` does not match the authorized memo `" +:+
                        expected_memo +:+ "`"))
  else Err (mismatch "memo is not valid UTF-8").

Definition check_program (m : MessageView) (ix : CompiledInstruction) : bres unit :=
  program ← account_at m (program_id_index ix);
  reject_if (negb (bool_decide (program ∈ allowed_programs)))
    (mismatch ("instruction uses disallowed program " +:+ pubkey_text program)).

(** The loop body over the transfers: an account creation is optional, and
    checked when it is there. *)
Definition validate_transfer (rt : TransferBatchRuntime) (chunk : ValidatedChunk) (m : MessageView) (cursor : nat)
    (entry : ValidatedTransfer) : bres nat :=
  let coin := vc_coin chunk in
  let expected_dest_ata := associated_token_address (vt_recipient entry) (coin_mint coin) (coin_token_program coin) in
  cursor ← match view_instructions m !! cursor with
           | Some ix =>
               program ← account_at m (program_id_index ix);
               if bool_decide (program = associated_token_program_id) then
                 _ ← validate_ata_create m ix (fee_payer_pubkey rt) (vt_recipient entry) expected_dest_ata
                       (coin_mint coin) (coin_token_program coin);
                 Ok (S cursor)
               else Ok cursor
           | None => Ok cursor
           end;
  ix ← instruction_at m cursor;
  _ ← validate_transfer_checked m ix (associated_token_address (vc_sender chunk) (coin_mint coin) (coin_token_program coin))
        (coin_mint coin) expected_dest_ata (vc_sender chunk) (vt_amount_raw entry) (coin_decimals coin);
  Ok (S cursor).

Definition validate_prepared_transaction (chunk : ValidatedChunk) (rt : TransferBatchRuntime) (tx : VersionedTransaction) :
    bres unit :=
  let m := message_view (message tx) in
  actual_fee_payer ← ok_or (head (account_keys m)) (mismatch "prepared transaction has no accounts");
  _ ← reject_if (bool_decide (actual_fee_payer ≠ fee_payer_pubkey rt))
        (mismatch ("fee payer " +:+ pubkey_text actual_fee_payer +:+ " does not match the configured sponsor " +:+
                   pubkey_text (fee_payer_pubkey rt)));
  _ ← try_fold (λ _ ix, check_program m ix) tt (view_instructions m);
  price_ix ← instruction_at m 0;
  price ← decode_compute_unit_price m price_ix;
  _ ← reject_if (ceiling_unit_price (settings rt) <? price)
        (mismatch ("compute-unit price " +:+ show price +:+ " exceeds the sponsor's ceiling of " +:+
                   show (ceiling_unit_price (settings rt))));
  limit_ix ← instruction_at m 1;
  limit ← decode_compute_unit_limit m limit_ix;
  _ ← reject_if (ceiling_unit_limit (settings rt) <? limit)
        (mismatch ("compute-unit limit " +:+ show limit +:+ " exceeds the sponsor's ceiling of " +:+
                   show (ceiling_unit_limit (settings rt))));
  cursor ← try_fold (validate_transfer rt chunk m) 2%nat (vc_transfers chunk);
  memo_ix ← instruction_at m cursor;
  _ ← validate_memo m memo_ix (vc_memo chunk);
  let cursor := S cursor in
  reject_if (negb (cursor =? length (view_instructions m))%nat)
    (mismatch ("prepared transaction has " +:+ show (zlen (view_instructions m) - Z.of_nat cursor) +:+
               " unexpected trailing instruction(s)")).

(** ** Submitting *)

(** [Signature::default]. *)
Definition default_signature : list Z := replicate 64 0.
Context (signature_verifies : list Z → Pubkey → VersionedMessage → bool).

Definition verify_sender_signature (tx : VersionedTransaction) (sender : Pubkey) : bres unit :=
  index ← ok_or (fst <$> list_find (λ k, k = sender) (static_account_keys (message tx))) InvalidSenderSignature;
  signature ← ok_or (signatures tx !! index) InvalidSenderSignature;
  _ ← reject_if (bool_decide (signature = default_signature)) InvalidSenderSignature;
  reject_if (negb (signature_verifies signature sender (message tx))) InvalidSenderSignature.

(** Everything before the fee payer signs: the transaction given to its
    signer. *)
Definition submit_checks (rt : TransferBatchRuntime) (chunk : ValidatedChunk)
    (decode : string → result string VersionedTransaction) (check_envelope : VersionedTransaction → result string unit)
    (prepared_transaction_base64 : string) : bres VersionedTransaction :=
  tx ← map_err MalformedCredential (decode (trim prepared_transaction_base64));
  _ ← map_err MalformedCredential (check_envelope tx);
  _ ← validate_prepared_transaction chunk rt tx;
  _ ← verify_sender_signature tx (vc_sender chunk);
  _ ← reject_if (bool_decide (default default_signature (signatures tx !! 0%nat) ≠ default_signature))
        FeePayerSlotAlreadySigned;
  Ok tx.

(** [submit]: what the fee payer was asked to sign, and the response. *)
Definition submit (rt : TransferBatchRuntime) (chunk : ValidatedChunk)
    (decode : string → result string VersionedTransaction) (check_envelope : VersionedTransaction → result string unit)
    (cosign : VersionedTransaction → result string VersionedTransaction) (encode : VersionedTransaction → result string string)
    (send : string → result ApiError string) (confirm : string → result ApiError unit)
    (prepared_transaction_base64 : string) : option VersionedTransaction * bres TransferBatchResponse :=
  match submit_checks rt chunk decode check_envelope prepared_transaction_base64 with
  | Err e => (None, Err e)
  | Ok tx =>
      (Some tx,
       signed ← map_err SigningFailed (cosign tx);
       signed_b64 ← map_err SigningFailed (encode signed);
       signature ← map_err Rpc (send signed_b64);
       _ ← map_err Rpc (confirm signature);
       Ok {| rs_batch_id := vc_batch_id chunk; rs_chunk_index := vc_chunk_index chunk;
             row_ids := map vt_row_id (vc_transfers chunk); rs_signature := signature; status := Confirmed |})
  end.
End service.

(** ** The handler *)
Inductive Reply :=
  | Quoted (body : TransferBatchChallengeBody)
  | Settled (body : TransferBatchResponse).
Definition reply_status (r : bres Reply) : Z :=
  match r with Ok (Quoted _) => 402 | Ok (Settled _) => 200 | Err e => http_status e end.
Record PushState := {
  push_networks : TransferNetwork → option string;
  push_sponsor : Pubkey;
  push_settings : TransferBatchSettings
}.
(** [handler]; [header] is the authorization header, [Err] when it is not
    text, and [quoting] and [submitting] are [quote] and [submit] with what
    the world answers them. *)
Definition handler (push : option PushState) (validated : bres ValidatedChunk) (header : option (result unit string))
    (quoting : TransferBatchRuntime → ValidatedChunk → bres TransferBatchChallengeBody)
    (submitting : TransferBatchRuntime → ValidatedChunk → string → option VersionedTransaction * bres TransferBatchResponse) :
    option VersionedTransaction * bres Reply :=
  let started : bres (TransferBatchRuntime * ValidatedChunk) :=
    push ← ok_or push (SponsorNotConfigured
      "set PAY_API_PUSH__ENABLED=true and configure push.fee_payer / push.networks");
    chunk ← validated;
    rt ← runtime_resolve chunk (push_networks push) (push_sponsor push) (push_settings push);
    Ok (rt, chunk) in
  match started with
  | Err e => (None, Err e)
  | Ok (rt, chunk) =>
      match header with
      | None => (None, body ← quoting rt chunk; Ok (Quoted body))
      | Some (Err _) => (None, Err (MalformedCredential "Authorization header is not valid UTF-8"))
      | Some (Ok header) =>
          let credential := trim (default header (strip_prefix "Bearer " header)) in
          let '(signed, response) := submitting rt chunk credential in
          (signed, body ← response; Ok (Settled body))
      end
  end.

(** ** The client's validator and the service's agree

    The permit of the command line client and this service check the same
    transactions with code of their own. *)
Definition planned_entry_of (t : ValidatedTransfer) (create : bool) : PlannedTransferEntry := {|
  entry_row_number := vt_row_id t; entry_recipient := vt_recipient t; entry_amount_raw := vt_amount_raw t;
  entry_ata_creation_required := create |}.
Definition planned_chunk_of (rt : TransferBatchRuntime) (chunk : ValidatedChunk) (creates : list bool) : PlannedChunk := {|
  chunk_index := vc_chunk_index chunk; entries := zip_with planned_entry_of (vc_transfers chunk) creates;
  compute_unit_price_micro_lamports := ceiling_unit_price (settings rt);
  compute_unit_limit := ceiling_unit_limit (settings rt); memo := vc_memo chunk; serialized_len := 0 |}.
Definition permit_for `{Kit} (rt : TransferBatchRuntime) (chunk : ValidatedChunk) : BatchSigningPermit := {|
  permit_manifest_hash := []; account_pubkey := vc_sender chunk; permit_genesis_hash := [];
  permit_mint := coin_mint (vc_coin chunk); permit_token_program := coin_token_program (vc_coin chunk);
  permit_decimals := coin_decimals (vc_coin chunk);
  source_ata := associated_token_address (vc_sender chunk) (coin_mint (vc_coin chunk)) (coin_token_program (vc_coin chunk));
  fee_payer_mode := Gasless; permit_fee_payer := fee_payer_pubkey rt; permit_chunks := []; max_token_raw := 0;
  max_transactions := 0; expires_at := 0; signed_amount_raw := 0; signed_tx_count := 0; signed_chunks := ∅ |}.

Section agreement.
Context `{Kit} (pubkey_text : Pubkey → string).
Hypothesis program_ids_distinct : NoDup allowed_programs.

Lemma account_agrees m i k : same_ok (account_at m i) (PushPermit.account_at m i k).
Proof. apply same_ok_or. Qed.
Lemma nth_account_agrees m ix i k : same_ok (nth_account m ix i) (PushPermit.nth_account m ix i k).
Proof. apply same_ok_or. Qed.
Lemma instruction_agrees m i k : same_ok (instruction_at m i) (PushPermit.instruction_at m i k).
Proof. apply same_ok_or. Qed.
#[local] Hint Resolve account_agrees nth_account_agrees instruction_agrees : same_ok.

Lemma price_agrees m ix k : same_ok (decode_compute_unit_price m ix) (PushPermit.decode_compute_unit_price m ix k).
Proof. unfold decode_compute_unit_price, PushPermit.decode_compute_unit_price. same_steps. Qed.
Lemma limit_agrees m ix k : same_ok (decode_compute_unit_limit m ix) (PushPermit.decode_compute_unit_limit m ix k).
Proof. unfold decode_compute_unit_limit, PushPermit.decode_compute_unit_limit. same_steps. Qed.
Lemma transfer_agrees m ix source mint dest authority amount decimals k :
  same_ok (validate_transfer_checked m ix source mint dest authority amount decimals)
          (PushPermit.validate_transfer_checked m ix source mint dest authority amount decimals k).
Proof. unfold validate_transfer_checked, PushPermit.validate_transfer_checked. same_steps. Qed.
Lemma memo_agrees m ix text k : same_ok (validate_memo m ix text) (PushPermit.validate_memo m ix text k).
Proof.
  unfold validate_memo, PushPermit.validate_memo. same_steps.
  destruct (is_utf8 (data ix)), (bool_decide (data ix = str_bytes text)); eauto with same_ok.
Qed.
Lemma program_agrees m ix k : same_ok (check_program pubkey_text m ix) (PushPermit.check_program pubkey_text m k ix).
Proof. unfold check_program, PushPermit.check_program. same_steps. Qed.
Lemma ata_create_agrees m ix payer owner ata mint program k :
  account_at m (program_id_index ix) = Ok associated_token_program_id →
  same_ok (validate_ata_create m ix payer owner ata mint program)
          (PushPermit.validate_ata_create m ix payer owner ata mint program k).
Proof.
  intros Hp. unfold validate_ata_create, PushPermit.validate_ata_create.
  rewrite (proj1 (account_agrees _ _ k _) Hp), bind_ok_simpl.
  rewrite (bool_decide_eq_false_2 (associated_token_program_id ≠ associated_token_program_id)) by naive_solver.
  cbn [reject_if]. rewrite bind_ok_simpl. same_steps.
Qed.

(** An account creation is not a transfer and a transfer not a creation. *)
Lemma transfer_program m ix source mint dest authority amount decimals u :
  validate_transfer_checked m ix source mint dest authority amount decimals = Ok u →
  ∃ program, account_at m (program_id_index ix) = Ok program ∧ program ≠ associated_token_program_id.
Proof.
  unfold validate_transfer_checked. intros (program & Hp & Hv)%bind_Ok. exists program. split; [done|].
  apply bind_Ok in Hv as ([] & Hprog & _). apply reject_if_Ok, andb_false_iff in Hprog.
  pose proof (ids_differ program_ids_distinct) as (_ & _ & _ & _ & ? & ? & _).
  destruct Hprog as [Hprog|Hprog]; apply bool_decide_eq_false, dec_stable in Hprog; congruence.
Qed.

Lemma ata_program m ix payer owner ata mint program k u :
  PushPermit.validate_ata_create m ix payer owner ata mint program k = Ok u →
  account_at m (program_id_index ix) = Ok associated_token_program_id.
Proof.
  unfold PushPermit.validate_ata_create. intros (pid & Hp & Hv)%bind_Ok.
  apply bind_Ok in Hv as ([] & Hprog & _). apply reject_if_Ok, bool_decide_eq_false, dec_stable in Hprog.
  subst pid. by apply (account_agrees m (program_id_index ix) k).
Qed.

Lemma entry_agrees rt chunk m k cursor t cursor' :
  validate_transfer rt chunk m cursor t = Ok cursor' ↔
  ∃ create, PushPermit.validate_entry (permit_for rt chunk) m k cursor (planned_entry_of t create) = Ok cursor'.
Proof.
  unfold validate_transfer, PushPermit.validate_entry.
  cbn [entry_ata_creation_required planned_entry_of permit_for entry_recipient permit_mint permit_token_program
       permit_fee_payer account_pubkey entry_amount_raw permit_decimals source_ata].
  change (derive_associated_token_address ?a ?b ?c) with (associated_token_address a b c).
  match goal with |- (_ ≫= ?t) = _ ↔ _ => set (tail := t) end.
  match goal with |- _ ↔ ∃ create, (_ ≫= ?t) = _ => set (tail' := t) end.
  assert (∀ c, same_ok (tail c) (tail' c)) as Htail.
  { intros c. unfold tail, tail'. apply same_ok_bind; [apply instruction_agrees|intros ix].
    apply same_ok_bind; [apply transfer_agrees|intros _; apply same_ok_Ok]. }
  split.
  - intros (c & Hc & Hv%Htail)%bind_Ok. destruct (view_instructions m !! cursor) as [ix|] eqn:Hix;
      [|injection Hc as <-; by exists false].
    apply bind_Ok in Hc as (program & Hp & Hc). destruct (bool_decide _) eqn:E; [|injection Hc as <-; by exists false].
    apply bool_decide_eq_true in E as ->. exists true. apply bind_Ok in Hc as ([] & Ha & [= <-]).
    apply (ata_create_agrees m ix _ _ _ _ _ k Hp) in Ha. unfold PushPermit.instruction_at.
    rewrite Hix. cbn [ok_or mbind result_bind]. by rewrite Ha.
  - intros ([] & (c & Hc & Hv%Htail)%bind_Ok).
    + apply bind_Ok in Hc as (ix & Hix & Hc). apply bind_Ok in Hc as ([] & Ha & [= <-]). apply ok_or_Ok in Hix.
      rewrite Hix. pose proof (ata_program _ _ _ _ _ _ _ _ _ Ha) as Hp. rewrite Hp. cbn [mbind result_bind].
      rewrite bool_decide_eq_true_2 by done. apply (ata_create_agrees m ix _ _ _ _ _ k Hp) in Ha. by rewrite Ha.
    + injection Hc as <-. assert (Hv' := Hv). unfold tail in Hv'. apply bind_Ok in Hv' as (ix & Hix & Hv').
      apply bind_Ok in Hv' as ([] & (program & Hp & Hne)%transfer_program & _). apply ok_or_Ok in Hix.
      rewrite Hix, Hp. cbn [mbind result_bind]. by rewrite bool_decide_eq_false_2.
Qed.

Lemma entries_agree rt chunk m k ts : ∀ cursor cursor',
  try_fold (validate_transfer rt chunk m) cursor ts = Ok cursor' ↔
  ∃ creates, length creates = length ts ∧
    try_fold (PushPermit.validate_entry (permit_for rt chunk) m k) cursor (zip_with planned_entry_of ts creates) = Ok cursor'.
Proof.
  induction ts as [|t ts IH]; intros cursor cursor'.
  { split; [intros [= <-]; by exists []|]. intros ([|] & ? & [= <-]); done. }
  cbn [try_fold]. rewrite bind_Ok. split.
  - intros (c & (create & He)%(entry_agrees _ _ _ k) & (creates & Hl & Hes)%IH).
    exists (create :: creates). split; [by cbn; rewrite Hl|]. cbn [zip_with try_fold]. by rewrite He.
  - intros ([|create creates] & Hl & Hes); [done|]. cbn [zip_with try_fold] in Hes. apply bind_Ok in Hes as (c & He & Hes).
    exists c. split; [apply (entry_agrees _ _ _ k); by exists create|]. apply IH. exists creates. split; [|done].
    by injection Hl.
Qed.


Lemma validators_same rt chunk tx :
  validate_prepared_transaction pubkey_text chunk rt tx = Ok tt ↔
  ∃ creates, length creates = length (vc_transfers chunk) ∧
    PushPermit.validate_prepared_transaction pubkey_text (permit_for rt chunk) (planned_chunk_of rt chunk creates) tx = Ok tt.
Proof.
  unfold validate_prepared_transaction, PushPermit.validate_prepared_transaction.
  cbn [planned_chunk_of permit_for chunk_index entries memo permit_fee_payer compute_unit_price_micro_lamports compute_unit_limit].
  set (m := message_view (message tx)). set (k := vc_chunk_index chunk).
  apply bind_Ok_choice; [apply same_ok_or|intros payer]. apply bind_Ok_choice; [apply same_ok_reject|intros _].
  apply bind_Ok_choice; [apply same_ok_fold; intros; apply program_agrees|intros _].
  apply bind_Ok_choice; [apply instruction_agrees|intros price_ix]. apply bind_Ok_choice; [apply price_agrees|intros price].
  apply bind_Ok_choice; [apply same_ok_reject|intros _].
  apply bind_Ok_choice; [apply instruction_agrees|intros limit_ix]. apply bind_Ok_choice; [apply limit_agrees|intros limit].
  apply bind_Ok_choice; [apply same_ok_reject|intros _].
  match goal with |- (_ ≫= ?t) = _ ↔ ∃ x, _ ∧ (_ ≫= ?t') = _ => assert (∀ c, same_ok (t c) (t' c)) as Htail end.
  { intros c. apply same_ok_bind; [apply instruction_agrees|intros ix].
    apply same_ok_bind; [apply memo_agrees|intros _]. apply same_ok_reject. }
  rewrite bind_Ok. split.
  - intros (c & (creates & Hl & Hes)%(entries_agree _ _ _ k) & Hc%Htail). exists creates. split; [done|].
    apply bind_Ok. by exists c.
  - intros (creates & Hl & (c & Hes & Hc%Htail)%bind_Ok). exists c. split; [|done].
    apply (entries_agree _ _ _ k). by exists creates.
Qed.

End agreement.

(** ** What the sponsor signs *)

(** What a transfer of the request does, with or without its account. *)
Definition requested_effects `{Kit} (rt : TransferBatchRuntime) (chunk : ValidatedChunk) (t : ValidatedTransfer)
    (create : bool) : list Effect :=
  let mint := coin_mint (vc_coin chunk) in
  let program := coin_token_program (vc_coin chunk) in
  let ata := associated_token_address (vt_recipient t) mint program in
  (if create then [CreateAta (fee_payer_pubkey rt) ata (vt_recipient t) mint system_program_id program] else []) ++
  [Transfer (associated_token_address (vc_sender chunk) mint program) mint ata (vc_sender chunk)
     (vt_amount_raw t) (coin_decimals (vc_coin chunk))].

Section sponsor.
Context `{Kit} (pubkey_text : Pubkey → string) (signature_verifies : list Z → Pubkey → VersionedMessage → bool).
Hypothesis program_ids_distinct : NoDup allowed_programs.

Lemma planned_effects rt chunk creates :
  concat (map (entry_effects (permit_for rt chunk)) (entries (planned_chunk_of rt chunk creates))) =
  concat (zip_with (requested_effects rt chunk) (vc_transfers chunk) creates).
Proof.
  cbn [planned_chunk_of entries]. f_equal. revert creates.
  induction (vc_transfers chunk) as [|t ts IH]; intros [|create creates]; try done. cbn [zip_with map]. by rewrite IH.
Qed.

Lemma verified_sender tx sender :
  verify_sender_signature signature_verifies tx sender = Ok tt →
  ∃ i signature, list_find (λ k, k = sender) (static_account_keys (message tx)) = Some (i, sender) ∧
    signatures tx !! i = Some signature ∧ signature ≠ default_signature ∧
    signature_verifies signature sender (message tx) = true.
Proof.
  unfold verify_sender_signature. intros Hv. inv_ok. prop_bools.
  match goal with H : fst <$> _ = Some ?i |- _ => destruct (list_find _ _) as [[i' k]|] eqn:E; [|done]; injection H as -> end.
  assert (Hk := E). apply list_find_Some in Hk as (_ & -> & _). by do 2 eexists.
Qed.

(** C12. The sponsor's key signs nothing but the request: a transaction handed
    to its signer is signed by the sender, who is not the sponsor, is not yet
    signed by the sponsor, stays within the compute ceilings, and, read by the
    programs' own formats, creates at most the requested recipients' accounts
    at the sponsor's expense and moves exactly the requested amounts out of
    the sender's own account. *)
Theorem sponsor_signs_only_the_request rt chunk decode check_envelope cosign encode send confirm credential tx r :
  submit pubkey_text signature_verifies rt chunk decode check_envelope cosign encode send confirm credential = (Some tx, r) →
  head (static_account_keys (message tx)) = Some (fee_payer_pubkey rt) ∧ vc_sender chunk ≠ fee_payer_pubkey rt ∧
  default default_signature (signatures tx !! 0%nat) = default_signature ∧
  (∃ i signature, static_account_keys (message tx) !! i = Some (vc_sender chunk) ∧
     signatures tx !! i = Some signature ∧ signature_verifies signature (vc_sender chunk) (message tx) = true) ∧
  ∃ price limit creates, price ≤ ceiling_unit_price (settings rt) ∧ limit ≤ ceiling_unit_limit (settings rt) ∧
    length creates = length (vc_transfers chunk) ∧
    decode_effects (message tx) =
    Some (SetPrice price :: SetLimit limit :: concat (zip_with (requested_effects rt chunk) (vc_transfers chunk) creates) ++
          [Memo (str_bytes (vc_memo chunk))]).
Proof.
  unfold submit. destruct (submit_checks _ _ _ _ _ _ _) as [tx'|e] eqn:Hs; [|done]. intros [= -> _].
  unfold submit_checks in Hs. apply bind_Ok in Hs as (tx' & _ & Hs). apply bind_Ok in Hs as (? & _ & Hs).
  apply bind_Ok in Hs as ([] & Hv & Hs). apply bind_Ok in Hs as ([] & Hsig & Hs).
  apply bind_Ok in Hs as ([] & Hslot & [= ->]). apply reject_if_Ok, bool_decide_eq_false, dec_stable in Hslot.
  apply (validators_same _ program_ids_distinct) in Hv as (creates & Hl & Hv).
  apply (validated_transaction _ program_ids_distinct) in Hv as (Hhead & price & limit & Hp & Hlim & Heff).
  cbn [permit_for permit_fee_payer planned_chunk_of compute_unit_price_micro_lamports compute_unit_limit memo] in *.
  apply verified_sender in Hsig as (i & sig & Hfind & Hsig & Hne & Hver).
  split_and!; try done.
  - intros Heq. apply list_find_Some in Hfind as (Hi & _ & Hfirst). rewrite <-Heq in Hhead.
    destruct (static_account_keys (message tx)) as [|k keys]; [done|]. injection Hhead as ->.
    destruct i as [|i]; [|by apply (Hfirst 0%nat (vc_sender chunk)); [done|lia|done]].
    rewrite Hsig in Hslot. done.
  - apply list_find_Some in Hfind as (Hi & _ & _). by do 2 eexists.
  - exists price, limit, creates. split_and!; try done. rewrite Heff. by rewrite planned_effects.
Qed.
End sponsor.
