(* ===== verification/Sponsorship.v ===== *)
(** * Sponsorship: the payout client and the hosted service together

    The request the client sends for a chunk ([request_body] of
    [core/src/client/push/executor.rs]) read and checked by the service
    ([pay-api-core/src/transfer_batch.rs]), for every chunk the planner packs,
    and a concrete sponsor for the statements about the service. *)
From S2P Require Import Prelude F64 Text Affixes Landing PushManifest PushPlanner PushPermit PushExecutor TransferBatch.
#[local] Open Scope string_scope.
#[local] Open Scope list_scope.
#[local] Open Scope Z_scope.

(** *** Hexadecimal hashes *)
Lemma string_of_str_bytes s : string_of_bytes (str_bytes s) = s.
Proof. induction s as [|a s IH]; [done|]. cbn. rewrite <-IH at 2. f_equal. unfold byte_of. by rewrite N2Z.id, Ascii.ascii_N_embedding. Qed.

Lemma lowercase_hex s : Forall is_hex (str_bytes s) → to_ascii_lowercase s = s ∧ existsb is_ascii_uppercase (str_bytes s) = false.
Proof.
  intros Hs. assert (Forall (λ b, is_ascii_uppercase b = false) (str_bytes s)) as Hu.
  { eapply Forall_impl; [exact Hs|]. cbn. intros b Hb. unfold is_ascii_uppercase, is_hex in *. lia. }
  clear Hs. split.
  - unfold to_ascii_lowercase. rewrite <-(string_of_str_bytes s) at 2. f_equal.
    induction Hu as [|b l Hb _ IH]; [done|]. simpl. rewrite Hb. by f_equal.
  - induction Hu as [|b l Hb _ IH]; [done|]. cbn [existsb]. by rewrite Hb.
Qed.

Lemma ascii_utf8 l : Forall (λ b, 0 ≤ b ≤ 127) l → is_utf8 l = true.
Proof. induction 1 as [|b l Hb _ IH]; [done|]. cbn [is_utf8]. by rewrite (proj2 (Z.leb_le b 127)) by lia. Qed.

(** *** The client's chunk as a request *)
Section end_to_end.
Context `{KitLaws} (pubkey_text : Pubkey → string) (pubkey_from_str : string → result string Pubkey).
Context (hash_from_hex : string → result string (list Z)) (parse_units : string → Z → result string string).

Definition entry_of (decimals : Z) (e : PlannedTransferEntry) : TransferBatchEntry := {|
  row_id := entry_row_number e; recipient := pubkey_text (entry_recipient e);
  amount := format_token_amount (entry_amount_raw e) decimals |}.
Definition transfer_of (e : PlannedTransferEntry) : ValidatedTransfer := {|
  vt_row_id := entry_row_number e; vt_recipient := entry_recipient e; vt_amount_raw := entry_amount_raw e |}.

(** What PayKit and the base58 decoder read back from the texts of an entry. *)
Definition entry_readable (decimals : Z) (e : PlannedTransferEntry) : Prop :=
  pubkey_from_str (trim (pubkey_text (entry_recipient e))) = Ok (entry_recipient e) ∧
  parse_units (trim (format_token_amount (entry_amount_raw e) decimals)) decimals = Ok (show (entry_amount_raw e)).
Definition entry_sound (e : PlannedTransferEntry) : Prop := is_u64 (entry_row_number e) ∧ is_u64 (entry_amount_raw e) ∧ 0 < entry_amount_raw e.

Lemma parse_entry_fields n r a :
  parse_entry (JObj [("rowId", JNum n); ("recipient", JStr r); ("amount", JStr a)]) =
  (row ← try_from 64 n; Some {| row_id := row; recipient := r; amount := a |}).
Proof. reflexivity. Qed.

Lemma parse_request_fields b k s c n ts :
  parse_request (JObj [("batchId", JStr b); ("chunkIndex", JNum k); ("sender", JStr s); ("currency", JStr c);
                       ("network", JStr n); ("transfers", JArr ts)]) =
  (k ← try_from 32 k;
   n ← match network_from_str n with Ok n => Some n | Err _ => None end;
   ts ← mapM parse_entry ts;
   Some {| rq_batch_id := b; rq_chunk_index := k; rq_sender := s; rq_currency := c; rq_network := n; rq_transfers := ts |}).
Proof. reflexivity. Qed.

Lemma parse_entries decimals es :
  Forall entry_sound es →
  mapM parse_entry (map (λ e, JObj [("rowId", JNum (entry_row_number e)); ("recipient", JStr (pubkey_text (entry_recipient e)));
    ("amount", JStr (format_token_amount (entry_amount_raw e) decimals))]) es) = Some (map (entry_of decimals) es).
Proof.
  induction 1 as [|e es (Hrow & _) _ IH]; [done|]. cbn [map].
  apply mapM_Some. constructor; [|by apply mapM_Some].
  rewrite parse_entry_fields, try_from_in by done. reflexivity.
Qed.

Lemma validate_entries coin es : ∀ index seen,
  Forall (entry_readable (coin_decimals coin)) es → Forall entry_sound es →
  NoDup (map entry_row_number es) → (∀ e, e ∈ es → entry_row_number e ∉ seen) →
  validate_transfers pubkey_from_str parse_units coin index seen (map (entry_of (coin_decimals coin)) es) = Ok (map transfer_of es).
Proof.
  induction es as [|e es IH]; intros index seen Hread Hsound Hnd Hseen; [done|].
  apply Forall_cons in Hread as [[Hk Ha] Hread]. apply Forall_cons in Hsound as [(_ & Hu & Hpos) Hsound].
  apply NoDup_cons in Hnd as [Hni Hnd]. cbn [map validate_transfers entry_of row_id recipient amount].
  destruct (list_find _ seen) as [[i r]|] eqn:Hf.
  { apply list_find_Some in Hf as (Hi & -> & _). exfalso. apply (Hseen e); [by left|]. by apply list_elem_of_lookup_2 in Hi. }
  cbn [mbind result_bind]. rewrite Hk. cbn [map_err mbind result_bind]. unfold parse_positive_base_units.
  rewrite Ha, u64_show_roundtrip by done. rewrite (proj2 (Z.eqb_neq _ 0)) by lia. cbn [ok_or mbind result_bind].
  rewrite IH; [done|done|done|done|]. intros e' He'. rewrite not_elem_of_app. split; [by apply Hseen; right|].
  intros Heq%list_elem_of_singleton. apply Hni. rewrite <-Heq. apply list_elem_of_fmap. by exists e'.
Qed.

(** The request the client sends for a chunk, as the service reads it. *)
Lemma chunk_request_accepted {R} (g : GaslessApiBroadcaster (R := R)) chunk h coin coins network :
  PushExecutor.batch_id g = hash_hex h → Forall is_u8 h → length h = 32%nat → is_ok (hash_from_hex (hash_hex h)) = true →
  pubkey_from_str (trim (pubkey_text (gasless_sender g))) = Ok (gasless_sender g) →
  network_from_str (gasless_network g) = Ok network → gasless_decimals g = coin_decimals coin →
  find_coin pubkey_text (trim (gasless_currency g)) coins = Some coin →
  is_u32 (chunk_index chunk) → entries chunk ≠ [] → zlen (entries chunk) ≤ MAX_TRANSFER_BATCH_TRANSFERS →
  NoDup (map entry_row_number (entries chunk)) →
  Forall (entry_readable (coin_decimals coin)) (entries chunk) → Forall entry_sound (entries chunk) →
  ∃ request, parse_request (request_body pubkey_text g chunk) = Some request ∧
    validate_request pubkey_from_str pubkey_text hash_from_hex parse_units request coins =
    Ok {| vc_batch_id := hash_hex h; vc_chunk_index := chunk_index chunk; vc_sender := gasless_sender g; vc_network := network;
          vc_coin := coin; vc_transfers := map transfer_of (entries chunk);
          vc_memo := "pay-push:v1:" +:+ manifest_hash_prefix (hash_hex h) +:+ ":" +:+ show (chunk_index chunk) |}.
Proof.
  intros Hid Hu8 Hlen Hhex Hsender Hnet Hdec Hcoin Hk Hne Hmax Hnd Hread Hsound.
  destruct (hash_hex_bytes h Hu8) as [Hb Hl]. destruct (lowercase_hex _ Hb) as [Hlow Hup].
  unfold request_body. rewrite parse_request_fields, try_from_in, Hnet, Hdec, parse_entries by done.
  cbn [mbind option_bind]. eexists. split; [reflexivity|]. unfold validate_request.
  cbn [rq_batch_id rq_chunk_index rq_sender rq_currency rq_network rq_transfers].
  assert (zlen (str_bytes (hash_hex h)) = 64) as Hz by (unfold zlen; by rewrite Hl, Hlen).
  rewrite Hid, Hup, Hhex, Hz. change (negb (64 =? BATCH_ID_HEX_LEN)) with false. cbn [reject_if orb negb mbind result_bind].
  rewrite Hsender. cbn [map_err mbind result_bind]. rewrite Hcoin. cbn [ok_or mbind result_bind].
  assert (1 ≤ zlen (entries chunk)) by (destruct (entries chunk); [done|unfold zlen; cbn [length]; lia]).
  unfold zlen in *. rewrite length_map. unfold MIN_TRANSFER_BATCH_TRANSFERS.
  rewrite (proj2 (Z.ltb_ge _ 1)), (proj2 (Z.ltb_ge MAX_TRANSFER_BATCH_TRANSFERS _)) by lia. cbn [reject_if orb mbind result_bind].
  rewrite (validate_entries coin (entries chunk)); [|done..|set_solver]. cbn [mbind result_bind]. rewrite Hlow.
  assert (manifest_hash_prefix (hash_hex h) = String.substring 0 MANIFEST_HASH_PREFIX_LEN (hash_hex h)) as ->; [|done].
  unfold manifest_hash_prefix. f_equal. rewrite Nat.min_r; [done|].
  assert (String.length (hash_hex h) = 64%nat) as ->; [|unfold MANIFEST_HASH_PREFIX_LEN; lia].
  rewrite <-length_str_bytes, Hl, Hlen. done.
Qed.

(** Higher ceilings accept what lower ones do. *)
Lemma validate_ceilings p chunk chunk' tx :
  chunk_index chunk' = chunk_index chunk → entries chunk' = entries chunk → memo chunk' = memo chunk →
  compute_unit_price_micro_lamports chunk ≤ compute_unit_price_micro_lamports chunk' →
  compute_unit_limit chunk ≤ compute_unit_limit chunk' →
  PushPermit.validate_prepared_transaction pubkey_text p chunk tx = Ok tt →
  PushPermit.validate_prepared_transaction pubkey_text p chunk' tx = Ok tt.
Proof.
  intros Hk Hes Hmemo Hp Hl. unfold PushPermit.validate_prepared_transaction. rewrite Hk, Hes, Hmemo. intros Hv.
  do 5 (apply bind_Ok in Hv as (? & Hok & Hv); rewrite Hok; clear Hok; rewrite bind_ok_simpl).
  apply bind_Ok in Hv as ([] & Hprice%reject_if_Ok%Z.ltb_ge & Hv). rewrite (proj2 (Z.ltb_ge _ _)) by lia.
  cbn [reject_if]. rewrite bind_ok_simpl.
  do 2 (apply bind_Ok in Hv as (? & Hok & Hv); rewrite Hok; clear Hok; rewrite bind_ok_simpl).
  apply bind_Ok in Hv as ([] & Hlimit%reject_if_Ok%Z.ltb_ge & Hv). rewrite (proj2 (Z.ltb_ge _ _)) by lia.
  cbn [reject_if]. by rewrite bind_ok_simpl.
Qed.

(** What packing says of one chunk. *)
Lemma packed_limit manifest ata sender payer price k seg prefix c :
  build_planned_chunk manifest ata Gasless sender payer price seg k prefix = Ok c →
  0 ≤ compute_unit_limit c ≤ estimate_compute_units (zlen (entries c)) (zlen (entries c)).
Proof.
  intros Hb. pose proof (build_planned_chunk_Ok _ _ _ _ _ _ _ _ _ _ Hb) as (_ & -> & _).
  unfold build_planned_chunk in Hb. inv_ok. cbn [compute_unit_limit]. unfold zlen in *. rewrite length_imap, length_map.
  match goal with |- context [List.filter ?f seg] => pose proof (List.filter_length_le f seg) end.
  unfold estimate_compute_units, COMPUTE_BUDGET_OVERHEAD_UNITS, MEMO_OVERHEAD_UNITS, TRANSFER_CHECKED_UNITS, ATA_CREATE_UNITS,
    PACKING_COMPUTE_UNIT_CEILING. lia.
Qed.

Record packed_ok (manifest : TransferManifest) (price : Z) (c : PlannedChunk) : Prop := {
  pc_index : is_u32 (chunk_index c);
  pc_some : entries c ≠ [];
  pc_cap : zlen (entries c) ≤ MAX_SPLITS;
  pc_rows : Forall (λ e, ∃ row, row ∈ manifest_rows manifest ∧ entry_row_number e = row_number row ∧
              entry_recipient e = row_recipient row ∧ entry_amount_raw e = row_amount_raw row) (entries c);
  pc_distinct : NoDup (map entry_row_number (entries c));
  pc_price : compute_unit_price_micro_lamports c = price;
  pc_limit : 0 ≤ compute_unit_limit c ≤ estimate_compute_units (zlen (entries c)) (zlen (entries c));
  pc_memo : memo c = "pay-push:v1:" +:+ manifest_hash_prefix (hash_hex (manifest_hash manifest)) +:+ ":" +:+ show (chunk_index c)
}.

Lemma packed_chunk_ok blake3 manifest ata sender payer price first plan c :
  manifest_wf blake3 manifest → pack_chunks_from manifest ata Gasless sender payer price first = Ok plan →
  c ∈ chunks plan → packed_ok manifest price c.
Proof.
  intros Hwf Hpack Hc. destruct (packed_chunks_preserve _ _ _ _ _ _ _ _ Hpack) as (Hes & Hrows & Hidx & Hu32 & Hcap).
  destruct (packed_rows_in_order _ _ _ _ _ _ _ _ Hpack) as (_ & _ & segs & _ & Hb & _).
  assert (Hc' := Hc). apply list_elem_of_lookup in Hc' as [i Hi].
  destruct (Forall2_lookup_r _ _ _ _ _ Hb Hi) as (seg & _ & _ & Hbc).
  pose proof (build_planned_chunk_Ok _ _ _ _ _ _ _ _ _ _ Hbc) as (_ & _ & Hprice & Hmemo & _).
  rewrite Forall_forall in Hcap. destruct (Hcap c Hc) as [Hne Hle].
  split; try done.
  - rewrite Forall_forall in Hu32. apply Hu32, list_elem_of_fmap. by exists c.
  - by apply Hle.
  - apply Forall_forall. intros e He.
    assert (e ∈ concat (map entries (chunks plan))) as Hin.
    { apply list_elem_of_split in Hc as (l1 & l2 & ->). rewrite map_app, concat_app. apply elem_of_app. right.
      cbn [map concat]. apply elem_of_app. by left. }
    rewrite Hes in Hin. apply elem_of_zip_with in Hin as (row & dest & -> & Hrow & _). by exists row.
  - pose proof (manifest_numbers _ _ Hwf) as Hnd. rewrite <-Hrows in Hnd.
    apply list_elem_of_split in Hc as (l1 & l2 & E). rewrite E, map_app, concat_app in Hnd.
    apply NoDup_app in Hnd as (_ & _ & Hnd). cbn [map concat] in Hnd. by apply NoDup_app in Hnd as (? & _).
  - exact (packed_limit _ _ _ _ _ _ _ _ _ Hbc).
Qed.

(** Everything the texts of a payout must read back as: its keys by the
    base58 decoder, its amounts by PayKit, its hash by BLAKE3's parser. *)
Record payout_readable (manifest : TransferManifest) (sender : Pubkey) : Prop := {
  rd_sender : pubkey_from_str (trim (pubkey_text sender)) = Ok sender;
  rd_recipients : Forall (λ row, pubkey_from_str (trim (pubkey_text (row_recipient row))) = Ok (row_recipient row))
                    (manifest_rows manifest);
  rd_amounts : let d := ctx_decimals (manifest_context manifest) in
    Forall (λ row, parse_units (trim (format_token_amount (row_amount_raw row) d)) d = Ok (show (row_amount_raw row)))
      (manifest_rows manifest);
  rd_hash : Forall is_u8 (manifest_hash manifest) ∧ length (manifest_hash manifest) = 32%nat ∧
    is_ok (hash_from_hex (hash_hex (manifest_hash manifest))) = true
}.

Lemma packed_entries_ok blake3 manifest sender price c :
  manifest_wf blake3 manifest → payout_readable manifest sender → packed_ok manifest price c →
  Forall (entry_readable (ctx_decimals (manifest_context manifest))) (entries c) ∧ Forall entry_sound (entries c).
Proof.
  intros Hwf [_ Hk Ha _] Hp. rewrite Forall_forall in Hk, Ha. rewrite <-Forall_and. eapply Forall_impl; [exact (pc_rows _ _ _ Hp)|].
  cbn. intros e (row & Hrow & Hn & Hr & Hamt). unfold entry_readable, entry_sound. rewrite Hn, Hr, Hamt.
  pose proof (wf_amounts _ _ Hwf) as Hpos. rewrite Forall_forall in Hpos.
  assert (row_number row ∈ seqZ 2 (zlen (manifest_rows manifest))) as Hnum%elem_of_seqZ.
  { rewrite <-(wf_numbers _ _ Hwf). apply list_elem_of_fmap. by exists row. }
  pose proof (wf_bounded _ _ Hwf). unfold MAX_TRANSFER_ROWS in *.
  assert (is_u64 (row_amount_raw row)).
  { destruct (wf_total_u64 _ _ Hwf) as [_ Hmax]. rewrite (wf_total _ _ Hwf) in Hmax.
    assert (row_amount_raw row ≤ zsum (map row_amount_raw (manifest_rows manifest))) as Hle.
    { apply zsum_elem_le; [|apply list_elem_of_fmap; by exists row].
      apply Forall_fmap, Forall_forall. intros x Hx. cbn. pose proof (Hpos x Hx). lia. }
    pose proof (Hpos row Hrow). split; lia. }
  split_and!; [by apply Hk|by apply Ha|split; lia|done|by apply Hpos].
Qed.

Lemma planned_back es : zip_with planned_entry_of (map transfer_of es) (map entry_ata_creation_required es) = es.
Proof. induction es as [|[] es IH]; [done|]. cbn [map zip_with]. by rewrite IH. Qed.

Lemma memo_utf8 manifest price c :
  Forall is_u8 (manifest_hash manifest) → packed_ok manifest price c → is_utf8 (str_bytes (memo c)) = true.
Proof.
  intros [Hb _]%hash_hex_bytes Hp. rewrite (pc_memo _ _ _ Hp). destruct (pc_index _ _ _ Hp) as [Hk _].
  apply ascii_utf8. rewrite !str_bytes_app. repeat (apply Forall_app; split).
  - apply (bool_decide_unpack _). by vm_compute.
  - unfold manifest_hash_prefix. rewrite str_bytes_substring. apply Forall_take.
    eapply Forall_impl; [exact Hb|]. unfold is_hex. lia.
  - apply (bool_decide_unpack _). by vm_compute.
  - apply Forall_forall. intros b Hin%show_digits; lia.
Qed.

End end_to_end.

(** ** A concrete sponsor *)
Module SampleSponsor.
Import SampleKit.
Definition sponsor : Pubkey := key 99.
Definition hash : list Z := key 171.
Definition payout : TransferManifest := {|
  manifest_context := ctx; manifest_rows := rows; total_amount_raw := 15200; manifest_hash := hash |}.
Definition plan : TransactionPlan :=
  match pack_chunks_from payout ata Gasless sender sponsor 1000 0 with
  | Ok p => p
  | Err _ => {| plan_fee_payer_mode := Gasless; plan_fee_payer := []; chunks := [] |}
  end.
Definition chunk : PlannedChunk := Eval vm_compute in
  default {| chunk_index := 0; entries := []; compute_unit_price_micro_lamports := 0;
             compute_unit_limit := 0; memo := ""; serialized_len := 0 |} (chunks plan !! 1%nat).
Definition tx : VersionedTransaction := Eval vm_compute in
  match build_chunk_transaction chunk (key 8) (key 4) 6 sender sponsor (key 70) with
  | Ok tx => tx
  | Err _ => compile [] [] []
  end.

Definition from_text (s : string) : result string Pubkey :=
  match find (λ k, bool_decide (hash_hex k = s)) (sender :: map row_recipient rows) with Some k => Ok k | None => Err "unknown" end.
Definition from_hex (_ : string) : result string (list Z) := Ok hash.
Definition units (s : string) (decimals : Z) : result string string :=
  match parse_token_amount s decimals with Ok n => Ok (show n) | Err _ => Err "units" end.
Definition coin : Coin := {| coin_symbol := "USDC"; coin_mint := key 8; coin_token_program := key 4; coin_decimals := 6 |}.
Definition broadcaster : GaslessApiBroadcaster (R := unit) := {|
  gasless_http := tt; PushExecutor.batch_id := hash_hex hash; gasless_sender := sender; gasless_currency := "usdc";
  gasless_network := "mainnet"; gasless_decimals := 6; prepared_requests := ∅ |}.
(** The defaults of [pay-api/src/config.rs]. *)
Definition rt : TransferBatchRuntime := {|
  rt_rpc_url := "https://rpc"; fee_payer_pubkey := sponsor;
  settings := {| ceiling_unit_price := 10000; ceiling_unit_limit := 400000; estimated_fee_lamports := 10000;
                 ata_rent_lamports := 2039280; usd_per_sol := f64_of_Z 150; challenge_ttl := 120; confirm_timeout := 30 |} |}.
Definition request : ValidatedChunk := {|
  vc_batch_id := hash_hex hash; vc_chunk_index := 1; vc_sender := sender; vc_network := Mainnet; vc_coin := coin;
  vc_transfers := map transfer_of (entries chunk);
  vc_memo := "pay-push:v1:" +:+ manifest_hash_prefix (hash_hex hash) +:+ ":" +:+ show 1 |}.
(** The chunk as the sender signed it, and signatures that verify. *)
Definition signed : VersionedTransaction := {|
  message := message tx;
  signatures := map (λ k, if bool_decide (k = sender) then replicate 64 7 else default_signature)
                  (static_account_keys (message tx)) |}.
Definition verifies (signature : list Z) (_ : Pubkey) (_ : VersionedMessage) : bool := bool_decide (signature = replicate 64 7).

Lemma payout_wf : manifest_wf (λ _, hash) payout.
Proof.
  split; try (vm_compute; congruence).
  - apply (bool_decide_unpack _). vm_compute. exact I.
  - apply (bool_decide_unpack _). vm_compute. exact I.
  - vm_compute. intuition congruence.
Qed.

Lemma payout_reads : payout_readable hash_hex from_text from_hex units payout sender.
Proof. split; cbv zeta; apply (bool_decide_unpack _); vm_compute; exact I. Qed.

Lemma plan_packs : pack_chunks_from payout ata Gasless sender sponsor 1000 0 = Ok plan.
Proof. vm_compute. reflexivity. Qed.

Lemma chunk_planned : chunk ∈ chunks plan.
Proof. apply (list_elem_of_lookup_2 _ 1). vm_compute. reflexivity. Qed.
End SampleSponsor.


Lemma sponsor_signs_only_the_request_witness :
  vc_sender SampleSponsor.request ≠ fee_payer_pubkey SampleSponsor.rt.
Proof.
  eapply (sponsor_signs_only_the_request hash_hex SampleSponsor.verifies SamplePermit.programs_distinct SampleSponsor.rt
    SampleSponsor.request (λ _, Ok SampleSponsor.signed) (λ _, Ok tt) Ok (λ _, Ok "AQ==") Ok (λ _, Ok tt) "AQ=="
    SampleSponsor.signed).
  vm_compute. reflexivity.
Defined.

