(* ===== verification/UsageSettlement.v ===== *)
(** * UsageSettlement: what a served response costs

    The second half of [core/src/server/metering.rs]: the ceiling and the
    minimum of an [upto] authorization, the usage a provider reports in its
    headers, its JSON body or its event stream, the price of that usage and
    the base units that settle it; and the split rules of a fixed charge. *)
From S2P Require Import Prelude F64 MeteringTypes Text Affixes Decimals Accounting Pricing SessionMetering Landing.
#[local] Open Scope string_scope.
#[local] Open Scope list_scope.
#[local] Open Scope Z_scope.

(** ** Data *)
Record InferenceUsage := {
  iu_model : option string;
  iu_streamed : bool;
  iu_ttft_ms : option Z;
  tokens_prompt : option Z;
  tokens_completion : option Z;
  tokens_completion_estimated : bool;
  tokens_per_sec : option f64
}.
Record UptoSettlementPlan := {
  plan_metering : Metering;
  plan_variant_hint : option string;
  plan_request_properties : RequestProperties;
  ceiling_usd : f64;
  inferred_usage : option InferenceUsage
}.
Record UptoActualAmount := { actual_usd : f64; actual_base_units : Z }.

Inductive UptoUsageError :=
  | MissingUsage (msg : string)
  | InvalidUsage (msg : string)
  | InvalidJson (msg : string)
  | MissingUsagePolicyError.
Definition usage_error_text (e : UptoUsageError) : string :=
  match e with
  | MissingUsage msg => "missing usage: " +:+ msg
  | InvalidUsage msg => "invalid usage: " +:+ msg
  | InvalidJson msg => "invalid response JSON: " +:+ msg
  | MissingUsagePolicyError => "usage missing and missing_usage is set to error"
  end.

(** [format!("{:?}", ..)] of a direction and of a unit. *)
Definition direction_debug (d : MeterDirection) : string :=
  match d with Input => "Input" | Output => "Output" | Usage => "Usage" | Storage => "Storage" end.
Definition unit_debug (u : BillingUnit) : string :=
  match u with
  | Tokens => "Tokens" | Characters => "Characters" | Requests => "Requests" | Minutes => "Minutes" | Hours => "Hours"
  | Seconds => "Seconds" | Pages => "Pages" | Documents => "Documents" | Invocations => "Invocations" | Bytes => "Bytes"
  | Gibibytes => "Gibibytes" | Tebibytes => "Tebibytes" | Vcpu => "Vcpu" | QuotaUnits => "QuotaUnits" | Instances => "Instances"
  end.

(** ** Ceilings and minimums *)
Definition upto_max_usd (m : Metering) (resolved_price : option ResolvedPrice) : option f64 :=
  match m_upto m ≫= upto_max with
  | Some max_usd => Some max_usd
  | None =>
      if has_aggregate_dimensions m then None
      else
        match rp_dimensions <$> resolved_price with
        | Some [d] => Some (f64_div (rd_price_usd d) (f64_of_Z (Z.max (rd_scale d) 1)))
        | Some [] | None => Some (f64_dec 1 2)
        | Some _ => None
        end
  end.
Definition upto_min_usd (m : Metering) : option f64 :=
  match m_upto m ≫= upto_min with Some min_usd => Some min_usd | None => m_min_usd m end.
(** [MissingUsagePolicy::default] is [Refund]. *)
Definition upto_missing_usage_policy (m : Metering) : MissingUsagePolicy := default Refund (missing_usage <$> m_upto m).
Definition upto_preset (m : Metering) : option string := m_upto m ≫= usage_preset.

Definition upto_uses_response_usage (m : Metering) (variant_hint : option string) : bool :=
  bool_decide (is_Some (upto_preset m)) ||
  existsb (λ d, bool_decide (is_Some (dim_meter d)) || bool_decide (dim_unit d = QuotaUnits)) (effective_dimensions m variant_hint).

Definition preset_json_path (preset : option string) (d : MeterDimension) : option string :=
  preset ← preset;
  if eq_ignore_ascii_case preset "google-generativelanguage" then
    match dim_direction d, dim_unit d with
    | Input, Tokens => Some "/usageMetadata/promptTokenCount"
    | Output, Tokens => Some "/usageMetadata/candidatesTokenCount"
    | Usage, Tokens => Some "/usageMetadata/totalTokenCount"
    | _, _ => None
    end
  else if eq_ignore_ascii_case preset "openai-compatible" then
    match dim_direction d, dim_unit d with
    | Input, Tokens => Some "/usage/prompt_tokens"
    | Output, Tokens => Some "/usage/completion_tokens"
    | Usage, Tokens => Some "/usage/total_tokens"
    | _, _ => None
    end
  else if eq_ignore_ascii_case preset "openai-responses" then
    match dim_direction d, dim_unit d with
    | Input, Tokens => Some "/usage/input_tokens"
    | Output, Tokens => Some "/usage/output_tokens"
    | Usage, Tokens => Some "/usage/total_tokens"
    | _, _ => None
    end
  else None.
Definition dimension_reads_response_body (d : MeterDimension) (preset : option string) : bool :=
  match meter_source <$> dim_meter d with
  | Some ResponseHeader => false
  | Some ResponseJson => true
  | None =>
      match dim_unit d with Tokens | QuotaUnits => true | _ => bool_decide (is_Some (preset_json_path preset d)) end
  end.
Definition upto_requires_response_body (m : Metering) (variant_hint : option string) : bool :=
  existsb (λ d, dimension_reads_response_body d (upto_preset m)) (effective_dimensions m variant_hint).
Definition upto_body_max_bytes (m : Metering) : option Z := upto ← m_upto m; body ← response_body upto; body_max_bytes body.
Definition upto_response_body_limit (m : Metering) : Z :=
  default (1024 * 1024) (upto_body_max_bytes m).
Definition UPTO_BUFFERED_RESPONSE_LIMIT : Z := 16 * 1024 * 1024.
Definition upto_buffered_response_limit (m : Metering) (variant_hint : option string) : Z :=
  if upto_requires_response_body m variant_hint then upto_response_body_limit m
  else default UPTO_BUFFERED_RESPONSE_LIMIT (upto_body_max_bytes m).

(** A dimension with one unconditional price per request. *)
Definition flat_dimension (d : MeterDimension) : option f64 :=
  match dim_direction d, dim_unit d, dim_meter d, dim_period d, dim_tiers d with
  | Usage, Requests, None, None, [t] =>
      match condition t, up_to t with
      | None, None => Some (f64_div (price_usd t) (f64_of_Z (Z.max (dim_scale d) 1)))
      | _, _ => None
      end
  | _, _, _, _, _ => None
  end.
Fixpoint flat_total (usd : f64) (dims : list MeterDimension) : option f64 :=
  match dims with
  | [] => Some usd
  | d :: dims => price ← flat_dimension d; flat_total (f64_add usd price) dims
  end.
Definition flat_request_price (m : Metering) : option f64 :=
  match m_dimensions m, m_variants m with
  | [], _ | _, _ :: _ => None
  | dims, [] => usd ← flat_total f64_zero dims; Some (f64_max usd (default f64_zero (upto_min_usd m)))
  end.

(** ** Usage reported by a provider *)

(** [str::find] with a string: the text before the first occurrence. *)
Fixpoint before (needle s : string) : option string :=
  if starts_with needle s then Some EmptyString
  else match s with
       | EmptyString => None
       | String a s => String a <$> before needle s
       end.
(** [str::split_whitespace], Unicode white space in UTF-8. *)
Definition flush (word : string) (words : list string) : list string :=
  if bool_decide (word = "") then words else String.rev word :: words.
Fixpoint split_ws (word s : string) : list string :=
  match s with
  | EmptyString => flush word []
  | String a s1 =>
      if ws1 (byte_of a) then flush word (split_ws "" s1)
      else match s1 with
           | String b s2 =>
               if ws2 (byte_of a) (byte_of b) then flush word (split_ws "" s2)
               else match s2 with
                    | String c s3 =>
                        if ws3 (byte_of a) (byte_of b) (byte_of c) then flush word (split_ws "" s3) else split_ws (String a word) s1
                    | EmptyString => split_ws (String a word) s1
                    end
           | EmptyString => split_ws (String a word) s1
           end
  end.
Definition split_whitespace (s : string) : list string := split_ws "" s.
(** [str::replace] of a character by nothing. *)
Definition remove_char (c : Ascii.ascii) (s : string) : string :=
  string_of_bytes (filter (λ b, b ≠ byte_of c) (str_bytes s)).
Definition comma : Ascii.ascii := Ascii.ascii_of_nat 44.

Definition find_map {A B} (f : A → option B) (l : list A) : option B := head (omap f l).

Definition parse_tokens_per_quota_unit (notes : string) : option Z :=
  front ← before " tokens per quota unit" (to_ascii_lowercase notes);
  find_map (λ part, match u64_from_str (remove_char comma part) with
                    | Ok value => if 0 <? value then Some value else None
                    | Err _ => None
                    end) (reverse (split_whitespace front)).
Definition quota_tokens_per_unit (d : MeterDimension) (props : RequestProperties) : option Z :=
  tier ← select_price_tier d props; notes ← notes tier; parse_tokens_per_quota_unit notes.

Definition ceil_div_u64 (value divisor : Z) : Z := saturating_add 64 value (saturating_sub divisor 1) / Z.max divisor 1.

Definition is_count_unit (u : BillingUnit) : bool :=
  match u with Minutes | Hours | Seconds | Gibibytes | Tebibytes | Vcpu => false | _ => true end.

(** The observer's count for a token or quota-unit dimension. *)
Definition inferred_quantity_for_dim (usage : InferenceUsage) (d : MeterDimension) (props : RequestProperties) : option Z :=
  tokens ← match dim_direction d with
           | Input => tokens_prompt usage
           | Output => if tokens_completion_estimated usage then None else tokens_completion usage
           | _ => None
           end;
  match dim_unit d with
  | Tokens => Some tokens
  | QuotaUnits => (λ per_unit, ceil_div_u64 tokens per_unit) <$> quota_tokens_per_unit d props
  | _ => None
  end.

(** ** Event streams, [sse_json_documents] of [session_stream.rs] *)
Definition colon_char : Ascii.ascii := Ascii.ascii_of_nat 58.
Definition semicolon : Ascii.ascii := Ascii.ascii_of_nat 59.
Definition LF : Z := 10.
Definition CR : Z := 13.
(** A carriage return, with the newline after it if there is one, is a newline. *)
Fixpoint normalize (l : list Z) : list Z :=
  match l with
  | [] => []
  | a :: l1 =>
      if a =? CR then
        match l1 with
        | [] => [LF]
        | b :: l2 => if b =? LF then LF :: normalize l2 else LF :: normalize l1
        end
      else a :: normalize l1
  end.
(** [str::split] with an empty line: the blocks before each one, and the last. *)
Fixpoint take_blocks (block : list Z) (l : list Z) : list (list Z) * list Z :=
  match l with
  | [] => ([], block)
  | a :: l1 =>
      match l1 with
      | b :: l2 => if (a =? LF) && (b =? LF) then let '(bs, rest) := take_blocks [] l2 in (block :: bs, rest) else take_blocks (block ++ [a]) l1
      | [] => take_blocks (block ++ [a]) l1
      end
  end.
(** Empty lines and comments are skipped, so the final newline of
    [str::lines] makes no difference. *)
Definition sse_data (line : string) : option string :=
  if bool_decide (line = "") || starts_with ":" line then None
  else '(field, value) ← split_once colon_char line;
       if bool_decide (field = "data") then Some (default value (strip_prefix " " value)) else None.
Definition parse_sse_event (block : string) : option string :=
  match omap sse_data (split_on newline block) with [] => None | data => Some (String.concat (String newline "") data) end.

Section usage.
(** Of [serde_json]: the parser, [Value::pointer]; a header by its name with
    its text, or why it is not one; and the shortest decimal text of a number. *)
Context (parse_json : list Z → result string json) (pointer : json → string → option json).
Context (f64_text : f64 → string) (utf8_error_text : list Z → string).
Abbreviation HeaderMap := (string → option (result string string)).

(** [Value::as_u64]. *)
Definition as_u64 (v : json) : option Z := match v with JNum n => try_from 64 n | _ => None end.
Definition get_u64 (v : json) (key : string) : option Z := json_get v key ≫= as_u64.

(** [Iterator::max]. *)
Definition max_of (l : list Z) : option Z := match l with [] => None | x :: l => Some (foldl Z.max x l) end.
Definition usage_objects (doc : json) : list json :=
  omap id [json_get doc "usage"; pointer doc "/response/usage"; pointer doc "/message/usage"].
(** The count under the first of two names that is there. *)
Definition named_count (first second : string) (usage : json) : option Z :=
  v ← match json_get usage first with Some v => Some v | None => json_get usage second end; as_u64 v.
Definition google_output (doc : json) : option Z :=
  usage ← json_get doc "usageMetadata";
  input ← get_u64 usage "promptTokenCount";
  let candidates := default 0 (get_u64 usage "candidatesTokenCount") in
  let thoughts := default 0 (get_u64 usage "thoughtsTokenCount") in
  let tool_prompt := default 0 (get_u64 usage "toolUsePromptTokenCount") in
  let derived := default 0 ((λ total, saturating_sub (saturating_sub total input) tool_prompt) <$> get_u64 usage "totalTokenCount") in
  Some (Z.max (saturating_add 64 candidates thoughts) derived).
Definition provider_token_quantity (doc : json) (direction : MeterDirection) : option Z :=
  match direction with
  | Input =>
      match max_of (omap (named_count "prompt_tokens" "input_tokens") (usage_objects doc)) with
      | Some n => Some n
      | None => pointer doc "/usageMetadata/promptTokenCount" ≫= as_u64
      end
  | Output =>
      match max_of (omap (named_count "completion_tokens" "output_tokens") (usage_objects doc)) with
      | Some n => Some n
      | None => google_output doc
      end
  | _ => None
  end.

Definition parse_usage_quantity (value : string) : result UptoUsageError f64 :=
  let trimmed := trim value in
  match u64_from_str trimmed with
  | Ok v => Ok (f64_of_Z v)
  | Err _ =>
      v ← ok_or (f64_from_str trimmed)
            (InvalidUsage (if bool_decide (trimmed = "") then "cannot parse float from empty string" else "invalid float literal"));
      if f64_is_finite v && f64_geb v f64_zero then Ok v else Err (InvalidUsage "usage value is negative or non-finite")
  end.
(** [serde_json::Number]: an integer of 64 bits is exact, any other number a
    binary64. *)
Definition extract_from_json_pointer (doc : json) (path : string) : result UptoUsageError f64 :=
  value ← ok_or (pointer doc path) (MissingUsage ("json path `" +:+ path +:+ "`"));
  let negative := Err (InvalidUsage ("json path `" +:+ path +:+ "` is negative or non-finite")) in
  match value with
  | JNum n => match try_from 64 n with
              | Some v => Ok (f64_of_Z v)
              | None => let v := f64_of_Z n in if f64_is_finite v && f64_geb v f64_zero then Ok v else negative
              end
  | JFloat v => if f64_is_finite v && f64_geb v f64_zero then Ok v else negative
  | JStr s => parse_usage_quantity s
  | _ => Err (InvalidUsage ("json path `" +:+ path +:+ "` is not numeric"))
  end.
Definition body_unavailable : UptoUsageError := MissingUsage "response body unavailable".
Definition extract_from_meter (m : UsageMeter) (headers : HeaderMap) (doc : option json) : result UptoUsageError f64 :=
  match meter_source m with
  | ResponseJson =>
      doc ← ok_or doc body_unavailable;
      path ← ok_or (meter_path m) (MissingUsage "response_json meter missing path");
      extract_from_json_pointer doc path
  | ResponseHeader =>
      name ← ok_or (meter_header m) (MissingUsage "response_header meter missing header");
      value ← ok_or (headers name) (MissingUsage ("header `" +:+ name +:+ "`"));
      value ← map_err InvalidUsage value;
      parse_usage_quantity value
  end.

Definition is_responses (preset : option string) : bool :=
  match preset with Some preset => eq_ignore_ascii_case preset "openai-responses" | None => false end.
Definition header_meter (d : MeterDimension) : option UsageMeter :=
  m ← dim_meter d; match meter_source m with ResponseHeader => Some m | ResponseJson => None end.

Definition extract_raw_quantity (d : MeterDimension) (preset : option string) (props : RequestProperties) (headers : HeaderMap)
    (doc : option json) (inferred : option InferenceUsage) : result UptoUsageError f64 :=
  match inferred ≫= λ usage, inferred_quantity_for_dim usage d props with
  | Some quantity => Ok (f64_of_Z quantity)
  | None =>
      match header_meter d with
      | Some m => extract_from_meter m headers doc
      | None =>
          match (if is_responses preset then preset_json_path preset d else None) with
          | Some path => doc ← ok_or doc body_unavailable; extract_from_json_pointer doc path
          | None =>
              match dim_meter d with
              | Some m => extract_from_meter m headers doc
              | None =>
                  match dim_unit d, preset_json_path preset d with
                  | QuotaUnits, _ =>
                      doc ← ok_or doc body_unavailable;
                      tokens ← ok_or (provider_token_quantity doc (dim_direction d))
                        (MissingUsage ("no token usage for " +:+ direction_debug (dim_direction d) +:+ " quota units"));
                      per_unit ← ok_or (quota_tokens_per_unit d props)
                        (MissingUsage ("no tokens-per-quota-unit hint for " +:+ direction_debug (dim_direction d)));
                      Ok (f64_of_Z (ceil_div_u64 tokens per_unit))
                  | Tokens, _ =>
                      doc ← ok_or doc body_unavailable;
                      tokens ← ok_or (provider_token_quantity doc (dim_direction d))
                        (MissingUsage ("no token usage for " +:+ direction_debug (dim_direction d) +:+ " tokens"));
                      Ok (f64_of_Z tokens)
                  | _, Some path => doc ← ok_or doc body_unavailable; extract_from_json_pointer doc path
                  | unit, None =>
                      match dim_direction d, unit with
                      | Usage, Requests => Ok (f64_of_Z 1)
                      | direction, _ =>
                          Err (MissingUsage ("no usage meter for " +:+ direction_debug direction +:+ " " +:+ unit_debug unit))
                      end
                  end
              end
          end
      end
  end.

Definition extract_dimension_quantity (d : MeterDimension) (preset : option string) (props : RequestProperties) (headers : HeaderMap)
    (doc : option json) (inferred : option InferenceUsage) : result UptoUsageError f64 :=
  quantity ← extract_raw_quantity d preset props headers doc inferred;
  if is_count_unit (dim_unit d) && negb (SFeqb (f64_fract quantity) f64_zero) then
    Err (InvalidUsage ("fractional usage " +:+ f64_text quantity +:+ " for " +:+ direction_debug (dim_direction d) +:+ " " +:+
           unit_debug (dim_unit d)))
  else Ok quantity.

Definition sse_json_documents (body : list Z) : result string (list json) :=
  if is_utf8 body then
    let '(blocks, rest) := take_blocks [] (normalize body) in
    Ok (omap (λ data, match parse_json (str_bytes data) with Ok v => Some v | Err _ => None end)
         (omap (λ block, parse_sse_event (string_of_bytes block)) (blocks ++ [rest])))
  else Err (utf8_error_text body).

(** ** The price of the usage *)
Definition content_type_is (headers : HeaderMap) (mime : string) : bool :=
  match headers "content-type" with
  | Some (Ok value) =>
      match split_on semicolon value with
      | first :: _ => eq_ignore_ascii_case (trim first) mime
      | [] => false
      end
  | _ => false
  end.
Definition response_usage_documents (headers : HeaderMap) (body : list Z) : result UptoUsageError (list json) :=
  if content_type_is headers "text/event-stream" then map_err InvalidJson (sse_json_documents body)
  else (v ← map_err InvalidJson (parse_json body); Ok [v]).

(** [Option::or_else] over the documents, the last one first. *)
Definition with_context_length (props : RequestProperties) (inferred : option InferenceUsage) (docs : list json) : RequestProperties :=
  match context_length props with
  | Some _ => props
  | None => {|
      input_tokens := input_tokens props; input_characters := input_characters props;
      context_length := match inferred ≫= tokens_prompt with
                        | Some n => Some n
                        | None => find_map (λ doc, provider_token_quantity doc Input) (reverse docs)
                        end;
      body_size := body_size props; duration_seconds := duration_seconds props; batch_size := batch_size props;
      image_pixels := image_pixels props |}
  end.

(** The highest observation over the documents, else what needs no document. *)
Definition dimension_quantity (d : MeterDimension) (preset : option string) (props : RequestProperties) (headers : HeaderMap)
    (docs : list json) (inferred : option InferenceUsage) : result UptoUsageError f64 :=
  let extract doc := extract_dimension_quantity d preset props headers doc inferred in
  match max_by total_cmp (omap (λ doc, match extract (Some doc) with Ok q => Some q | Err _ => None end) docs) with
  | Some q => Ok q
  | None => extract None
  end.

Definition body_still_needed (m : Metering) (variant_hint : option string) (props : RequestProperties)
    (inferred : option InferenceUsage) : bool :=
  upto_requires_response_body m variant_hint &&
  existsb (λ d, negb (bool_decide (is_Some (inferred ≫= λ usage, inferred_quantity_for_dim usage d props))) &&
                dimension_reads_response_body d (upto_preset m)) (effective_dimensions m variant_hint).

Definition extract_and_price_usage (m : Metering) (variant_hint : option string) (props : RequestProperties) (headers : HeaderMap)
    (body : option (list Z)) (inferred : option InferenceUsage) : result UptoUsageError f64 :=
  let dimensions := effective_dimensions m variant_hint in
  match dimensions with
  | [] => Err (MissingUsage "no metering dimensions configured")
  | _ =>
      docs ← (if body_still_needed m variant_hint props inferred then
                body ← ok_or body body_unavailable; response_usage_documents headers body
              else Ok []);
      let priced_props := with_context_length props inferred docs in
      prices ← ok_or (resolve_price (S := InMemoryStore) m priced_props variant_hint None) (MissingUsage "no resolved price");
      try_fold (λ total '(idx, d),
          let price := default f64_zero (rd_price_usd <$> rp_dimensions prices !! idx) in
          quantity ← dimension_quantity d (upto_preset m) priced_props headers docs inferred;
          Ok (f64_add total (f64_mul (f64_div quantity (f64_of_Z (Z.max (dim_scale d) 1))) price)))
        f64_zero (imap pair dimensions)
  end.

(** [None] is the panic of [f64::clamp]. *)
Definition clamp_actual_usd (m : Metering) (actual_usd ceiling_usd : f64) : option f64 :=
  let with_min := match upto_min_usd m with
                  | Some min_usd => if f64_geb min_usd f64_zero then f64_max actual_usd min_usd else actual_usd
                  | None => actual_usd
                  end in
  f64_clamp with_min f64_zero ceiling_usd.
Definition usd_to_base_units (usd units_per_usd : f64) (max_amount : Z) : Z :=
  if f64_leb usd f64_zero || negb (f64_is_finite usd) then 0
  else Z.min (f64_as_u64 (f64_max (f64_round (f64_mul usd units_per_usd)) (f64_of_Z 1))) max_amount.

Definition upto_actual_amount_from_response (plan : UptoSettlementPlan) (max_amount : Z) (headers : HeaderMap)
    (body : option (list Z)) : option (result UptoUsageError UptoActualAmount) :=
  if f64_leb (ceiling_usd plan) f64_zero || (max_amount =? 0) then Some (Ok {| actual_usd := f64_zero; actual_base_units := 0 |})
  else
    let m := plan_metering plan in
    let variant_hint := match inferred_usage plan ≫= iu_model with Some model => Some model | None => plan_variant_hint plan end in
    usd ← match extract_and_price_usage m variant_hint (plan_request_properties plan) headers body (inferred_usage plan) with
          | Ok actual => Ok <$> clamp_actual_usd m actual (ceiling_usd plan)
          | Err _ =>
              Some (match upto_missing_usage_policy m with
                    | Refund => Ok f64_zero
                    | Min => Ok (f64_min (default f64_zero (upto_min_usd m)) (ceiling_usd plan))
                    | Ceiling => Ok (ceiling_usd plan)
                    | MissingError => Err MissingUsagePolicyError
                    end)
          end;
    let units_per_usd := f64_div (f64_of_Z max_amount) (ceiling_usd plan) in
    Some (usd ← usd; Ok {| actual_usd := usd; actual_base_units := usd_to_base_units usd units_per_usd max_amount |}).
End usage.

(** ** Split rules of a fixed charge *)
Definition resolve_split_rules (m : Metering) (props : RequestProperties) (variant_hint : option string) : list SplitRule :=
  default (m_splits m)
    (find (λ splits, negb (bool_decide (length splits = 0%nat)))
       (omap (λ d, tier_splits <$> select_tier d props Costliest)
             (fixed_charge_dimensions (S := InMemoryStore) m props variant_hint))).
Definition all_split_rules (m : Metering) : list SplitRule :=
  let tier_rules dims := flat_map (λ d, flat_map tier_splits (dim_tiers d)) dims in
  m_splits m ++ tier_rules (m_dimensions m) ++ flat_map (λ v, tier_rules (variant_dimensions v)) (m_variants m).

(** ** What is settled is authorized, and what is used is settled *)

Lemma f64_positive_above c : f64_leb c f64_zero = false → f64_is_nan c = false → SFleb f64_zero c = true.
Proof. by destruct c as [|[]| |[]]. Qed.

Lemma usd_to_base_units_range usd units max_amount : 0 ≤ max_amount → 0 ≤ usd_to_base_units usd units max_amount ≤ max_amount.
Proof.
  intros Hmax. unfold usd_to_base_units. destruct (_ || _); [lia|].
  set (x := f64_max _ _). destruct (f64_as_u64_range x) as [Hx _]. lia.
Qed.

Lemma usd_to_base_units_positive usd units max_amount :
  0 < max_amount → f64_leb usd f64_zero = false → f64_is_finite usd = true → 1 ≤ usd_to_base_units usd units max_amount.
Proof.
  intros Hmax Hpos Hfin. unfold usd_to_base_units. rewrite Hpos, Hfin. cbn [negb orb].
  pose proof (as_u64_round_max (f64_mul usd units)). lia.
Qed.

Section settlement.
Context (parse_json : list Z → result string json) (pointer : json → string → option json).
Context (f64_text : f64 → string) (utf8_error_text : list Z → string).
Abbreviation settle := (upto_actual_amount_from_response parse_json pointer f64_text utf8_error_text).

Lemma actual_amount_range plan max_amount headers body a :
  0 ≤ max_amount → settle plan max_amount headers body = Some (Ok a) →
  0 ≤ actual_base_units a ≤ max_amount ∧
  (f64_leb (actual_usd a) f64_zero = false → f64_is_finite (actual_usd a) = true → 1 ≤ actual_base_units a).
Proof.
  unfold upto_actual_amount_from_response. intros Hmax.
  destruct (_ || _) eqn:Hnone; [intros [= <-]; done|]. apply orb_false_iff in Hnone as [_ Hm%Z.eqb_neq].
  intros (r & _ & Hr)%bind_Some. injection Hr as Hr. apply bind_Ok in Hr as (usd & -> & [= <-]). cbn [actual_base_units actual_usd].
  split; [by apply usd_to_base_units_range|]. intros. apply usd_to_base_units_positive; [lia|done|done].
Qed.

(** C31. Whatever a response reports, at most the authorized amount settles,
    and a positive finite price settles at least one base unit: usage is never
    rounded down to nothing. *)
Theorem settlement_within_authorization plan max_amount headers body a :
  0 ≤ max_amount → settle plan max_amount headers body = Some (Ok a) →
  0 ≤ actual_base_units a ≤ max_amount ∧
  (f64_leb (actual_usd a) f64_zero = false → f64_is_finite (actual_usd a) = true → 1 ≤ actual_base_units a).
Proof. apply actual_amount_range. Qed.

(** Settling never panics under a ceiling that is a number, and is an
    error only where usage is missing and the operator asked for that: under
    [refund] a response without usage settles nothing. *)
Theorem settlement_is_total plan max_amount headers body :
  f64_is_nan (ceiling_usd plan) = false →
  ∃ r, settle plan max_amount headers body = Some r ∧
    (r = Err MissingUsagePolicyError ∧ upto_missing_usage_policy (plan_metering plan) = MissingError ∨ is_ok r = true).
Proof.
  intros Hnan. unfold upto_actual_amount_from_response. destruct (_ || _) eqn:Hnone; [eexists; split; [done|by right]|].
  apply orb_false_iff in Hnone as [Hpos _]. set (hint := match _ with Some _ => _ | None => _ end).
  destruct (extract_and_price_usage _ _ _ _ _ _ _ _ _ _) as [usd|e].
  - unfold clamp_actual_usd, f64_clamp. rewrite f64_positive_above by done. eexists. split; [done|]. by right.
  - destruct (upto_missing_usage_policy (plan_metering plan)) eqn:Hp; (eexists; split; [reflexivity|]); [by right..|by left].
Qed.

(** Over a stream of cumulative usage records the quantity priced is one
    that some record reports, and no record reports a higher one. *)
Theorem stream_quantity_is_highest d preset props headers docs inferred q :
  let extract doc := extract_dimension_quantity pointer f64_text d preset props headers (Some doc) inferred in
  dimension_quantity pointer f64_text d preset props headers docs inferred = Ok q →
  ((∃ doc, doc ∈ docs ∧ extract doc = Ok q) ∨ (∀ doc, doc ∈ docs → is_ok (extract doc) = false)) ∧
  (∀ doc q', doc ∈ docs → extract doc = Ok q' → total_key q' ≤ total_key q).
Proof.
  intros extract. unfold dimension_quantity. fold extract. set (quantities := omap _ docs).
  assert (∀ doc q', doc ∈ docs → extract doc = Ok q' → q' ∈ quantities) as Hin.
  { intros doc q' Hdoc Hq. apply list_elem_of_omap. exists doc. split; [done|]. unfold extract in Hq. by rewrite Hq. }
  destruct (max_by total_cmp quantities) as [q0|] eqn:Hmax.
  - intros [= ->]. apply (max_by_key_spec total_key) in Hmax as [Hq Hle]. rewrite Forall_forall in Hle. split.
    + left. apply list_elem_of_omap in Hq as (doc & Hdoc & Hq). exists doc. split; [done|]. 
      fold (extract doc) in Hq. destruct (extract doc); [by injection Hq as ->|done].
    + intros doc q' Hdoc Hq'. by apply Hle, (Hin doc).
  - apply (max_by_key_None total_key) in Hmax. rewrite Hmax in Hin.
    assert (∀ doc, doc ∈ docs → is_ok (extract doc) = false) as Hnone.
    { intros doc Hdoc. destruct (extract doc) as [q'|e] eqn:E; [|done]. by apply (Hin doc q' Hdoc), elem_of_nil in E. }
    intros _. split; [by right|]. intros doc q' Hdoc Hq'. specialize (Hnone doc Hdoc). by rewrite Hq' in Hnone.
Qed.
End settlement.

(** ** Split rules *)

Lemma select_tier_in d props u t : select_tier d props u = Some t → t ∈ dim_tiers d.
Proof.
  unfold select_tier, select_price_tier_from_tiers. destruct (has_volume_tiers (dim_tiers d)).
  - destruct (find _ (dim_tiers d)) as [t'|] eqn:Hf; [intros [= ->]; apply list_elem_of_In; by apply find_some in Hf as [? _]|].
    destruct (dim_tiers d); [done|]. intros [= ->]. by left.
  - destruct (existsb _ _); [intros Hm; by apply (max_by_key_spec (λ t, total_key (price_usd t))) in Hm as [? _]|].
    destruct (find _ (dim_tiers d)) as [t'|] eqn:Hf; [intros [= ->]; apply list_elem_of_In; by apply find_some in Hf as [? _]|].
    intros Hl. apply last_Some in Hl as [l ->]. set_solver.
Qed.

Lemma resolve_variant_in vs h v : resolve_variant vs (Some h) = Some v → v ∈ vs.
Proof.
  unfold resolve_variant. pose proof (resolve_variant_loop h vs) as [Hd Hb].
  destruct (foldl _ _ _) as [dflt [b|]]; cbn in *.
  - intros [= ->]. destruct Hb as (pre & post & -> & _). set_solver.
  - intros ->. by destruct Hd.
Qed.

Lemma costliest_candidate_in m props d : d ∈ costliest_candidate (S := InMemoryStore) m props → d ∈ all_dimensions m.
Proof.
  unfold costliest_candidate, all_dimensions. rewrite elem_of_app. destruct (max_by _ _) as [dims|] eqn:Hm; cbn; [|by left].
  apply (max_by_key_spec (λ c, total_key (costliest_usd (S := InMemoryStore) props c))) in Hm as [Hm _].
  unfold charge_candidates in Hm. apply elem_of_app in Hm as [(v & -> & Hv)%list_elem_of_fmap|Hm].
  - intros Hd. right. apply list_elem_of_In, in_flat_map. exists v. by rewrite <-!list_elem_of_In.
  - destruct (m_dimensions m) as [|d0 dims0]; [by apply elem_of_nil in Hm|]. apply list_elem_of_singleton in Hm as ->. by left.
Qed.

Lemma fixed_charge_dimensions_in m props hint d : d ∈ fixed_charge_dimensions (S := InMemoryStore) m props hint → d ∈ all_dimensions m.
Proof.
  assert (d ∈ m_dimensions m → d ∈ all_dimensions m) as Htop by (intros; apply elem_of_app; by left).
  unfold fixed_charge_dimensions. destruct (m_variants m) as [|v0 vs] eqn:Hvs; [done|]. rewrite <-Hvs.
  destruct hint as [h|]; [|apply costliest_candidate_in]. destruct (resolve_variant (m_variants m) (Some h)) as [v|] eqn:Hv.
  - intros Hd. apply resolve_variant_in in Hv. apply elem_of_app. right. apply list_elem_of_In, in_flat_map.
    exists v. by rewrite <-!list_elem_of_In.
  - destruct (m_dimensions m) eqn:E; [apply costliest_candidate_in|]. rewrite <-E in *. done.
Qed.

Lemma applied_rules_in m props hint rule : rule ∈ resolve_split_rules m props hint → rule ∈ all_split_rules m.
Proof.
  unfold resolve_split_rules, all_split_rules. rewrite !elem_of_app.
  destruct (find _ _) as [splits|] eqn:Hf; cbn; [|by left]. intros Hrule.
  apply find_some in Hf as [Hin%list_elem_of_In _]. apply list_elem_of_omap in Hin as (d & Hd & Ht).
  apply fmap_Some in Ht as (t & Ht%select_tier_in & ->). apply fixed_charge_dimensions_in, elem_of_app in Hd.
  assert (rule ∈ flat_map tier_splits (dim_tiers d)) as Hr by (apply list_elem_of_In, in_flat_map; exists t; by rewrite <-!list_elem_of_In).
  right. destruct Hd as [Hd|Hd]; [left|right].
  - apply list_elem_of_In, in_flat_map. exists d. by rewrite <-!list_elem_of_In.
  - apply list_elem_of_In, in_flat_map in Hd as (v & Hv & Hd). apply list_elem_of_In, in_flat_map. exists v. split; [done|].
    apply in_flat_map. exists d. split; [done|]. by apply list_elem_of_In.
Qed.

(** Every split rule a charge can apply, whatever the request, is one the
    launch checks have seen: no tier or variant brings in an unchecked payee. *)
Theorem applied_split_rules_were_checked m props hint rule :
  rule ∈ resolve_split_rules m props hint → rule ∈ all_split_rules m.
Proof. apply applied_rules_in. Qed.

(** A response priced per thousand tokens. *)
Module SampleUsage.
Definition flat_tier (price : f64) (splits : list SplitRule) : PriceTier :=
  {| up_to := None; price_usd := price; condition := None; notes := None; tier_splits := splits |}.
Definition token_dimension (direction : MeterDirection) (cents : Z) : MeterDimension := {|
  dim_direction := direction; dim_unit := Tokens; dim_scale := 1000; dim_period := None;
  dim_tiers := [flat_tier (f64_dec cents 2) []]; dim_meter := None |}.
Definition meter : Metering := {|
  m_dimensions := [token_dimension Input 1; token_dimension Output 2]; m_variants := []; m_sku_tiers := []; m_splits := [];
  m_schemes := Some [X402Upto]; m_min_usd := None;
  m_upto := Some {| upto_max := Some (f64_of_Z 1); upto_min := None; missing_usage := Refund; response_body := None; usage_preset := None |} |}.
Definition plan : UptoSettlementPlan := {|
  plan_metering := meter; plan_variant_hint := None; plan_request_properties := default_properties; ceiling_usd := f64_of_Z 1;
  inferred_usage := None |}.
Definition record (input output : Z) : json :=
  JObj [("usage", JObj [("prompt_tokens", JNum input); ("completion_tokens", JNum output)])].
(** The documents of the sample bodies. *)
Definition parse_json (body : list Z) : result string json :=
  match body with [97] => Ok (record 1000 10) | [98] => Ok (record 1000 500) | [99] => Ok (record 1000 400) | _ => Err "not JSON" end.
Definition pointer (_ : json) (_ : string) : option json := None.
Definition text (_ : f64) : string := "?".
Definition error_text (_ : list Z) : string := "not UTF-8".
Definition plain (_ : string) : option (result string string) := None.
Definition stream (name : string) : option (result string string) :=
  if bool_decide (name = "content-type") then Some (Ok "text/event-stream; charset=utf-8") else None.
Definition events : list Z := str_bytes ("data: a" +:+ String newline (String newline ("data: b" +:+ String newline (String newline "data:c")))).
Definition settle := upto_actual_amount_from_response parse_json pointer text error_text.

(** Two cents of a dollar for a thousand tokens in and five hundred out, with
    the middle event's count. *)
Example stream_settles : settle plan 1000000 stream (Some events) = Some (Ok {| actual_usd := f64_dec 2 2; actual_base_units := 20000 |}).
Proof. vm_compute. reflexivity. Qed.

Lemma settlement_within_authorization_witness :
  0 ≤ 20000 ≤ 1000000 ∧ (f64_leb (f64_dec 2 2) f64_zero = false → f64_is_finite (f64_dec 2 2) = true → 1 ≤ 20000).
Proof.
  apply (settlement_within_authorization parse_json pointer text error_text plan 1000000 stream (Some events)
    {| actual_usd := f64_dec 2 2; actual_base_units := 20000 |}); [lia|vm_compute; reflexivity].
Defined.

Lemma settlement_is_total_witness :
  ∃ r, settle plan 1000000 plain None = Some r ∧
    (r = Err MissingUsagePolicyError ∧ upto_missing_usage_policy meter = MissingError ∨ is_ok r = true).
Proof. apply (settlement_is_total parse_json pointer text error_text plan 1000000 plain None). vm_compute. reflexivity. Defined.

Lemma stream_quantity_is_highest_witness :
  let extract doc := extract_dimension_quantity pointer text (token_dimension Output 2) None default_properties stream (Some doc) None in
  ((∃ doc, doc ∈ [record 1000 10; record 1000 500; record 1000 400] ∧ extract doc = Ok (f64_of_Z 500)) ∨
   (∀ doc, doc ∈ [record 1000 10; record 1000 500; record 1000 400] → is_ok (extract doc) = false)) ∧
  (∀ doc q', doc ∈ [record 1000 10; record 1000 500; record 1000 400] → extract doc = Ok q' → total_key q' ≤ total_key (f64_of_Z 500)).
Proof.
  apply (stream_quantity_is_highest pointer text (token_dimension Output 2) None default_properties stream
    [record 1000 10; record 1000 500; record 1000 400] None (f64_of_Z 500)). vm_compute. reflexivity.
Defined.

Definition vendor_rule : SplitRule :=
  {| split_recipient := "vendor"; split_amount := None; split_percent := Some (f64_of_Z 10); split_memo := None |}.
Definition shared_meter : Metering := {|
  m_dimensions := [ {| dim_direction := Usage; dim_unit := Requests; dim_scale := 1; dim_period := None;
                       dim_tiers := [flat_tier (f64_dec 1 2) [vendor_rule]]; dim_meter := None |} ];
  m_variants := []; m_sku_tiers := []; m_splits := []; m_schemes := None; m_min_usd := None; m_upto := None |}.
Lemma applied_split_rules_were_checked_witness : vendor_rule ∈ all_split_rules shared_meter.
Proof. apply (applied_split_rules_were_checked shared_meter default_properties None). vm_compute. left. Defined.
End SampleUsage.
