(* ===== verification/UpstreamAuth.v ===== *)
(** * UpstreamAuth: how the gateway authenticates to an upstream

    The authentication part of a provider's configuration
    ([types/src/metering.rs], lines 327-745), the checks it goes through when
    it is loaded (lines 1809-2157), and the templates that are filled in at
    request time ([core/src/server/proxy.rs]).  A text is checked and rendered
    byte by byte: braces are single bytes in UTF-8. *)
From S2P Require Import Prelude Text Affixes.
#[local] Open Scope string_scope.
#[local] Open Scope list_scope.
#[local] Open Scope Z_scope.

(** ** Configuration *)
Inductive HttpMethod := Get | Post | Put | Patch | Delete.

Inductive HmacAlgorithm := HmacSha1 | HmacSha256 | HmacSha512.
Inductive HmacEncoding := Base64 | Hex.
Inductive HmacStringEncoding := NoEncoding | PercentRfc3986.
Inductive HmacTargetType := TargetHeader | TargetQueryParam.
#[global] Instance HmacTargetType_eq_dec : EqDecision HmacTargetType.
Proof. solve_decision. Defined.
Inductive HmacTimestampFormat := Rfc1123Gmt | Iso8601Zulu | UnixSeconds.
Inductive HmacQueryStyle := RawQuery | SortedPairs.
Inductive HmacDigestAlgorithm := Md5 | Sha256 | Sha512.

Record HmacTarget := { target_kind : HmacTargetType; target_name : string }.
Inductive HmacPrepareValue :=
  | PrepareLiteral (value : string)
  | PrepareEnv (from_env : string)
  | UpstreamHost
  | Timestamp (format : HmacTimestampFormat)
  | UuidV4
  | RandomHex (bytes : Z)
  | BodyDigest (algorithm : HmacDigestAlgorithm) (encoding : HmacEncoding).
Record HmacPrepareBinding := { binding_target : HmacTarget; binding_value : HmacPrepareValue }.

Inductive HmacCanonicalComponent :=
  | CanonicalMethod
  | CanonicalPath
  | CanonicalQuery (style : HmacQueryStyle) (encoding : HmacStringEncoding)
  | CanonicalHeader (name : string)
  | CanonicalHeaders (names : list string) (join_with format : string)
  | CanonicalLiteral (value : string).
Record HmacCanonicalConfig := { canonical_join_with : string; canonical_components : list HmacCanonicalComponent }.
Record HmacSignatureDestination := { dest_kind : HmacTargetType; dest_name : string; dest_template : string }.
Record HmacSignatureConfig := { signature_encoding : HmacEncoding; signature_destination : HmacSignatureDestination }.

(** [AccessTokenExpiryFormat] has one value, seconds of the Unix epoch. *)
Record AccessTokenResponseConfig := {
  token_json_pointer : string;
  expires_at_json_pointer : option string;
  expires_in_json_pointer : option string;
  refresh_skew_seconds : Z
}.
Record AccessTokenInjectConfig := { inject_target : HmacTarget; inject_template : string }.

Inductive AuthConfig :=
  | QueryParam (key value_from_env : string)
  | Header (key : string) (prefix : option string) (value_from_env : string)
  | Hmac (algorithm : HmacAlgorithm) (secret_from_env : string) (secret_suffix key_id_from_env : option string)
      (prepare : list HmacPrepareBinding) (canonical : HmacCanonicalConfig) (signature : HmacSignatureConfig)
  | AccessToken (prepare : list HmacPrepareBinding) (fetch : AccessTokenFetchConfig) (inject : AccessTokenInjectConfig)
  | Oauth2 (token_url : string) (scopes : list string) (audience client_id_from_env client_secret_from_env : option string)
      (headers : list (string * string))
with AccessTokenFetchConfig :=
  | FetchConfig (url : string) (method : HttpMethod) (prepare : list HmacPrepareBinding) (auth : option AuthConfig)
      (response : AccessTokenResponseConfig).

(** ** Templates *)

(** One pass over the text: [current] is the token being read. *)
Fixpoint template_tokens (s : string) (current : option string) (tokens : list string) : result string (list string) :=
  match s with
  | EmptyString => match current with Some _ => Err "contains unterminated `{...` token" | None => Ok tokens end
  | String c s =>
      match current with
      | None =>
          if Ascii.eqb c open_brace then template_tokens s (Some "") tokens
          else if Ascii.eqb c close_brace then Err "contains unmatched `}`"
          else template_tokens s None tokens
      | Some token =>
          if Ascii.eqb c open_brace then Err "contains nested `{`"
          else if Ascii.eqb c close_brace then
            if bool_decide (token = "") then Err "contains empty `{}` token"
            else template_tokens s None (tokens ++ [token])
          else template_tokens s (Some (token +:+ String c "")) tokens
      end
  end.
Definition extract_template_tokens (template : string) : result string (list string) := template_tokens template None [].

Definition validate_template_tokens (template : string) (allowed : list string) : result string (list string) :=
  tokens ← extract_template_tokens template;
  match find (λ token, negb (bool_decide (token ∈ allowed))) tokens with
  | Some token => Err ("contains unknown token `{" +:+ token +:+ "}`")
  | None => Ok tokens
  end.

(** [render_template] of the proxy, in the same single pass. *)
Fixpoint render_tokens (resolve : string → option string) (s : string) (current : option string) (rendered : string) : result string string :=
  match s with
  | EmptyString => match current with Some _ => Err "template contains unterminated `{...` token" | None => Ok rendered end
  | String c s =>
      match current with
      | None =>
          if Ascii.eqb c open_brace then render_tokens resolve s (Some "") rendered
          else if Ascii.eqb c close_brace then Err "template contains unmatched `}`"
          else render_tokens resolve s None (rendered +:+ String c "")
      | Some token =>
          if Ascii.eqb c open_brace then Err "template contains nested `{`"
          else if Ascii.eqb c close_brace then
            match resolve token with
            | Some replacement => render_tokens resolve s None (rendered +:+ replacement)
            | None => Err ("template contains unknown or unresolved token `{" +:+ token +:+ "}`")
            end
          else render_tokens resolve s (Some (token +:+ String c "")) rendered
      end
  end.
Definition render_template (template : string) (resolve : string → option string) : result string string :=
  render_tokens resolve template None "".

Definition hmac_token (signature : string) (key_id : option string) (token : string) : option string :=
  if bool_decide (token = "signature") then Some signature else if bool_decide (token = "key_id") then key_id else None.
Definition render_hmac_template (template signature : string) (key_id : option string) : result string string :=
  render_template template (hmac_token signature key_id).
Definition access_token_token (token placeholder : string) : option string :=
  if bool_decide (placeholder = "token") then Some token else None.
Definition render_access_token_template (template token : string) : result string string :=
  render_template template (access_token_token token).
Definition named_value_token (name value token : string) : option string :=
  if bool_decide (token = "name") then Some name else if bool_decide (token = "value") then Some value else None.
Definition render_named_value_template (template name value : string) : result string string :=
  render_template template (named_value_token name value).

(** ** Checks

    The source pushes to a vector of messages; here each check returns the
    messages it pushes, in order. *)
Definition issue_if (c : bool) (message : string) : list string := if c then [message] else [].

(** [name.trim().is_empty()]. *)
Definition is_blank (s : string) : bool := bool_decide (trim s = "").

Definition is_token_byte (b : Z) : bool :=
  bool_decide (b ∈ [33; 35; 36; 37; 38; 39; 42; 43; 45; 46; 94; 95; 96; 124; 126]) ||
  is_ascii_digit b || is_ascii_uppercase b || is_ascii_lowercase b.
Definition is_valid_http_header_name (name : string) : bool :=
  negb (bool_decide (name = "")) && forallb is_token_byte (str_bytes name).

Definition validate_hmac_target_name (kind : HmacTargetType) (name context : string) : list string :=
  if is_blank name then [context +:+ ".name is empty"]
  else issue_if (bool_decide (kind = TargetHeader) && negb (is_valid_http_header_name name))
         (context +:+ ".name `" +:+ name +:+ "` is not a valid HTTP header name").
Definition validate_hmac_target (target : HmacTarget) (context : string) : list string :=
  validate_hmac_target_name (target_kind target) (target_name target) context.

Definition validate_hmac_prepare_value (value : HmacPrepareValue) (context : string) : list string :=
  match value with
  | PrepareEnv from_env => issue_if (is_blank from_env) (context +:+ ".from_env is empty")
  | PrepareLiteral value => issue_if (bool_decide (value = "")) (context +:+ ".value is empty")
  | RandomHex bytes => issue_if (bytes =? 0) (context +:+ ".bytes must be greater than 0")
  | _ => []
  end.

Definition validate_hmac_canonical_component (component : HmacCanonicalComponent) (context : string) : list string :=
  match component with
  | CanonicalHeader name =>
      if is_blank name then [context +:+ ".name is empty"]
      else issue_if (negb (is_valid_http_header_name name)) (context +:+ ".name `" +:+ name +:+ "` is not a valid HTTP header name")
  | CanonicalHeaders names _ format =>
      issue_if (bool_decide (names = [])) (context +:+ ".names must not be empty") ++
      flat_map (λ name,
        if is_blank name then [context +:+ ".names contains an empty header name"]
        else issue_if (negb (is_valid_http_header_name name))
               (context +:+ ".names contains invalid HTTP header name `" +:+ name +:+ "`")) names ++
      match validate_template_tokens format ["name"; "value"] with
      | Err error => [context +:+ ".format " +:+ error]
      | Ok _ => []
      end
  | _ => []
  end.

Definition validate_hmac_signature_destination (signature : HmacSignatureConfig) (key_id_from_env : option string) (context : string) :
    list string :=
  let destination := signature_destination signature in
  validate_hmac_target_name (dest_kind destination) (dest_name destination) context ++
  match validate_template_tokens (dest_template destination) ["signature"; "key_id"] with
  | Ok tokens =>
      let missing_key_id := match key_id_from_env with None => true | Some value => is_blank value end in
      issue_if (negb (bool_decide ("signature" ∈ tokens)))
        (context +:+ ": hmac.signature.destination.template must contain `{signature}`") ++
      issue_if (bool_decide ("key_id" ∈ tokens) && missing_key_id)
        (context +:+ ": hmac.signature.destination.template uses `{key_id}` but hmac.key_id_from_env is not set")
  | Err error => [context +:+ ": hmac.signature.destination.template " +:+ error]
  end.

Definition dedupe_key (target : HmacTarget) : string :=
  match target_kind target with
  | TargetHeader => "header:" +:+ to_ascii_lowercase (target_name target)
  | TargetQueryParam => "query_param:" +:+ target_name target
  end.
Fixpoint validate_bindings (bindings : list HmacPrepareBinding) (idx : Z) (seen_targets : list string) (label context : string) : list string :=
  match bindings with
  | [] => []
  | binding :: bindings =>
      let location := context +:+ ": " +:+ label +:+ "[" +:+ show idx +:+ "]" in
      let key := dedupe_key (binding_target binding) in
      validate_hmac_target (binding_target binding) (location +:+ ".target") ++
      validate_hmac_prepare_value (binding_value binding) (location +:+ ".value") ++
      issue_if (bool_decide (key ∈ seen_targets))
        (context +:+ ": " +:+ label +:+ " contains duplicate target `" +:+ target_name (binding_target binding) +:+ "`") ++
      validate_bindings bindings (idx + 1) (key :: seen_targets) label context
  end.
Definition validate_prepare_bindings (bindings : list HmacPrepareBinding) (label context : string) : list string :=
  validate_bindings bindings 0 [] label context.

Definition is_valid_json_pointer (pointer : string) : bool := starts_with "/" pointer.

Definition validate_pointer (pointer : option string) (message : string) : list string :=
  match pointer with Some pointer => issue_if (negb (is_valid_json_pointer pointer)) message | None => [] end.

(** [validate_access_token_auth], with what it calls for a nested scheme. *)
Definition validate_access_token_auth (validate_nested : AuthConfig → string → list string) (prepare : list HmacPrepareBinding)
    (url : string) (fetch_prepare : list HmacPrepareBinding) (auth : option AuthConfig) (response : AccessTokenResponseConfig)
    (inject : AccessTokenInjectConfig) (context : string) : list string :=
  validate_prepare_bindings prepare "access_token.prepare" context ++
  issue_if (is_blank url) (context +:+ ": access_token.fetch.url is empty") ++
  validate_prepare_bindings fetch_prepare "access_token.fetch.prepare" context ++
  match auth with
  | None => []
  | Some (Oauth2 _ _ _ _ _ _) => [context +:+ ": access_token.fetch.auth does not support nested oauth2 auth"]
  | Some (AccessToken _ _ _) => [context +:+ ": access_token.fetch.auth does not support nested access_token auth"]
  | Some auth => validate_nested auth (context +:+ ": access_token.fetch.auth")
  end ++
  (if is_blank (token_json_pointer response) then [context +:+ ": access_token.fetch.response.token_json_pointer is empty"]
   else issue_if (negb (is_valid_json_pointer (token_json_pointer response)))
          (context +:+ ": access_token.fetch.response.token_json_pointer must be a JSON Pointer")) ++
  issue_if (Bool.eqb (bool_decide (is_Some (expires_at_json_pointer response))) (bool_decide (is_Some (expires_in_json_pointer response))))
    (context +:+ ": access_token.fetch.response must set exactly one of expires_at_json_pointer or expires_in_json_pointer") ++
  validate_pointer (expires_at_json_pointer response)
    (context +:+ ": access_token.fetch.response.expires_at_json_pointer must be a JSON Pointer") ++
  validate_pointer (expires_in_json_pointer response)
    (context +:+ ": access_token.fetch.response.expires_in_json_pointer must be a JSON Pointer") ++
  validate_hmac_target (inject_target inject) (context +:+ ": access_token.inject.target") ++
  match validate_template_tokens (inject_template inject) ["token"] with
  | Ok tokens =>
      issue_if (negb (bool_decide ("token" ∈ tokens))) (context +:+ ": access_token.inject.template must contain `{token}`")
  | Err error => [context +:+ ": access_token.inject.template " +:+ error]
  end.

(** A component's place is part of its messages. *)
Definition validate_components (components : list HmacCanonicalComponent) (context : string) : list string :=
  concat (imap (λ idx component,
    validate_hmac_canonical_component component
      (context +:+ ": hmac.canonical.components[" +:+ show (Z.of_nat idx) +:+ "]")) components).

Definition validate_oauth2 (token_url : string) (scopes : list string) (audience : option string) (context : string) : list string :=
  let identity := bool_decide (token_url = "gcp_metadata_identity") in
  let has_audience := match audience with Some a => negb (is_blank a) | None => false end in
  issue_if (identity && negb has_audience)
    (context +:+ ": oauth2.token_url `gcp_metadata_identity` requires oauth2.audience — set it to the URL of the IAM-protected service being invoked (e.g. the Cloud Run service URL)") ++
  issue_if (negb identity && bool_decide (is_Some audience))
    (context +:+ ": oauth2.audience is only valid with token_url `gcp_metadata_identity` (got token_url `" +:+ token_url +:+ "`)") ++
  issue_if (identity && negb (bool_decide (scopes = [])))
    (context +:+ ": oauth2.scopes are not supported with token_url `gcp_metadata_identity` — identity tokens are bound to an audience, not scopes").

Fixpoint validate_auth_config (auth : AuthConfig) (context : string) : list string :=
  match auth with
  | Hmac _ secret_from_env _ key_id_from_env prepare canonical signature =>
      issue_if (is_blank secret_from_env) (context +:+ ": hmac.secret_from_env is empty") ++
      match key_id_from_env with
      | Some key_id => issue_if (is_blank key_id) (context +:+ ": hmac.key_id_from_env is empty")
      | None => []
      end ++
      issue_if (bool_decide (canonical_components canonical = [])) (context +:+ ": hmac.canonical.components must not be empty") ++
      validate_prepare_bindings prepare "hmac.prepare" context ++
      validate_components (canonical_components canonical) context ++
      validate_hmac_signature_destination signature key_id_from_env context
  | AccessToken prepare (FetchConfig url _ fetch_prepare auth response) inject =>
      validate_access_token_auth validate_auth_config prepare url fetch_prepare auth response inject context
  | Oauth2 token_url scopes audience _ _ _ => validate_oauth2 token_url scopes audience context
  | QueryParam _ _ | Header _ _ _ => []
  end.
