(* ===== verification/Routes.v ===== *)
(** * Routes: which endpoint a request reaches

    Endpoint matching of [core/src/server/metering.rs] (lines 80-155) and the
    request paths, hosts and admissions of [core/src/server/gate.rs]. *)
From S2P Require Import Prelude F64 MeteringTypes Text Affixes UpstreamAuth.
#[local] Open Scope string_scope.
#[local] Open Scope list_scope.
#[local] Open Scope Z_scope.

(** ** Endpoints *)
(** [format!("{:?}", method).to_uppercase()]. *)
Definition method_name (m : HttpMethod) : string :=
  match m with Get => "GET" | Post => "POST" | Put => "PUT" | Patch => "PATCH" | Delete => "DELETE" end.

(** [RoutingConfig]: an upstream, or the [Respond] of the source, which answers
    without one. *)
Record PathRewrite := { rewrite_prefix : string; rewrite_env : string }.
Inductive RoutingConfig := Proxy (url : string) (path_rewrites : list PathRewrite) (auth : option AuthConfig) | RespondDirectly.
Definition is_respond (r : RoutingConfig) : bool := match r with RespondDirectly => true | Proxy _ _ _ => false end.
Definition routing_auth (r : RoutingConfig) : option AuthConfig := match r with Proxy _ _ auth => auth | RespondDirectly => None end.

Record SubscriptionEndpoint := {
  sub_period : string;
  sub_price_usd : option f64;
  sub_amount_base_units : option string;
  sub_currency : string;
  sub_expires_at : option string;
  sub_plan_id : option string;
  sub_plan_id_numeric : option Z;
  sub_plan_bump : option Z;
  sub_plan_created_at : option Z;
  sub_puller : option string;
  sub_recipient : option string;
  sub_free_trial_days : option Z
}.

Record Endpoint := {
  ep_method : HttpMethod;
  ep_path : string;
  ep_description : option string;
  ep_resource : option string;
  ep_routing : option RoutingConfig;
  ep_metering : option Metering;
  ep_subscription : option SubscriptionEndpoint
}.

Definition path_segment_matches (pattern actual : string) : bool :=
  if starts_with "{" pattern && ends_with "}" pattern then true
  else if contains_char open_brace pattern then
    match split_once close_brace pattern with
    | Some (_, suffix) => ends_with suffix actual
    | None => false
    end
  else bool_decide (pattern = actual).

(** [zip] stops at the shorter list. *)
Fixpoint segments_match (pattern path : list string) : bool :=
  match pattern, path with
  | p :: pattern, a :: path => path_segment_matches p a && segments_match pattern path
  | _, _ => true
  end.
Definition is_rest (segment : string) : bool := starts_with "{*" segment && ends_with "}" segment.

Definition path_matches (pattern path : string) : bool :=
  let pattern_parts := split_on slash pattern in
  let path_parts := split_on slash path in
  match last pattern_parts with
  | Some rest =>
      if is_rest rest then
        if (length path_parts <? length pattern_parts)%nat then false
        else segments_match (take (length pattern_parts - 1) pattern_parts) path_parts
      else (length pattern_parts =? length path_parts)%nat && segments_match pattern_parts path_parts
  | None => (length pattern_parts =? length path_parts)%nat && segments_match pattern_parts path_parts
  end.

(** An endpoint is found with its place in the list: the gate identifies the
    endpoint it billed by its address. *)
Definition find_by (f : Endpoint → bool) (l : list Endpoint) : option (nat * Endpoint) := list_find (λ e, f e = true) l.
Definition find_endpoint (endpoints : list Endpoint) (method path : string) : option (nat * Endpoint) :=
  match find_by (λ e, bool_decide (method_name (ep_method e) = method) && bool_decide (ep_path e = path)) endpoints with
  | Some found => Some found
  | None => find_by (λ e, bool_decide (method_name (ep_method e) = method) && path_matches (ep_path e) path) endpoints
  end.
Definition find_endpoint_by_path (endpoints : list Endpoint) (path : string) : option (nat * Endpoint) :=
  match find_by (λ e, bool_decide (ep_path e = path)) endpoints with
  | Some found => Some found
  | None => find_by (λ e, path_matches (ep_path e) path) endpoints
  end.

(** ** Request paths *)

(** [str::replace] of a text of three characters by one. *)
Fixpoint replace3 (a b c r : Ascii.ascii) (s : string) : string :=
  match s with
  | EmptyString => EmptyString
  | String x s1 =>
      match s1 with
      | String y (String z s3) =>
          if Ascii.eqb x a && Ascii.eqb y b && Ascii.eqb z c then String r (replace3 a b c r s3) else String x (replace3 a b c r s1)
      | _ => String x (replace3 a b c r s1)
      end
  end.
Definition percent : Ascii.ascii := Ascii.ascii_of_nat 37.
Definition two : Ascii.ascii := Ascii.ascii_of_nat 50.
Definition decode_dots (segment : string) : string :=
  replace3 percent two (Ascii.ascii_of_nat 69) dot (replace3 percent two (Ascii.ascii_of_nat 101) dot segment).
Definition has_dot_segment (path : string) : bool :=
  existsb (λ segment, let decoded := decode_dots segment in bool_decide (decoded = ".") || bool_decide (decoded = ".."))
    (split_on slash path).

(** [gate_path]: [None] answers 400. *)
Definition gate_path (path : string) : option string :=
  if starts_with "//" path || has_dot_segment path then None else Some (default path (strip_prefix "/" path)).

(** Paths of the control plane and of discovery. *)
Definition is_local_path (path : string) : bool :=
  starts_with "__402/" path || bool_decide (path = "openapi.json") || starts_with ".well-known/" path.

(** ** Hosts and authorities *)
Definition subdomain_of (host : option string) : string :=
  match split_on dot (default "" host) with label :: _ => label | [] => "" end.

Definition canonical_authority (host : string) : string :=
  let host := to_ascii_lowercase (trim host) in
  match rsplit_once colon host with
  | Some (name, port) =>
      if forallb is_ascii_digit (str_bytes port) then trim_end_matches dot name +:+ ":" +:+ port else trim_end_matches dot host
  | None => trim_end_matches dot host
  end.

(** ** Requests *)
Record GateRequest := {
  rq_method : string;
  rq_path : string;
  rq_host : option string;
  rq_accept : option string;
  rq_authorization : option string;
  rq_content_length : option Z;
  rq_query : option string;
  rq_x402_payment : option string
}.
Definition query_suffix (query : option string) : string := match query with Some q => "?" +:+ q | None => "" end.

(** [charge_route], [upto_route] and [x402_exact_binding]: what a payment is
    bound to. *)
Definition charge_route (req : GateRequest) (subdomain path : string) : string :=
  let authority :=
    match canonical_authority <$> rq_host req with
    | Some (String _ _ as authority) => authority
    | _ => subdomain
    end in
  rq_method req +:+ " " +:+ authority +:+ "/" +:+ trim_start_matches slash path +:+ query_suffix (rq_query req).
Definition upto_route (req : GateRequest) (path : string) : string :=
  rq_method req +:+ " /" +:+ trim_start_matches slash path +:+ query_suffix (rq_query req).
Definition trimmed (resource : option string) : option string :=
  match trim <$> resource with Some (String _ _ as r) => Some r | _ => None end.
Definition x402_exact_binding (req : GateRequest) (resource : option string) : option string :=
  (λ r, rq_method req +:+ " " +:+ r) <$> trimmed resource.

(** [is_payment_authorization]: the first eight bytes of the header. *)
Definition is_payment_authorization (auth : string) : bool :=
  (8 <=? String.length auth)%nat && eq_ignore_ascii_case (String.substring 0 8 auth) "payment ".

(** ** Endpoint lookup *)

Lemma find_by_Some f l i e : find_by f l = Some (i, e) → l !! i = Some e ∧ f e = true.
Proof. intros (? & ? & _)%list_find_Some. done. Qed.

Lemma find_by_None f l e : find_by f l = None → e ∈ l → f e = false.
Proof. intros HN%list_find_None He. rewrite Forall_forall in HN. specialize (HN e He). by apply not_true_is_false. Qed.

(** The endpoint found is one of the API's, for the method, and a literal path
    is preferred to every pattern. *)
Lemma find_endpoint_spec endpoints method path i e :
  find_endpoint endpoints method path = Some (i, e) →
  endpoints !! i = Some e ∧ method_name (ep_method e) = method ∧ (ep_path e = path ∨ path_matches (ep_path e) path = true) ∧
  (∀ e', e' ∈ endpoints → method_name (ep_method e') = method → ep_path e' = path → ep_path e = path).
Proof.
  unfold find_endpoint. destruct (find_by _ endpoints) as [[i' e']|] eqn:Hlit.
  - intros [= -> ->]. apply find_by_Some in Hlit as [Hi [Hm Hp]%andb_true_iff]. apply bool_decide_eq_true in Hm, Hp. naive_solver.
  - intros [Hi [Hm Hp]%andb_true_iff]%find_by_Some. apply bool_decide_eq_true in Hm. split_and!; [done|done|by right|].
    intros e' He' Hm' Hp'. apply (find_by_None _ _ e') in Hlit; [|done]. cbv beta in Hlit. by rewrite !bool_decide_eq_true_2 in Hlit.
Qed.

Lemma find_endpoint_by_path_spec endpoints path i e :
  find_endpoint_by_path endpoints path = Some (i, e) →
  endpoints !! i = Some e ∧ (ep_path e = path ∨ path_matches (ep_path e) path = true).
Proof.
  unfold find_endpoint_by_path. destruct (find_by _ endpoints) as [[i' e']|] eqn:Hlit.
  - intros [= -> ->]. apply find_by_Some in Hlit as [Hi Hp%bool_decide_eq_true]. naive_solver.
  - intros [Hi Hp]%find_by_Some. naive_solver.
Qed.

(** In a segment such as [report-{id}] the text before the parameter is
    not compared: the pattern matches every segment. *)
Theorem wildcard_ignores_its_prefix :
  path_matches "v1/free-{id}" "v1/premium" = true ∧
  path_matches "v1/free-{id}:read" "v1/premium:read" = true ∧
  path_matches "v1/free-{id}:read" "v1/premium:write" = false.
Proof. vm_compute. done. Qed.

(** ** Paths and routes *)

(** A path the gate admits has no [.] or [..] segment, written plainly or
    percent-encoded, and the path that is matched and forwarded is the one on
    the wire less its leading slash: two wire paths are never collapsed. *)
Theorem gate_path_is_faithful p q :
  starts_with "/" p = true → gate_path p = Some q →
  p = "/" +:+ q ∧ starts_with "/" q = false ∧
  (∀ segment, segment ∈ split_on slash q → decode_dots segment ≠ "." ∧ decode_dots segment ≠ "..").
Proof.
  intros [t ->]%starts_with_true. unfold gate_path.
  destruct (starts_with "//" ("/" +:+ t)) eqn:Hd; [done|]. destruct (has_dot_segment ("/" +:+ t)) eqn:Hdot; [done|]. cbn [orb].
  rewrite (proj2 (strip_prefix_Some "/" ("/" +:+ t) t)) by done. intros [= <-]. split; [done|]. split.
  - apply not_true_is_false. intros [u ->]%starts_with_true. apply not_true_iff_false in Hd. apply Hd, starts_with_true. by exists u.
  - intros segment Hseg. unfold has_dot_segment in Hdot. change ("/" +:+ t) with (String slash t) in Hdot.
    cbn [split_on] in Hdot. rewrite Ascii.eqb_refl in Hdot. cbn [existsb] in Hdot. apply orb_false_iff in Hdot as [_ Hdot].
    apply list_elem_of_In in Hseg. 
    assert (∀ l, existsb (λ segment, bool_decide (decode_dots segment = ".") || bool_decide (decode_dots segment = "..")) l = false →
      In segment l → decode_dots segment ≠ "." ∧ decode_dots segment ≠ "..") as Hall; [|by apply (Hall _ Hdot)].
    clear. intros l Hl Hin. destruct (decide (decode_dots segment = "." ∨ decode_dots segment = "..")) as [H|H]; [|naive_solver].
    exfalso. apply not_true_iff_false in Hl. apply Hl, existsb_exists. exists segment. split; [done|].
    apply orb_true_iff. rewrite !bool_decide_eq_true. done.
Qed.

Lemma gate_path_is_faithful_witness :
  "/v1/a.b/%2ec" = "/" +:+ "v1/a.b/%2ec" ∧ starts_with "/" "v1/a.b/%2ec" = false ∧
  (∀ segment, segment ∈ split_on slash "v1/a.b/%2ec" → decode_dots segment ≠ "." ∧ decode_dots segment ≠ "..").
Proof. apply (gate_path_is_faithful "/v1/a.b/%2ec" "v1/a.b/%2ec"); by vm_compute. Defined.

(** What a request is to [charge_route] once its path is admitted: the parts
    of the route. *)
Definition authority_of (req : GateRequest) (subdomain : string) : string :=
  match canonical_authority <$> rq_host req with Some (String _ _ as authority) => authority | _ => subdomain end.
Definition has_char (c : Ascii.ascii) (s : string) : Prop := byte_of c ∈ str_bytes s.
#[global] Instance has_char_dec c s : Decision (has_char c s).
Proof. unfold has_char. apply _. Defined.
Definition question : Ascii.ascii := Ascii.ascii_of_nat 63.
Definition space : Ascii.ascii := Ascii.ascii_of_nat 32.

Lemma split_char_inj c a b x y : ¬ has_char c a → ¬ has_char c b → a +:+ String c x = b +:+ String c y → a = b ∧ x = y.
Proof.
  intros Ha Hb E. assert (split_once c (a +:+ String c x) = Some (a, x)) as H1 by (by apply split_once_Some).
  assert (split_once c (b +:+ String c y) = Some (b, y)) as H2 by (by apply split_once_Some).
  rewrite E, H2 in H1. by injection H1 as -> ->.
Qed.

Lemma trim_start_matches_none c s : (∀ t, s ≠ String c t) → trim_start_matches c s = s.
Proof. destruct s as [|a s]; [done|]. intros Hne. cbn. destruct (Ascii.eqb_spec a c) as [->|]; [by destruct (Hne s)|done]. Qed.

Lemma query_suffix_inj p p' q q' : ¬ has_char question p → ¬ has_char question p' → p +:+ query_suffix q = p' +:+ query_suffix q' → p = p' ∧ q = q'.
Proof.
  unfold query_suffix. intros Hp Hp'. destruct q as [q|], q' as [q'|].
  - intros E. change ("?" +:+ q) with (String question q) in E. change ("?" +:+ q') with (String question q') in E.
    by apply split_char_inj in E as [-> ->].
  - rewrite string_app_nil_r. intros E. exfalso. apply Hp'. unfold has_char. rewrite <-E, str_bytes_app, elem_of_app. right. by left.
  - rewrite string_app_nil_r. intros E. exfalso. apply Hp. unfold has_char. rewrite E, str_bytes_app, elem_of_app. right. by left.
  - by rewrite !string_app_nil_r.
Qed.

(** Two requests whose charges are bound to the same route are the same
    request: method, authority, path and query, provided the authorities hold
    no slash (methods hold no space and paths no question mark). *)
Theorem charge_route_binds req req' subdomain subdomain' :
  ¬ has_char space (rq_method req) → ¬ has_char space (rq_method req') →
  ¬ has_char slash (authority_of req subdomain) → ¬ has_char slash (authority_of req' subdomain') →
  ¬ has_char question (rq_path req) → ¬ has_char question (rq_path req') →
  starts_with "/" (rq_path req) = false → starts_with "/" (rq_path req') = false →
  charge_route req subdomain (rq_path req) = charge_route req' subdomain' (rq_path req') →
  rq_method req = rq_method req' ∧ authority_of req subdomain = authority_of req' subdomain' ∧
  rq_path req = rq_path req' ∧ rq_query req = rq_query req'.
Proof.
  intros Hm Hm' Ha Ha' Hp Hp' Hs Hs'. unfold charge_route. fold (authority_of req subdomain) (authority_of req' subdomain').
  assert (∀ p, starts_with "/" p = false → trim_start_matches slash p = p) as Htrim.
  { intros p Hns. apply trim_start_matches_none. intros t ->. apply not_true_iff_false in Hns. apply Hns, starts_with_true. by exists t. }
  rewrite !Htrim by done. intros E. apply (split_char_inj space) in E as [-> E]; [|done..].
  apply (split_char_inj slash) in E as [-> E]; [|done..]. by apply query_suffix_inj in E as [-> ->].
Qed.

Module SampleRoutes.
Definition request (method host path : string) (query : option string) : GateRequest := {|
  rq_method := method; rq_path := path; rq_host := Some host; rq_accept := None; rq_authorization := None;
  rq_content_length := None; rq_query := query; rq_x402_payment := None |}.

Lemma charge_route_binds_witness :
  "GET" = "GET" ∧ authority_of (request "GET" "API.example.:8443" "v1/a" (Some "x=1")) "api" = authority_of (request "GET" "api.example:8443" "v1/a" (Some "x=1")) "api" ∧
  "v1/a" = "v1/a" ∧ Some "x=1" = Some "x=1".
Proof.
  apply (charge_route_binds (request "GET" "API.example.:8443" "v1/a" (Some "x=1")) (request "GET" "api.example:8443" "v1/a" (Some "x=1")) "api" "api");
    first [apply (bool_decide_unpack _); by vm_compute | by vm_compute].
Defined.

(** A [Host] header that holds a slash lets one route stand for another:
    the charge of [GET api.example/v1/report] is bound to the same text as
    that of [GET report] on the host [api.example/v1]. *)
Theorem charge_route_collides :
  let req := request "GET" "api.example" "v1/report" None in
  let req' := request "GET" "api.example/v1" "report" None in
  charge_route req (subdomain_of (rq_host req)) (rq_path req) = charge_route req' (subdomain_of (rq_host req')) (rq_path req') ∧
  subdomain_of (rq_host req) = subdomain_of (rq_host req') ∧ rq_path req ≠ rq_path req'.
Proof. vm_compute. done. Qed.
End SampleRoutes.
