(* ===== verification/ChargeTerms.v ===== *)
(** * ChargeTerms: what a charge tells the payer

    [types/src/splits.rs] (who is paid which part of a charge) and the terms a
    challenge carries from [core/src/server/payment.rs]: the unit price in
    base units, the splits, and the memo that binds a payment to the resource
    it pays for. *)
From S2P Require Import Prelude F64 Text Affixes Decimals MeteringTypes Pricing PushManifest.
#[local] Open Scope string_scope.
#[local] Open Scope list_scope.
#[local] Open Scope Z_scope.

(** ** Splits *)
Record RecipientAlias := {
  alias_account : string;
  alias_label : option string
}.
Record ResolvedSplit := {
  rsplit_recipient : string;
  rsplit_amount : Z;
  rsplit_label : option string;
  rsplit_memo : option string
}.
Inductive SplitError :=
  | UnknownRecipient (name : string)
  | AmbiguousRule (name : string)
  | EmptyRule (name : string)
  | SplitsExceedTotal (total_usd splits_usd : f64)
  | UnresolvableAccount (recipient var_name : string).

Section splits.
(** [std::env::var] and the Unicode [str::to_lowercase]. *)
Context (env_var : string → option string) (to_lowercase : string → string).

Fixpoint try_suffixes (lower : string) (query_params : gmap string string) (suffixes : list string) : option string :=
  match suffixes with
  | [] => None
  | suffix :: suffixes =>
      match strip_suffix suffix lower ≫= λ stripped, query_params !! stripped with
      | Some val => Some val
      | None => try_suffixes lower query_params suffixes
      end
  end.

Definition resolve_account (account recipient_name : string) (query_params : gmap string string) : result SplitError string :=
  if negb (starts_with "${" account) || negb (ends_with "}" account) then Ok account
  else
    let var_name := String.substring 2 (String.length account - 3) account in
    match env_var var_name with
    | Some (String _ _ as val) => Ok val
    | _ =>
        let lower := to_lowercase var_name in
        match query_params !! lower with
        | Some val => Ok val
        | None =>
            match try_suffixes lower query_params ["_wallet"; "_account"; "_address"] with
            | Some val => Ok val
            | None =>
                match query_params !! recipient_name with
                | Some val => Ok val
                | None => Err (UnresolvableAccount recipient_name lower)
                end
            end
        end
    end.

(** One rule: the split, and its amount in USD. *)
Definition resolve_rule (recipients : gmap string RecipientAlias) (total_usd : f64) (decimals : Z)
    (query_params : gmap string string) (rule : SplitRule) : result SplitError (ResolvedSplit * f64) :=
  alias ← ok_or (recipients !! split_recipient rule) (UnknownRecipient (split_recipient rule));
  _ ← match split_amount rule, split_percent rule with
      | Some _, Some _ => Err (AmbiguousRule (split_recipient rule))
      | None, None => Err (EmptyRule (split_recipient rule))
      | _, _ => Ok tt
      end;
  account ← resolve_account (alias_account alias) (split_recipient rule) query_params;
  let usd := match split_amount rule with
             | Some fixed => fixed
             | None => f64_div (f64_mul total_usd (default f64_zero (split_percent rule))) (f64_of_Z 100)
             end in
  Ok ({| rsplit_recipient := account; rsplit_amount := f64_as_u64 (f64_round (f64_mul usd (f64_pow10 decimals)));
         rsplit_label := alias_label alias; rsplit_memo := split_memo rule |}, usd).

Definition resolve_splits (rules : list SplitRule) (recipients : gmap string RecipientAlias) (total_usd : f64)
    (decimals : Z) (query_params : gmap string string) : result SplitError (list ResolvedSplit) :=
  match rules with
  | [] => Ok []
  | _ =>
      '(resolved, splits_total_usd) ← try_fold (λ '(resolved, total) rule,
          '(split, usd) ← resolve_rule recipients total_usd decimals query_params rule;
          Ok (resolved ++ [split], f64_add total usd)) ([], f64_zero) rules;
      _ ← reject_if (f64_geb splits_total_usd total_usd) (SplitsExceedTotal total_usd splits_total_usd);
      Ok resolved
  end.

End splits.

(** ** Amounts *)

Definition point : Ascii.ascii := Ascii.ascii_of_nat 46.
Definition charge_amount_from_price (price : option ResolvedPrice) : string :=
  match price with
  | None => "0.01"
  | Some price => trim_end_matches point (trim_end_matches zero_char (f64_fixed 12 (per_call_usd price)))
  end.

Definition price_unit_base_amount (price : ResolvedPrice) (decimals : Z) : Z :=
  let per_unit := match head (rp_dimensions price) with
                  | Some d => f64_div (rd_price_usd d) (f64_of_Z (Z.max (rd_scale d) 1))
                  | None => f64_dec 1 2
                  end in
  Z.max (f64_as_u64 (f64_round (f64_mul per_unit (f64_pow10 decimals)))) 1.

(** ** Request properties *)
Definition ampersand : Ascii.ascii := Ascii.ascii_of_nat 38.
Definition equals : Ascii.ascii := Ascii.ascii_of_nat 61.
Definition hash_sign : Ascii.ascii := Ascii.ascii_of_nat 35.

(** [parse_query_params]: a later value of a key replaces an earlier one. *)
Definition parse_query_params (query : option string) : gmap string string :=
  match query with
  | None => ∅
  | Some query =>
      foldl (λ m pair, match split_once equals pair with
                       | Some (k, v) => <[k := v]> m
                       | None => <[pair := ""]> m
                       end) ∅ (split_on ampersand query)
  end.

Definition extract_request_properties (content_length : option string) : RequestProperties := {|
  input_tokens := None; input_characters := None; context_length := None;
  body_size := content_length ≫= λ v, match u64_from_str v with Ok n => Some n | Err _ => None end;
  duration_seconds := None; batch_size := None; image_pixels := None |}.

(** [resolve_charge_splits]: the splits as the challenge carries them;
    splits that do not resolve are left out. *)
Record Split := {
  sp_recipient : string;
  sp_amount : string;
  sp_ata_creation_required : option bool;
  sp_label : option string;
  sp_memo : option string
}.
Definition challenge_split (split : ResolvedSplit) : Split := {|
  sp_recipient := rsplit_recipient split; sp_amount := show (rsplit_amount split); sp_ata_creation_required := None;
  sp_label := rsplit_label split; sp_memo := rsplit_memo split |}.
Definition resolve_charge_splits (env_var : string → option string) (to_lowercase : string → string) (decimals : Z)
    (split_rules : list SplitRule) (recipients : gmap string RecipientAlias) (query : option string) (amount : string) : list Split :=
  match split_rules with
  | [] => []
  | _ =>
      match resolve_splits env_var to_lowercase split_rules recipients (default f64_zero (f64_from_str amount)) decimals
              (parse_query_params query) with
      | Ok resolved => map challenge_split resolved
      | Err _ => []
      end
  end.

Fixpoint variant_hint (parts : list string) : option string :=
  match parts with
  | part :: ((next :: _) as rest) =>
      if bool_decide (part = "models") || bool_decide (part = "voices")
      then Some (default next (head (split_on colon next)))
      else variant_hint rest
  | _ => None
  end.
Definition extract_variant_hint (path : string) : option string := variant_hint (split_on slash path).

(** ** Resource memos *)
Definition RESOURCE_MEMO_NONCE_HEX_LEN : nat := 3.
Definition RESOURCE_MEMO_TRUNC_HASH_HEX_LEN : nat := 6.
Definition RESOURCE_MEMO_TRUNC_SUFFIX_LEN : nat := 1 + 1 + RESOURCE_MEMO_TRUNC_HASH_HEX_LEN + RESOURCE_MEMO_NONCE_HEX_LEN.

(** [str::is_char_boundary]. *)
Definition is_char_boundary (s : string) (i : nat) : bool :=
  match i with
  | O => true
  | _ => match str_bytes s !! i with
         | Some b => (b <? 128) || (192 <=? b)
         | None => (i =? String.length s)%nat
         end
  end.
Fixpoint boundary_below (s : string) (i : nat) : nat :=
  match i with
  | O => O
  | S j => if is_char_boundary s i then i else boundary_below s j
  end.
Definition truncate_to_char_boundary (value : string) (max_bytes : nat) : string :=
  if (String.length value <=? max_bytes)%nat then value else String.substring 0 (boundary_below value max_bytes) value.

Section memo.
Context (blake3 : list Z → list Z).

Definition resource_memo_hash (resource : string) : string :=
  String.substring 0 RESOURCE_MEMO_TRUNC_HASH_HEX_LEN (hash_hex (blake3 (str_bytes resource))).

(** [usize::checked_sub]. *)
Definition prefix_len (max_bytes : nat) : option nat :=
  if (RESOURCE_MEMO_TRUNC_SUFFIX_LEN <=? max_bytes)%nat then Some (max_bytes - RESOURCE_MEMO_TRUNC_SUFFIX_LEN)%nat else None.

(** [resource_memo_with_nonce]; [random] are the two random bytes. *)
Definition resource_memo_with_nonce (random : list Z) (resource : option string) (max_bytes : nat) : option string :=
  resource ← resource;
  let resource := trim resource in
  if bool_decide (resource = "") then None
  else
    let nonce := String.substring 0 RESOURCE_MEMO_NONCE_HEX_LEN (hash_hex random) in
    let memo := resource +:+ "#" +:+ nonce in
    if (String.length memo <=? max_bytes)%nat then Some memo
    else
      prefix_len ← prefix_len max_bytes;
      let prefix := truncate_to_char_boundary resource prefix_len in
      if bool_decide (prefix = "") then None
      else Some (prefix +:+ "#t" +:+ resource_memo_hash resource +:+ nonce).

Definition resource_memo_matches (memo resource : string) (max_bytes : nat) : bool :=
  if bool_decide (memo = resource) then true
  else
    match rsplit_once hash_sign memo with
    | None => false
    | Some (prefix, suffix) =>
        if (String.length suffix =? RESOURCE_MEMO_NONCE_HEX_LEN)%nat && forallb is_ascii_hexdigit (str_bytes suffix) &&
           bool_decide (prefix = resource) then true
        else
          match strip_prefix "t" suffix with
          | None => false
          | Some binding =>
              if negb (String.length binding =? RESOURCE_MEMO_TRUNC_HASH_HEX_LEN + RESOURCE_MEMO_NONCE_HEX_LEN)%nat ||
                 negb (forallb is_ascii_hexdigit (str_bytes binding)) ||
                 negb (starts_with (resource_memo_hash resource) binding) then false
              else
                match prefix_len max_bytes with
                | None => false
                | Some expected_prefix_len =>
                    let expected_prefix := truncate_to_char_boundary resource expected_prefix_len in
                    (expected_prefix_len <? String.length resource)%nat && negb (bool_decide (expected_prefix = "")) &&
                    bool_decide (prefix = expected_prefix) && (String.length memo <=? max_bytes)%nat
                end
          end
    end.
End memo.

(** ** Splits: each rule decides its own payout *)
Section splits_laws.
Context (env_var : string → option string) (to_lowercase : string → string).
Context (recipients : gmap string RecipientAlias) (total_usd : f64) (decimals : Z) (query_params : gmap string string).
Abbreviation rule_split := (resolve_rule env_var to_lowercase recipients total_usd decimals query_params).
Abbreviation splits := (λ rules, resolve_splits env_var to_lowercase rules recipients total_usd decimals query_params).
Abbreviation split_step := (λ '(resolved, total) rule, '(split, usd) ← rule_split rule; Ok (resolved ++ [split], f64_add total usd)).

(** What the loop has resolved is what each rule resolves to by itself. *)
Lemma split_fold rules : ∀ resolved total resolved' total',
  try_fold split_step (resolved, total) rules = Ok (resolved', total') →
  ∃ ps, resolved' = resolved ++ map fst ps ∧ Forall2 (λ rule p, rule_split rule = Ok p) rules ps ∧
    total' = foldl f64_add total (map snd ps).
Proof.
  induction rules as [|rule rules IH]; intros resolved total resolved' total'.
  { intros [= <- <-]. exists []. split; [by rewrite app_nil_r|]. split; [constructor|done]. }
  cbn [try_fold]. intros ([r t] & H & (ps & -> & HF & ->)%IH)%bind_Ok.
  apply bind_Ok in H as ([split usd] & Hr & [= <- <-]).
  exists ((split, usd) :: ps). split; [by rewrite <-app_assoc|]. split; [by constructor|done].
Qed.

Lemma resolve_splits_each rules ps :
  splits rules = Ok ps →
  ∃ qs, ps = map fst qs ∧ Forall2 (λ rule q, rule_split rule = Ok q) rules qs ∧
    (rules = [] ∨ f64_geb (foldl f64_add f64_zero (map snd qs)) total_usd = false).
Proof.
  unfold resolve_splits. destruct rules as [|rule rules].
  { intros [= <-]. exists []. split; [done|]. split; [constructor|by left]. }
  intros ([r t] & (qs & -> & HF & ->)%split_fold & H)%bind_Ok. apply bind_Ok in H as ([] & Hlt%reject_if_Ok & [= <-]).
  exists qs. split; [done|]. split; [done|]. by right.
Qed.

(** Reordering split rules does not change a payout: where two orders of
    the same rules both resolve, they resolve to the same splits, reordered. *)
Theorem split_payouts_ignore_order rules rules' ps ps' :
  rules ≡ₚ rules' → splits rules = Ok ps → splits rules' = Ok ps' → ps ≡ₚ ps'.
Proof.
  set (payout := λ rule, match rule_split rule with Ok q => [q.1] | Err _ => [] end).
  assert (∀ rules ps, splits rules = Ok ps → ps = flat_map payout rules) as Hps.
  { clear. intros rules ps (qs & -> & HF & _)%resolve_splits_each.
    induction HF as [|rule q rules qs Hq _ IH]; [done|]. cbn [flat_map map]. unfold payout at 1. by rewrite Hq, IH. }
  intros Hperm ->%Hps ->%Hps. by apply Permutation_flat_map.
Qed.
End splits_laws.

(** A dollar and three fixed amounts that add up to it. *)
Module SampleSplits.
Definition recipients : gmap string RecipientAlias :=
  {[ "vendor" := {| alias_account := "VendorWallet"; alias_label := Some "Vendor" |};
     "platform" := {| alias_account := "PlatformWallet"; alias_label := None |};
     "affiliate" := {| alias_account := "${AFFILIATE_WALLET}"; alias_label := None |} ]}.
Definition fixed (name : string) (tenths : Z) : SplitRule :=
  {| split_recipient := name; split_amount := Some (f64_dec tenths 1); split_percent := None; split_memo := None |}.
Definition share (name : string) (percent : Z) : SplitRule :=
  {| split_recipient := name; split_amount := None; split_percent := Some (f64_of_Z percent); split_memo := None |}.
Definition resolve (rules : list SplitRule) (dollars : Z) : result SplitError (list ResolvedSplit) :=
  resolve_splits (λ _, None) id rules recipients (f64_of_Z dollars) 6 {[ "AFFILIATE" := "unused"; "affiliate" := "AffiliateKey" ]}.
Definition payouts (r : result SplitError (list ResolvedSplit)) : option (list (string * Z)) :=
  match r with Ok ps => Some (map (λ p, (rsplit_recipient p, rsplit_amount p)) ps) | Err _ => None end.

Lemma split_payouts_ignore_order_witness :
  payouts (resolve [share "vendor" 60; fixed "affiliate" 2] 1) = Some [("VendorWallet", 600000); ("AffiliateKey", 200000)] ∧
  ∃ ps ps', resolve [share "vendor" 60; fixed "affiliate" 2] 1 = Ok ps ∧ resolve [fixed "affiliate" 2; share "vendor" 60] 1 = Ok ps' ∧
    ps ≡ₚ ps'.
Proof.
  split; [by vm_compute|]. eexists _, _. split; [vm_compute; reflexivity|]. split; [vm_compute; reflexivity|].
  apply (split_payouts_ignore_order (λ _, None) id recipients (f64_of_Z 1) 6 {[ "AFFILIATE" := "unused"; "affiliate" := "AffiliateKey" ]}
    [share "vendor" 60; fixed "affiliate" 2] [fixed "affiliate" 2; share "vendor" 60]);
    [apply Permutation_swap|by vm_compute|by vm_compute].
Defined.

(** Fixed amounts of 0.2, 0.7 and 0.1 dollars leave nothing of a dollar
    for the primary recipient, and are accepted: their floating-point sum is
    below one.  In the order 0.1, 0.2, 0.7 the same rules are refused. *)
Theorem splits_can_take_the_whole_charge :
  payouts (resolve [fixed "vendor" 2; fixed "platform" 7; fixed "affiliate" 1] 1)
    = Some [("VendorWallet", 200000); ("PlatformWallet", 700000); ("AffiliateKey", 100000)] ∧
  200000 + 700000 + 100000 = f64_as_u64 (f64_mul (f64_of_Z 1) (f64_pow10 6)) ∧
  resolve [fixed "affiliate" 1; fixed "vendor" 2; fixed "platform" 7] 1 = Err (SplitsExceedTotal (f64_of_Z 1) (f64_of_Z 1)).
Proof. repeat split; vm_compute; reflexivity. Qed.
End SampleSplits.

(** ** Memos bind a payment to its resource *)

Lemma is_hex_hexdigit b : is_hex b → is_ascii_hexdigit b = true.
Proof. unfold is_hex, is_ascii_hexdigit, is_ascii_digit. lia. Qed.

Lemma forallb_hex s : Forall is_hex (str_bytes s) → forallb is_ascii_hexdigit (str_bytes s) = true.
Proof. induction 1 as [|b l Hb _ IH]; [done|]. cbn [forallb]. by rewrite is_hex_hexdigit, IH. Qed.

Lemma hex_no_hash s : Forall is_hex (str_bytes s) → byte_of hash_sign ∉ str_bytes s.
Proof. rewrite Forall_forall. intros Hs Hin%Hs. unfold is_hex in Hin. change (byte_of hash_sign) with 35 in Hin. lia. Qed.

(** The first [n] hexadecimal characters of enough bytes. *)
Lemma hex_prefix n h : Forall is_u8 h → (n ≤ 2 * length h)%nat →
  Forall is_hex (str_bytes (String.substring 0 n (hash_hex h))) ∧ String.length (String.substring 0 n (hash_hex h)) = n.
Proof.
  intros [Hh Hl]%hash_hex_bytes Hn. rewrite <-length_str_bytes, str_bytes_substring. split; [by apply Forall_take|].
  rewrite length_take. lia.
Qed.

Lemma truncate_length s n : (String.length (truncate_to_char_boundary s n) ≤ n)%nat.
Proof.
  unfold truncate_to_char_boundary. destruct (Nat.leb_spec (String.length s) n); [done|].
  rewrite <-length_str_bytes, str_bytes_substring, length_take.
  assert (boundary_below s n ≤ n)%nat; [|lia]. clear. induction n as [|n IH]; [done|]. cbn [boundary_below].
  destruct (is_char_boundary s (S n)); lia.
Qed.

(** A non-empty text has a character of at most four bytes. *)
Lemma utf8_first_char l : l ≠ [] → is_utf8 l = true →
  ∃ k, (1 ≤ k ≤ 4)%nat ∧ (k ≤ length l)%nat ∧ is_utf8 (drop k l) = true.
Proof.
  destruct l as [|a l]; [done|]. intros _. cbn [is_utf8].
  destruct (a <=? 127); [intros H; exists 1%nat; (split; [lia|split; [cbn [length]; lia|done]])|].
  destruct l as [|b l]; [done|]. destruct ((194 <=? a) && (a <=? 223)).
  { intros [_ H]%andb_true_iff. exists 2%nat. (split; [lia|split; [cbn [length]; lia|done]]). }
  destruct l as [|c l]; [done|]. destruct ((224 <=? a) && (a <=? 239)).
  { intros [_ H]%andb_true_iff. exists 3%nat. (split; [lia|split; [cbn [length]; lia|done]]). }
  destruct l as [|d l]; [done|]. intros [_ H]%andb_true_iff. exists 4%nat. (split; [lia|split; [cbn [length]; lia|done]]).
Qed.

Lemma utf8_start a l : is_utf8 (a :: l) = true → (a <? 128) || (192 <=? a) = true.
Proof.
  cbn [is_utf8]. destruct (Z.leb_spec a 127); [lia|]. destruct l as [|b l]; [done|].
  destruct ((194 <=? a) && (a <=? 223)) eqn:E1; [lia|]. destruct l as [|c l]; [done|].
  destruct ((224 <=? a) && (a <=? 239)) eqn:E2; [lia|]. destruct l as [|d l]; [done|].
  rewrite !andb_true_iff. lia.
Qed.

Lemma boundary_below_ge s k n : is_char_boundary s k = true → (k ≤ n)%nat → (k ≤ boundary_below s n)%nat.
Proof.
  intros Hk. induction n as [|n IH]; [done|]. intros Hn. cbn [boundary_below].
  destruct (is_char_boundary s (S n)) eqn:E; [done|]. apply IH. destruct (decide (k = S n)) as [->|]; [congruence|lia].
Qed.

(** Four bytes are room for the first character. *)
Lemma truncate_nonempty s n : is_utf8 (str_bytes s) = true → s ≠ "" → (4 ≤ n)%nat → truncate_to_char_boundary s n ≠ "".
Proof.
  intros Hs Hne Hn. unfold truncate_to_char_boundary. destruct (Nat.leb_spec (String.length s) n) as [|Hlen]; [done|].
  intros E. apply (f_equal (λ s, length (str_bytes s))) in E. rewrite str_bytes_substring, length_take in E. cbn in E.
  destruct (utf8_first_char (str_bytes s)) as (k & Hk & Hkl & Hdrop); [by destruct s|done|].
  rewrite length_str_bytes in *. assert (is_char_boundary s k = true) as Hb.
  { destruct k as [|k]; [done|]. unfold is_char_boundary. destruct (str_bytes s !! S k) as [a|] eqn:Ha.
    - rewrite (drop_S _ a _ Ha) in Hdrop. by apply utf8_start in Hdrop.
    - apply lookup_ge_None in Ha. rewrite length_str_bytes in Ha. lia. }
  pose proof (boundary_below_ge s k n Hb). lia.
Qed.

Section memo_laws.
Context (blake3 : list Z → list Z).
Context (blake3_bytes : ∀ m, Forall is_u8 (blake3 m)) (blake3_length : ∀ m, length (blake3 m) = 32%nat).

Lemma resource_memo_hash_hex r :
  Forall is_hex (str_bytes (resource_memo_hash blake3 r)) ∧ String.length (resource_memo_hash blake3 r) = RESOURCE_MEMO_TRUNC_HASH_HEX_LEN.
Proof. apply hex_prefix; [apply blake3_bytes|]. rewrite blake3_length. unfold RESOURCE_MEMO_TRUNC_HASH_HEX_LEN. lia. Qed.

(** The two shapes of a memo: the whole resource and the nonce, or the start
    of the resource, its hash and the nonce. *)
Definition is_nonce (nonce : string) : Prop :=
  Forall is_hex (str_bytes nonce) ∧ String.length nonce = RESOURCE_MEMO_NONCE_HEX_LEN.
Inductive memo_shape (r : string) (max_bytes : nat) : string → Prop :=
  | memo_whole nonce :
      is_nonce nonce → (String.length (r +:+ String hash_sign nonce) ≤ max_bytes)%nat →
      memo_shape r max_bytes (r +:+ String hash_sign nonce)
  | memo_truncated nonce n :
      is_nonce nonce → prefix_len max_bytes = Some n → (n < String.length r)%nat → truncate_to_char_boundary r n ≠ "" →
      memo_shape r max_bytes
        (truncate_to_char_boundary r n +:+ String hash_sign ("t" +:+ resource_memo_hash blake3 r +:+ nonce)).

Lemma prefix_len_Some max_bytes n : prefix_len max_bytes = Some n → max_bytes = (n + RESOURCE_MEMO_TRUNC_SUFFIX_LEN)%nat.
Proof. unfold prefix_len. destruct (Nat.leb_spec RESOURCE_MEMO_TRUNC_SUFFIX_LEN max_bytes); [|done]. intros [= <-]. lia. Qed.

Lemma nonce_of random : Forall is_u8 random → length random = 2%nat →
  is_nonce (String.substring 0 RESOURCE_MEMO_NONCE_HEX_LEN (hash_hex random)).
Proof. intros Hu Hl. apply hex_prefix; [done|]. rewrite Hl. unfold RESOURCE_MEMO_NONCE_HEX_LEN. lia. Qed.

Lemma resource_memo_shape random r max_bytes memo :
  Forall is_u8 random → length random = 2%nat →
  resource_memo_with_nonce blake3 random (Some r) max_bytes = Some memo → memo_shape (trim r) max_bytes memo.
Proof.
  intros Hu Hl. cbn [resource_memo_with_nonce mbind option_bind]. case_bool_decide; [done|].
  pose proof (nonce_of random Hu Hl) as [Hhex Hlen].
  set (nonce := String.substring 0 RESOURCE_MEMO_NONCE_HEX_LEN (hash_hex random)) in *.
  destruct (Nat.leb_spec (String.length (trim r +:+ "#" +:+ nonce)) max_bytes) as [Hle|Hgt].
  { intros [= <-]. by apply memo_whole. }
  destruct (prefix_len max_bytes) as [n|] eqn:Hn; [|done]. cbn [mbind option_bind].
  case_bool_decide as Hp; [done|]. intros [= <-].
  apply memo_truncated; [done|done| |done]. apply prefix_len_Some in Hn.
  rewrite !length_string_app, Hlen in Hgt. rewrite Hn in Hgt. cbn in Hgt. lia.
Qed.

Lemma memo_shape_fits r max_bytes memo : memo_shape r max_bytes memo → (String.length memo ≤ max_bytes)%nat.
Proof.
  intros [nonce _ Hle|nonce n [_ Hnonce] ->%prefix_len_Some _ _]; [done|].
  rewrite !length_string_app. cbn [String.length]. rewrite !length_string_app, Hnonce.
  destruct (resource_memo_hash_hex r) as [_ ->]. pose proof (truncate_length r n). cbn. lia.
Qed.

(** What the matcher accepts of each shape. *)
Lemma matches_whole p nonce r max_bytes : is_nonce nonce →
  resource_memo_matches blake3 (p +:+ String hash_sign nonce) r max_bytes = true ↔ p +:+ String hash_sign nonce = r ∨ p = r.
Proof.
  intros [Hhex Hlen]. unfold resource_memo_matches. case_bool_decide as Heq; [by split; [left|]|].
  rewrite (proj2 (rsplit_once_Some _ _ p nonce)) by (split; [done|by apply hex_no_hash]).
  rewrite Hlen, Nat.eqb_refl, forallb_hex by done. cbn [andb]. case_bool_decide as Hp; [by split; [right|]|].
  split; [|naive_solver]. destruct (strip_prefix "t" nonce) as [b|] eqn:Hb; [|done]. exfalso.
  apply strip_prefix_Some in Hb as ->. rewrite str_bytes_app in Hhex. apply Forall_cons in Hhex as [Ht _].
  revert Ht. apply (bool_decide_unpack (¬ is_hex _)). by vm_compute.
Qed.

Lemma strip_prefix_app p s : strip_prefix p (p +:+ s) = Some s.
Proof. by apply strip_prefix_Some. Qed.

Lemma starts_with_app_same_length p q s : String.length p = String.length q → starts_with p (q +:+ s) = bool_decide (p = q).
Proof.
  intros Hl. apply eq_bool_prop_intro. rewrite Is_true_true, starts_with_true. rewrite bool_decide_spec. split; [|by intros ->; exists s].
  intros [t E]. apply (f_equal str_bytes) in E. rewrite !str_bytes_app in E. apply app_inj_1 in E as [E _]; [|by rewrite !length_str_bytes].
  by apply str_bytes_inj in E.
Qed.

Lemma matches_truncated p h nonce r max_bytes :
  is_nonce nonce → Forall is_hex (str_bytes h) → String.length h = RESOURCE_MEMO_TRUNC_HASH_HEX_LEN →
  let memo := p +:+ String hash_sign ("t" +:+ h +:+ nonce) in
  resource_memo_matches blake3 memo r max_bytes = true ↔
  memo = r ∨ (h = resource_memo_hash blake3 r ∧ (String.length memo ≤ max_bytes)%nat ∧
    ∃ n, prefix_len max_bytes = Some n ∧ (n < String.length r)%nat ∧ p ≠ "" ∧ p = truncate_to_char_boundary r n).
Proof.
  intros [Hhex Hlen] Hh Hl memo. unfold resource_memo_matches. case_bool_decide as Heq; [by split; [left|]|].
  assert (Forall is_hex (str_bytes (h +:+ nonce))) as Hb by (rewrite str_bytes_app; by apply Forall_app).
  rewrite (proj2 (rsplit_once_Some _ _ p ("t" +:+ h +:+ nonce))).
  2: { split; [done|]. rewrite str_bytes_app. apply not_elem_of_app. split; [|by apply hex_no_hash].
       by intros Ht%list_elem_of_singleton. }
  rewrite !length_string_app, Hlen, Hl. cbn [String.length Nat.add Nat.eqb andb RESOURCE_MEMO_NONCE_HEX_LEN RESOURCE_MEMO_TRUNC_HASH_HEX_LEN].
  rewrite strip_prefix_app, length_string_app, Hl, Hlen, forallb_hex by done.
  destruct (resource_memo_hash_hex r) as [_ Hr]. rewrite starts_with_app_same_length by congruence.
  rewrite Nat.eqb_refl. cbn [negb orb]. case_bool_decide as Hhash; cbn [negb]; [|naive_solver].
  destruct (prefix_len max_bytes) as [n|]; [|naive_solver].
  rewrite !andb_true_iff, Nat.ltb_lt, Nat.leb_le, negb_true_iff, bool_decide_eq_false, bool_decide_eq_true. split; [|naive_solver].
  intros [[[Hn Hne] ->] Hm]. right. naive_solver.
Qed.

(** Every named resource gets a memo that fits the limit and that its own
    resource accepts, whatever the nonce: in full where there is room, by a
    prefix and a hash where there is not (15 bytes are always enough). *)
Theorem resource_memo_roundtrip random r max_bytes :
  Forall is_u8 random → length random = 2%nat → is_utf8 (str_bytes (trim r)) = true → trim r ≠ "" → (15 ≤ max_bytes)%nat →
  ∃ memo, resource_memo_with_nonce blake3 random (Some r) max_bytes = Some memo ∧
    (String.length memo ≤ max_bytes)%nat ∧ resource_memo_matches blake3 memo (trim r) max_bytes = true.
Proof.
  intros Hu Hl Hutf Hne Hmax.
  assert (is_Some (resource_memo_with_nonce blake3 random (Some r) max_bytes)) as [memo Hmemo].
  { cbn [resource_memo_with_nonce mbind option_bind]. rewrite bool_decide_eq_false_2 by done.
    destruct (_ <=? _)%nat; [done|]. assert (prefix_len max_bytes = Some (max_bytes - 11)%nat) as ->.
    { unfold prefix_len. destruct (Nat.leb_spec RESOURCE_MEMO_TRUNC_SUFFIX_LEN max_bytes) as [|Hlt]; [done|].
      change RESOURCE_MEMO_TRUNC_SUFFIX_LEN with 11%nat in Hlt. lia. }
    cbn [mbind option_bind]. rewrite bool_decide_eq_false_2; [done|]. apply truncate_nonempty; [done|done|lia]. }
  exists memo. split; [done|]. apply resource_memo_shape in Hmemo; [|done..]. pose proof (memo_shape_fits _ _ _ Hmemo) as Hfits.
  split; [done|]. destruct Hmemo as [nonce Hnonce _|nonce n Hnonce Hn Hlt Htr]; [by apply matches_whole; [|right]|].
  destruct (resource_memo_hash_hex (trim r)) as [Hh Hhl]. apply matches_truncated; [done|done|done|].
  right. split; [done|]. split; [done|]. by exists n.
Qed.

(** A memo made for one resource is accepted for another only if the two
    agree on everything the memo carries: the resource itself, or the same
    prefix and the same hash; or the other resource is the memo text. *)
Theorem resource_memo_binds random r' r max_bytes memo :
  Forall is_u8 random → length random = 2%nat →
  resource_memo_with_nonce blake3 random (Some r') max_bytes = Some memo →
  resource_memo_matches blake3 memo r max_bytes = true →
  memo = r ∨ trim r' = r ∨
  (resource_memo_hash blake3 (trim r') = resource_memo_hash blake3 r ∧
   ∃ n, prefix_len max_bytes = Some n ∧ (n < String.length r)%nat ∧ (n < String.length (trim r'))%nat ∧
     truncate_to_char_boundary (trim r') n = truncate_to_char_boundary r n).
Proof.
  intros Hu Hl Hmemo Hm. apply resource_memo_shape in Hmemo; [|done..].
  destruct Hmemo as [nonce Hnonce _|nonce n Hnonce Hn Hlt Htr].
  { apply matches_whole in Hm as [?|?]; [by left|by right; left|done]. }
  destruct (resource_memo_hash_hex (trim r')) as [Hh Hhl].
  apply matches_truncated in Hm as [?|(Hhash & _ & n' & Hn' & Hlt' & _ & Htr')]; [by left| |done..].
  right; right. split; [done|]. exists n. assert (n' = n) as -> by congruence. done.
Qed.
End memo_laws.

(** A path that does not fit in twenty bytes, and one that does. *)
Module SampleMemo.
Definition blake3 (m : list Z) : list Z := replicate 32 (foldl (λ h b, (h * 31 + b) mod 256) 7 m).
Lemma blake3_bytes m : Forall is_u8 (blake3 m).
Proof.
  apply Forall_replicate. unfold in_range. change (2 ^ 8) with 256.
  generalize 7 as h, (eq_refl : 7 mod 256 = 7). induction m as [|b m IH]; intros h Hh; cbn [foldl].
  - rewrite <-Hh. by apply Z.mod_pos_bound.
  - apply IH. by rewrite Z.mod_mod.
Qed.
Lemma blake3_length m : length (blake3 m) = 32%nat.
Proof. apply length_replicate. Qed.

Lemma resource_memo_roundtrip_witness :
  resource_memo_with_nonce blake3 [171; 205] (Some " /v1/reports/quarterly ") 20 = Some "/v1/repor#t5d5d5dabc" ∧
  ∃ memo, resource_memo_with_nonce blake3 [171; 205] (Some " /v1/reports/quarterly ") 20 = Some memo ∧
    (String.length memo ≤ 20)%nat ∧ resource_memo_matches blake3 memo "/v1/reports/quarterly" 20 = true.
Proof.
  split; [by vm_compute|].
  apply (resource_memo_roundtrip blake3 blake3_bytes blake3_length [171; 205] " /v1/reports/quarterly " 20);
    [by repeat constructor|done|by vm_compute|by vm_compute|lia].
Defined.

Lemma resource_memo_binds_witness :
  resource_memo_with_nonce blake3 [171; 205] (Some " fortune ") 20 = Some "fortune#abc" ∧
  ("fortune#abc" = "fortune" ∨ trim " fortune " = "fortune" ∨
   (resource_memo_hash blake3 (trim " fortune ") = resource_memo_hash blake3 "fortune" ∧
    ∃ n, prefix_len 20 = Some n ∧ (n < String.length "fortune")%nat ∧ (n < String.length (trim " fortune "))%nat ∧
      truncate_to_char_boundary (trim " fortune ") n = truncate_to_char_boundary "fortune" n)).
Proof.
  split; [by vm_compute|].
  apply (resource_memo_binds blake3 blake3_bytes blake3_length [171; 205] " fortune " "fortune" 20 "fortune#abc");
    [by repeat constructor|done|by vm_compute|by vm_compute].
Defined.
End SampleMemo.
