(* ===== verification/ApiSpecs.v ===== *)
(** * ApiSpecs: a provider's configuration and its checks

    The API specification of [types/src/metering.rs], the scheme defaults and
    the checks it goes through when it is loaded ([validate_api_spec] and what
    it calls), and the session splits resolved from it when the gateway boots
    ([cli/src/commands/server/start.rs]).  The gateway refuses to start on a
    specification with issues, so what the gate serves has passed these
    checks. *)
From S2P Require Import Prelude F64 MeteringTypes Text Affixes PushManifest Routes ChargeTerms UpstreamAuth.
#[local] Open Scope string_scope.
#[local] Open Scope list_scope.
#[local] Open Scope Z_scope.

(** ** Configuration *)
Record OperatorConfig := {
  op_recipient : option string;
  op_network : option string;
  op_fee_payer : bool;
  op_challenge_binding_secret : option string;
  op_realm : option string;
  op_credit_providers : list string
}.
Inductive SessionVoucherSigner := ClientSigner | OperatorSigner.
Record SessionSpec := {
  cap_usdc : f64;
  min_voucher_delta : Z;
  voucher_signer : SessionVoucherSigner;
  idle_timeout_options_seconds : option (list Z);
  close_delay_ms : Z;
  close_batch_interval_ms : Z;
  settlement_interval_ms : Z;
  session_splits : list SplitRule;
  reuse_from_chain : bool
}.
Record BatchSettlementSpec := {
  batch_settlement_interval_ms : Z;
  idle_settlement_delay_ms : Z;
  distribution_threshold_base_units : option Z
}.
Record ApiSpec := {
  api_subdomain : string;
  api_routing : RoutingConfig;
  api_endpoints : list Endpoint;
  api_operator : option OperatorConfig;
  api_recipients : gmap string RecipientAlias;
  api_session : option SessionSpec;
  api_batch_settlement : option BatchSettlementSpec
}.

(** An endpoint that names no schemes takes those the specification has
    parameters for. *)
Definition default_schemes (has_session has_batch_settlement : bool) : list Scheme :=
  [MppCharge] ++ (if has_session then [MppSession] else []) ++ (if has_batch_settlement then [X402BatchSettlement] else []).
Definition with_schemes (schemes : list Scheme) (e : Endpoint) : Endpoint := {|
  ep_method := ep_method e; ep_path := ep_path e; ep_description := ep_description e; ep_resource := ep_resource e;
  ep_routing := ep_routing e; ep_subscription := ep_subscription e;
  ep_metering := (λ m, match m_schemes m with
    | Some _ => m
    | None => {| m_dimensions := m_dimensions m; m_variants := m_variants m; m_sku_tiers := m_sku_tiers m; m_splits := m_splits m;
                 m_schemes := Some schemes; m_min_usd := m_min_usd m; m_upto := m_upto m |}
    end) <$> ep_metering e |}.
Definition apply_scheme_defaults (api : ApiSpec) : ApiSpec := {|
  api_subdomain := api_subdomain api; api_routing := api_routing api; api_operator := api_operator api; api_recipients := api_recipients api;
  api_session := api_session api; api_batch_settlement := api_batch_settlement api;
  api_endpoints := map (with_schemes (default_schemes (bool_decide (is_Some (api_session api)))
                                        (bool_decide (is_Some (api_batch_settlement api))))) (api_endpoints api) |}.

(** ** Issues

    One constructor for each message of the source, with what the message
    shows; [variant] is the label of a variant, empty at the top level. *)
Record SetLabel := { label_variant : string; label_per_unit : option f64 }.
Inductive SpecIssue :=
  | AuthIssue (message : string)
  | MeteringAndSubscription (path : string)
  | SplitsWithoutPricing (path : string)
  | SplitsReachPrice (path : string) (splits_total min_price : f64)
  | SplitRecipientUnknown (path recipient : string)
  | SplitAmbiguous (path recipient : string)
  | SplitEmpty (path recipient : string)
  | TierSplitsNeedOneDimension (path variant : string)
  | TierRecipientUnknown (path variant : string) (per_unit : f64) (recipient : string)
  | TierSplitAmbiguous (path variant : string) (per_unit : f64) (recipient : string)
  | TierSplitEmpty (path variant : string) (per_unit : f64) (recipient : string)
  | TierSplitsReachPrice (path variant : string) (per_unit total : f64)
  | SessionRecipientRepeats (path : string) (label : SetLabel) (account recipient : string)
  | ChargeLegRepeats (path : string) (label : SetLabel) (recipient account memo : string)
  | BucketPriceTooSmall (path variant : string) (price : f64) (scale : Z)
  | UnitPriceTooSmall (path variant : string) (per_unit price : f64) (scale : Z)
  | UptoNeedsCeiling (path : string)
  | FixedSchemesCannotMeter (path : string) (fixed : list Scheme)
  | SessionSplitUsesAmount (recipient : string)
  | SessionSplitNeedsPercent (recipient : string)
  | SessionSplitNotPositive (recipient : string)
  | SessionSplitOutOfRange (recipient : string)
  | SessionSplitRecipientUnknown (recipient : string)
  | SessionSplitRecipientRepeats (recipient account : string)
  | SessionSplitsTakeEverything
  | CloseIntervalNotWholeMinutes
  | DistributionThresholdZero.

Definition when (c : bool) (issue : SpecIssue) : list SpecIssue := if c then [issue] else [].

(** ** Prices *)

(** [Iterator::sum] of [f64] starts from negative zero. *)
Definition f64_sum (l : list f64) : f64 := foldl f64_add (S754_zero true) l.
(** [f64::partial_cmp] with equality where there is no order, and
    [Iterator::min_by]: the first of the minimal elements. *)
Definition partial_cmp (x y : f64) : comparison := default Eq (SFcompare x y).
Definition min_by {A} (cmp : A → A → comparison) (l : list A) : option A :=
  match l with
  | [] => None
  | x :: l => Some (foldl (λ best y, match cmp best y with Gt => y | _ => best end) x l)
  end.

Definition scale_of (d : MeterDimension) : f64 := f64_of_Z (Z.max (dim_scale d) 1).
Definition min_nonzero_per_unit_price (dimensions : list MeterDimension) : f64 :=
  default f64_zero (min_by partial_cmp (filter (λ p, f64_gtb p f64_zero = true)
    (flat_map (λ d, map (λ t, f64_div (price_usd t) (scale_of d)) (dim_tiers d)) dimensions))).

(** What split rules take of a price. *)
Definition splits_of (price : f64) (rules : list SplitRule) : f64 :=
  f64_add (f64_sum (omap split_amount rules))
    (f64_mul (f64_div (f64_sum (omap split_percent rules)) (f64_of_Z 100)) price).

Definition validate_splits_have_pricing (m : Metering) (path : string) : list SpecIssue :=
  when (negb (bool_decide (length (m_splits m) = 0%nat)) && bool_decide (length (m_dimensions m) = 0%nat) &&
        bool_decide (length (m_variants m) = 0%nat)) (SplitsWithoutPricing path).

Definition validate_splits_within_price (m : Metering) (path : string) : list SpecIssue :=
  if bool_decide (length (m_splits m) = 0%nat) then []
  else
    let min_price := min_nonzero_per_unit_price (m_dimensions m) in
    if SFeqb min_price f64_zero then []
    else
      let splits_total := splits_of min_price (m_splits m) in
      when (f64_geb splits_total min_price) (SplitsReachPrice path splits_total min_price).

(** ** Split rules *)
Definition unknown (recipients : gmap string RecipientAlias) (rule : SplitRule) : bool :=
  bool_decide (recipients !! split_recipient rule = None).
Definition rule_issue (both neither : SpecIssue) (rule : SplitRule) : list SpecIssue :=
  match split_amount rule, split_percent rule with
  | Some _, Some _ => [both]
  | None, None => [neither]
  | _, _ => []
  end.

Definition validate_split_recipients (m : Metering) (recipients : gmap string RecipientAlias) (path : string) : list SpecIssue :=
  flat_map (λ split, when (unknown recipients split) (SplitRecipientUnknown path (split_recipient split))) (m_splits m).
Definition validate_split_rules (m : Metering) (path : string) : list SpecIssue :=
  flat_map (λ split, rule_issue (SplitAmbiguous path (split_recipient split)) (SplitEmpty path (split_recipient split)) split) (m_splits m).

Definition variant_label (v : MeterVariant) : string := " (variant " +:+ variant_param v +:+ "=" +:+ variant_value v +:+ ")".

Definition validate_tier (recipients : gmap string RecipientAlias) (path variant : string) (d : MeterDimension) (tier : PriceTier) :
    list SpecIssue :=
  if bool_decide (length (tier_splits tier) = 0%nat) then []
  else
    let per_unit := f64_div (price_usd tier) (scale_of d) in
    flat_map (λ split,
      when (unknown recipients split) (TierRecipientUnknown path variant per_unit (split_recipient split)) ++
      rule_issue (TierSplitAmbiguous path variant per_unit (split_recipient split))
        (TierSplitEmpty path variant per_unit (split_recipient split)) split) (tier_splits tier) ++
    (if f64_gtb per_unit f64_zero then
       let total := splits_of per_unit (tier_splits tier) in
       when (f64_geb total per_unit) (TierSplitsReachPrice path variant per_unit total)
     else []).
Definition has_tier_splits (d : MeterDimension) : bool :=
  existsb (λ t, negb (bool_decide (length (tier_splits t) = 0%nat))) (dim_tiers d).
Definition validate_tier_splits_in (dimensions : list MeterDimension) (recipients : gmap string RecipientAlias) (path variant : string) :
    list SpecIssue :=
  when ((1 <? length dimensions)%nat && existsb has_tier_splits dimensions) (TierSplitsNeedOneDimension path variant) ++
  flat_map (λ d, flat_map (validate_tier recipients path variant d) (dim_tiers d)) dimensions.

(** The top-level dimensions, then each variant's. *)
Definition dimension_sets (m : Metering) : list (string * list MeterDimension) :=
  ("", m_dimensions m) :: map (λ v, (variant_label v, variant_dimensions v)) (m_variants m).
Definition validate_tier_splits (m : Metering) (recipients : gmap string RecipientAlias) (path : string) : list SpecIssue :=
  flat_map (λ '(variant, dimensions), validate_tier_splits_in dimensions recipients path variant) (dimension_sets m).

(** ** Repeated recipients *)
Definition account_of (recipients : gmap string RecipientAlias) (alias : string) : string :=
  default alias (alias_account <$> recipients !! alias).

(** The elements whose key an earlier one has. *)
Fixpoint repeats {A K} `{EqDecision K} (key : A → K) (l : list A) (seen : list K) : list A :=
  match l with
  | [] => []
  | x :: l => if bool_decide (key x ∈ seen) then x :: repeats key l seen else repeats key l (seen ++ [key x])
  end.

(** A split set, labelled by the variant and the tier it belongs to; each is
    checked on its own. *)
Definition tier_sets (variant : string) (dimensions : list MeterDimension) : list (SetLabel * list SplitRule) :=
  flat_map (λ d, omap (λ t,
    if bool_decide (length (tier_splits t) = 0%nat) then None
    else Some ({| label_variant := variant; label_per_unit := Some (f64_div (price_usd t) (scale_of d)) |}, tier_splits t))
    (dim_tiers d)) dimensions.
Definition split_sets (m : Metering) : list (SetLabel * list SplitRule) :=
  ({| label_variant := ""; label_per_unit := None |}, m_splits m) ::
  flat_map (λ '(variant, dimensions), tier_sets variant dimensions) (dimension_sets m).

Definition session_key (recipients : gmap string RecipientAlias) (split : SplitRule) : string := account_of recipients (split_recipient split).
Definition charge_key (recipients : gmap string RecipientAlias) (split : SplitRule) : string * string :=
  (account_of recipients (split_recipient split), default "" (split_memo split)).
Definition validate_split_recipient_uniqueness (m : Metering) (recipients : gmap string RecipientAlias) (has_session_scheme : bool)
    (path : string) : list SpecIssue :=
  flat_map (λ '(label, splits),
    if has_session_scheme then
      map (λ split, SessionRecipientRepeats path label (session_key recipients split) (split_recipient split))
        (repeats (session_key recipients) splits [])
    else
      map (λ split, ChargeLegRepeats path label (split_recipient split) (charge_key recipients split).1 (charge_key recipients split).2)
        (repeats (charge_key recipients) splits [])) (split_sets m).

(** ** Schemes and precision *)
Definition is_fixed_scheme (s : Scheme) : bool :=
  match s with MppCharge | X402Exact | X402BatchSettlement => true | _ => false end.
Definition validate_fixed_scheme_dimensions (m : Metering) (path : string) : list SpecIssue :=
  let fixed := filter (λ s, is_fixed_scheme s = true) (accepted_schemes m) in
  if bool_decide (fixed = []) then []
  else when (has_aggregate_dimensions m) (FixedSchemesCannotMeter path fixed).

Definition validate_upto_ceiling (m : Metering) (path : string) : list SpecIssue :=
  let unbounded := (1 <? length (m_dimensions m))%nat || existsb (λ v, (1 <? length (variant_dimensions v))%nat) (m_variants m) ||
                   has_aggregate_dimensions m in
  when (unbounded && bool_decide (X402Upto ∈ accepted_schemes m) &&
        match m_upto m ≫= upto_max with None => true | Some _ => false end) (UptoNeedsCeiling path).

Definition check_dimension_precision (threshold : f64) (path variant : string) (d : MeterDimension) : list SpecIssue :=
  let aggregate := bool_decide (dim_unit d = Tokens) || bool_decide (is_Some (dim_meter d)) in
  flat_map (λ t,
    if f64_leb (price_usd t) f64_zero then []
    else if aggregate then
      when (f64_ltb (price_usd t) threshold) (BucketPriceTooSmall path variant (price_usd t) (dim_scale d))
    else
      let per_unit := f64_div (price_usd t) (scale_of d) in
      when (f64_ltb per_unit threshold) (UnitPriceTooSmall path variant per_unit (price_usd t) (dim_scale d))) (dim_tiers d).
Definition validate_price_precision (m : Metering) (path : string) : list SpecIssue :=
  (** [10f64.powi(-6)]. *)
  let threshold := f64_div (f64_of_Z 1) (f64_pow10 6) in
  flat_map (λ '(variant, dimensions), flat_map (check_dimension_precision threshold path variant) dimensions) (dimension_sets m).

(** ** Session splits *)
Definition f64_as_u32 (x : f64) : Z := Z.min (2 ^ 32 - 1) (f64_as_u64 x).
Definition f64_as_u16 (x : f64) : Z := Z.min (2 ^ 16 - 1) (f64_as_u64 x).
Definition basis_points_of (percent : f64) : f64 := f64_round (f64_mul percent (f64_of_Z 100)).
(** [(1.0..10_000.0).contains(&bps)]. *)
Definition bps_in_range (bps : f64) : bool := f64_geb bps (f64_of_Z 1) && f64_ltb bps (f64_of_Z 10000).

Fixpoint validate_session_rules (rules : list SplitRule) (recipients : gmap string RecipientAlias) (total_bps : Z) (seen : list string) :
    list SpecIssue * Z :=
  match rules with
  | [] => ([], total_bps)
  | rule :: rules =>
      let name := split_recipient rule in
      let amount_set := bool_decide (is_Some (split_amount rule)) in
      let '(percent_issues, total_bps) :=
        match split_percent rule with
        | None => (when (negb amount_set) (SessionSplitNeedsPercent name), total_bps)
        | Some p =>
            if negb (f64_is_finite p) || f64_leb p f64_zero then ([SessionSplitNotPositive name], total_bps)
            else
              let bps := basis_points_of p in
              if negb (bps_in_range bps) then ([SessionSplitOutOfRange name], total_bps)
              else ([], wrapping 32 (total_bps + f64_as_u32 bps))
        end in
      let '(recipient_issues, seen) :=
        match recipients !! name with
        | None => ([SessionSplitRecipientUnknown name], seen)
        | Some alias =>
            if bool_decide (alias_account alias ∈ seen) then ([SessionSplitRecipientRepeats name (alias_account alias)], seen)
            else ([], seen ++ [alias_account alias])
        end in
      let '(issues, total_bps) := validate_session_rules rules recipients total_bps seen in
      (when amount_set (SessionSplitUsesAmount name) ++ percent_issues ++ recipient_issues ++ issues, total_bps)
  end.
Definition validate_session_splits (session : SessionSpec) (recipients : gmap string RecipientAlias) : list SpecIssue :=
  let '(issues, total_bps) := validate_session_rules (session_splits session) recipients 0 [] in
  issues ++ when (10000 <=? total_bps) SessionSplitsTakeEverything.

(** ** The whole specification *)
Definition validate_routing_auth (routing : RoutingConfig) (context : string) : list SpecIssue :=
  match routing_auth routing with
  | None => []
  | Some auth => map AuthIssue (validate_auth_config auth context)
  end.

Definition has_session_scheme (api : ApiSpec) (m : Metering) : bool :=
  match m_schemes m with Some schemes => existsb is_session schemes | None => bool_decide (is_Some (api_session api)) end.

Definition validate_metering (api : ApiSpec) (m : Metering) (path : string) : list SpecIssue :=
  validate_splits_have_pricing m path ++
  validate_splits_within_price m path ++
  validate_split_recipients m (api_recipients api) path ++
  validate_split_rules m path ++
  validate_tier_splits m (api_recipients api) path ++
  validate_split_recipient_uniqueness m (api_recipients api) (has_session_scheme api m) path ++
  validate_price_precision m path ++
  validate_upto_ceiling m path ++
  validate_fixed_scheme_dimensions m path.

Definition validate_endpoint (api : ApiSpec) (e : Endpoint) : list SpecIssue :=
  match ep_routing e with
  | Some routing => validate_routing_auth routing ("endpoint `" +:+ ep_path e +:+ "` routing auth")
  | None => []
  end ++
  when (bool_decide (is_Some (ep_metering e)) && bool_decide (is_Some (ep_subscription e))) (MeteringAndSubscription (ep_path e)) ++
  match ep_metering e with Some m => validate_metering api m (ep_path e) | None => [] end.

Definition validate_session (session : SessionSpec) (recipients : gmap string RecipientAlias) : list SpecIssue :=
  validate_session_splits session recipients ++
  when ((0 <? close_delay_ms session) &&
        ((close_batch_interval_ms session <? 60000) || negb (close_batch_interval_ms session mod 60000 =? 0))) CloseIntervalNotWholeMinutes.

Definition validate_api_spec (api : ApiSpec) : list SpecIssue :=
  validate_routing_auth (api_routing api) "routing auth" ++
  flat_map (validate_endpoint api) (api_endpoints api) ++
  match api_session api with Some session => validate_session session (api_recipients api) | None => [] end ++
  when (bool_decide ((api_batch_settlement api ≫= distribution_threshold_base_units) = Some 0)) DistributionThresholdZero.

(** ** Session splits at boot *)
Section boot.
(** [std::env::var] and [Pubkey::from_str]. *)
Context (env_var : string → option string) (pubkey_from_str : string → result string Pubkey).

Definition account_env_var (account : string) : option string := strip_prefix "${" account ≫= strip_suffix "}".
Definition resolve_static_account (account : string) : result string string :=
  match account_env_var account with
  | Some name =>
      match env_var name with
      | Some (String _ _ as value) => Ok value
      | _ => Err ("session split account references unset environment variable `" +:+ name +:+ "`")
      end
  | None => Ok account
  end.

(** PayKit's [Split]: a recipient and its basis points. *)
Definition SessionSplit : Type := Pubkey * Z.

Definition resolve_session_rule (recipients : gmap string RecipientAlias) (rule : SplitRule) (total_bps : Z) :
    result string (SessionSplit * Z) :=
  let name := split_recipient rule in
  _ ← reject_if (bool_decide (is_Some (split_amount rule)))
        ("session split `" +:+ name +:+ "` uses `amount`; session channel splits must use `percent`");
  percent ← ok_or (split_percent rule) ("session split `" +:+ name +:+ "` must set `percent`");
  _ ← reject_if (negb (f64_is_finite percent)) ("session split `" +:+ name +:+ "` percent must be a finite number");
  _ ← reject_if (f64_leb percent f64_zero) ("session split `" +:+ name +:+ "` percent must be positive");
  let bps := basis_points_of percent in
  _ ← reject_if (negb (bps_in_range bps)) ("session split `" +:+ name +:+ "` percent must convert to 1..9999 basis points");
  let bps := f64_as_u16 bps in
  let total_bps := wrapping 16 (total_bps + bps) in
  _ ← reject_if (10000 <=? total_bps) "session splits must leave a positive primary recipient share";
  alias ← ok_or (recipients !! name) ("session split references unknown recipient `" +:+ name +:+ "`");
  account ← resolve_static_account (alias_account alias);
  recipient ← map_err (λ e, "session split `" +:+ name +:+ "` recipient is not a valid Solana pubkey: " +:+ e) (pubkey_from_str account);
  Ok ((recipient, bps), total_bps).

Definition resolve_session_splits (api : ApiSpec) (session : SessionSpec) : result string (list SessionSplit) :=
  '(splits, _) ← try_fold (λ '(splits, total_bps) rule,
    '(split, total_bps) ← resolve_session_rule (api_recipients api) rule total_bps;
    Ok (splits ++ [split], total_bps)) ([], 0) (session_splits session);
  Ok splits.
End boot.
