(* ===== verification/FanoutRpc.v ===== *)
(** * FanoutRpc: what the payout command reads from the chain

    The [FanoutRpc] client of [cli/src/commands/fanout.rs].  A node is a state
    [R] that answers each JSON-RPC request and moves on, so that the reads of
    one command are answered at successive instants. *)
From stdpp Require Import sorting.
From S2P Require Import Prelude Text Landing PushManifest PushPlanner PushPermit PushJournal PushExecutor.
#[local] Open Scope string_scope.
#[local] Open Scope list_scope.
#[local] Open Scope Z_scope.

(** ** Reads of the chain *)
Record MintInfo := {
  info_token_program : Pubkey;
  info_decimals : Z
}.

Section rpc.
(** A request is answered with a body, unless the transport fails or the
    body is not JSON. *)
Context `{Kit} {R : Type} (post : R → json → R * result string (result string json)).
Context (json_text : json → string) (pubkey_text : Pubkey → string).
Context (pubkey_from_str : string → result string Pubkey) (base58_decode : string → result string (list Z)).

Definition rpc (A : Type) : Type := R → R * res A.
#[local] Instance rpc_ret : MRet rpc := λ A a r, (r, Ok a).
#[local] Instance rpc_bind : MBind rpc := λ A B k m r,
  match m r with (r', Ok a) => k a r' | (r', Err e) => (r', Err e) end.
Definition answer {A} (a : res A) : rpc A := λ r, (r, a).

Definition call (method : string) (params : list json) : rpc json := λ r,
  let '(r, response) := post r (rpc_request method params) in
  (r, response ← map_err (λ e, Config (method +:+ " transport failed: " +:+ e)) response;
      body ← map_err (λ e, Config (method +:+ " returned invalid JSON: " +:+ e)) response;
      match json_get body "error" with
      | Some error => Err (Config (method +:+ " RPC error: " +:+ json_text error))
      | None => ok_or (json_get body "result") (Config (method +:+ " response is missing result"))
      end).

Definition genesis_hash : rpc (list Z) :=
  result ← call "getGenesisHash" [];
  hash ← answer (ok_or (json_str result) (Config "malformed getGenesisHash response"));
  bytes ← answer (map_err (λ e, Config ("invalid genesis hash: " +:+ e)) (base58_decode hash));
  answer (if (length bytes =? 32)%nat then Ok bytes else Err (Config "genesis hash must decode to 32 bytes")).

Definition confirmed_options (encoding : string) : json :=
  JObj [("encoding", JStr encoding); ("commitment", JStr "confirmed")].

(** [get("value")] of an account answer, [null] meaning no account. *)
Definition account_value (result : json) : option json :=
  match json_get result "value" with
  | Some v => if json_is_null v then None else Some v
  | None => None
  end.

Definition mint_info (mint : Pubkey) : rpc MintInfo :=
  result ← call "getAccountInfo" [JStr (pubkey_text mint); confirmed_options "jsonParsed"];
  value ← answer (ok_or (account_value result) (Config ("mint " +:+ pubkey_text mint +:+ " does not exist")));
  owner ← answer (ok_or (json_get value "owner" ≫= json_str) (Config "mint account owner is missing"));
  token_program ← answer (map_err (λ e, Config ("mint token program is invalid: " +:+ e)) (pubkey_from_str owner));
  decimals ← answer (ok_or ((json_pointer value ["data"; "parsed"; "info"; "decimals"] ≫= json_u64) ≫= try_from 8)
               (Config "mint decimals are missing or invalid"));
  mret {| info_token_program := token_program; info_decimals := decimals |}.

Definition associated_token_address (owner mint token_program : Pubkey) : res Pubkey :=
  Ok (find_program_address [owner; token_program; mint] associated_token_program_id).

(** One batch of the snapshot: the existence flag of every address, with the
    row position it belongs to. *)
Definition snapshot_batch (batch : list (nat * Pubkey * Pubkey)) : rpc (list (nat * DestinationAtaStatus)) :=
  result ← call "getMultipleAccounts"
             [JArr (map (λ '(_, _, ata), JStr (pubkey_text ata)) batch); confirmed_options "base64"];
  values ← answer (ok_or (json_get result "value" ≫= json_array)
             (Config "malformed getMultipleAccounts response"));
  _ ← answer (reject_if (negb (length values =? length batch)%nat)
        (Config "getMultipleAccounts returned the wrong number of accounts"));
  mret (zip_with (λ '(index, recipient, ata) value,
          (index, {| dest_recipient := recipient; dest_ata := ata; dest_exists := negb (json_is_null value) |}))
        batch values).

Definition account_exists (address : Pubkey) : rpc bool :=
  result ← call "getAccountInfo" [JStr (pubkey_text address); confirmed_options "base64"];
  mret (bool_decide (is_Some (account_value result))).

Fixpoint snapshot_batches (batches : list (list (nat * Pubkey * Pubkey))) : rpc (list (list (nat * DestinationAtaStatus))) :=
  match batches with
  | [] => mret []
  | batch :: batches =>
      statuses ← snapshot_batch batch;
      rest ← snapshot_batches batches;
      mret (statuses :: rest)
  end.

(** The position of every row with its recipient and token account. *)
Definition indexed_rows (manifest : TransferManifest) (token_program : Pubkey) : res (list (nat * Pubkey * Pubkey)) :=
  try_fold (λ acc '(index, row),
      ata ← associated_token_address (row_recipient row) (ctx_mint (manifest_context manifest)) token_program;
      Ok (acc ++ [(index, row_recipient row, ata)]))
    [] (imap pair (manifest_rows manifest)).

Definition index_le (a b : nat * DestinationAtaStatus) : Prop := (a.1 ≤ b.1)%nat.
#[global] Instance index_le_dec a b : Decision (index_le a b).
Proof. unfold index_le. apply _. Defined.

(** [buffer_unordered] lets the batches complete in any order: [schedule]
    gives it. *)
Definition ata_snapshot (schedule : list (list (nat * Pubkey * Pubkey)) → list (list (nat * Pubkey * Pubkey)))
    (sender : Pubkey) (manifest : TransferManifest) (token_program : Pubkey) : rpc AtaSnapshot :=
  own_ata ← answer (associated_token_address sender (ctx_mint (manifest_context manifest)) token_program);
  indexed ← answer (indexed_rows manifest token_program);
  completed ← snapshot_batches (schedule (slice_chunks 100 indexed));
  let destinations := map snd (merge_sort index_le (concat completed)) in
  own_ata_exists ← account_exists own_ata;
  mret {| sender_ata := own_ata; sender_ata_exists := own_ata_exists; destinations := destinations |}.

Definition token_balance (address : Pubkey) : rpc Z :=
  result ← call "getTokenAccountBalance" [JStr (pubkey_text address); JObj [("commitment", JStr "confirmed")]];
  amount ← answer (ok_or (json_pointer result ["value"; "amount"] ≫= json_str)
             (Config ("token account " +:+ pubkey_text address +:+ " has no raw balance")));
  answer (map_err (λ e, Config ("token balance is invalid: " +:+ e)) (u64_from_str amount)).

Definition sol_balance (address : Pubkey) : rpc Z :=
  result ← call "getBalance" [JStr (pubkey_text address); JObj [("commitment", JStr "confirmed")]];
  answer (ok_or (json_get result "value" ≫= json_u64) (Config "malformed getBalance response")).

Definition read_finalized_tip : rpc ChainTip :=
  info ← call "getEpochInfo" [JObj [("commitment", JStr "finalized")]];
  answer (match json_get info "absoluteSlot" ≫= json_u64, json_get info "blockHeight" ≫= json_u64 with
          | Some slot, Some block_height => Ok {| tip_slot := slot; tip_block_height := block_height |}
          | _, _ => Err (Config "malformed getEpochInfo response")
          end).

Definition malformed_statuses : Error := Config "malformed getSignatureStatuses response".

(** One batch of the status lookup: its context slot and its statuses. *)
Definition status_batch (batch : list string) : rpc (Z * list SignatureStatus) :=
  result ← call "getSignatureStatuses" [JArr (map JStr batch); JObj [("searchTransactionHistory", JBool true)]];
  slot ← answer (ok_or (json_pointer result ["context"; "slot"] ≫= json_u64) malformed_statuses);
  values ← answer (ok_or (json_get result "value" ≫= json_array) malformed_statuses);
  _ ← answer (reject_if (negb (length values =? length batch)%nat) malformed_statuses);
  mret (slot, map signature_status_from_rpc values).

Fixpoint status_batches (batches : list (list string)) (context_slot : Z) (statuses : list SignatureStatus) :
    rpc SignatureStatuses :=
  match batches with
  | [] => mret {| context_slot := context_slot; statuses := statuses |}
  | batch :: batches =>
      found ← status_batch batch;
      status_batches batches (Z.min context_slot found.1) (statuses ++ found.2)
  end.
Definition read_signature_statuses (signatures : list string) : rpc SignatureStatuses :=
  status_batches (slice_chunks 256 signatures) u64_max [].

(** The node's states after [r]. *)
Definition later : R → R → Prop := rtc (λ r r', ∃ body, r' = (post r body).1).

Lemma rpc_bind_Ok {A B} (m : rpc A) (k : A → rpc B) r b :
  ((m ≫= k) r).2 = Ok b ↔ ∃ a, (m r).2 = Ok a ∧ (k a (m r).1).2 = Ok b.
Proof. unfold mbind, rpc_bind. destruct (m r) as [r' [a|e]]; naive_solver. Qed.

Lemma later_bind {A B} (m : rpc A) (k : A → rpc B) r :
  later r (m r).1 → (∀ a r', later r r' → later r (k a r').1) → later r ((m ≫= k) r).1.
Proof. intros Hm Hk. unfold mbind, rpc_bind. destruct (m r) as [r' [a|e]]; [by apply Hk|done]. Qed.

Lemma later_answer {A} (a : res A) r r' : later r r' → later r (answer a r').1.
Proof. done. Qed.

Lemma later_call method params r : later r (call method params r).1.
Proof.
  unfold call. destruct (post r _) as [r' response] eqn:Hp. apply rtc_once. eexists. by rewrite Hp.
Qed.

Lemma status_batch_later batch r : later r (status_batch batch r).1.
Proof.
  unfold status_batch. apply later_bind; [apply later_call|]. intros result r' Hr'.
  unfold mbind, rpc_bind, answer. by repeat case_match; simplify_eq.
Qed.

Lemma finalized_tip_later r : later r (read_finalized_tip r).1.
Proof. unfold read_finalized_tip. apply later_bind; [apply later_call|]. done. Qed.

Lemma status_batch_length batch r f : (status_batch batch r).2 = Ok f → length f.2 = length batch.
Proof.
  unfold status_batch. rewrite rpc_bind_Ok. intros (result & _ & Hf). revert Hf.
  rewrite rpc_bind_Ok. intros (slot & _ & Hf). revert Hf. rewrite rpc_bind_Ok. intros (values & _ & Hf).
  revert Hf. rewrite rpc_bind_Ok. intros (u & Hu & [= <-]). simpl in *. rewrite length_map.
  by apply reject_if_Ok, negb_false_iff, Nat.eqb_eq in Hu.
Qed.

Lemma status_batches_found batches : ∀ slot acc r obs,
  (status_batches batches slot acc r).2 = Ok obs →
  ∃ founds,
    Forall2 (λ batch f, ∃ r', later r r' ∧ (status_batch batch r').2 = Ok f) batches founds ∧
    statuses obs = acc ++ concat (map snd founds) ∧
    context_slot obs ≤ slot ∧ Forall (λ f, context_slot obs ≤ f.1) founds.
Proof.
  induction batches as [|batch batches IH]; intros slot acc r obs Hobs.
  { injection Hobs as <-. exists []. simpl. rewrite app_nil_r. by split_and!. }
  cbn [status_batches] in Hobs. apply rpc_bind_Ok in Hobs as (f & Hf & Hobs).
  pose proof (status_batch_later batch r) as Hlater.
  destruct (IH _ _ _ _ Hobs) as (founds & Hfound & Hst & Hslot & Hmin). exists (f :: founds). split_and!.
  - constructor.
    + exists r. split; [apply rtc_refl|done].
    + eapply Forall2_impl; [exact Hfound|]. intros b g (r' & Hr' & Hg). exists r'. split; [|done].
      etransitivity; [exact Hlater|exact Hr'].
  - rewrite Hst, <- app_assoc. done.
  - lia.
  - constructor; [lia|done].
Qed.

(** *** The snapshot *)
Definition row_of (p : nat * DestinationAtaStatus) : nat * Pubkey * Pubkey :=
  (p.1, dest_recipient p.2, dest_ata p.2).

Lemma snapshot_batch_rows batch r out : (snapshot_batch batch r).2 = Ok out → map row_of out = batch.
Proof.
  unfold snapshot_batch. rewrite rpc_bind_Ok. intros (result & _ & Hf). revert Hf.
  rewrite rpc_bind_Ok. intros (values & _ & Hf). revert Hf. rewrite rpc_bind_Ok. intros (u & Hu & [= <-]).
  simpl in Hu. apply reject_if_Ok, negb_false_iff, Nat.eqb_eq in Hu. clear r result u.
  revert values Hu. induction batch as [|[[i recipient] ata] batch IH]; intros [|v values] Hu; try done.
  simpl. f_equal. apply IH. by injection Hu.
Qed.

Lemma snapshot_batches_rows batches : ∀ r outs,
  (snapshot_batches batches r).2 = Ok outs → map row_of (concat outs) = concat batches.
Proof.
  induction batches as [|batch batches IH]; intros r outs; [by intros [= <-]|].
  cbn [snapshot_batches]. rewrite rpc_bind_Ok. intros (out & Hout & Hf). revert Hf.
  rewrite rpc_bind_Ok. intros (rest & Hrest & [= <-]). simpl.
  rewrite map_app, (snapshot_batch_rows _ _ _ Hout), (IH _ _ Hrest). done.
Qed.

(** The rows with their positions from [n] on. *)
Definition placed (f : TransferRow → Pubkey * Pubkey) (n : nat) (rows : list TransferRow) : list (nat * Pubkey * Pubkey) :=
  imap (λ i row, ((n + i)%nat, (f row).1, (f row).2)) rows.
Definition destination_of (manifest : TransferManifest) (token_program : Pubkey) (row : TransferRow) : Pubkey * Pubkey :=
  (row_recipient row,
   derive_associated_token_address (row_recipient row) (ctx_mint (manifest_context manifest)) token_program).

Lemma placed_cons f n row rows : placed f n (row :: rows) = (n, (f row).1, (f row).2) :: placed f (S n) rows.
Proof.
  unfold placed. rewrite imap_cons, Nat.add_0_r. f_equal. apply imap_ext. intros i x _. simpl.
  by rewrite Nat.add_succ_r.
Qed.

Lemma placed_elem f rows : ∀ n p, p ∈ placed f n rows →
  (n ≤ p.1.1)%nat ∧ ∃ row, rows !! (p.1.1 - n)%nat = Some row ∧ p = (p.1.1, (f row).1, (f row).2).
Proof.
  unfold placed. intros n p (i & row & -> & Hi)%elem_of_lookup_imap_1. simpl. split; [lia|].
  exists row. replace (n + i - n)%nat with i by lia. done.
Qed.

Lemma indexed_rows_Ok manifest token_program :
  indexed_rows manifest token_program =
  Ok (placed (destination_of manifest token_program) 0 (manifest_rows manifest)).
Proof.
  unfold indexed_rows. induction (manifest_rows manifest) as [|row rows IH] using rev_ind; [done|].
  unfold placed in *. rewrite !imap_app, try_fold_app, IH. simpl. done.
Qed.

Definition place_le (a b : nat * Pubkey * Pubkey) : Prop := (a.1.1 ≤ b.1.1)%nat.

Lemma placed_sorted f rows : ∀ n, StronglySorted place_le (placed f n rows).
Proof.
  induction rows as [|row rows IH]; intros n; [constructor|]. rewrite placed_cons. constructor; [done|].
  rewrite Forall_forall. intros p [Hp _]%placed_elem. unfold place_le. simpl. lia.
Qed.

Lemma sorted_rows l : StronglySorted place_le (map row_of (merge_sort index_le l)).
Proof.
  assert (StronglySorted index_le (merge_sort index_le l)) as Hs.
  { apply StronglySorted_merge_sort; [intros x y z; unfold index_le; lia|intros x y; unfold index_le; lia]. }
  induction Hs as [|p l' _ IH Hf]; simpl; constructor; [done|]. rewrite Forall_map. exact Hf.
Qed.

Lemma snapshot_destinations schedule sender manifest token_program r snap :
  (∀ l, schedule l ≡ₚ l) →
  (ata_snapshot schedule sender manifest token_program r).2 = Ok snap →
  map (λ d, (dest_recipient d, dest_ata d)) (destinations snap) =
  map (destination_of manifest token_program) (manifest_rows manifest).
Proof.
  intros Hsched. unfold ata_snapshot. rewrite rpc_bind_Ok. intros (own & _ & Hf). revert Hf.
  rewrite rpc_bind_Ok. intros (indexed & Hi & Hf). revert Hf. rewrite rpc_bind_Ok. intros (completed & Hc & Hf). revert Hf.
  rewrite rpc_bind_Ok. intros (exists_ & _ & [= <-]). simpl in *.
  rewrite indexed_rows_Ok in Hi. injection Hi as <-. apply snapshot_batches_rows in Hc.
  set (f := destination_of manifest token_program) in *. set (rows := manifest_rows manifest) in *.
  assert (map row_of (merge_sort index_le (concat completed)) = placed f 0 rows) as Hplaced.
  { assert (map row_of (merge_sort index_le (concat completed)) ≡ₚ placed f 0 rows) as Hperm.
    { rewrite (merge_sort_Permutation index_le (concat completed)), Hc, (Hsched _).
      by rewrite slice_chunks_concat by lia. }
    apply (StronglySorted_unique_strong place_le); [|apply sorted_rows|apply placed_sorted|exact Hperm].
    intros x y Hx Hy Hle Hge. rewrite Hperm in Hx.
    apply placed_elem in Hx as (_ & rx & Hrx & ->). apply placed_elem in Hy as (_ & ry & Hry & ->).
    unfold place_le in *. simpl in *. rewrite Nat.sub_0_r in Hrx, Hry.
    assert (x.1.1 = y.1.1) as E by lia. rewrite E in *. rewrite Hrx in Hry. by injection Hry as ->. }
  rewrite map_map. transitivity (map (λ p : nat * Pubkey * Pubkey, (p.1.2, p.2))
    (map row_of (merge_sort index_le (concat completed)))); [by rewrite map_map|].
  rewrite Hplaced. clear. generalize 0%nat. induction rows as [|row rows IH]; intros n; [done|].
  rewrite placed_cons. simpl. by rewrite IH.
Qed.

(** [impl ChainState for FanoutRpc]. *)
#[local] Instance fanout_chain : ChainState R Error := {|
  finalized_tip := λ r, (read_finalized_tip r).2;
  signature_statuses := λ r sigs, (read_signature_statuses sigs r).2
|}.
End rpc.

(** ** The node behind the chain reads *)

(** Elements at the same position of two lists cut alike. *)
Lemma concat_aligned {A B} (ls : list (list A)) (ks : list (list B)) i x y :
  Forall2 (λ l k, length l = length k) ls ks → concat ls !! i = Some x → concat ks !! i = Some y →
  ∃ n l k j, ls !! n = Some l ∧ ks !! n = Some k ∧ l !! j = Some x ∧ k !! j = Some y.
Proof.
  intros Hlen. revert i. induction Hlen as [|l k ls ks Hl _ IH]; intros i Hx Hy; [done|]. simpl in *.
  destruct (decide (i < length l)%nat).
  - rewrite lookup_app_l in Hx by lia. rewrite lookup_app_l in Hy by lia. by exists 0%nat, l, k, i.
  - rewrite lookup_app_r in Hx by lia. rewrite lookup_app_r in Hy by lia. rewrite Hl in Hx.
    destruct (IH _ Hx Hy) as (n' & l' & k' & j & ? & ? & ? & ?). by exists (S n'), l', k', j.
Qed.

(** The account snapshot lines up with the manifest whatever the order in
    which its batches complete: one status per row, in row order, for that
    row's recipient and its associated token account, so that planning from
    it never fails on a mismatch. *)
Theorem snapshot_lines_up_with_manifest `{Kit} {R} (post : R → json → R * result string (result string json))
    json_text pubkey_text schedule sender manifest token_program r snap :
  (∀ l, schedule l ≡ₚ l) →
  (ata_snapshot post json_text pubkey_text schedule sender manifest token_program r).2 = Ok snap →
  map (λ d, (dest_recipient d, dest_ata d)) (destinations snap) =
    map (destination_of manifest token_program) (manifest_rows manifest) ∧
  check_recipients manifest snap = Ok tt.
Proof.
  intros Hsched Hsnap. pose proof (snapshot_destinations _ _ _ _ _ _ _ _ _ Hsched Hsnap) as Hd.
  split; [done|]. clear Hsnap. unfold check_recipients. revert Hd. generalize (destinations snap).
  induction (manifest_rows manifest) as [|row rows IH]; intros [|d ds] Hd; try done.
  simpl in Hd. injection Hd as Hr _ Hd. simpl. rewrite bool_decide_eq_false_2 by (intros E; by apply E). by apply IH.
Qed.

Section honest_node.
Context `{Kit} `{Ledger} {R : Type} (post : R → json → R * result string (result string json)).
Context (json_text : json → string).

(** The node answers from its own view of one chain: each status answer comes
    with the slot of the bank it was computed from. *)
Record node_honest (at_tip at_statuses : R) : Prop := {
  node_validity : ∀ b sig ok, canonical b → (sig, ok) ∈ blk_txs b → blk_height b ≤ valid_until sig;
  node_bank : ∀ tip r batch slot sts,
    (read_finalized_tip post json_text at_tip).2 = Ok tip → later post at_statuses r →
    (status_batch post json_text batch r).2 = Ok (slot, sts) →
    ∃ k : bank,
      (∀ i sig st, batch !! i = Some sig → sts !! i = Some st → status_reflects k sig st) ∧
      (∀ b sig ok, b ∈ k → (sig, ok) ∈ blk_txs b → blk_height b ≤ valid_until sig) ∧
      (tip_slot tip ≤ slot → ∀ b, blk_height b ≤ tip_block_height tip → (b ∈ k ↔ canonical b))
}.

Lemma honest_of_node at_tip at_statuses :
  node_honest at_tip at_statuses →
  @honest_reads _ R Error (fanout_chain post json_text) at_tip at_statuses.
Proof.
  intros [Hvalid Hbank]. split; [done|]. intros tip sigs obs i sig st Htip Hobs Hsig Hst. simpl in Htip, Hobs.
  apply status_batches_found in Hobs as (founds & Hfound & Hstat & _ & Hmin).
  rewrite <- (slice_chunks_concat 256 sigs) in Hsig by lia. rewrite Hstat in Hst. simpl in Hst.
  destruct (concat_aligned (slice_chunks 256 sigs) (map snd founds) i sig st) as (n & batch & sts & j & Hn & Hn' & Hj & Hj');
    [|done..|].
  { apply Forall2_fmap_r. eapply Forall2_impl; [exact Hfound|]. intros b f (r & _ & Hf).
    symmetry. by eapply status_batch_length. }
  rewrite list_lookup_fmap in Hn'. destruct (founds !! n) as [[slot sts']|] eqn:Hf; [|done]. injection Hn' as <-.
  destruct (Forall2_lookup_lr _ _ _ _ _ _ Hfound Hn Hf) as (r & Hr & Hans).
  destruct (Hbank _ _ _ _ _ Htip Hr Hans) as (k & Hreflect & Hkvalid & Hroot).
  exists k. split_and!; [by eapply Hreflect|done|]. intros Hle. apply Hroot.
  apply (Forall_lookup_1 _ _ _ _ Hmin) in Hf. simpl in Hf. lia.
Qed.

(** Looking the statuses up in batches of 256 is as good as one lookup:
    the context slot reported is no later than that of any batch, so if the
    node answers each request honestly, the lookup is an honest read in the
    sense [replaceable_never_lands] needs. *)
Theorem batched_lookup_is_honest at_tip at_statuses :
  node_honest at_tip at_statuses →
  @honest_reads _ R Error (fanout_chain post json_text) at_tip at_statuses.
Proof. apply honest_of_node. Qed.
End honest_node.

(** ** A concrete node, answering from the sample ledger *)
Module SampleNode.
Definition method_of (body : json) : string := default "" (json_get body "method" ≫= json_str).
Definition first_param (body : json) : json :=
  match json_get body "params" with Some (JArr (p :: _)) => p | _ => JNull end.
Definition status_of (s : json) : json :=
  match s with
  | JStr s => if bool_decide (s = "sigA") then JObj [("err", JNull); ("confirmationStatus", JStr "finalized")] else JNull
  | _ => JNull
  end.
Definition account_of (_ : json) : json := JObj [].
Definition answer_to (body : json) : json :=
  if bool_decide (method_of body = "getEpochInfo") then JObj [("absoluteSlot", JNum 22); ("blockHeight", JNum 20)]
  else if bool_decide (method_of body = "getSignatureStatuses") then
    JObj [("context", JObj [("slot", JNum 22)]);
          ("value", JArr (map status_of (default [] (json_array (first_param body)))))]
  else if bool_decide (method_of body = "getMultipleAccounts") then
    JObj [("value", JArr (map account_of (default [] (json_array (first_param body)))))]
  else if bool_decide (method_of body = "getGenesisHash") then JStr (string_of_bytes (SampleKit.key 7))
  else if bool_decide (method_of body = "getTokenAccountBalance") then JObj [("value", JObj [("amount", JStr "9000000")])]
  else if bool_decide (method_of body = "getBalance") then JObj [("value", JNum 1000000000)]
  else JObj [("value", JObj [("owner", JStr (string_of_bytes (SampleKit.key 4)));
    ("data", JObj [("parsed", JObj [("info", JObj [("decimals", JNum 6)])])])])].
Definition post {R} (u : R) (body : json) : R * result string (result string json) :=
  (u, Ok (Ok (JObj [("result", answer_to body)]))).
Definition text (_ : json) : string := "json".

Lemma tip {R} (u : R) : (read_finalized_tip post text u).2 = Ok {| tip_slot := 22; tip_block_height := 20 |}.
Proof. vm_compute. reflexivity. Qed.

Lemma batch_answer {R} batch (u : R) :
  (status_batch post text batch u).2 = Ok (22, map (λ s, if bool_decide (s = "sigA") then StatusConfirmed else Absent) batch).
Proof.
  assert (map signature_status_from_rpc (map status_of (map JStr batch)) =
    map (λ s, if bool_decide (s = "sigA") then StatusConfirmed else Absent) batch) as E.
  { rewrite !map_map. apply map_ext. intros s. unfold status_of. by case_bool_decide. }
  rewrite <- E.
  change ((match reject_if (negb (length (map status_of (map JStr batch)) =? length batch)%nat) malformed_statuses with
           | Ok _ => (u, Ok (22, map signature_status_from_rpc (map status_of (map JStr batch))))
           | Err e => (u, Err e) end).2 = Ok (22, map signature_status_from_rpc (map status_of (map JStr batch)))).
  by rewrite !length_map, Nat.eqb_refl.
Qed.

Lemma node_is_honest {R} (w w' : R) : node_honest post text w w'.
Proof.
  split.
  - exact (honest_validity _ _ sample_honest).
  - intros tp r batch slot sts Ht _ Hs. rewrite tip in Ht. injection Ht as <-. rewrite batch_answer in Hs.
    injection Hs as <- <-. exists sample_ledger. split; [|split; [exact sample_bank_valid|done]].
    intros i sig st Hi Hst. rewrite list_lookup_fmap, Hi in Hst. injection Hst as <-. apply sample_reflects.
Qed.
End SampleNode.

Lemma batched_lookup_is_honest_witness :
  @honest_reads _ unit Error (fanout_chain SampleNode.post SampleNode.text) tt tt.
Proof. exact (batched_lookup_is_honest SampleNode.post SampleNode.text tt tt (SampleNode.node_is_honest tt tt)). Defined.

Lemma snapshot_lines_up_with_manifest_witness :
  ∃ snap, (ata_snapshot SampleNode.post SampleNode.text (λ _, "key") (@rev _) SampleKit.sender SampleKit.manifest
             (SampleKit.key 4) tt).2 = Ok snap ∧
    check_recipients SampleKit.manifest snap = Ok tt.
Proof.
  eexists. split; [vm_compute; reflexivity|].
  eapply (snapshot_lines_up_with_manifest SampleNode.post SampleNode.text (λ _, "key") (@rev _) SampleKit.sender
    SampleKit.manifest (SampleKit.key 4) tt).
  - intros l. symmetry. apply Permutation_rev.
  - vm_compute. reflexivity.
Defined.
