(* ===== verification/Fanout.v ===== *)
(** * Fanout: resuming a payout, and what repeated runs can do

    [cli/src/commands/fanout.rs]: resume planning from the journal and the
    chain, the check for earlier runs, and the command itself.  The last
    sections put the journal, the planner, the executor and the landing check
    together: over any number of interrupted and resumed runs no row is paid
    twice. *)
From stdpp Require Import sorting.
From S2P Require Import Prelude Text Affixes Landing PushManifest PushPlanner PushPermit PushJournal PushExecutor FanoutRpc.
#[local] Open Scope string_scope.
#[local] Open Scope list_scope.
#[local] Open Scope Z_scope.

Definition FANOUT_MAX_IN_FLIGHT : Z := 128.
Definition DEFAULT_POLL_INTERVAL_MS : Z := 250.
Definition ESTIMATED_FEE_LAMPORTS_PER_CHUNK : Z := 10000.

(** ** Ordered maps *)

(** [BTreeMap::insert] on the entries in key order. *)
Fixpoint btree_insert {K V} (cmp : K → K → comparison) (k : K) (v : V) (m : list (K * V)) : list (K * V) :=
  match m with
  | [] => [(k, v)]
  | (k', v') :: m' =>
      match cmp k k' with
      | Lt => (k, v) :: m
      | Eq => (k, v) :: m'
      | Gt => (k', v') :: btree_insert cmp k v m'
      end
  end.

(** ** Networks *)
Definition validate_network (network : string) : res unit :=
  if bool_decide (network ∈ ["mainnet"; "devnet"; "testnet"; "localnet"]) then Ok tt
  else Err (Config ("unsupported fanout network `" +:+ network +:+
                    "`; use mainnet, devnet, testnet, or localnet")).
Definition effective_network (configured : string) (override_network : option string) : string :=
  default configured override_network.

(** ** Resume planning *)

(** [ResumeStatuses]: a payout the lookup did not cover is unknown. *)
Record ResumeStatuses := { landings : gmap string Landing }.
Definition landing (rpc : ResumeStatuses) (payout : RecordedPayout) : Landing :=
  default LandingUnknown (landings rpc !! payout_signature payout).

Definition chunk_entry (m : list (Z * list Z)) (event : JournalEvent) : list (Z * list Z) :=
  match kind event with
  | ChunkPrepared k rows _ | ChunkSigned k rows _ _ _ _ => btree_insert Z.compare k rows m
  | _ => m
  end.
Definition journal_chunks (events : list JournalEvent) : list (Z * list Z) := foldl chunk_entry [] events.

Definition payout_entry (m : list (string * Z)) (event : JournalEvent) : list (string * Z) :=
  match kind event with
  | ChunkSigned _ _ signature _ _ lvbh => btree_insert String.compare signature lvbh m
  | _ => m
  end.
Definition signed_payouts (events : list JournalEvent) : list RecordedPayout :=
  map (λ '(signature, last_valid), {| payout_signature := signature; last_valid_block_height := Some last_valid |})
    (foldl payout_entry [] events).

(** [iter().zip(landings).collect::<HashMap>()]. *)
Definition collect_landings (payouts : list RecordedPayout) (ls : list Landing) : gmap string Landing :=
  foldl (λ m '(s, l), <[s := l]> m) ∅ (zip (map payout_signature payouts) ls).

Definition resume_landings {C} `{ChainState C Error} (at_tip at_statuses : C) (events : list JournalEvent) :
    res ResumeStatuses :=
  let payouts := signed_payouts events in
  ls ← confirm_not_landed at_tip at_statuses payouts;
  Ok {| landings := collect_landings payouts ls |}.

(** The first [RunCreated] record, as [find_map] gives it. *)
Definition run_created (events : list JournalEvent) :
    option (string * string * string * string * Z * Z * Z * string) :=
  head (omap (λ e, match kind e with
    | RunCreated hash network _ mint token_program decimals row_count total mode =>
        Some (hash, network, mint, token_program, decimals, row_count, total, mode)
    | _ => None
    end) events).
Definition signers (events : list JournalEvent) : list string :=
  omap (λ e, match kind e with AuthorizationGranted account _ _ _ => Some account | _ => None end) events.

Section resume.
Context (pubkey_text : Pubkey → string) (signature_from_str : string → option (list Z)).

Definition verify_resume_journal (events : list JournalEvent) (manifest : TransferManifest) (network : string)
    (mint token_program sender : Pubkey) : res unit :=
  match run_created events with
  | None => Err (Config "journal has no run_created record; it cannot be resumed")
  | Some (hash, journal_network, journal_mint, journal_program, decimals, rows, total, mode) =>
      _ ← reject_if (bool_decide (hash ≠ hash_hex (manifest_hash manifest)) || bool_decide (journal_network ≠ network) ||
            bool_decide (journal_mint ≠ pubkey_text mint) || bool_decide (journal_program ≠ pubkey_text token_program) ||
            negb (decimals =? ctx_decimals (manifest_context manifest)) || negb (rows =? zlen (manifest_rows manifest)) ||
            negb (total =? total_amount_raw manifest) || bool_decide (mode ≠ "self_funded"))
          (Config "journal records a different payout (CSV, network, mint, or fee mode); refusing to resume");
      reject_if (existsb (λ account, bool_decide (account ≠ pubkey_text sender)) (signers events))
        (Config "journal was authorized by a different account; refusing to resume")
  end.

Record ResumePlan := {
  remaining : TransferManifest;
  newly_confirmed : list (Z * list Z);
  confirmed_chunks : Z;
  next_chunk_index : Z
}.

(** The accumulator of the loop over the chunks: the rows paid, the chunks
    found confirmed and their number. *)
Definition resume_state : Type := gset Z * list (Z * list Z) * Z.

Definition resume_chunk (events : list JournalEvent) (rpc : ResumeStatuses) (st : resume_state) (chunk : Z * list Z) :
    res resume_state :=
  let '(paid, newly, confirmed) := st in
  let '(chunk_index, rows) := chunk in
  match reduce_chunk_resume_action chunk_index events SelfFunded (landing rpc) with
  | Skip => Ok (paid ∪ list_to_set rows, newly, confirmed + 1)
  | RecordConfirmedThenSkip signature =>
      signature ← ok_or (signature_from_str signature)
                    (Config ("journal chunk " +:+ show chunk_index +:+ " has a malformed signature"));
      Ok (paid ∪ list_to_set rows, newly ++ [(chunk_index, signature)], confirmed + 1)
  | RetryAfterFailure _ | RebuildWithFreshBlockhash _ | NeedsSigning => Ok st
  | RebroadcastIdenticalBytes _ =>
      Err (Config ("chunk " +:+ show chunk_index +:+ " was signed and may still land; retry --resume once its " +:+
                   "blockhash expires at finalized commitment (about two minutes)"))
  | StopUnknown signature =>
      Err (Config ("chunk " +:+ show chunk_index +:+ " signature " +:+ signature +:+ " has an unknown status; retry " +:+
                   "--resume once RPC reports it"))
  | RepresentGaslessCredential _ => Err (Config "gasless journals cannot be resumed by fanout")
  end.

Definition plan_resume (events : list JournalEvent) (manifest : TransferManifest) (rpc : ResumeStatuses) :
    res ResumePlan :=
  let chunks := journal_chunks events in
  st ← try_fold (resume_chunk events rpc) (∅, [], 0) chunks;
  let '(paid, newly, confirmed) := st in
  let rows := List.filter (λ row, negb (bool_decide (row_number row ∈ paid))) (manifest_rows manifest) in
  total ← checked_sum 64 (Config "remaining fanout amount overflowed u64") 0 (map row_amount_raw rows);
  next ← (match last chunks with
          | Some (k, _) => ok_or (checked_add 32 k 1) (Config "journal chunk index overflowed u32")
          | None => Ok 0
          end);
  Ok {| remaining := {| manifest_context := manifest_context manifest; manifest_rows := rows;
                        total_amount_raw := total; manifest_hash := manifest_hash manifest |};
        newly_confirmed := newly; confirmed_chunks := confirmed; next_chunk_index := next |}.
End resume.

(** ** Earlier runs *)

(** [str::lines]: the terminator is a newline, with a carriage return before
    it if there is one. *)
Fixpoint strip_terminator (line : string) : string :=
  match line with
  | EmptyString => EmptyString
  | String c rest =>
      if Ascii.eqb c newline && bool_decide (rest = "") then EmptyString
      else if Ascii.eqb c carriage_return && bool_decide (rest = String newline "") then EmptyString
      else String c (strip_terminator rest)
  end.
Definition str_lines (raw : string) : list string := map strip_terminator (split_lines raw).

Definition result_ok {E A} (r : result E A) : option A := match r with Ok a => Some a | Err _ => None end.

(** [None] is a file that cannot be read. *)
Definition read_journal_events `{EventCodec} (content : option string) : list JournalEvent :=
  match content with
  | Some raw => if is_utf8 (str_bytes raw) then omap (λ line, result_ok (event_from_str line)) (str_lines raw) else []
  | None => []
  end.

(** [path.extension() == "jsonl"] for a file name. *)
Definition has_jsonl_extension (name : string) : bool :=
  let n := String.length name in
  (7 <=? n)%nat && bool_decide (String.substring (n - 6) 6 name = ".jsonl").

Definition name_le (a b : string) : Prop := String.leb a b = true.
#[global] Instance name_le_dec a b : Decision (name_le a b).
Proof. unfold name_le. apply _. Defined.

Section reruns.
Context `{EventCodec} (pubkey_text : Pubkey → string).

Definition matching_run (events : list JournalEvent) (hash network : string) (mint sender : Pubkey) : option bool :=
  let same_payout := existsb (λ e, match kind e with
    | RunCreated h n _ m _ _ _ _ _ =>
        bool_decide (h = hash) && bool_decide (n = network) && bool_decide (m = pubkey_text mint)
    | _ => false end) events in
  let same_signer := existsb (λ e, match kind e with
    | AuthorizationGranted account _ _ _ => bool_decide (account = pubkey_text sender) | _ => false end) events in
  let signed := existsb (λ e, match kind e with ChunkSigned _ _ _ _ _ _ => true | _ => false end) events in
  if negb (same_payout && same_signer && signed) then None
  else
    Some (match find (λ e, match kind e with
            | ChunkSigned _ _ _ _ _ _ | RunCompleted _ _ _ | RunInterrupted _ _ _ _ => true | _ => false end)
            (rev events) with
          | Some e => match kind e with RunCompleted _ failed unknown => (failed =? 0) && (unknown =? 0) | _ => false end
          | None => false
          end).

(** A directory is the list of its file names with their contents, [None]
    when it cannot be listed. *)
Definition directory : Type := string * option (list (string * option string)).

Definition entry_le (a b : string * option string) : Prop := name_le a.1 b.1.
#[global] Instance entry_le_dec a b : Decision (entry_le a b).
Proof. unfold entry_le. apply _. Defined.

Definition refuse_journal (dir hash network : string) (mint sender : Pubkey) (_ : unit)
    (file : string * option string) : res unit :=
  match matching_run (read_journal_events file.2) hash network mint sender with
  | Some false =>
      Err (Config ("an unfinished fanout of this CSV from this account exists; resume it with " +:+
                   "--resume " +:+ dir +:+ "/" +:+ file.1 +:+ " (or pass --new-run to pay every row again)"))
  | Some true =>
      Err (Config ("this CSV was already paid from this account (journal " +:+ dir +:+ "/" +:+ file.1 +:+
                   "); pass --new-run to pay every row again"))
  | None => Ok tt
  end.

Definition refuse_existing_runs (dirs : list directory) (hash network : string) (mint sender : Pubkey) : res unit :=
  try_fold (λ _ (dir : directory),
      match dir.2 with
      | None => Ok tt
      | Some files =>
          try_fold (refuse_journal dir.1 hash network mint sender) tt
            (merge_sort entry_le (List.filter (λ f, has_jsonl_extension f.1) files))
      end) tt dirs.
End reruns.

(** ** What resume planning guarantees *)

Lemma btree_insert_elem {K V} cmp (k : K) (v : V) m p : p ∈ btree_insert cmp k v m → p = (k, v) ∨ p ∈ m.
Proof.
  induction m as [|[k' v'] m IH]; simpl; [set_solver|]. destruct (cmp k k'); set_solver.
Qed.

Lemma btree_insert_key {K V} cmp (k : K) (v : V) m : (k, v) ∈ btree_insert cmp k v m.
Proof. induction m as [|[k' v'] m IH]; simpl; [set_solver|]. destruct (cmp k k'); set_solver. Qed.

Lemma btree_insert_other {K V} cmp (k k' : K) (v v' : V) m :
  (∀ a b, cmp a b = Eq → a = b) → k' ≠ k → (k', v') ∈ m → (k', v') ∈ btree_insert cmp k v m.
Proof.
  intros Hcmp Hne. induction m as [|[k0 v0] m IH]; simpl; [set_solver|].
  rewrite elem_of_cons. destruct (cmp k k0) eqn:E; rewrite !elem_of_cons; [|tauto..].
  apply Hcmp in E as ->. naive_solver.
Qed.

Lemma btree_insert_sorted {V} k (v : V) m :
  StronglySorted Z.lt (map fst m) → StronglySorted Z.lt (map fst (btree_insert Z.compare k v m)).
Proof.
  induction m as [|[k' v'] m IH]; simpl; intros Hs; [repeat constructor|].
  apply StronglySorted_inv in Hs as [Hs Hf]. destruct (Z.compare_spec k k') as [->|Hlt|Hgt]; simpl.
  - by constructor.
  - constructor; [by constructor|]. constructor; [done|]. eapply Forall_impl; [exact Hf|]. simpl. lia.
  - constructor; [by apply IH|]. rewrite Forall_forall in Hf |- *. intros k0 (p & -> & Hp)%list_elem_of_fmap_1.
    apply btree_insert_elem in Hp as [-> |Hp]; [simpl; lia|]. apply Hf. by apply list_elem_of_fmap_2.
Qed.

(** The chunk map of a log, from its chunk records. *)
Lemma journal_chunks_log es :
  journal_chunks es = foldl (λ m (r : chunk_record), btree_insert Z.compare r.1.1 r.1.2 m) [] (chunk_log es).
Proof.
  unfold journal_chunks. induction es as [|e es IH] using rev_ind; [done|].
  rewrite chunk_log_snoc, !foldl_app, IH. simpl. unfold chunk_entry, record_of. by destruct (kind e).
Qed.

Lemma journal_chunks_sorted es : StronglySorted Z.lt (map fst (journal_chunks es)).
Proof.
  rewrite journal_chunks_log. induction (chunk_log es) as [|r l IH] using rev_ind; [constructor|].
  rewrite foldl_app. by apply btree_insert_sorted.
Qed.

Lemma journal_chunks_recorded es k rows :
  (k, rows) ∈ journal_chunks es → ∃ sg, (k, rows, sg) ∈ chunk_log es.
Proof.
  rewrite journal_chunks_log. induction (chunk_log es) as [|[[k' rows'] sg'] l IH] using rev_ind; [set_solver|].
  rewrite foldl_app. simpl. intros [[= -> ->]|Hin]%btree_insert_elem; [exists sg'; set_solver|].
  destruct (IH Hin) as [sg ?]. exists sg. set_solver.
Qed.

Lemma recorded_journal_chunks es k rows sg :
  (k, rows, sg) ∈ chunk_log es → ∃ rows', (k, rows') ∈ journal_chunks es.
Proof.
  rewrite journal_chunks_log. induction (chunk_log es) as [|[[k' rows'] sg'] l IH] using rev_ind; [set_solver|].
  rewrite foldl_app. simpl. intros Hin. destruct (decide (k = k')) as [->|Hne].
  - exists rows'. apply btree_insert_key.
  - apply elem_of_app in Hin as [Hin|Hin]; [|set_solver]. destruct (IH Hin) as [rows'' ?].
    exists rows''. apply btree_insert_other; [apply Z.compare_eq|done..].
Qed.

Lemma last_sorted_max l k k' : StronglySorted Z.lt l → last l = Some k → k' ∈ l → k' ≤ k.
Proof.
  induction l as [|x l IH]; [set_solver|]. intros [Hs Hf]%StronglySorted_inv Hl.
  rewrite Forall_forall in Hf. destruct l as [|y l].
  - simpl in Hl. simplify_eq. rewrite list_elem_of_singleton. lia.
  - rewrite elem_of_cons. intros [->|Hin]; [|by apply IH].
    assert (k ∈ y :: l) as Hk by (apply last_Some_elem_of; done). specialize (Hf k Hk). lia.
Qed.

Section planning.
Context (signature_from_str : string → option (list Z)) (events : list JournalEvent) (rpc : ResumeStatuses).

(** The rows of a chunk are to be paid again. *)
Definition chunk_unpaid (k : Z) : Prop :=
  match reduce_chunk_resume_action k events SelfFunded (landing rpc) with
  | RetryAfterFailure _ | RebuildWithFreshBlockhash _ | NeedsSigning => True
  | _ => False
  end.
(** The journal or the chain has the chunk confirmed. *)
Definition chunk_paid (k : Z) : Prop :=
  match reduce_chunk_resume_action k events SelfFunded (landing rpc) with
  | Skip | RecordConfirmedThenSkip _ => True
  | _ => False
  end.

Lemma resume_chunk_step st k rows st' :
  resume_chunk signature_from_str events rpc st (k, rows) = Ok st' →
  (chunk_paid k ∧ st'.1.1 = st.1.1 ∪ list_to_set rows) ∨ (chunk_unpaid k ∧ st' = st).
Proof.
  destruct st as [[paid newly] n]. unfold resume_chunk, chunk_paid, chunk_unpaid.
  destruct (reduce_chunk_resume_action _ _ _ _); intros Hst; inv_ok; auto.
Qed.

Lemma resume_chunks_fold chunks : ∀ st st',
  try_fold (resume_chunk signature_from_str events rpc) st chunks = Ok st' →
  (∀ r, r ∈ st'.1.1 ↔ r ∈ st.1.1 ∨ ∃ k rows, (k, rows) ∈ chunks ∧ chunk_paid k ∧ r ∈ rows) ∧
  (∀ k rows, (k, rows) ∈ chunks → chunk_paid k ∨ chunk_unpaid k).
Proof.
  induction chunks as [|[k rows] chunks IH]; intros st st' Hfold; simpl in Hfold.
  { injection Hfold as <-. split; [|set_solver]. intros r. split; [by left|].
    intros [?|(k & rows & []%elem_of_nil & _)]; done. }
  apply bind_Ok in Hfold as (st1 & Hstep & Hfold). destruct (IH _ _ Hfold) as [Hpaid Hall].
  split.
  - intros r. rewrite Hpaid. destruct (resume_chunk_step _ _ _ _ Hstep) as [[Hp ->]|[Hu ->]].
    + rewrite elem_of_union, elem_of_list_to_set. split.
      * intros [[?|?]|(k' & rows' & ? & ?)]; [by left|right|right].
        { exists k, rows. split_and!; [constructor|done..]. }
        { exists k', rows'. split; [by constructor|done]. }
      * intros [?|(k' & rows' & Hin & ? & ?)]; [auto|]. apply elem_of_cons in Hin as [[= -> ->]|Hin]; [auto|].
        right. eauto.
    + split.
      * intros [?|(k' & rows' & ? & ?)]; [by left|]. right. exists k', rows'. split; [by constructor|done].
      * intros [?|(k' & rows' & Hin & Hp & ?)]; [auto|]. apply elem_of_cons in Hin as [[= -> ->]|Hin]; [|right; eauto].
        unfold chunk_paid, chunk_unpaid in *. by destruct (reduce_chunk_resume_action _ _ _ _).
  - intros k' rows' [[= -> ->]|Hin]%elem_of_cons; [|by eapply Hall].
    destruct (resume_chunk_step _ _ _ _ Hstep) as [[]|[]]; auto.
Qed.

Lemma plan_resume_rows manifest plan :
  plan_resume signature_from_str events manifest rpc = Ok plan →
  (∀ row, row ∈ manifest_rows (remaining plan) ↔ row ∈ manifest_rows manifest ∧
     ¬ ∃ k rows, (k, rows) ∈ journal_chunks events ∧ chunk_paid k ∧ row_number row ∈ rows) ∧
  manifest_rows (remaining plan) `sublist_of` manifest_rows manifest ∧
  manifest_context (remaining plan) = manifest_context manifest ∧
  manifest_hash (remaining plan) = manifest_hash manifest ∧
  total_amount_raw (remaining plan) = zsum (map row_amount_raw (manifest_rows (remaining plan))) ∧
  (∀ k rows, (k, rows) ∈ journal_chunks events → (chunk_paid k ∨ chunk_unpaid k) ∧ k < next_chunk_index plan) ∧
  0 ≤ next_chunk_index plan.
Proof.
  unfold plan_resume. intros Hplan. apply bind_Ok in Hplan as ([[paid newly] n] & Hfold & Hplan).
  destruct (resume_chunks_fold _ _ _ Hfold) as [Hpaid Hall]. simpl in Hpaid.
  apply bind_Ok in Hplan as (total & Htotal & Hplan). apply checked_sum_Ok in Htotal as ->.
  apply bind_Ok in Hplan as (next & Hnext & Hplan). injection Hplan as <-. simpl.
  assert ((∀ k rows, (k, rows) ∈ journal_chunks events → k < next) ∧ 0 ≤ next) as [Hlt Hpos].
  { destruct (last (journal_chunks events)) as [[k0 rows0]|] eqn:Hlast.
    - inv_ok. split; [|by match goal with H : in_range _ _ |- _ => destruct H end]. intros k rows Hin.
      assert (k ≤ k0); [|lia]. eapply last_sorted_max; [apply journal_chunks_sorted| |].
      + change (map fst (journal_chunks events)) with (fst <$> journal_chunks events). by rewrite fmap_last, Hlast.
      + by apply (list_elem_of_fmap_2 fst) in Hin.
    - injection Hnext as <-. apply last_None in Hlast as ->. split; [set_solver|done]. }
  split_and!; try done.
  - intros row. rewrite !list_elem_of_In, filter_In.
    rewrite negb_true_iff, bool_decide_eq_false, Hpaid. set_solver.
  - clear. induction (manifest_rows manifest) as [|r l IH]; simpl; [constructor|].
    destruct (negb _); by constructor.
  - intros k rows Hin. eauto.
Qed.
End planning.

(** ** Rows are only paid again once their signatures are dead *)

Lemma chunk_log_elem es e r : e ∈ es → record_of (kind e) = Some r → r ∈ chunk_log es.
Proof. intros He Hr. apply list_elem_of_omap. eauto. Qed.

Lemma signed_payouts_recorded es p :
  p ∈ signed_payouts es →
  ∃ k rows lvbh, (k, rows, Some (payout_signature p, lvbh)) ∈ chunk_log es ∧ last_valid_block_height p = Some lvbh.
Proof.
  unfold signed_payouts. intros ([sig lvbh] & -> & Hin)%list_elem_of_fmap_1. simpl.
  enough (∃ k rows, (k, rows, Some (sig, lvbh)) ∈ chunk_log es) as (k & rows & ?) by (by exists k, rows, lvbh).
  revert Hin. induction es as [|e es IH] using rev_ind; [set_solver|].
  rewrite foldl_app, chunk_log_snoc. simpl. unfold payout_entry. intros Hin.
  assert ((sig, lvbh) ∈ foldl payout_entry [] es ∨
    ∃ k rows bytes bh, kind e = ChunkSigned k rows sig bytes bh lvbh) as [Hold|(k & rows & bytes & bh & Hk)].
  { destruct (kind e); auto. apply btree_insert_elem in Hin as [[= -> ->]|?]; eauto 10. }
  - destruct (IH Hold) as (k & rows & ?). exists k, rows. set_solver.
  - exists k, rows. rewrite Hk. set_solver.
Qed.

Lemma collect_landings_lookup payouts ls sig l :
  collect_landings payouts ls !! sig = Some l →
  ∃ i p, payouts !! i = Some p ∧ payout_signature p = sig ∧ ls !! i = Some l.
Proof.
  unfold collect_landings. intros Hl.
  assert ((sig, l) ∈ zip (map payout_signature payouts) ls) as (i & Hi)%list_elem_of_lookup_1.
  { revert Hl. generalize (zip (map payout_signature payouts) ls). intros ps.
    induction ps as [|[s l'] ps IH] using rev_ind; [done|]. rewrite foldl_app. simpl.
    rewrite lookup_insert_Some. rewrite elem_of_app, list_elem_of_singleton. naive_solver. }
  apply lookup_zip_Some in Hi as [Hs Hl']. rewrite list_lookup_fmap in Hs.
  destruct (payouts !! i) as [p|] eqn:Hp; [|done]. simpl in Hs. injection Hs as Hs. eauto.
Qed.

Section safety.
Context `{Ledger} {C : Type} `{ChainState C Error}.

(** The journal records for every signature a height at or past the one its
    blockhash expires at. *)
Definition expiry_recorded (es : list JournalEvent) : Prop :=
  ∀ k rows sig lvbh, (k, rows, Some (sig, lvbh)) ∈ chunk_log es → valid_until sig ≤ lvbh.

Lemma lookup_dead at_tip at_statuses es rpc p proof :
  honest_reads at_tip at_statuses → expiry_recorded es →
  resume_landings at_tip at_statuses es = Ok rpc →
  landing rpc p = LandingReplaceable proof → never_lands (payout_signature p).
Proof.
  intros Hh Hexp Hrpc Hl. unfold resume_landings in Hrpc. inv_ok. unfold landing in Hl. simpl in Hl.
  destruct (collect_landings _ _ !! _) as [l|] eqn:Hc; [|done]. simpl in Hl. subst l.
  apply collect_landings_lookup in Hc as (i & p' & Hp & <- & Hls).
  eapply replaceable_cannot_land; [exact Hh|eassumption|exact Hp|exact Hls|].
  intros lv Hlv. destruct (signed_payouts_recorded es p') as (k & rows & lvbh & Hin & Hlv').
  { by eapply list_elem_of_lookup_2. }
  rewrite Hlv in Hlv'. injection Hlv' as ->. by eapply Hexp.
Qed.

(** The chunk's one recorded signature, when its rows are to be paid again. *)
Lemma unpaid_chunk_dead at_tip at_statuses es rpc k rows sig lvbh :
  honest_reads at_tip at_statuses → expiry_recorded es → NoDup (map record_index (chunk_log es)) →
  resume_landings at_tip at_statuses es = Ok rpc → chunk_unpaid es rpc k →
  (k, rows, Some (sig, lvbh)) ∈ chunk_log es → never_lands sig.
Proof.
  intros Hh Hexp Hnd Hrpc Hun Hin. unfold chunk_unpaid, reduce_chunk_resume_action in Hun.
  pose proof (resume_scan_spec k es) as (Hnone & Hsome & _).
  destruct (foldl (resume_scan k) (None, false) es) as [signed confirmed] eqn:Hscan. simpl in *.
  destruct confirmed; [done|]. destruct signed as [[[sig' bytes] lvbh']|].
  - destruct (Hsome _ _ _ eq_refl) as (l & e & rows' & bh & l' & Hes & Hk & _).
    assert ((k, rows', Some (sig', lvbh')) ∈ chunk_log es) as Hin'.
    { eapply chunk_log_elem; [rewrite Hes; apply elem_of_app; right; constructor|]. by rewrite Hk. }
    pose proof (NoDup_map_unique record_index _ _ _ Hnd Hin' Hin eq_refl) as [= -> -> ->].
    destruct (landing rpc _) as [| | |proof] eqn:Hl; try done.
    by eapply (lookup_dead _ _ _ _ {| payout_signature := sig; last_valid_block_height := Some lvbh |}).
  - exfalso. apply list_elem_of_omap in Hin as (e & He & Hr). destruct Hnone as [Hnone _].
    specialize (Hnone eq_refl). rewrite Forall_forall in Hnone. specialize (Hnone e He). unfold is_signed in Hnone.
    unfold record_of in Hr. destruct (kind e); simplify_eq. by rewrite Z.eqb_refl in Hnone.
Qed.

Lemma remaining_rows_dead signature_from_str at_tip at_statuses es rpc manifest plan row k rows sig lvbh :
  honest_reads at_tip at_statuses → expiry_recorded es → NoDup (map record_index (chunk_log es)) →
  resume_landings at_tip at_statuses es = Ok rpc →
  plan_resume signature_from_str es manifest rpc = Ok plan →
  row ∈ manifest_rows (remaining plan) → (k, rows, Some (sig, lvbh)) ∈ chunk_log es → row_number row ∈ rows →
  never_lands sig.
Proof.
  intros Hh Hexp Hnd Hrpc Hplan Hrow Hin Hnum.
  apply plan_resume_rows in Hplan as (Hrows & _ & _ & _ & _ & Hall & _).
  apply Hrows in Hrow as [_ Hnot]. destruct (recorded_journal_chunks _ _ _ _ Hin) as [rows' Hk].
  destruct (journal_chunks_recorded _ _ _ Hk) as [sg Hin'].
  pose proof (NoDup_map_unique record_index _ _ _ Hnd Hin' Hin eq_refl) as [= -> ->].
  destruct (Hall _ _ Hk) as [[Hp|Hu] _]; [exfalso; apply Hnot; eauto|]. by eapply unpaid_chunk_dead.
Qed.
End safety.

(** ** Every row is paid, to be paid, or accounted for *)

(** The journal holds a confirmation of the chunk, or the lookup reported its
    latest signature confirmed. *)
Definition confirmed_evidence (es : list JournalEvent) (rpc : ResumeStatuses) (k : Z) : Prop :=
  existsb (is_confirmed k) es = true ∨
  ∃ rows sig lvbh, (k, rows, Some (sig, lvbh)) ∈ chunk_log es ∧
    landing rpc {| payout_signature := sig; last_valid_block_height := Some lvbh |} = LandingConfirmed.

Lemma chunk_paid_evidence es rpc k : chunk_paid es rpc k → confirmed_evidence es rpc k.
Proof.
  unfold chunk_paid, reduce_chunk_resume_action.
  pose proof (resume_scan_spec k es) as (_ & Hsome & Hconf).
  destruct (foldl (resume_scan k) (None, false) es) as [signed confirmed] eqn:Hscan. simpl in *.
  destruct confirmed.
  - intros _. left. destruct signed as [[[sig bytes] lvbh]|]; [|by rewrite <- Hconf].
    destruct (Hsome _ _ _ eq_refl) as (l & e & rows & bh & l' & -> & _ & _ & Hc).
    rewrite existsb_app. cbn [existsb]. rewrite <- Hc. by rewrite !orb_true_r.
  - destruct signed as [[[sig bytes] lvbh]|]; [|done].
    destruct (Hsome _ _ _ eq_refl) as (l & e & rows & bh & l' & -> & Hk & _).
    destruct (landing rpc _) as [| | |proof] eqn:Hl; try done; [|by destruct (replace_reason proof)].
    intros _. right. exists rows, sig, lvbh. split; [|done].
    eapply chunk_log_elem; [apply elem_of_app; right; constructor|]. by rewrite Hk.
Qed.

(** C37. Resume planning neither forgets nor invents a row: what remains is a
    part of the manifest in its order, with the manifest's identity and its
    exact total; a row is left out only when the journal or the lookup has a
    chunk that carries it confirmed; and new chunk indices start after every
    index the journal has used. *)
Theorem resume_accounts_for_every_row signature_from_str es rpc manifest plan :
  plan_resume signature_from_str es manifest rpc = Ok plan →
  manifest_rows (remaining plan) `sublist_of` manifest_rows manifest ∧
  manifest_context (remaining plan) = manifest_context manifest ∧
  manifest_hash (remaining plan) = manifest_hash manifest ∧
  total_amount_raw (remaining plan) = zsum (map row_amount_raw (manifest_rows (remaining plan))) ∧
  (∀ row, row ∈ manifest_rows manifest → row ∈ manifest_rows (remaining plan) ∨
     ∃ k rows, (k, rows) ∈ journal_chunks es ∧ row_number row ∈ rows ∧ confirmed_evidence es rpc k) ∧
  (∀ r, r ∈ chunk_log es → record_index r < next_chunk_index plan).
Proof.
  intros Hplan. pose proof (plan_resume_rows _ _ _ _ _ Hplan) as (Hrows & Hsub & Hctx & Hhash & Htotal & Hall & _).
  split_and!; try done.
  - intros row Hrow.
    unfold plan_resume in Hplan. apply bind_Ok in Hplan as ([[paid newly] n] & Hfold & Hplan).
    destruct (resume_chunks_fold _ _ _ _ _ _ Hfold) as [Hpaid _]. simpl in Hpaid.
    apply bind_Ok in Hplan as (total & _ & Hplan). apply bind_Ok in Hplan as (next & _ & [= <-]). simpl in *.
    destruct (bool_decide (row_number row ∈ paid)) eqn:Hb.
    + right. apply bool_decide_eq_true, Hpaid in Hb as [?|(k & rows & Hk & Hp & Hin)]; [set_solver|].
      exists k, rows. split_and!; [done..|]. by apply chunk_paid_evidence.
    + left. apply list_elem_of_In, filter_In. split; [by apply list_elem_of_In|by rewrite Hb].
  - intros [[k rows] sg] Hr. destruct (recorded_journal_chunks _ _ _ _ Hr) as [rows' Hk].
    by destruct (Hall _ _ Hk).
Qed.

(** ** Resuming the same payout, and not starting it again *)

(** A journal only resumes its own payout: when the run was created from
    one CSV and is resumed with another, the check passes only if both give
    the same manifest (network, mint, decimals, rows and amounts), unless
    BLAKE3 collides on them, and only for the account that authorized it. *)
Theorem resume_continues_the_same_payout csv_records pubkey_from_str blake3 pubkey_text
    input1 input2 ctx1 ctx2 m1 m2 e rest network1 currency1 mint1 program1 network mint token_program sender :
  (∀ s k, pubkey_from_str s = Ok k → is_key k) → (∀ x, Forall is_u8 (blake3 x)) →
  context_sized ctx1 → context_sized ctx2 →
  parse_manifest_csv csv_records pubkey_from_str blake3 (Ok input1) ctx1 = Ok m1 →
  parse_manifest_csv csv_records pubkey_from_str blake3 (Ok input2) ctx2 = Ok m2 →
  kind e = RunCreated (hash_hex (manifest_hash m1)) network1 currency1 mint1 program1
             (ctx_decimals (manifest_context m1)) (zlen (manifest_rows m1)) (total_amount_raw m1) "self_funded" →
  (canonical_hash blake3 ctx1 (manifest_rows m1) = canonical_hash blake3 ctx2 (manifest_rows m2) →
   canonical_preimage ctx1 (manifest_rows m1) = canonical_preimage ctx2 (manifest_rows m2)) →
  verify_resume_journal pubkey_text (e :: rest) m2 network mint token_program sender = Ok tt →
  m1 = m2 ∧ network1 = network ∧ Forall (λ account, account = pubkey_text sender) (signers rest).
Proof.
  intros Hkey Hblake Hc1 Hc2 H1 H2 He Hcoll Hver. unfold verify_resume_journal, run_created in Hver.
  cbn [omap list_omap head] in Hver. rewrite He in Hver. cbn [head] in Hver. inv_ok. prop_bools.
  repeat match goal with H : ¬ (_ ≠ _) |- _ => apply dec_stable in H end.
  split_and!; [| done|].
  - eapply equal_hash_equal_manifest; [exact Hkey|exact Hc1|exact Hc2|exact H1|exact H2| |exact Hcoll].
    apply parsed_manifest_rows in H1 as (Hwf1 & _). apply parsed_manifest_rows in H2 as (Hwf2 & _).
    apply hash_hex_inj; [rewrite (wf_hash _ _ Hwf1); apply Hblake|rewrite (wf_hash _ _ Hwf2); apply Hblake|done].
  - match goal with H : existsb _ (signers _) = false |- _ => rename H into Hs end.
    assert (signers (e :: rest) = signers rest) as E by (unfold signers; simpl; by rewrite He). rewrite E in Hs.
    symmetry in Hs. apply existsb_false_Forall in Hs. eapply Forall_impl; [exact Hs|]. simpl.
    intros account Ha%bool_decide_eq_false. by apply dec_stable in Ha.
Qed.

Lemma strip_terminator_line s : no_eol s → strip_terminator (line_of s) = s.
Proof.
  unfold line_of. induction s as [|c s IH]; intros Hs; [done|].
  apply no_eol_cons in Hs as (Hc & Hr & Hs).
  change (String c s +:+ String newline "") with (String c (s +:+ String newline "")). cbn [strip_terminator].
  rewrite (IH Hs). by destruct (Ascii.eqb_spec c newline), (Ascii.eqb_spec c carriage_return).
Qed.

(** Every durable record is read, also from a file another process is still
    writing. *)
Lemma read_journal_prefix `{EventCodecLaws} es tail :
  is_utf8 (str_bytes tail) = true →
  ∃ more, read_journal_events (Some (journal_lines es +:+ tail)) = es ++ more.
Proof.
  intros Hutf. unfold read_journal_events. rewrite str_bytes_app, is_utf8_app by (done || apply journal_lines_utf8).
  unfold str_lines. rewrite split_lines_journal, map_app, omap_app. eexists. f_equal.
  induction es as [|e es IH]; [done|]. simpl. rewrite strip_terminator_line by apply codec_no_eol.
  rewrite codec_roundtrip. f_equal. exact IH.
Qed.

Lemma existsb_prefix {A} (f : A → bool) l k x : x ∈ l → f x = true → existsb f (l ++ k) = true.
Proof. intros Hx Hf. apply existsb_exists. exists x. split; [|done]. apply in_app_iff. left. by apply list_elem_of_In. Qed.

Lemma try_fold_unit_fails {E A} (f : unit → A → result E unit) l x :
  x ∈ l → is_ok (f tt x) = false → is_ok (try_fold f tt l) = false.
Proof.
  induction l as [|y l IH]; [set_solver|]. rewrite elem_of_cons. intros [->|Hx] Hf; simpl.
  - by destruct (f tt y).
  - destruct (f tt y) as [[]|]; [by apply IH|done].
Qed.

(** A payout that signed anything cannot be started over by accident:
    when a journal found in one of the searched directories records a run of
    the same CSV, network and mint by the same account with a signed chunk,
    a new run is refused, finished or not, and also while another process is
    in the middle of writing that journal. *)
Theorem signed_run_blocks_rerun `{EventCodecLaws} pubkey_text dirs dir files name j es tail
    hash network mint sender created granted signed :
  (dir, Some files) ∈ dirs → (name, Some (journal_file j +:+ tail)) ∈ files → has_jsonl_extension name = true →
  journal_run j es → is_utf8 (str_bytes tail) = true →
  created ∈ es → (∃ currency program decimals rows total mode,
    kind created = RunCreated hash network currency (pubkey_text mint) program decimals rows total mode) →
  granted ∈ es → (∃ raw count expiry, kind granted = AuthorizationGranted (pubkey_text sender) raw count expiry) →
  signed ∈ es → (∃ k rows sig bytes bh lvbh, kind signed = ChunkSigned k rows sig bytes bh lvbh) →
  is_ok (refuse_existing_runs pubkey_text dirs hash network mint sender) = false.
Proof.
  intros Hdir Hfile Hext Hj%journal_run_holds Hutf Hc (? & ? & ? & ? & ? & ? & Ec) Hg (? & ? & ? & Eg)
    Hs (? & ? & ? & ? & ? & ? & Es).
  unfold refuse_existing_runs. eapply try_fold_unit_fails; [exact Hdir|]. simpl.
  eapply (try_fold_unit_fails _ _ (name, Some (journal_file j +:+ tail))).
  { rewrite merge_sort_Permutation. apply list_elem_of_In, filter_In. split; [by apply list_elem_of_In|done]. }
  unfold refuse_journal. cbn [snd]. rewrite (holds_file _ _ Hj).
  destruct (read_journal_prefix es tail Hutf) as [more ->].
  unfold matching_run.
  rewrite (existsb_prefix _ es more created) by (done || by rewrite Ec, !bool_decide_eq_true_2).
  rewrite (existsb_prefix _ es more granted) by (done || by rewrite Eg, bool_decide_eq_true_2).
  rewrite (existsb_prefix _ es more signed) by (done || by rewrite Es).
  cbn [andb negb]. by repeat case_match.
Qed.

(** ** Runs, crashes and resumes *)

(** Events other than chunk records appended durably: confirmations, the
    preflight and authorization records, the end of a run. *)
Inductive noted `{EventCodec} : Journal → list JournalEvent → Journal → list JournalEvent → Prop :=
  | noted_none j es : noted j es j es
  | noted_one j es now k j' es' :
      record_of k = None →
      noted (append_event j now IoDone k).1 (es ++ [ {| sequence := next_sequence j; timestamp := now; kind := k |} ]) j' es' →
      noted j es j' es'.

Lemma noted_log `{EventCodec} j es j' es' : noted j es j' es' → chunk_log es' = chunk_log es.
Proof.
  induction 1 as [|j es now k j' es' Hk _ IH]; [done|]. rewrite IH, chunk_log_snoc. simpl. by rewrite Hk, app_nil_r.
Qed.

Lemma noted_holds `{EventCodecLaws} j es j' es' : noted j es j' es' → journal_holds j es → journal_holds j' es'.
Proof. induction 1 as [|j es now k j' es' Hk _ IH]; [done|]. intros Hj. by apply IH, append_done_holds. Qed.

Lemma noted_path `{EventCodec} j es j' es' : noted j es j' es' → journal_path j' = journal_path j.
Proof. by induction 1. Qed.

Lemma noted_snoc `{EventCodec} j es j1 es1 now k :
  noted j es j1 es1 → record_of k = None →
  noted j es (append_event j1 now IoDone k).1 (es1 ++ [ {| sequence := next_sequence j1; timestamp := now; kind := k |} ]).
Proof.
  induction 1 as [|j es now' k' j' es' Hk' _ IH]; intros Hk.
  - eapply noted_one; [done|]. apply noted_none.
  - apply (noted_one _ _ now' k'); [done|]. by apply IH.
Qed.

(** A journal, or the same after one more attempt to note something. *)
Definition noting `{EventCodec} (j j' : Journal) : Prop :=
  j' = j ∨ ∃ now io k, record_of k = None ∧ j' = (append_event j now io k).1.

Section history.
Context `{Kit} `{EventCodecLaws} {W : Type} `{World W} `{Ledger} {C : Type} `{ChainState C Error}.
Context (pubkey_text : Pubkey → string) (signature_text hash_text : list Z → string).
Context (signature_from_str : string → option (list Z)) (manifest : TransferManifest).
Hypothesis signers_keep_messages : ∀ w : W, keeps_message (world_signer w).

(** One journal through any number of runs, with every chunk handed to the
    transport so far.  A run plans from what it finds in the journal and from
    two honest reads of the chain, packs the remaining rows after the last
    index used, and executes the plan under a permit for it; it may stop
    anywhere, also in the middle of a write, try to note that it did, and the
    journal is opened again. *)
Inductive fanout_history : Journal → list JournalEvent → list SignedChunk → Prop :=
  | history_new path :
      fanout_history {| journal_file := ""; journal_path := path; next_sequence := 1 |} [] []
  | history_noted j es sent j' es' :
      fanout_history j es sent → noted j es j' es' → fanout_history j' es' sent
  | history_run j es sent at_tip at_statuses rpc plan j1 es1 ata price packed t ctx config s fuel s' r jf j' es' :
      fanout_history j es sent →
      honest_reads at_tip at_statuses →
      resume_landings at_tip at_statuses es = Ok rpc →
      plan_resume signature_from_str es manifest rpc = Ok plan →
      noted j es j1 es1 →
      pack_chunks_from (remaining plan) ata SelfFunded (ctx_sender ctx) (ctx_sender ctx) price
        (next_chunk_index plan) = Ok packed →
      permit_chunks t = chunks packed →
      starts_from pubkey_text t es1 s → ex_journal s = j1 →
      run pubkey_text signature_text hash_text ctx config fuel (chunks packed) s = (s', r) →
      noting (ex_journal s') jf → reopen j1 (journal_file jf) = Ok (j', es') → journal_holds j' es' →
      fanout_history j' es' (sent ++ map sent_chunk (ex_sent s')).

Lemma history_holds j es sent : fanout_history j es sent → journal_holds j es.
Proof. induction 1; [by split|by eapply noted_holds|done]. Qed.

(** Of two transmissions that pay the same row, the earlier one never takes
    effect. *)
Definition at_most_once (sent : list SignedChunk) : Prop :=
  ∀ a b x y row, (a < b)%nat → sent !! a = Some x → sent !! b = Some y →
    row ∈ signed_row_numbers x → row ∈ signed_row_numbers y →
    never_lands (signature_text (signed_signature x)).

Record history_inv (j : Journal) (es : list JournalEvent) (sent : list SignedChunk) : Prop := {
  hi_holds : journal_holds j es;
  hi_once : NoDup (map record_index (chunk_log es));
  hi_sent : Forall (λ c, signed_record signature_text c ∈ chunk_log es) sent;
  hi_paid : at_most_once sent
}.

(** The journal a run leaves. *)
Lemma noted_logged base todo s' j es now k :
  record_of k = None → logged signature_text base todo s' es →
  logged (W := W) signature_text base todo s' (es ++ [ {| sequence := next_sequence j; timestamp := now; kind := k |} ]).
Proof.
  intros Hk (unsent & rest & Hl & Hord). exists unsent, rest. split; [|done].
  rewrite chunk_log_snoc. simpl. by rewrite Hk, app_nil_r.
Qed.

Lemma run_log t es1 s ctx config fuel todo s' r jf j' es' :
  starts_from pubkey_text t es1 s →
  run pubkey_text signature_text hash_text ctx config fuel todo s = (s', r) →
  noting (ex_journal s') jf → reopen (ex_journal s) (journal_file jf) = Ok (j', es') → journal_holds j' es' →
  logged signature_text (chunk_log es1) (map chunk_index todo) s' es' ∧
  Forall (λ x, ∃ plan, plan_for t (signed_chunk_index (sent_chunk x)) = Ok plan ∧
    signed_row_numbers (sent_chunk x) = row_numbers plan) (ex_sent s').
Proof.
  intros Hs Hrun Hnote Hre Hj'.
  destruct (run_stopped _ _ _ _ _ signers_keep_messages _ _ _ _ _ _ _ Hs Hrun)
    as [_ _ (j0 & es0 & Hj0 & Hp0 & Hlog & Hfrom) (log & _ & Hf)].
  rewrite <- Hp0 in Hre. split.
  - destruct Hfrom as [E|(now & io & k & Hio & E & Hlog')]; rewrite E in Hnote;
      destruct Hnote as [->|(now2 & io2 & k2 & Hk2 & ->)].
    + rewrite (holds_file _ _ Hj0), (reopen_clean _ _ Hj0) in Hre. by injection Hre as -> ->.
    + rewrite append_file, (holds_file _ _ Hj0) in Hre.
      destruct (recover_append _ _ _ _ _ _ _ Hj0 Hre Hj') as [-> | ->]; [done|by apply noted_logged].
    + by destruct (recover_failed_append _ _ _ _ _ _ _ Hj0 Hio Hre Hj') as [-> | ->].
    + destruct (recover_two_appends _ _ _ _ _ _ _ _ _ _ Hj0 Hio Hre Hj') as [->|[->| ->]]; [done..|].
      by apply noted_logged.
  - rewrite Forall_forall in Hf. rewrite Forall_forall. intros x Hx.
    destruct (Hf (ticket_of x)) as (c & plan & _ & _ & _ & Hplan & Hrows); [by apply list_elem_of_fmap_2|]. eauto.
Qed.

Lemma concat_row_unique (cs : list PlannedChunk) a b x y row :
  NoDup (concat (map row_numbers cs)) → cs !! a = Some x → cs !! b = Some y →
  row ∈ row_numbers x → row ∈ row_numbers y → a = b.
Proof.
  revert a b. induction cs as [|c cs IH]; intros a b Hnd Ha Hb Hx Hy; [done|].
  simpl in Hnd. apply NoDup_app in Hnd as (_ & Hdis & Hnd).
  assert (∀ i z, cs !! i = Some z → row ∈ row_numbers z → row ∈ row_numbers c → False) as Hclash.
  { intros i z Hi Hz Hc. apply (Hdis row Hc). apply list_elem_of_In, in_concat. exists (row_numbers z).
    split; [|by apply list_elem_of_In]. apply in_map, list_elem_of_In. by eapply list_elem_of_lookup_2. }
  destruct a as [|a], b as [|b]; simpl in *; simplify_eq; [done|exfalso; eauto|exfalso; eauto|].
  f_equal. by eapply IH.
Qed.

(** What one run adds to the history; the hypotheses are those of
    [history_run]. *)
Section one_run.
Context (es : list JournalEvent) (sent : list SignedChunk) (at_tip at_statuses : C) (rpc : ResumeStatuses)
  (plan : ResumePlan) (es1 : list JournalEvent) (ata : AtaSnapshot) (price : Z) (packed : TransactionPlan)
  (t : BatchSigningPermit) (ctx : ChunkTxContext) (s s' : ExecState (W := W)) (es' : list JournalEvent).
Hypothesis Hrpc : resume_landings at_tip at_statuses es = Ok rpc.
Hypothesis Hplan : plan_resume signature_from_str es manifest rpc = Ok plan.
Hypothesis Hpack : pack_chunks_from (remaining plan) ata SelfFunded (ctx_sender ctx) (ctx_sender ctx) price
                     (next_chunk_index plan) = Ok packed.
Hypothesis Hperm : permit_chunks t = chunks packed.
Hypothesis Hlog : logged signature_text (chunk_log es) (map chunk_index (chunks packed)) s' es'.
Hypothesis Hrows : Forall (λ x, ∃ plan, plan_for t (signed_chunk_index (sent_chunk x)) = Ok plan ∧
    signed_row_numbers (sent_chunk x) = row_numbers plan) (ex_sent s').

Lemma packed_indices : map chunk_index (chunks packed) = seqZ (next_chunk_index plan) (zlen (chunks packed)).
Proof. by destruct (packed_chunks_preserve _ _ _ _ _ _ _ _ Hpack) as (_ & _ & ? & _). Qed.

Lemma packed_rows : concat (map row_numbers (chunks packed)) = map row_number (manifest_rows (remaining plan)).
Proof. by destruct (packed_chunks_preserve _ _ _ _ _ _ _ _ Hpack) as (_ & ? & _). Qed.

(** New chunks get new indices, each once. *)
Lemma run_sent_once : NoDup (sent_indices s').
Proof.
  destruct Hlog as (unsent & rest & _ & Hord). assert (NoDup (map chunk_index (chunks packed))) as Hnd
    by (rewrite packed_indices; apply NoDup_seqZ).
  rewrite <- Hord in Hnd. by apply NoDup_app in Hnd as (? & _).
Qed.

Lemma run_records_once : NoDup (map record_index (chunk_log es)) → NoDup (map record_index (chunk_log es')).
Proof.
  intros Honce. destruct Hlog as (unsent & rest & Hl & Hord).
  pose proof (plan_resume_rows _ _ _ _ _ Hplan) as (_ & _ & _ & _ & _ & Hfresh & _).
  rewrite Hl, !map_app, map_map. apply NoDup_app. split_and!; [done| |].
  - intros k ([[k0 rows] sg] & -> & Hk)%list_elem_of_fmap_1 Hin. simpl in Hin.
    destruct (recorded_journal_chunks _ _ _ _ Hk) as [rows' Hc]. destruct (Hfresh _ _ Hc) as [_ Hlt].
    assert (k0 ∈ map chunk_index (chunks packed)) as Hin'.
    { rewrite <- Hord, app_assoc. apply elem_of_app. by left. }
    rewrite packed_indices in Hin'. apply elem_of_seqZ in Hin'. lia.
  - assert (NoDup (map chunk_index (chunks packed))) as Hnd by (rewrite packed_indices; apply NoDup_seqZ).
    rewrite <- Hord, app_assoc in Hnd. by apply NoDup_app in Hnd as (? & _).
Qed.

(** Every transmission of the run is a chunk of the plan. *)
Lemma run_sent_planned x : x ∈ ex_sent s' → ∃ i c, chunks packed !! i = Some c ∧
  chunk_index c = signed_chunk_index (sent_chunk x) ∧ signed_row_numbers (sent_chunk x) = row_numbers c.
Proof.
  intros Hx. rewrite Forall_forall in Hrows. destruct (Hrows x Hx) as (c & Hc & Hr).
  unfold plan_for in Hc. rewrite Hperm in Hc. apply ok_or_Ok in Hc. apply find_some in Hc as [Hin Heq].
  apply Z.eqb_eq in Heq. apply list_elem_of_In, list_elem_of_lookup_1 in Hin as [i Hi]. eauto.
Qed.

(** Two transmissions of one run pay different rows. *)
Lemma run_rows_disjoint a b x y row :
  NoDup (map row_number (manifest_rows manifest)) →
  ex_sent s' !! a = Some x → ex_sent s' !! b = Some y →
  row ∈ signed_row_numbers (sent_chunk x) → row ∈ signed_row_numbers (sent_chunk y) → a = b.
Proof.
  intros Hnum Ha Hb Hx Hy.
  destruct (run_sent_planned x) as (ia & ca & Hia & Hca & Hra); [by eapply list_elem_of_lookup_2|].
  destruct (run_sent_planned y) as (ib & cb & Hib & Hcb & Hrb); [by eapply list_elem_of_lookup_2|].
  rewrite Hra in Hx. rewrite Hrb in Hy.
  pose proof (plan_resume_rows _ _ _ _ _ Hplan) as (_ & Hsub & _).
  assert (NoDup (concat (map row_numbers (chunks packed)))) as Hrem.
  { rewrite packed_rows. eapply sublist_NoDup; [exact Hnum|]. by apply (fmap_sublist row_number). }
  pose proof (concat_row_unique _ _ _ _ _ _ Hrem Hia Hib Hx Hy) as ->. simplify_eq.
  eapply NoDup_lookup; [exact run_sent_once|..]; unfold sent_indices; rewrite list_lookup_fmap.
  - by rewrite Ha.
  - rewrite Hb. simpl. by rewrite <- Hcb, Hca.
Qed.

(** A row paid by the run and before has a dead earlier signature. *)
Lemma run_repays_dead x y row :
  honest_reads at_tip at_statuses → expiry_recorded es → NoDup (map record_index (chunk_log es)) →
  signed_record signature_text x ∈ chunk_log es → y ∈ ex_sent s' →
  row ∈ signed_row_numbers x → row ∈ signed_row_numbers (sent_chunk y) →
  never_lands (signature_text (signed_signature x)).
Proof.
  intros Hh Hexp Honce Hin Hy Hx Hrow. destruct (run_sent_planned y Hy) as (i & c & Hi & _ & Hr). rewrite Hr in Hrow.
  assert (row ∈ map row_number (manifest_rows (remaining plan))) as (rw & -> & Hrw)%list_elem_of_fmap_1.
  { rewrite <- packed_rows. apply list_elem_of_In, in_concat. exists (row_numbers c).
    split; [|by apply list_elem_of_In]. apply in_map, list_elem_of_In. by eapply list_elem_of_lookup_2. }
  by eapply remaining_rows_dead.
Qed.

Lemma run_at_most_once :
  NoDup (map row_number (manifest_rows manifest)) →
  honest_reads at_tip at_statuses → expiry_recorded es → NoDup (map record_index (chunk_log es)) →
  Forall (λ c, signed_record signature_text c ∈ chunk_log es) sent →
  at_most_once sent → at_most_once (sent ++ map sent_chunk (ex_sent s')).
Proof.
  intros Hnum Hh Hexp Honce Hsent Hpaid a b x y row Hab Ha Hb Hx Hy.
  destruct (decide (b < length sent)%nat) as [Hlt|Hge].
  { rewrite lookup_app_l in Ha, Hb by lia. exact (Hpaid a b x y row Hab Ha Hb Hx Hy). }
  rewrite lookup_app_r in Hb by lia. rewrite list_lookup_fmap in Hb.
  destruct (ex_sent s' !! (b - length sent)%nat) as [xb|] eqn:Hxb; [|done]. injection Hb as <-.
  destruct (decide (a < length sent)%nat) as [Hlt|Hge'].
  - rewrite lookup_app_l in Ha by lia. rewrite Forall_forall in Hsent.
    eapply (run_repays_dead x xb row); [done|done|done| | |exact Hx|exact Hy].
    + apply Hsent. by eapply list_elem_of_lookup_2.
    + by eapply list_elem_of_lookup_2.
  - exfalso. rewrite lookup_app_r in Ha by lia. rewrite list_lookup_fmap in Ha.
    destruct (ex_sent s' !! (a - length sent)%nat) as [xa|] eqn:Hxa; [|done]. injection Ha as <-.
    pose proof (run_rows_disjoint _ _ _ _ _ Hnum Hxa Hxb Hx Hy). lia.
Qed.
End one_run.

Lemma expiry_recorded_prefix es es' l : chunk_log es' = chunk_log es ++ l → expiry_recorded es' → expiry_recorded es.
Proof. intros Hl Hexp k rows sig lvbh Hin. eapply Hexp. rewrite Hl. apply elem_of_app. left. exact Hin. Qed.

Lemma history_invariant j es sent :
  NoDup (map row_number (manifest_rows manifest)) →
  fanout_history j es sent → expiry_recorded es → history_inv j es sent.
Proof.
  intros Hnum. induction 1 as [path|j es sent j' es' _ IH Hnote|
    j es sent at_tip at_statuses rpc plan j1 es1 ata price packed t ctx config s fuel s' r jf j' es'
      _ IH Hh Hrpc Hplan Hnote Hpack Hperm Hs Hj1 Hrun Hend Hre Hj']; intros Hexp.
  - split; [by split|constructor|constructor|]. intros a b x y row _ Ha. done.
  - pose proof (noted_log _ _ _ _ Hnote) as Hl. destruct IH as [Hj Honce Hsent Hpaid].
    { eapply (expiry_recorded_prefix _ es' []); [by rewrite app_nil_r|done]. }
    split; rewrite ?Hl; try done. by eapply noted_holds.
  - subst j1. destruct (run_log _ _ _ _ _ _ _ _ _ _ _ _ Hs Hrun Hend Hre Hj') as [Hlog Hrows].
    rewrite (noted_log _ _ _ _ Hnote) in Hlog. pose proof Hlog as (unsent & rest & Hl & _).
    assert (expiry_recorded es) as Hexp0 by (by eapply expiry_recorded_prefix).
    destruct (IH Hexp0) as [Hj Honce Hsent Hpaid]. split; [done| | |].
    + by eapply run_records_once.
    + apply Forall_app. split.
      * eapply Forall_impl; [exact Hsent|]. simpl. intros c Hc. rewrite Hl. apply elem_of_app. by left.
      * rewrite Forall_forall. intros c (x & -> & Hx)%list_elem_of_fmap_1. rewrite Hl, !elem_of_app. right. left.
        by apply (list_elem_of_fmap_2 (λ x, signed_record signature_text (sent_chunk x))).
    + by eapply run_at_most_once.
Qed.

(** No row is paid twice.  Over any number of runs of one journal, each
    stopped wherever it may be and resumed from what the journal holds, and
    whatever the transport, the disk and the clock answered meanwhile: of two
    transmissions that carry the same manifest row, the earlier one is
    executed by no canonical block, past or future. *)
Theorem fanout_pays_each_row_at_most_once j es sent a b x y row :
  NoDup (map row_number (manifest_rows manifest)) →
  fanout_history j es sent → expiry_recorded es →
  (a < b)%nat → sent !! a = Some x → sent !! b = Some y →
  row ∈ signed_row_numbers x → row ∈ signed_row_numbers y →
  never_lands (signature_text (signed_signature x)).
Proof. intros Hnum Hh Hexp. exact (hi_paid _ _ _ (history_invariant _ _ _ Hnum Hh Hexp) a b x y row). Qed.
End history.

(** ** A concrete history

    The first run's transaction is dropped by the network, and the run is
    stopped while it waits.  By the second run the signature has expired on the
    sample ledger, so both rows are packed again, into chunk 1. *)
Module SampleFanout.
Definition prepared : PreparedChunkContext := {|
  prepared_fee_payer := SampleKit.sender; prepared_blockhash := SampleKit.key 70; prepared_last_valid_block_height := 15 |}.
(** The network drops transactions, or settles them at once. *)
#[global] Instance world : World bool := {|
  prepare := λ w _, (w, Ok prepared);
  broadcast := λ (w : bool) signed, (w, Ok (if w then Settled [2] else Pending [1]));
  poll_pending := λ w ps, (w, Ok (map (λ _, StillPending) ps));
  world_now := λ w, (w, 1500);
  world_io := λ w, (w, IoDone);
  world_signer := λ _, SamplePermit.signer
|}.
Lemma world_signers_keep (w : bool) : keeps_message (world_signer w).
Proof. exact SamplePermit.signer_keeps. Qed.

#[global] Instance chain : ChainState unit Error := fanout_chain SampleNode.post SampleNode.text.
Definition decode (s : string) : option (list Z) := Some (str_bytes s).
Definition sig_text (_ : list Z) : string := "sigB".
Definition hash_text (_ : list Z) : string := "hash".

(** Two rows, one to a recipient without a token account. *)
Definition manifest : TransferManifest := {|
  manifest_context := SampleKit.ctx; manifest_rows := take 2 SampleKit.rows; total_amount_raw := 500;
  manifest_hash := SampleKit.key 9 |}.
Definition ata : AtaSnapshot := {|
  sender_ata := sender_ata SampleKit.ata; sender_ata_exists := true;
  destinations := take 2 (destinations SampleKit.ata) |}.

(** Everything one run computes, from the journal it finds. *)
Definition no_plan : ResumePlan := {|
  remaining := manifest; newly_confirmed := []; confirmed_chunks := 0; next_chunk_index := 0 |}.
Definition no_rpc : ResumeStatuses := {| landings := ∅ |}.
Definition statuses_of (es : list JournalEvent) : ResumeStatuses :=
  match resume_landings (C := unit) tt tt es with Ok rpc => rpc | Err _ => no_rpc end.
Definition plan_of (es : list JournalEvent) : ResumePlan :=
  match plan_resume decode es manifest (statuses_of es) with Ok p => p | Err _ => no_plan end.
Definition no_chunks : TransactionPlan := {| plan_fee_payer_mode := SelfFunded; plan_fee_payer := []; chunks := [] |}.
Abbreviation packing es :=
  (pack_chunks_from (remaining (plan_of es)) ata SelfFunded (ctx_sender SampleRun.tx_context)
     (ctx_sender SampleRun.tx_context) 1000 (next_chunk_index (plan_of es))).
Definition packed_of (es : list JournalEvent) : TransactionPlan :=
  match packing es with Ok p => p | Err _ => no_chunks end.
Definition permit_of (es : list JournalEvent) : BatchSigningPermit :=
  match authorize (SampleKit.key 7) manifest (packed_of es) SamplePermit.summary 1000 3600 (Ok SampleKit.sender) with
  | Ok p => p | Err _ => SamplePermit.blank end.
Definition start (up : bool) (j : Journal) (es : list JournalEvent) : ExecState (W := bool) := {|
  ex_permit := permit_of es; ex_journal := j; ex_world := up; ex_in_flight := [];
  ex_summary := {| summary_confirmed := 0; summary_failed := 0 |}; ex_sent := [] |}.
Abbreviation go up j es :=
  (run SamplePermit.text sig_text hash_text SampleRun.tx_context default_config 5 (chunks (packed_of es)) (start up j es)).
Definition blank_journal : Journal := {| journal_file := ""; journal_path := "j"; next_sequence := 1 |}.

(** After the first run. *)
Definition j1 : Journal := Eval vm_compute in ex_journal (go false blank_journal []).1.
Definition es1 : list JournalEvent := Eval vm_compute in
  match reopen blank_journal (journal_file j1) with Ok (_, es) => es | Err _ => [] end.
Definition sent1 : list SignedChunk := Eval vm_compute in map sent_chunk (ex_sent (go false blank_journal []).1).
(** After the second. *)
Definition j2 : Journal := Eval vm_compute in ex_journal (go true j1 es1).1.
Definition es2 : list JournalEvent := Eval vm_compute in
  match reopen j1 (journal_file j2) with Ok (_, es) => es | Err _ => [] end.
Definition sent2 : list SignedChunk := Eval vm_compute in map sent_chunk (ex_sent (go true j1 es1).1).

Example rows_sent : map signed_row_numbers (sent1 ++ sent2) = [[2; 3]; [2; 3]] ∧
  map signed_chunk_index (sent1 ++ sent2) = [0; 1].
Proof. vm_compute. done. Qed.

Lemma chain_is_honest : honest_reads (C := unit) (E := Error) tt tt.
Proof. apply honest_of_node, SampleNode.node_is_honest. Qed.
Lemma holds1 : journal_holds j1 es1.
Proof. split; vm_compute; reflexivity. Qed.
Lemma holds2 : journal_holds j2 es2.
Proof. split; vm_compute; reflexivity. Qed.

Lemma starts (up : bool) j es : journal_holds j es → unused (permit_of es) →
  starts_from SamplePermit.text (permit_of es) es (start up j es).
Proof. intros Hj Hu. split; [done|]. split; [done|]. exists []. by apply unused_inv. Qed.

Abbreviation history := (fanout_history SamplePermit.text sig_text hash_text decode manifest).

Lemma step (up : bool) j es sent j' es' sent' :
  history j es sent → journal_holds j es → unused (permit_of es) →
  resume_landings (C := unit) tt tt es = Ok (statuses_of es) →
  plan_resume decode es manifest (statuses_of es) = Ok (plan_of es) →
  packing es = Ok (packed_of es) → permit_chunks (permit_of es) = chunks (packed_of es) →
  reopen j (journal_file (ex_journal (go up j es).1)) = Ok (j', es') → journal_holds j' es' →
  map sent_chunk (ex_sent (go up j es).1) = sent' →
  history j' es' (sent ++ sent').
Proof.
  intros Hh Hj Hu Hrpc Hplan Hpack Hperm Hre Hj' <-.
  exact (history_run SamplePermit.text sig_text hash_text decode manifest j es sent tt tt (statuses_of es)
    (plan_of es) j es ata 1000 (packed_of es) (permit_of es) SampleRun.tx_context default_config
    (start up j es) 5 (go up j es).1 (go up j es).2 (ex_journal (go up j es).1) j' es' Hh chain_is_honest Hrpc Hplan (noted_none j es) Hpack Hperm
    (starts up j es Hj Hu) eq_refl (surjective_pairing _) (or_introl eq_refl) Hre Hj').
Qed.

Ltac compute_step :=
  first [vm_compute; reflexivity|split; [vm_compute; reflexivity|split; vm_compute; congruence]].

Lemma history1 : history j1 es1 sent1.
Proof.
  apply (step false blank_journal [] [] j1 es1 sent1); [apply history_new|by split|compute_step..|exact holds1|compute_step].
Qed.

Lemma history2 : history j2 es2 (sent1 ++ sent2).
Proof. apply (step true j1 es1 sent1 j2 es2 sent2); [exact history1|exact holds1|compute_step..|exact holds2|compute_step]. Qed.

Lemma expiry : expiry_recorded es2.
Proof.
  intros k rows sig lvbh Hin.
  assert (Forall (λ r : chunk_record, 15 ≤ default 15 (snd <$> r.2)) (chunk_log es2)) as Hall
    by (apply (bool_decide_unpack _); vm_compute; exact I).
  rewrite Forall_forall in Hall. exact (Hall _ Hin).
Qed.
Lemma numbers : NoDup (map row_number (manifest_rows manifest)).
Proof. apply (bool_decide_unpack _). vm_compute. exact I. Qed.
End SampleFanout.

Lemma fanout_pays_each_row_at_most_once_witness : never_lands "sigB".
Proof.
  assert (∃ x y, (SampleFanout.sent1 ++ SampleFanout.sent2) !! 0%nat = Some x ∧
    (SampleFanout.sent1 ++ SampleFanout.sent2) !! 1%nat = Some y ∧
    signed_row_numbers x = [2; 3] ∧ signed_row_numbers y = [2; 3]) as (x & y & Hx & Hy & Ex & Ey)
    by (do 2 eexists; split_and!; vm_compute; reflexivity).
  apply (fanout_pays_each_row_at_most_once SamplePermit.text SampleFanout.sig_text SampleFanout.hash_text
    SampleFanout.decode SampleFanout.manifest SampleFanout.world_signers_keep SampleFanout.j2 SampleFanout.es2
    (SampleFanout.sent1 ++ SampleFanout.sent2) 0 1 x y 2 SampleFanout.numbers SampleFanout.history2
    SampleFanout.expiry); [lia|exact Hx|exact Hy|rewrite Ex; constructor|rewrite Ey; constructor].
Defined.

Lemma resume_accounts_for_every_row_witness :
  next_chunk_index (SampleFanout.plan_of SampleFanout.es1) = 1 ∧
  manifest_rows (remaining (SampleFanout.plan_of SampleFanout.es1)) `sublist_of` manifest_rows SampleFanout.manifest ∧
  (∀ r, r ∈ chunk_log SampleFanout.es1 → record_index r < next_chunk_index (SampleFanout.plan_of SampleFanout.es1)).
Proof.
  split; [vm_compute; reflexivity|].
  assert (plan_resume SampleFanout.decode SampleFanout.es1 SampleFanout.manifest (SampleFanout.statuses_of SampleFanout.es1)
    = Ok (SampleFanout.plan_of SampleFanout.es1)) as Hplan by (vm_compute; reflexivity).
  destruct (resume_accounts_for_every_row SampleFanout.decode SampleFanout.es1 (SampleFanout.statuses_of SampleFanout.es1)
    SampleFanout.manifest (SampleFanout.plan_of SampleFanout.es1) Hplan) as (Hsub & _ & _ & _ & _ & Hfresh).
  split; [exact Hsub|exact Hfresh].
Defined.

Module SampleResume.
Definition digest (x : list Z) : list Z := map (λ b, b mod 256) x.
Lemma digest_bytes x : Forall is_u8 (digest x).
Proof. unfold digest. rewrite Forall_map, Forall_forall. intros b _. apply Z.mod_pos_bound. lia. Qed.
Definition manifest : TransferManifest := {|
  manifest_context := Sample.ctx; manifest_rows := [Sample.row1; Sample.row2]; total_amount_raw := 1250001;
  manifest_hash := digest (canonical_preimage Sample.ctx [Sample.row1; Sample.row2]) |}.
Definition text (_ : Pubkey) : string := "key".
Definition created : JournalEvent := {| sequence := 1; timestamp := 100;
  kind := RunCreated (hash_hex (manifest_hash manifest)) "devnet" "USDC" "key" "key" 6 2 1250001 "self_funded" |}.
Definition granted : JournalEvent := {| sequence := 2; timestamp := 100;
  kind := AuthorizationGranted "key" 1250001 1 900 |}.
Definition signed : JournalEvent := {| sequence := 3; timestamp := 100; kind := ChunkSigned 0 [2; 3] "sigB" "AQ==" "hash" 15 |}.
(** The journal of that run, as it is written. *)
Definition journal : Journal :=
  foldl (λ j e, (append_event j 100 IoDone (kind e)).1) SampleJournal.empty [created; granted; signed].
Lemma journal_runs : journal_run journal [created; granted; signed].
Proof.
  exact (run_append _ [created; granted] 100 (kind signed) (run_append _ [created] 100 (kind granted)
    (run_append SampleJournal.empty [] 100 (kind created) (run_new "run.jsonl")))).
Qed.
End SampleResume.

Lemma resume_continues_the_same_payout_witness :
  SampleResume.manifest = SampleResume.manifest ∧ "devnet" = "devnet" ∧
  Forall (λ account, account = "key") (signers [SampleResume.granted; SampleResume.signed]).
Proof.
  apply (resume_continues_the_same_payout Sample.csv_lines Sample.key_of_text SampleResume.digest SampleResume.text
    Sample.input Sample.input' Sample.ctx Sample.ctx SampleResume.manifest SampleResume.manifest SampleResume.created
    [SampleResume.granted; SampleResume.signed] "devnet" "USDC" "key" "key" "devnet" [] [] []
    key_of_text_sized SampleResume.digest_bytes).
  - split; reflexivity.
  - split; reflexivity.
  - vm_compute. reflexivity.
  - vm_compute. reflexivity.
  - reflexivity.
  - intros _. reflexivity.
  - vm_compute. reflexivity.
Defined.

Lemma signed_run_blocks_rerun_witness :
  is_ok (refuse_existing_runs SampleResume.text
    [("/tmp", None); ("/home/push", Some [("notes.txt", None); ("run.jsonl", Some (journal_file SampleResume.journal +:+ "{"))])]
    (hash_hex (manifest_hash SampleResume.manifest)) "devnet" [] []) = false.
Proof.
  apply (signed_run_blocks_rerun SampleResume.text
    [("/tmp", None); ("/home/push", Some [("notes.txt", None); ("run.jsonl", Some (journal_file SampleResume.journal +:+ "{"))])]
    "/home/push" [("notes.txt", None); ("run.jsonl", Some (journal_file SampleResume.journal +:+ "{"))] "run.jsonl"
    SampleResume.journal [SampleResume.created; SampleResume.granted; SampleResume.signed] "{"
    (hash_hex (manifest_hash SampleResume.manifest)) "devnet" [] [] SampleResume.created SampleResume.granted SampleResume.signed).
  - right. left.
  - right. left.
  - reflexivity.
  - exact SampleResume.journal_runs.
  - reflexivity.
  - left.
  - do 6 eexists. reflexivity.
  - right. left.
  - do 3 eexists. reflexivity.
  - right. right. left.
  - do 6 eexists. reflexivity.
Defined.
