(* ===== verification/FanoutRun.v ===== *)
(** * FanoutRun: the fanout command as a whole

    [FanoutCommand::run] of [cli/src/commands/fanout.rs] with the currencies
    of [types/src/lib.rs]: every check, chain read, journal write and the
    executor, in the order of the code, over a world that answers.  What the
    file system and the account store answer is the record [Env]. *)
From S2P Require Import Prelude Text Affixes Landing PushManifest PushPlanner PushPermit PushJournal PushExecutor FanoutRpc Fanout.
#[local] Open Scope string_scope.
#[local] Open Scope list_scope.
#[local] Open Scope Z_scope.

(** ** Currencies *)
Inductive Stablecoin := Usdc | Usdt | Pyusd | Cash | Usdg | Usdpt.

(** The mint addresses PayKit publishes. *)
Class Mints := {
  USDC_MAINNET : string; USDC_DEVNET : string; USDC_TESTNET : string;
  USDT_MAINNET : string;
  PYUSD_MAINNET : string; PYUSD_DEVNET : string; PYUSD_TESTNET : string;
  CASH_MAINNET : string;
  USDG_MAINNET : string; USDG_DEVNET : string; USDG_TESTNET : string;
  USDPT_MAINNET : string;
  USDTEST_DEVNET : string
}.

Definition symbol (c : Stablecoin) : string :=
  match c with
  | Usdc => "USDC" | Usdt => "USDT" | Pyusd => "PYUSD" | Cash => "CASH" | Usdg => "USDG" | Usdpt => "USDPT"
  end.
Definition SYMBOL_LIST : string := "USDC, USDT, PYUSD, CASH, USDG, or USDPT".

Definition parse_symbol (value : string) : option Stablecoin :=
  let s := to_ascii_uppercase (trim value) in
  if bool_decide (s = "USDC") then Some Usdc
  else if bool_decide (s = "USDT") then Some Usdt
  else if bool_decide (s = "PYUSD") then Some Pyusd
  else if bool_decide (s = "CASH") then Some Cash
  else if bool_decide (s = "USDG") then Some Usdg
  else if bool_decide (s = "USDPT") then Some Usdpt
  else None.
Definition stablecoin_from_str (value : string) : result string Stablecoin :=
  ok_or (parse_symbol value) ("`pay send` sends stablecoins only; choose " +:+ SYMBOL_LIST).

Section currency.
Context `{Mints} (pubkey_from_str : string → result string Pubkey).

Definition per_network (network : option string) (devnet testnet mainnet : string) : string :=
  match network with
  | Some n => if bool_decide (n = "devnet") then devnet else if bool_decide (n = "testnet") then testnet else mainnet
  | None => mainnet
  end.
Definition mint_of (c : Stablecoin) (network : option string) : string :=
  match c with
  | Usdc => per_network network USDC_DEVNET USDC_TESTNET USDC_MAINNET
  | Usdt => USDT_MAINNET
  | Pyusd => per_network network PYUSD_DEVNET PYUSD_TESTNET PYUSD_MAINNET
  | Cash => CASH_MAINNET
  | Usdg => per_network network USDG_DEVNET USDG_TESTNET USDG_MAINNET
  | Usdpt => USDPT_MAINNET
  end.

Definition resolve_currency (currency network : string) : res (string * Pubkey) :=
  if eq_ignore_ascii_case currency "USDtest" then
    _ ← reject_if (bool_decide (network ≠ "devnet")) (Config "USDtest is devnet-only; pass --network devnet");
    mint ← map_err (λ e, Config ("invalid USDtest mint: " +:+ e)) (pubkey_from_str USDTEST_DEVNET);
    Ok ("USDtest", mint)
  else
    stablecoin ← map_err Config (stablecoin_from_str currency);
    mint ← map_err (λ e, Config ("invalid " +:+ symbol stablecoin +:+ " mint: " +:+ e))
             (pubkey_from_str (mint_of stablecoin (Some network)));
    Ok (symbol stablecoin, mint).
End currency.

(** ** The command *)
Record FanoutCommand := {
  cmd_csv : string;
  cmd_currency : string;
  cmd_network : string;
  cmd_keypair : option string;
  cmd_max_in_flight : Z;
  cmd_journal : option string;
  cmd_resume : option string;
  cmd_new_run : bool
}.

(** What the file system and the account store answer: the account the
    command resolves and the signer it loads when authorizing, the bytes of
    the CSV, the directories searched for journals, a path for a new journal,
    and the contents and lock of the journal opened. *)
Record Env := {
  env_account : res (string * Pubkey);
  env_signer : res Pubkey;
  env_csv : result string (list Z);
  env_dirs : list directory;
  env_default_path : string;
  env_content : string;
  env_open : result string unit;
  env_lock : nat → TryLock;
  env_set_len : result string unit
}.

(** The payout a command is about, once everything is resolved. *)
Record Payout := {
  po_network : string;
  po_currency : string;
  po_mint : Pubkey;
  po_account : string;
  po_sender : Pubkey;
  po_info : MintInfo;
  po_genesis : list Z;
  po_manifest : TransferManifest
}.

Section command.
Context `{Kit} `{Mints} `{EventCodec} {W : Type} `{World W}.
Context (post : W → json → W * result string (result string json)).
Context (csv_records : list Z → list (result string (list string))) (blake3 : list Z → list Z).
Context (pubkey_text : Pubkey → string) (signature_text hash_text : list Z → string) (json_text : json → string).
Context (pubkey_from_str : string → result string Pubkey) (base58_decode : string → result string (list Z)).
Context (signature_from_str : string → option (list Z)).
Context (schedule : list (list (nat * Pubkey * Pubkey)) → list (list (nat * Pubkey * Pubkey))).

#[local] Instance command_rpc_ret : MRet (rpc (R := W)) := rpc_ret.
#[local] Instance command_rpc_bind : MBind (rpc (R := W)) := rpc_bind.
#[local] Instance command_chain : ChainState W Error := fanout_chain post json_text.

(** *** Up to the manifest *)
Definition prepare_payout (cmd : FanoutCommand) (network_override : option string) (env : Env) : rpc (R := W) Payout :=
  let network := effective_network (cmd_network cmd) network_override in
  _ ← answer (validate_network network);
  _ ← answer (reject_if (bool_decide (network = "mainnet") && bool_decide (is_Some (cmd_keypair cmd)))
        (Config ("--keypair is disabled for mainnet fanout; use a configured pay account " +:+
                 "so its authentication policy is enforced")));
  _ ← answer (reject_if (cmd_max_in_flight cmd =? 0) (Config "--max-in-flight must be greater than 0"));
  currency ← answer (resolve_currency pubkey_from_str (cmd_currency cmd) network);
  account ← answer (env_account env);
  csv ← answer (map_err (λ e, Config ("failed to read " +:+ cmd_csv cmd +:+ ": " +:+ e)) (env_csv env));
  info ← mint_info post json_text pubkey_text pubkey_from_str currency.2;
  genesis ← genesis_hash post json_text base58_decode;
  manifest ← answer (parse_manifest_csv csv_records pubkey_from_str blake3 (Ok csv)
    {| network_genesis_hash := genesis; ctx_mint := currency.2; ctx_token_program := info_token_program info;
       ctx_decimals := info_decimals info |});
  mret {| po_network := network; po_currency := currency.1; po_mint := currency.2; po_account := account.1;
          po_sender := account.2; po_info := info; po_genesis := genesis; po_manifest := manifest |}.

(** *** With the journal open *)
Record CmdState := {
  cs_world : W;
  cs_journal : Journal;
  cs_sent : list Sending
}.
Definition cmd (A : Type) : Type := CmdState → CmdState * outcome A.
#[local] Instance cmd_ret : MRet cmd := λ A a s, (s, Returned a).
#[local] Instance cmd_bind : MBind cmd := λ A B k m s,
  match m s with
  | (s', Returned a) => k a s'
  | (s', Raised e) => (s', Raised e)
  | (s', Running) => (s', Running)
  end.
Definition fallible {A} (r : res A) : cmd A := λ s,
  (s, match r with Ok a => Returned a | Err e => Raised e end).
Definition reading {A} (m : rpc (R := W) A) : cmd A := λ s,
  let '(w, r) := m (cs_world s) in
  fallible r {| cs_world := w; cs_journal := cs_journal s; cs_sent := cs_sent s |}.
Definition asking {A} (f : W → W * A) : cmd A := λ s,
  let '(w, a) := f (cs_world s) in ({| cs_world := w; cs_journal := cs_journal s; cs_sent := cs_sent s |}, Returned a).
Definition writing {A} (f : Journal → Z → Io → Journal * res A) : cmd A :=
  now ← asking world_now;
  io ← asking world_io;
  (λ s, let '(j, r) := f (cs_journal s) now io in
        fallible r {| cs_world := cs_world s; cs_journal := j; cs_sent := cs_sent s |}) : cmd A.

(** [resume_landings]: the tip is read first, then the statuses. *)
Definition read_landings (events : list JournalEvent) : cmd ResumeStatuses := λ s,
  let at_tip := cs_world s in
  match signed_payouts events with
  | [] => fallible (resume_landings at_tip at_tip events) s
  | payouts =>
      let '(at_statuses, tip) := read_finalized_tip post json_text at_tip in
      let after := match tip with
                   | Ok _ => (read_signature_statuses post json_text (map payout_signature payouts) at_statuses).1
                   | Err _ => at_statuses
                   end in
      fallible (resume_landings at_tip at_statuses events)
        {| cs_world := after; cs_journal := cs_journal s; cs_sent := cs_sent s |}
  end.

Fixpoint record_confirmed (chunks : list (Z * list Z)) : cmd unit :=
  match chunks with
  | [] => mret tt
  | (k, signature) :: chunks =>
      _ ← writing (λ j now io, append_chunk_confirmed j now io k (signature_text signature));
      record_confirmed chunks
  end.

(** The rows to pay and the first chunk index, or nothing when every row is
    confirmed already. *)
Definition start_resumed (p : Payout) (events : list JournalEvent) : cmd (option (TransferManifest * Z)) :=
  _ ← fallible (verify_resume_journal pubkey_text events (po_manifest p) (po_network p) (po_mint p)
        (info_token_program (po_info p)) (po_sender p));
  statuses ← read_landings events;
  resume ← fallible (plan_resume signature_from_str events (po_manifest p) statuses);
  _ ← record_confirmed (newly_confirmed resume);
  if bool_decide (manifest_rows (remaining resume) = []) then
    _ ← writing (λ j now io, append_run_completed j now io (confirmed_chunks resume) 0 0);
    mret None
  else mret (Some (remaining resume, next_chunk_index resume)).

Definition start_new (p : Payout) : cmd (option (TransferManifest * Z)) :=
  let manifest := po_manifest p in
  _ ← writing (λ j now io, append_run_created j now io (hash_hex (manifest_hash manifest)) (po_network p) (po_currency p)
        (pubkey_text (po_mint p)) (pubkey_text (info_token_program (po_info p))) (info_decimals (po_info p))
        (zlen (manifest_rows manifest)) (total_amount_raw manifest) "self_funded");
  mret (Some (manifest, 0)).

(** Balances and the preflight record. *)
Definition preflight (p : Payout) (manifest : TransferManifest) (snapshot : AtaSnapshot) (plan : TransactionPlan) :
    cmd unit :=
  source_balance ← reading (token_balance post json_text pubkey_text (sender_ata snapshot));
  _ ← fallible (reject_if (source_balance <? total_amount_raw manifest)
        (Config ("source account has " +:+ show source_balance +:+ " base units of " +:+ po_currency p +:+
                 "; fanout needs " +:+ show (total_amount_raw manifest))));
  let rent_per_ata := rent_exempt_minimum_lamports (token_account_len (info_token_program (po_info p))) in
  rent ← fallible (ok_or (checked_mul 64 rent_per_ata (missing_count snapshot))
           (Config "missing-ATA rent estimate overflowed u64"));
  fee ← fallible (ok_or (checked_mul 64 ESTIMATED_FEE_LAMPORTS_PER_CHUNK (total_transactions plan))
          (Config "transaction fee estimate overflowed u64"));
  let reserve := compute_reserve_lamports fee in
  needed ← fallible (ok_or (checked_add 64 rent fee ≫= λ value, checked_add 64 value reserve)
             (Config "fanout SOL estimate overflowed u64"));
  available ← reading (sol_balance post json_text pubkey_text (po_sender p));
  _ ← fallible (reject_if (available <? needed)
        (Config ("fee payer " +:+ pubkey_text (po_sender p) +:+ " has " +:+ show available +:+
                 " lamports; fanout needs about " +:+ show needed +:+ " for " +:+ show (missing_count snapshot) +:+
                 " missing ATAs, fees, and reserve")));
  _ ← writing (λ j now io, append_preflight_completed j now io SelfFunded fee rent reserve (total_transactions plan)
        (total_amount_raw manifest));
  mret tt.

(** The executor, on this command's journal and world. *)
Definition executing (fuel : nat) (ctx : ChunkTxContext) (config : PushExecutorConfig) (permit : BatchSigningPermit)
    (chunks : list PlannedChunk) : CmdState → CmdState * outcome RunSummary := λ s,
  let '(x, o) := run pubkey_text signature_text hash_text ctx config fuel chunks
    {| ex_permit := permit; ex_journal := cs_journal s; ex_world := cs_world s; ex_in_flight := [];
       ex_summary := {| summary_confirmed := 0; summary_failed := 0 |}; ex_sent := [] |} in
  ({| cs_world := ex_world x; cs_journal := ex_journal x; cs_sent := cs_sent s ++ ex_sent x |}, o).

Definition finish (path : string) (plan : TransactionPlan) (ran : outcome RunSummary) : cmd unit := λ s,
  match ran with
  | Running => (s, Running)
  | Raised error =>
      let '(s, _) := writing (λ j now io, append_run_interrupted j now io (error_text error) 0 0
                               (total_transactions plan)) s in
      (s, Raised (Config ("fanout interrupted: " +:+ error_text error +:+ "; resume with --resume " +:+ path)))
  | Returned outcome =>
      (_ ← writing (λ j now io, append_run_completed j now io (summary_confirmed outcome) (summary_failed outcome) 0);
       fallible (reject_if (0 <? summary_failed outcome)
         (Config ("fanout finished with " +:+ show (summary_confirmed outcome) +:+ " confirmed and " +:+
                  show (summary_failed outcome) +:+ " failed chunks; resume with --resume " +:+ path)))) s
  end.

Definition pay (fuel : nat) (command : FanoutCommand) (env : Env) (p : Payout) (manifest : TransferManifest)
    (chunk_offset : Z) : cmd unit :=
  let info := po_info p in
  snapshot ← reading (ata_snapshot post json_text pubkey_text schedule (po_sender p) manifest (info_token_program info));
  plan ← fallible (pack_chunks_from manifest snapshot SelfFunded (po_sender p) (po_sender p) 0 chunk_offset);
  _ ← preflight p manifest snapshot plan;
  now ← asking world_now;
  permit ← fallible (authorize (po_genesis p) manifest plan
    {| sum_account := po_account p; sum_currency := po_currency p; sum_currency_decimals := info_decimals info;
       sum_network := po_network p; recipient_total_raw := total_amount_raw manifest;
       max_total_raw := total_amount_raw manifest |} now 21600 (env_signer env));
  _ ← writing (λ j now io, append_authorization_granted j now io (pubkey_text (po_sender p)) (total_amount_raw manifest)
        (total_transactions plan) (expires_at permit));
  (λ s,
    let '(s, ran) := executing fuel
      {| ctx_sender := po_sender p; tx_mint := po_mint p; tx_token_program := info_token_program info;
         tx_decimals := info_decimals info |}
      {| max_in_flight := cmd_max_in_flight command; poll_interval := DEFAULT_POLL_INTERVAL_MS |}
      permit (chunks plan) s in
    finish (journal_path (cs_journal s)) plan ran s) : cmd unit.

Definition pay_rows (fuel : nat) (command : FanoutCommand) (env : Env) (p : Payout)
    (start : cmd (option (TransferManifest * Z))) : cmd unit :=
  rows ← start;
  match rows with
  | None => mret tt
  | Some (manifest, chunk_offset) => pay fuel command env p manifest chunk_offset
  end.

(** The command: the world afterwards, the journal if one was opened, what
    was sent, and the outcome. *)
Definition fanout_run (fuel : nat) (command : FanoutCommand) (network_override : option string) (env : Env) (w : W) :
    W * option Journal * list Sending * outcome unit :=
  let '(w, prepared) := prepare_payout command network_override env w in
  match prepared with
  | Err e => (w, None, [], Raised e)
  | Ok p =>
      let opened : res (Journal * list JournalEvent) :=
        match cmd_resume command with
        | Some path => open_existing path (env_content env) (env_open env) (env_lock env) (env_set_len env)
        | None =>
            _ ← (if cmd_new_run command then Ok tt
                 else refuse_existing_runs pubkey_text (env_dirs env) (hash_hex (manifest_hash (po_manifest p)))
                        (po_network p) (po_mint p) (po_sender p));
            journal ← create_new (default (env_default_path env) (cmd_journal command)) (env_open env) (env_lock env);
            Ok (journal, [])
        end in
      match opened with
      | Err e => (w, None, [], Raised e)
      | Ok (journal, events) =>
          let start := match cmd_resume command with Some _ => start_resumed p events | None => start_new p end in
          let '(s, o) := pay_rows fuel command env p start {| cs_world := w; cs_journal := journal; cs_sent := [] |} in
          (cs_world s, Some (cs_journal s), cs_sent s, o)
      end
  end.

(** ** What a command adds to the history of its journal *)
Context `{!EventCodecLaws} `{Ledger}.
Hypothesis signers_keep_messages : ∀ w : W, keeps_message (world_signer w).
Hypothesis node_is_honest : ∀ w, node_honest post json_text w (read_finalized_tip post json_text w).1.

Abbreviation history manifest :=
  (fanout_history (W := W) (C := W) pubkey_text signature_text hash_text signature_from_str manifest).

Lemma reads_are_honest w : honest_reads (C := W) w (read_finalized_tip post json_text w).1.
Proof. apply honest_of_node, node_is_honest. Qed.

(** A new journal is planned as a whole. *)
Lemma plan_resume_fresh manifest rpc :
  total_amount_raw manifest = zsum (map row_amount_raw (manifest_rows manifest)) →
  is_u64 (total_amount_raw manifest) → Forall (λ r, 0 < row_amount_raw r) (manifest_rows manifest) →
  plan_resume signature_from_str [] manifest rpc =
  Ok {| remaining := manifest; newly_confirmed := []; confirmed_chunks := 0; next_chunk_index := 0 |}.
Proof.
  intros Htotal Hfit Hpos. unfold plan_resume.
  change (journal_chunks []) with (@nil (Z * list Z)). cbn [try_fold last]. rewrite !bind_ok_simpl. cbv beta iota.
  rewrite forallb_filter_id.
  2:{ apply forallb_forall. intros row _. by rewrite bool_decide_eq_false_2 by set_solver. }
  rewrite (checked_sum_fits 64 _ 0), Z.add_0_l, <- Htotal; [by destruct manifest|done|..].
  - rewrite Forall_map. eapply Forall_impl; [exact Hpos|]. simpl. lia.
  - rewrite Z.add_0_l, <- Htotal. destruct Hfit. lia.
Qed.

Section one_command.
Context (j : Journal) (es : list JournalEvent) (sent : list SignedChunk) (manifest : TransferManifest).
Hypothesis Hhistory : history manifest j es sent.

(** Wherever the command stops, what its journal is found to hold continues
    the history with what was sent. *)
Definition settles (s : CmdState) : Prop := ∀ j' es',
  reopen j (journal_file (cs_journal s)) = Ok (j', es') → journal_holds j' es' →
  history manifest j' es' (sent ++ map sent_chunk (cs_sent s)).
(** Nothing is sent yet, and only notes were added. *)
Definition noted_state (s : CmdState) : Prop := cs_sent s = [] ∧ ∃ es1, noted j es (cs_journal s) es1.

Lemma noted_state_start w : noted_state {| cs_world := w; cs_journal := j; cs_sent := [] |}.
Proof. split; [done|]. exists es. apply noted_none. Qed.

Definition ctriple {A} (P : CmdState → Prop) (m : cmd A) (Q : A → CmdState → Prop) : Prop := ∀ s, P s →
  match m s with
  | (s', Returned a) => Q a s'
  | (s', _) => settles s'
  end.

Lemma ctriple_bind {A B} P (m : cmd A) Q (k : A → cmd B) Q' :
  ctriple P m Q → (∀ a, ctriple (Q a) (k a) Q') → ctriple P (m ≫= k) Q'.
Proof.
  intros Hm Hk s Hs. specialize (Hm s Hs). unfold mbind, cmd_bind. destruct (m s) as [s' [a|e|]]; [|done..].
  by apply Hk.
Qed.

Lemma ctriple_ret {A} (P : CmdState → Prop) (a : A) : ctriple P (mret a) (λ a' s, a' = a ∧ P s).
Proof. intros s Hs. by split. Qed.

Lemma ctriple_post {A} P (m : cmd A) (Q Q' : A → CmdState → Prop) :
  (∀ a s, Q a s → Q' a s) → ctriple P m Q → ctriple P m Q'.
Proof. intros HQ Hm s Hs. specialize (Hm s Hs). destruct (m s) as [s' [a|e|]]; auto. Qed.

Lemma noted_settles s : noted_state s → settles s.
Proof.
  intros (Hsent & es1 & Hnote) j' es' Hre Hj'. rewrite Hsent, app_nil_r.
  pose proof (noted_holds _ _ _ _ Hnote (history_holds _ _ _ _ _ _ _ _ Hhistory)) as Hj1.
  assert (reopen (cs_journal s) (journal_file (cs_journal s)) = Ok (j', es')) as Hre1
    by (by rewrite (noted_path _ _ _ _ Hnote)).
  rewrite (holds_file _ _ Hj1), (reopen_clean _ _ Hj1) in Hre1. injection Hre1 as <- <-.
  by eapply history_noted.
Qed.

Lemma ctriple_fallible {A} (r : res A) : ctriple noted_state (fallible r) (λ a s, r = Ok a ∧ noted_state s).
Proof. intros s Hs. unfold fallible. destruct r; [by split|by apply noted_settles]. Qed.

Lemma ctriple_checking {A} (r : res A) : ctriple noted_state (fallible r) (λ _, noted_state).
Proof. eapply ctriple_post; [|apply ctriple_fallible]. by intros ? ? []. Qed.

Lemma ctriple_reading {A} (m : rpc (R := W) A) : ctriple noted_state (reading m) (λ _, noted_state).
Proof.
  intros s Hs. unfold reading. destruct (m (cs_world s)) as [w r].
  unfold fallible. destruct r; [exact Hs|]. by apply noted_settles.
Qed.

Lemma ctriple_asking {A} (f : W → W * A) : ctriple noted_state (asking f) (λ _, noted_state).
Proof. intros s Hs. unfold asking. by destruct (f (cs_world s)) as [w a]. Qed.

(** A note: written durably, or the command ends there. *)
Lemma ctriple_writing k :
  record_of k = None →
  ctriple noted_state (writing (λ j now io, append_event j now io k)) (λ _, noted_state).
Proof.
  intros Hk. unfold writing. eapply ctriple_bind; [apply ctriple_asking|]. intros now.
  eapply ctriple_bind; [apply ctriple_asking|]. intros io s Hs. cbv beta.
  destruct (append_event (cs_journal s) now io k) as [j1 r] eqn:Ha. destruct Hs as (Hsent & es1 & Hnote).
  pose proof (noted_holds _ _ _ _ Hnote (history_holds _ _ _ _ _ _ _ _ Hhistory)) as Hj1.
  pose proof (append_file (cs_journal s) now io k) as Hfile. rewrite Ha in Hfile. simpl in Hfile.
  unfold fallible. destruct r as [e|e].
  - split; [done|]. exists (es1 ++ [ {| sequence := next_sequence (cs_journal s); timestamp := now; kind := k |} ]). simpl.
    destruct io; simplify_eq. pose proof (noted_snoc _ _ _ _ now k Hnote Hk) as Hs. by rewrite Ha in Hs.
  - intros j' es'. cbn [cs_journal cs_sent]. rewrite Hsent, app_nil_r. intros Hre Hj'.
    rewrite Hfile, (holds_file _ _ Hj1), <- (noted_path _ _ _ _ Hnote) in Hre.
    pose proof (reopen_path _ _ _ _ Hre) as Hpath.
    destruct (recover_append _ _ _ _ _ _ _ Hj1 Hre Hj') as [-> | ->].
    + rewrite (holds_unique j' (cs_journal s) es1) by done. by eapply history_noted.
    + eapply history_noted; [exact Hhistory|]. pose proof (noted_snoc _ _ _ _ now k Hnote Hk) as Hs.
      rewrite (holds_unique j' (append_event (cs_journal s) now IoDone k).1 _) by (done || by apply append_done_holds).
      exact Hs.
Qed.

Lemma ctriple_landings events : ctriple noted_state (read_landings events)
  (λ rpc s, (∃ w, resume_landings w (read_finalized_tip post json_text w).1 events = Ok rpc) ∧ noted_state s).
Proof.
  intros s Hs. unfold read_landings.
  assert (signed_payouts events = [] → ∀ w w', resume_landings w w' events = resume_landings w w events) as Hnone.
  { intros E w w'. unfold resume_landings. by rewrite E. }
  destruct (signed_payouts events) as [|p ps] eqn:E.
  - unfold fallible. destruct (resume_landings _ _ _) as [rpc|e] eqn:Hrpc; [|by apply noted_settles].
    split; [|done]. exists (cs_world s). by rewrite Hnone.
  - destruct (read_finalized_tip post json_text (cs_world s)) as [at_statuses tip] eqn:Ht.
    unfold fallible. destruct (resume_landings _ _ _) as [rpc|e] eqn:Hrpc.
    + split; [|exact Hs]. exists (cs_world s). by rewrite Ht.
    + apply noted_settles. exact Hs.
Qed.

Lemma ctriple_confirmed confirmed : ctriple noted_state (record_confirmed confirmed) (λ _, noted_state).
Proof.
  induction confirmed as [|[k signature] confirmed IH]; cbn [record_confirmed].
  - eapply ctriple_post; [|apply ctriple_ret]. simpl. tauto.
  - eapply ctriple_bind; [by apply (ctriple_writing (ChunkConfirmed k (signature_text signature)))|]. done.
Qed.

(** The rows and the offset come from planning against the journal and an
    honest read of the chain. *)
Definition planned (rows : TransferManifest) (offset : Z) : Prop := ∃ at_tip at_statuses rpc plan,
  honest_reads (C := W) at_tip at_statuses ∧ resume_landings at_tip at_statuses es = Ok rpc ∧
  plan_resume signature_from_str es manifest rpc = Ok plan ∧ rows = remaining plan ∧ offset = next_chunk_index plan.
Definition started (rows : option (TransferManifest * Z)) (s : CmdState) : Prop :=
  noted_state s ∧ match rows with Some (m, offset) => planned m offset | None => True end.

Lemma ctriple_resumed p : po_manifest p = manifest → ctriple noted_state (start_resumed p es) started.
Proof.
  intros Hm. unfold start_resumed. eapply ctriple_bind; [apply ctriple_fallible|]. intros [] s (_ & Hs). revert s Hs.
  eapply ctriple_bind; [apply ctriple_landings|]. intros rpc s ([w Hrpc] & Hs). revert s Hs.
  eapply ctriple_bind; [apply ctriple_fallible|]. intros resume s (Hplan & Hs). rewrite Hm in Hplan. revert s Hs.
  eapply ctriple_bind; [apply ctriple_confirmed|]. intros ?. case_bool_decide.
  - eapply ctriple_bind; [by apply (ctriple_writing (RunCompleted _ _ _))|]. intros ? s Hs. by split.
  - intros s Hs. split; [exact Hs|]. eexists _, _, _, _.
    split; [apply (reads_are_honest w)|]. split; [exact Hrpc|]. by split; [exact Hplan|].
Qed.

Lemma ctriple_new p : es = [] → po_manifest p = manifest → manifest_wf blake3 manifest →
  ctriple noted_state (start_new p) started.
Proof.
  intros Hes Hm [_ _ _ _ Hpos Htotal Hfit _]. unfold start_new.
  eapply ctriple_bind; [by apply (ctriple_writing (RunCreated _ _ _ _ _ _ _ _ _))|].
  intros ? s Hs. split; [exact Hs|]. unfold planned. rewrite Hes, Hm. pose (w := cs_world s).
  eexists _, _, _, _. split; [apply (reads_are_honest w)|]. split; [reflexivity|].
  split; [by apply plan_resume_fresh|]. done.
Qed.

Lemma ctriple_preflight p rows snapshot plan :
  ctriple noted_state (preflight p rows snapshot plan) (λ _, noted_state).
Proof.
  unfold preflight. eapply ctriple_bind; [apply ctriple_reading|]. intros balance.
  eapply ctriple_bind; [apply ctriple_checking|]. intros ?.
  eapply ctriple_bind; [apply ctriple_checking|]. intros ?.
  eapply ctriple_bind; [apply ctriple_checking|]. intros ?.
  eapply ctriple_bind; [apply ctriple_checking|]. intros ?.
  eapply ctriple_bind; [apply ctriple_reading|]. intros available.
  eapply ctriple_bind; [apply ctriple_checking|]. intros ?.
  eapply ctriple_bind; [by apply (ctriple_writing (PreflightCompleted _ _ _ _ _ _))|]. by intros ? s Hs.
Qed.

(** The note after the executor is tried once. *)
Lemma writing_notes k s :
  record_of k = None →
  let s' := (writing (λ j now io, append_event j now io k) s).1 in
  cs_sent s' = cs_sent s ∧ noting (cs_journal s) (cs_journal s').
Proof.
  intros Hk. unfold writing, asking, mbind, cmd_bind, fallible. simpl.
  destruct (world_now (cs_world s)) as [w1 now]. simpl. destruct (world_io w1) as [w2 io]. simpl.
  destruct (append_event (cs_journal s) now io k) as [j1 r] eqn:Ha. simpl. split; [done|]. right. exists now, io, k.
  by rewrite Ha.
Qed.

Lemma finish_notes path plan ran s :
  let s' := (finish path plan ran s).1 in cs_sent s' = cs_sent s ∧ noting (cs_journal s) (cs_journal s').
Proof.
  unfold finish. destruct ran as [summary|error|]; [| |by split; [|left]].
  - pose proof (writing_notes (RunCompleted (summary_confirmed summary) (summary_failed summary) 0) s eq_refl) as Hw.
    unfold mbind, cmd_bind, append_run_completed in *. destruct (writing _ s) as [s' [e|e|]]; exact Hw.
  - pose proof (writing_notes (RunInterrupted (error_text error) 0 0 (total_transactions plan)) s eq_refl) as Hw.
    unfold append_run_interrupted in *. destruct (writing _ s) as [s' o]. exact Hw.
Qed.

Lemma execution_settles fuel ctx config permit rows offset snapshot price packed plan path s s' ran :
  planned rows offset → noted_state s →
  pack_chunks_from rows snapshot SelfFunded (ctx_sender ctx) (ctx_sender ctx) price offset = Ok packed →
  unused permit → permit_chunks permit = chunks packed →
  executing fuel ctx config permit (chunks packed) s = (s', ran) → settles (finish path plan ran s').1.
Proof.
  intros (at_tip & at_statuses & rpc & resume & Hh & Hrpc & Hplan & -> & ->) (Hsent & es1 & Hnote) Hpack Hun Hperm Hex.
  unfold executing in Hex. destruct (run _ _ _ _ _ _ _ _) as [x r] eqn:Hrun. rewrite Hsent in Hex. injection Hex as <- <-.
  match goal with |- settles (finish _ _ _ ?st).1 => destruct (finish_notes path plan r st) as [Hs'' Hnoting] end.
  set (s'' := (finish path plan r _).1) in *. cbn [cs_sent cs_journal app] in Hs'', Hnoting.
  intros j' es' Hre Hj'. rewrite Hs''. rewrite <- (noted_path _ _ _ _ Hnote) in Hre.
  refine (history_run _ _ _ _ _ j es sent at_tip at_statuses rpc resume (cs_journal s) es1 snapshot price packed permit ctx
    config _ fuel x r (cs_journal s'') j' es' Hhistory Hh Hrpc Hplan Hnote Hpack Hperm _ _ Hrun Hnoting Hre Hj'); [|done].
  split; [exact (noted_holds _ _ _ _ Hnote (history_holds _ _ _ _ _ _ _ _ Hhistory))|]. split; [done|].
  exists []. by apply unused_inv.
Qed.

Lemma authorized_unused genesis rows packed summary now ttl signer permit :
  0 ≤ max_total_raw summary → authorize genesis rows packed summary now ttl signer = Ok permit →
  unused permit ∧ permit_chunks permit = chunks packed.
Proof.
  intros Hmax Ha. unfold authorize in Ha. inv_ok. split; [|done]. split; [done|]. split; [done|apply zlen_nonneg].
Qed.

Lemma planned_total rows offset : planned rows offset → Forall (λ r, 0 < row_amount_raw r) (manifest_rows manifest) →
  0 ≤ total_amount_raw rows.
Proof.
  intros (at_tip & at_statuses & rpc & resume & _ & _ & Hplan & -> & _) Hpos.
  apply plan_resume_rows in Hplan as (_ & Hsub & _ & _ & -> & _). apply zsum_nonneg. rewrite Forall_map.
  rewrite Forall_forall in Hpos. rewrite Forall_forall. intros r Hr.
  assert (r ∈ manifest_rows manifest) as Hin by (by eapply elem_of_sublist). specialize (Hpos r Hin). lia.
Qed.

Lemma ctriple_pay fuel command env p rows offset :
  Forall (λ r, 0 < row_amount_raw r) (manifest_rows manifest) → planned rows offset →
  ctriple noted_state (pay fuel command env p rows offset) (λ _, settles).
Proof.
  intros Hpos Hplanned. unfold pay. eapply ctriple_bind; [apply ctriple_reading|]. intros snapshot.
  eapply ctriple_bind; [apply ctriple_fallible|]. intros packed s (Hpack & Hs). revert s Hs.
  eapply ctriple_bind; [apply ctriple_preflight|]. intros ?.
  eapply ctriple_bind; [apply ctriple_asking|]. intros now.
  eapply ctriple_bind; [apply ctriple_fallible|]. intros permit s (Hauth & Hs). revert s Hs.
  apply authorized_unused in Hauth as [Hun Hperm]; [|by eapply planned_total].
  eapply ctriple_bind; [by apply (ctriple_writing (AuthorizationGranted _ _ _ _))|]. intros ? s Hs. cbv beta.
  destruct (executing _ _ _ _ _ s) as [s' ran] eqn:Hex.
  assert (settles (finish (journal_path (cs_journal s')) packed ran s').1) as Hset
    by (eapply execution_settles; [exact Hplanned|exact Hs| |exact Hun|exact Hperm|exact Hex]; exact Hpack).
  destruct (finish _ _ _ _) as [s'' o]. by destruct o.
Qed.

Lemma pay_rows_settles fuel command env p start s :
  Forall (λ r, 0 < row_amount_raw r) (manifest_rows manifest) →
  ctriple noted_state start started → noted_state s → settles (pay_rows fuel command env p start s).1.
Proof.
  intros Hpos Hstart Hs.
  assert (ctriple noted_state (pay_rows fuel command env p start) (λ _, settles)) as Hall.
  { unfold pay_rows. eapply ctriple_bind; [exact Hstart|]. intros [[rows offset]|] s1 [Hs1 Hplanned].
    - by apply ctriple_pay.
    - by apply noted_settles. }
  specialize (Hall s Hs). destruct (pay_rows _ _ _ _ _ s) as [s' o]. by destruct o.
Qed.
End one_command.

(** ** Any number of commands on one journal *)

(** What one command finds in its journal's file when it opens it. *)
Definition opens (path content : string) (j : Journal) (es : list JournalEvent) : Prop :=
  open_existing path content (Ok tt) (λ _, Locked) (Ok tt) = Ok (j, es) ∧ journal_holds j es.

(** The file of one journal and everything handed to the transport, after a
    first command and any number of [--resume] commands for the same manifest,
    each of which may have failed or been stopped anywhere. *)
Inductive command_history (manifest : TransferManifest) : string → string → list SignedChunk → Prop :=
  | commands_first command network env w p fuel w' j sending o :
      cmd_resume command = None →
      (prepare_payout command network env w).2 = Ok p → po_manifest p = manifest →
      fanout_run fuel command network env w = (w', Some j, sending, o) →
      command_history manifest (default (env_default_path env) (cmd_journal command)) (journal_file j)
        (map sent_chunk sending)
  | commands_resumed path content sent j0 es0 command network env w p fuel w' j sending o :
      command_history manifest path content sent → opens path content j0 es0 →
      cmd_resume command = Some path → env_content env = content →
      (prepare_payout command network env w).2 = Ok p → po_manifest p = manifest →
      fanout_run fuel command network env w = (w', Some j, sending, o) →
      command_history manifest path (journal_file j) (sent ++ map sent_chunk sending).

Lemma open_existing_opens path content opened answers set_len j es :
  open_existing path content opened answers set_len = Ok (j, es) →
  open_existing path content (Ok tt) (λ _, Locked) (Ok tt) = Ok (j, es).
Proof.
  unfold open_existing, load_events. intros Hopen. inv_ok. cbn [map_err]. rewrite !bind_ok_simpl.
  destruct (negb _); [done|]. destruct (load_lines _ _ _ _ _) as [[events [offset|]]|e]; [|done..].
  by destruct set_len as [[]|e].
Qed.

Lemma prepared_manifest command network env w p :
  (prepare_payout command network env w).2 = Ok p → manifest_wf blake3 (po_manifest p).
Proof.
  unfold prepare_payout. intros Hp. repeat (apply (rpc_bind_Ok post) in Hp as (? & ? & Hp)).
  injection Hp as <-. simpl in *.
  match goal with Hm : parse_manifest_csv _ _ _ _ _ = Ok _ |- _ => by apply parsed_manifest_rows in Hm as [? _] end.
Qed.

(** A command that opened a journal, taken apart. *)
Lemma fanout_run_opened fuel command network env w p w' j sending o :
  (prepare_payout command network env w).2 = Ok p →
  fanout_run fuel command network env w = (w', Some j, sending, o) →
  ∃ wp j0 es0 start,
    j = cs_journal (pay_rows fuel command env p start {| cs_world := wp; cs_journal := j0; cs_sent := [] |}).1 ∧
    sending = cs_sent (pay_rows fuel command env p start {| cs_world := wp; cs_journal := j0; cs_sent := [] |}).1 ∧
    match cmd_resume command with
    | Some path => start = start_resumed p es0 ∧
        open_existing path (env_content env) (Ok tt) (λ _, Locked) (Ok tt) = Ok (j0, es0)
    | None => start = start_new p ∧ es0 = [] ∧
        j0 = {| journal_file := ""; journal_path := default (env_default_path env) (cmd_journal command);
                next_sequence := 1 |}
    end.
Proof.
  intros Hp. unfold fanout_run. destruct (prepare_payout _ _ _ w) as [wp r]. simpl in Hp. subst r.
  destruct (cmd_resume command) as [path|].
  - destruct (open_existing _ _ _ _ _) as [[j0 es0]|e] eqn:Hopen; [|done].
    destruct (pay_rows _ _ _ _ _ _) as [s o'] eqn:Hpay. intros [= <- <- <- <-].
    exists wp, j0, es0, (start_resumed p es0). rewrite Hpay. split_and!; [done..|]. by eapply open_existing_opens.
  - destruct (if cmd_new_run command then _ else _) as [[]|e]; [|done]. rewrite bind_ok_simpl.
    destruct (create_new _ _ _) as [j0|e] eqn:Hnew; [|done]. rewrite bind_ok_simpl.
    destruct (pay_rows _ _ _ _ _ _) as [s o'] eqn:Hpay. intros [= <- <- <- <-].
    exists wp, j0, [], (start_new p). rewrite Hpay. split_and!; [done..|].
    unfold create_new in Hnew. by inv_ok.
Qed.

Lemma command_history_wf manifest path content sent :
  command_history manifest path content sent → manifest_wf blake3 manifest.
Proof. destruct 1; subst; by eapply prepared_manifest. Qed.

Lemma command_history_run manifest path content sent :
  command_history manifest path content sent →
  ∀ j es, opens path content j es → history manifest j es sent.
Proof.
  induction 1 as [command network env w p fuel w' jf sending o Hres Hp Hm Hrun|
    path content sent j0 es0 command network env w p fuel w' jf sending o _ IH Hopen Hres Henv Hp Hm Hrun];
    intros j es [Hre Hj]; pose proof (prepared_manifest _ _ _ _ _ Hp) as Hwf; rewrite Hm in Hwf;
    destruct (fanout_run_opened _ _ _ _ _ _ _ _ _ _ Hp Hrun) as (wp & j1 & es1 & start & -> & -> & Hstart);
    rewrite Hres in Hstart.
  - destruct Hstart as (-> & -> & ->). set (path := default _ _) in *. set (j1 := Build_Journal _ _ _) in *.
    pose proof (history_new pubkey_text signature_text hash_text signature_from_str manifest path
      : history manifest j1 [] []) as Hnew.
    apply (pay_rows_settles j1 [] [] manifest Hnew fuel command env p (start_new p) _ (wf_amounts _ _ Hwf));
      [by apply ctriple_new|apply noted_state_start|exact Hre|exact Hj].
  - destruct Hstart as (-> & Hopen1). rewrite Henv in Hopen1. destruct Hopen as [Hopen Hj0].
    rewrite Hopen in Hopen1. injection Hopen1 as <- <-.
    pose proof (reopen_path {| journal_file := ""; journal_path := path; next_sequence := 1 |} _ _ _ Hopen) as Hpath.
    simpl in Hpath. rewrite <- Hpath in Hre.
    pose proof (IH _ _ (conj Hopen Hj0)) as Hold.
    apply (pay_rows_settles j0 es0 sent manifest Hold fuel command env p (start_resumed p es0) _
      (wf_amounts _ _ Hwf)); [by apply ctriple_resumed|apply noted_state_start|exact Hre|exact Hj].
Qed.

(** C2. No row is paid twice by the command.  Over a first [pay fanout] and any
    number of [--resume] runs of its journal for the same manifest, each of
    which may fail, be refused, or be stopped anywhere, and whatever the node,
    the disk and the clock answer meanwhile: of two transmissions that carry
    the same manifest row, the earlier one is executed by no canonical block,
    past or future. *)
Theorem commands_pay_each_row_at_most_once manifest path content sent j es a b x y row :
  command_history manifest path content sent → opens path content j es → expiry_recorded es →
  (a < b)%nat → sent !! a = Some x → sent !! b = Some y →
  row ∈ signed_row_numbers x → row ∈ signed_row_numbers y →
  never_lands (signature_text (signed_signature x)).
Proof.
  intros Hc Hopen Hexp. pose proof (command_history_wf _ _ _ _ Hc) as Hwf.
  exact (hi_paid _ _ _ _ (history_invariant _ _ _ _ _ signers_keep_messages _ _ _ (manifest_numbers _ _ Hwf)
    (command_history_run _ _ _ _ Hc _ _ Hopen) Hexp) a b x y row).
Qed.
End command.

(** ** Two commands

    The first command's transaction is dropped by the network and the command
    is stopped while it waits; the second resumes the journal once the
    signature has expired, and pays both rows again. *)
Module SampleCommand.
Definition mint : string := string_of_bytes (SampleKit.key 8).
#[global] Instance mints : Mints := {|
  USDC_MAINNET := mint; USDC_DEVNET := mint; USDC_TESTNET := mint; USDT_MAINNET := mint; PYUSD_MAINNET := mint;
  PYUSD_DEVNET := mint; PYUSD_TESTNET := mint; CASH_MAINNET := mint; USDG_MAINNET := mint; USDG_DEVNET := mint;
  USDG_TESTNET := mint; USDPT_MAINNET := mint; USDTEST_DEVNET := mint |}.
Definition env (content : string) : Env := {|
  env_account := Ok ("a", SampleKit.sender); env_signer := Ok SampleKit.sender; env_csv := Ok Sample.input;
  env_dirs := []; env_default_path := "d"; env_content := content; env_open := Ok tt; env_lock := λ _, Locked;
  env_set_len := Ok tt |}.
Definition command (resume : option string) : FanoutCommand := {|
  cmd_csv := "c"; cmd_currency := "usdc"; cmd_network := "devnet"; cmd_keypair := None; cmd_max_in_flight := 2;
  cmd_journal := Some "j"; cmd_resume := resume; cmd_new_run := false |}.
Definition digest (_ : list Z) : list Z := [7].
Abbreviation go resume content up :=
  (fanout_run (W := bool) SampleNode.post Sample.csv_lines digest SamplePermit.text SampleFanout.sig_text
     SampleFanout.hash_text SampleNode.text Sample.key_of_text (λ s, Ok (str_bytes s)) SampleFanout.decode (@rev _) 5
     (command resume) None (env content) up).
Abbreviation preparing resume content up :=
  (prepare_payout (W := bool) SampleNode.post Sample.csv_lines digest SamplePermit.text SampleNode.text
     Sample.key_of_text (λ s, Ok (str_bytes s)) (command resume) None (env content) up).

Definition payout : Payout := Eval vm_compute in
  match (preparing None "" false).2 with
  | Ok p => p
  | Err _ => {| po_network := ""; po_currency := ""; po_mint := []; po_account := ""; po_sender := [];
                po_info := {| info_token_program := []; info_decimals := 0 |}; po_genesis := [];
                po_manifest := SampleFanout.manifest |}
  end.
Definition journal_of (r : bool * option Journal * list Sending * outcome unit) : Journal :=
  default SampleFanout.blank_journal r.1.1.2.
Definition has_journal (r : bool * option Journal * list Sending * outcome unit) : bool :=
  bool_decide (is_Some (r.1.1.2)).
Lemma run_parts r : has_journal r = true → r = (r.1.1.1, Some (journal_of r), r.1.2, r.2).
Proof. destruct r as [[[w [j|]] sent] o]; [done|]. intros Hr. by apply bool_decide_eq_true in Hr as [? ?]. Qed.

Definition found (content : string) : Journal * list JournalEvent :=
  match open_existing "j" content (Ok tt) (λ _, Locked) (Ok tt) with
  | Ok r => r | Err _ => (SampleFanout.blank_journal, [])
  end.
Definition in_order (opened : Journal * list JournalEvent) : bool :=
  let '(j, es) := opened in
  bool_decide (journal_file j = journal_lines es) && bool_decide (map sequence es = seqZ 1 (zlen es)) &&
  bool_decide (next_sequence j = zlen es + 1) && negb (bool_decide (es = [])).
Lemma found_opens content : in_order (found content) = true → opens "j" content (found content).1 (found content).2.
Proof.
  unfold in_order, found, opens. destruct (open_existing _ _ _ _ _) as [[j es]|e]; [|done]. simpl.
  rewrite !andb_true_iff, !bool_decide_eq_true. intros [[[]]]. by split.
Qed.

Definition run1 : bool * option Journal * list Sending * outcome unit := go None "" false.
Definition file1 : string := journal_file (journal_of run1).
Definition found1 : Journal * list JournalEvent := found file1.
Definition run2 : bool * option Journal * list Sending * outcome unit := go (Some "j") file1 true.
Definition file2 : string := journal_file (journal_of run2).
Definition found2 : Journal * list JournalEvent := found file2.
Definition sends : list SignedChunk := map sent_chunk run1.1.2 ++ map sent_chunk run2.1.2.
#[local] Strategy expand [run1 file1 found1 run2 file2 found2 sends].
Abbreviation history := (command_history (W := bool) SampleNode.post Sample.csv_lines digest SamplePermit.text
  SampleFanout.sig_text SampleFanout.hash_text SampleNode.text Sample.key_of_text (λ s, Ok (str_bytes s))
  SampleFanout.decode (@rev _) (po_manifest payout)).

Lemma command_history1 : history "j" file1 (map sent_chunk run1.1.2).
Proof.
  apply (commands_first _ _ _ _ _ _ _ _ _ _ _ _ (command None) None (env "") false payout 5 run1.1.1.1 (journal_of run1)
    run1.1.2 run1.2); [reflexivity|vm_compute; reflexivity|reflexivity|].
  assert (run1 = (run1.1.1.1, Some (journal_of run1), run1.1.2, run1.2)) as E
    by (apply run_parts; vm_compute; reflexivity).
  unfold run1 at 1 in E. exact E.
Qed.

Lemma opens1 : opens "j" file1 found1.1 found1.2.
Proof. apply found_opens. change (in_order found1 = true). vm_compute. reflexivity. Qed.
Lemma opens2 : opens "j" file2 found2.1 found2.2.
Proof. apply found_opens. change (in_order found2 = true). vm_compute. reflexivity. Qed.

Lemma command_history2 : history "j" file2 sends.
Proof.
  apply (commands_resumed _ _ _ _ _ _ _ _ _ _ _ _ "j" file1 (map sent_chunk run1.1.2) found1.1 found1.2
    (command (Some "j")) None (env file1) true payout 5 run2.1.1.1 (journal_of run2) run2.1.2 run2.2);
    [exact command_history1|exact opens1|reflexivity|reflexivity|vm_compute; reflexivity|reflexivity|].
  assert (run2 = (run2.1.1.1, Some (journal_of run2), run2.1.2, run2.2)) as E
    by (apply run_parts; vm_compute; reflexivity).
  unfold run2 at 1 in E. exact E.
Qed.

Lemma command_rows_sent : map signed_row_numbers sends = [[2; 3]; [2; 3]] ∧ map signed_chunk_index sends = [0; 1].
Proof. split; vm_compute; reflexivity. Qed.

Lemma command_expiry : expiry_recorded found2.2.
Proof.
  intros k rows sig lvbh Hin.
  assert (Forall (λ r : chunk_record, 15 ≤ default 15 (snd <$> r.2)) (chunk_log found2.2)) as Hall
    by (apply (bool_decide_unpack _); vm_compute; exact I).
  rewrite Forall_forall in Hall. exact (Hall _ Hin).
Qed.
End SampleCommand.

Lemma commands_pay_each_row_at_most_once_witness : never_lands "sigB".
Proof.
  assert (∃ x y, SampleCommand.sends !! 0%nat = Some x ∧ SampleCommand.sends !! 1%nat = Some y ∧
    signed_row_numbers x = [2; 3] ∧ signed_row_numbers y = [2; 3]) as (x & y & Hx & Hy & Ex & Ey)
    by (do 2 eexists; split_and!; vm_compute; reflexivity).
  apply (commands_pay_each_row_at_most_once (W := bool) SampleNode.post Sample.csv_lines SampleCommand.digest
    SamplePermit.text SampleFanout.sig_text SampleFanout.hash_text SampleNode.text Sample.key_of_text
    (λ s, Ok (str_bytes s)) SampleFanout.decode (@rev _) SampleFanout.world_signers_keep
    (λ w, SampleNode.node_is_honest w _) (po_manifest SampleCommand.payout) "j" SampleCommand.file2 SampleCommand.sends
    SampleCommand.found2.1 SampleCommand.found2.2 0 1 x y 2
    SampleCommand.command_history2 SampleCommand.opens2).
  - exact SampleCommand.command_expiry.
  - lia.
  - exact Hx.
  - exact Hy.
  - rewrite Ex. constructor.
  - rewrite Ey. constructor.
Defined.
