(* ===== verification/ChannelState.v ===== *)
(** * ChannelState: the durable record of a payment channel

    The record PayKit's channel store keeps for each session, with the fields
    the server code reads and writes (they appear in [test_channel_state] of
    [core/src/server/session.rs]).  The store itself is PayKit's: what the
    server relies on is that [update_channel] runs its closure on the current
    record and replaces it by the result, atomically, or leaves it alone. *)
From S2P Require Import Prelude Text Landing.
#[local] Open Scope string_scope.
#[local] Open Scope list_scope.
#[local] Open Scope Z_scope.

Record ChannelLifecycle := {
  lc_owner : string;
  close_after : Z
}.
#[global] Instance ChannelLifecycle_eq_dec : EqDecision ChannelLifecycle.
Proof. solve_decision. Defined.

Record ChannelState := {
  state_channel_id : string;
  deposit : Z;
  cumulative : Z;
  sealed : bool;
  close_requested_at : option Z;
  open_slot : option Z;
  idle_timeout_seconds : option Z;
  processed_uses : list string;
  pending_setup : option json;
  lifecycle : option ChannelLifecycle;
  extra : gmap string json
}.

Definition with_extra (s : ChannelState) (x : gmap string json) : ChannelState := {|
  state_channel_id := state_channel_id s; deposit := deposit s; cumulative := cumulative s; sealed := sealed s;
  close_requested_at := close_requested_at s; open_slot := open_slot s; idle_timeout_seconds := idle_timeout_seconds s;
  processed_uses := processed_uses s; pending_setup := pending_setup s; lifecycle := lifecycle s; extra := x |}.
Definition with_close_requested (s : ChannelState) (t : option Z) : ChannelState := {|
  state_channel_id := state_channel_id s; deposit := deposit s; cumulative := cumulative s; sealed := sealed s;
  close_requested_at := t; open_slot := open_slot s; idle_timeout_seconds := idle_timeout_seconds s;
  processed_uses := processed_uses s; pending_setup := pending_setup s; lifecycle := lifecycle s; extra := extra s |}.
Definition with_lifecycle (s : ChannelState) (l : option ChannelLifecycle) : ChannelState := {|
  state_channel_id := state_channel_id s; deposit := deposit s; cumulative := cumulative s; sealed := sealed s;
  close_requested_at := close_requested_at s; open_slot := open_slot s; idle_timeout_seconds := idle_timeout_seconds s;
  processed_uses := processed_uses s; pending_setup := pending_setup s; lifecycle := l; extra := extra s |}.
Definition with_cumulative (s : ChannelState) (c : Z) : ChannelState := {|
  state_channel_id := state_channel_id s; deposit := deposit s; cumulative := c; sealed := sealed s;
  close_requested_at := close_requested_at s; open_slot := open_slot s; idle_timeout_seconds := idle_timeout_seconds s;
  processed_uses := processed_uses s; pending_setup := pending_setup s; lifecycle := lifecycle s; extra := extra s |}.

(** The closure of one [update_channel], [None] when there is no record. *)
Definition Update : Type := option ChannelState → result string ChannelState.

(** One atomic update: the new record and what the caller sees.  A closure
    that fails, or a compare-and-set lost to another writer, changes nothing. *)
Definition update_channel (f : Update) (s : option ChannelState) : option ChannelState * result string ChannelState :=
  match f s with
  | Ok s' => (Some s', Ok s')
  | Err e => (s, Err e)
  end.
