(* ===== verification/DeploymentPolicy.v ===== *)
(** * DeploymentPolicy: deployment-funded sessions

    [types/src/deployment_policy.rs]: the durable binding of a session to a
    deployment's prices and payouts, and the reservations and close claims
    that share one record of the channel; and the policy lookup of
    [core/src/server/deployment_policy.rs] that the binding is made from. *)
From S2P Require Import Prelude Text Affixes Landing PushManifest ChannelState.
#[local] Open Scope string_scope.
#[local] Open Scope list_scope.
#[local] Open Scope Z_scope.

Inductive BindingError :=
  | Invalid (what : string)
  | BindingJson.
#[global] Instance BindingError_eq_dec : EqDecision BindingError.
Proof. solve_decision. Defined.
Abbreviation bres := (result BindingError).

Record DeploymentIdentity := {
  owner_key : string;
  resource_name : string;
  created_at : string;
  hostname : string
}.
Record PolicyAllocation := {
  al_recipient : string;
  amount_micro_usd : Z;
  basis_points : Z
}.
Record DurableDeploymentPolicy := {
  deployment : DeploymentIdentity;
  policy_version : Z;
  price_micro_usd : Z;
  allocations : list PolicyAllocation
}.
Record DeploymentSessionBinding := {
  schema_version : Z;
  policy : DurableDeploymentPolicy
}.
Record PayoutSplit := { ps_recipient : string; ps_bps : Z }.
Record EffectivePayout := { ep_recipient : string; ep_splits : list PayoutSplit }.

(** ** Reservations and close claims *)
Definition LIFECYCLE_KEY : string := "payDeploymentLifecycle".
Record Reservation := { res_id : string; res_amount : Z; res_expires_at_ms : Z }.
Record CloseClaim := { cc_owner : string; cc_expires_at_ms : Z }.
Record LifecycleClaims := {
  claims_version : Z;
  reservation : option Reservation;
  close : option CloseClaim
}.

(** [serde_json] on the claims. *)
Class ClaimsCodec := {
  claims_to_value : LifecycleClaims → json;
  claims_from_value : json → option LifecycleClaims
}.
Class ClaimsCodecLaws `{ClaimsCodec} : Prop := {
  claims_roundtrip : ∀ c, claims_from_value (claims_to_value c) = Some c
}.

Section claims.
Context `{ClaimsCodec} (has_blocking_authorization : ChannelState → Z → bool).

Definition claims (s : ChannelState) : bres LifecycleClaims :=
  match extra s !! LIFECYCLE_KEY with
  | None => Ok {| claims_version := 1; reservation := None; close := None |}
  | Some value =>
      c ← ok_or (claims_from_value value) BindingJson;
      _ ← reject_if (negb (claims_version c =? 1)) (Invalid "unsupported lifecycle version");
      Ok c
  end.
Definition write_claims (s : ChannelState) (c : LifecycleClaims) : ChannelState :=
  with_extra s (<[LIFECYCLE_KEY := claims_to_value c]> (extra s)).

Definition is_some {A} (o : option A) : bool := match o with Some _ => true | None => false end.
Definition is_some_and {A} (o : option A) (f : A → bool) : bool := match o with Some a => f a | None => false end.

Definition reserve (s : ChannelState) (lease_id : string) (amount now_ms expires_at_ms : Z) : bres ChannelState :=
  c ← claims s;
  _ ← reject_if (bool_decide (lease_id = "") || (expires_at_ms <=? now_ms) || sealed s ||
        is_some (close_requested_at s) || is_some (pending_setup s) || is_some (close c) ||
        is_some_and (reservation c) (λ r, now_ms <? res_expires_at_ms r) ||
        (saturating_sub (deposit s) (cumulative s) <? amount))
      (Invalid "channel cannot reserve capacity");
  Ok (write_claims s {| claims_version := claims_version c;
        reservation := Some {| res_id := lease_id; res_amount := amount; res_expires_at_ms := expires_at_ms |};
        close := close c |}).

Definition require_reservation (s : ChannelState) (lease_id : string) (amount now_ms : Z) : bres unit :=
  c ← claims s;
  reject_if (sealed s || is_some (close_requested_at s) || is_some (close c) ||
      negb (is_some_and (reservation c) (λ r, bool_decide (res_id r = lease_id) && (amount <=? res_amount r) &&
                                              (now_ms <? res_expires_at_ms r))))
    (Invalid "reservation expired or channel closing").

(** The [expect] cannot fire: the reservation was just checked. *)
Definition renew (s : ChannelState) (lease_id : string) (now_ms expires_at_ms : Z) : bres ChannelState :=
  _ ← require_reservation s lease_id 0 now_ms;
  _ ← reject_if (expires_at_ms <=? now_ms) (Invalid "invalid reservation deadline");
  c ← claims s;
  Ok (write_claims s {| claims_version := claims_version c;
        reservation := (λ r, {| res_id := res_id r; res_amount := res_amount r; res_expires_at_ms := expires_at_ms |})
                         <$> reservation c;
        close := close c |}).

Definition release (s : ChannelState) (lease_id : string) : bres ChannelState :=
  c ← claims s;
  if is_some_and (reservation c) (λ r, bool_decide (res_id r = lease_id)) then
    Ok (write_claims s {| claims_version := claims_version c; reservation := None; close := close c |})
  else Ok s.

Definition claim_close (s : ChannelState) (owner : string) (now_ms expires_at_ms : Z) : bres (ChannelState * bool) :=
  c ← claims s;
  _ ← reject_if (bool_decide (owner = "") || (expires_at_ms <=? now_ms)) (Invalid "invalid close lease");
  if sealed s || negb (is_some (open_slot s)) || is_some (pending_setup s) ||
     has_blocking_authorization s (now_ms / 1000) ||
     is_some_and (reservation c) (λ r, now_ms <? res_expires_at_ms r) ||
     is_some_and (close c) (λ k, negb (bool_decide (cc_owner k = owner)) && (now_ms <? cc_expires_at_ms k)) ||
     (negb (is_some (close_requested_at s)) &&
      match lifecycle s with Some l => now_ms <? close_after l | None => true end)
  then Ok (s, false)
  else
    let c' := {| claims_version := claims_version c; reservation := None;
                 close := Some {| cc_owner := owner; cc_expires_at_ms := expires_at_ms |} |} in
    let s' := with_close_requested s (Some (default (now_ms / 1000) (close_requested_at s))) in
    Ok (write_claims s' c', true).
End claims.

(** ** The binding *)
Section binding.
Context (pubkey_from_str : string → result string Pubkey) (pubkey_text : Pubkey → string).

Definition default_pubkey : Pubkey := replicate 32 0.

(** What [validate] accumulates over the allocations. *)
Record AllocationTotals := {
  seen_recipients : list string;
  total_amount : Z;
  total_bps : Z;
  split_amount : Z
}.

Definition validate_allocation (price : Z) (acc : AllocationTotals) (indexed : nat * PolicyAllocation) :
    bres AllocationTotals :=
  let '(index, a) := indexed in
  _ ← reject_if (negb (is_ok (pubkey_from_str (al_recipient a))) ||
        bool_decide (al_recipient a = pubkey_text default_pubkey) ||
        bool_decide (al_recipient a ∈ seen_recipients acc) || (amount_micro_usd a =? 0) || (basis_points a =? 0))
      (Invalid "invalid allocation");
  amount ← ok_or (checked_add 64 (total_amount acc) (amount_micro_usd a)) (Invalid "allocation overflow");
  let bps := total_bps acc + basis_points a in
  split ← (if (0 <? index)%nat then
             let expected := price * basis_points a / 10000 in
             _ ← reject_if (negb (amount_micro_usd a =? expected)) (Invalid "split amount differs from basis points");
             ok_or (checked_add 64 (split_amount acc) (amount_micro_usd a)) (Invalid "allocation overflow")
           else Ok (split_amount acc));
  Ok {| seen_recipients := al_recipient a :: seen_recipients acc; total_amount := amount; total_bps := bps;
        split_amount := split |}.

Definition no_totals : AllocationTotals :=
  {| seen_recipients := []; total_amount := 0; total_bps := 0; split_amount := 0 |}.

Definition validate (b : DeploymentSessionBinding) : bres unit :=
  _ ← reject_if (negb (schema_version b =? 1)) (Invalid "unsupported schema version");
  let p := policy b in
  let identity := deployment p in
  _ ← reject_if (existsb (λ value, bool_decide (value = "") || bool_decide (trim value ≠ value))
          [owner_key identity; resource_name identity; created_at identity; hostname identity] ||
        (policy_version p =? 0) || (price_micro_usd p =? 0) || bool_decide (allocations p = []) ||
        (8 <? zlen (allocations p)))
      (Invalid "missing identity or monetary terms");
  t ← try_fold (validate_allocation (price_micro_usd p)) no_totals (imap pair (allocations p));
  reject_if (negb (total_amount t =? price_micro_usd p) || negb (total_bps t =? 10000) ||
      match allocations p with
      | primary :: _ => bool_decide (checked_sub 64 (price_micro_usd p) (split_amount t) ≠ Some (amount_micro_usd primary))
      | [] => true
      end)
    (Invalid "allocation totals differ from price").

Definition binding_new (p : DurableDeploymentPolicy) : bres DeploymentSessionBinding :=
  let b := {| schema_version := 1; policy := p |} in
  _ ← validate b;
  Ok b.

Definition effective_payout (b : DeploymentSessionBinding) (operator : string) : bres EffectivePayout :=
  _ ← validate b;
  _ ← map_err (λ _, Invalid "invalid operator") (pubkey_from_str operator);
  match allocations (policy b) with
  | [] => Err (Invalid "missing identity or monetary terms")
  | primary :: rest =>
      let delegated := bool_decide (al_recipient primary ≠ operator) in
      _ ← reject_if (delegated &&
            negb (price_micro_usd (policy b) * basis_points primary / 10000 =? amount_micro_usd primary))
          (Invalid "delegation would redirect primary rounding remainder");
      Ok {| ep_recipient := operator;
            ep_splits := map (λ a, {| ps_recipient := al_recipient a; ps_bps := basis_points a |})
                           (rest ++ if delegated then [primary] else []) |}
  end.
End binding.

(** ** What a validated binding is *)
Section validated.
Context (pubkey_from_str : string → result string Pubkey) (pubkey_text : Pubkey → string).
Abbreviation validate := (validate pubkey_from_str pubkey_text).

(** The ranges of the fields. *)
Definition allocation_sized (a : PolicyAllocation) : Prop := is_u64 (amount_micro_usd a) ∧ is_u16 (basis_points a).

Definition allocation_ok (a : PolicyAllocation) : Prop :=
  is_ok (pubkey_from_str (al_recipient a)) = true ∧ al_recipient a ≠ pubkey_text default_pubkey ∧
  amount_micro_usd a ≠ 0 ∧ basis_points a ≠ 0.
Definition exact_share (price : Z) (a : PolicyAllocation) : Prop := amount_micro_usd a = price * basis_points a / 10000.
Definition amounts (l : list PolicyAllocation) : Z := zsum (map amount_micro_usd l).
Definition shares (l : list PolicyAllocation) : Z := zsum (map basis_points l).

Record allocations_ok (price : Z) (l : list PolicyAllocation) : Prop := {
  ao_each : Forall allocation_ok l;
  ao_distinct : NoDup (map al_recipient l);
  ao_exact : Forall (exact_share price) (tail l);
  ao_fits : amounts l < 2 ^ 64
}.
Definition totals (l : list PolicyAllocation) : AllocationTotals := {|
  seen_recipients := reverse (map al_recipient l); total_amount := amounts l; total_bps := shares l;
  split_amount := amounts (tail l) |}.

Lemma amounts_snoc l a : amounts (l ++ [a]) = amounts l + amount_micro_usd a.
Proof. unfold amounts. rewrite map_app, zsum_app. simpl. rewrite zsum_cons. change (zsum []) with 0. lia. Qed.
Lemma shares_snoc l a : shares (l ++ [a]) = shares l + basis_points a.
Proof. unfold shares. rewrite map_app, zsum_app. simpl. rewrite zsum_cons. change (zsum []) with 0. lia. Qed.
Lemma amounts_nonneg l : Forall allocation_sized l → 0 ≤ amounts l.
Proof. intros Hl. apply zsum_nonneg. rewrite Forall_map. eapply Forall_impl; [exact Hl|]. simpl. by intros a [[? _] _]. Qed.

Lemma tail_snoc {A} (l : list A) a : tail (l ++ [a]) = match l with [] => [] | _ => tail l ++ [a] end.
Proof. by destruct l. Qed.

Lemma allocation_ok_check price acc i a :
  allocation_sized a → 0 ≤ total_amount acc → 0 ≤ split_amount acc → split_amount acc ≤ total_amount acc →
  ∀ t, (validate_allocation pubkey_from_str pubkey_text price acc (i, a) = Ok t) ↔
  allocation_ok a ∧ (al_recipient a ∉ seen_recipients acc) ∧ total_amount acc + amount_micro_usd a < 2 ^ 64 ∧
  ((0 < i)%nat → exact_share price a) ∧
  t = {| seen_recipients := al_recipient a :: seen_recipients acc; total_amount := total_amount acc + amount_micro_usd a;
         total_bps := total_bps acc + basis_points a;
         split_amount := if (0 <? i)%nat then split_amount acc + amount_micro_usd a else split_amount acc |}.
Proof.
  intros [[Ha Ha'] _] Hacc Hs Hle t. unfold validate_allocation, allocation_ok, exact_share. split.
  - intros Hok. inv_ok. prop_bools. destruct (0 <? i)%nat eqn:Hi; inv_ok; prop_bools;
      repeat match goal with H : in_range _ _ |- _ => destruct H | H : (_ =? _) = _ |- _ => first [apply Z.eqb_neq in H|apply Z.eqb_eq in H] end.
    + split_and!; done.
    + apply Nat.ltb_ge in Hi. split_and!; try done. lia.
  - intros ((Hp & Hd & Hz & Hb) & Hnew & Hfit & Hex & ->). rewrite Hp. cbn [negb orb].
    rewrite !bool_decide_eq_false_2 by done. cbn [orb]. apply Z.eqb_neq in Hz, Hb. rewrite Hz, Hb. cbn [orb reject_if mbind result_bind].
    rewrite (checked_add_in 64 (total_amount acc)) by (unfold in_range; lia). cbn [ok_or mbind result_bind]. cbv zeta.
    destruct (Nat.ltb_spec 0 i) as [Hi|Hi]; [|done].
    specialize (Hex Hi). apply Z.eqb_eq in Hex. rewrite Hex. cbn [negb reject_if mbind result_bind].
    rewrite checked_add_in by (unfold in_range; lia). done.
Qed.

Lemma totals_snoc l a : totals (l ++ [a]) = {|
  seen_recipients := al_recipient a :: reverse (map al_recipient l); total_amount := amounts l + amount_micro_usd a;
  total_bps := shares l + basis_points a;
  split_amount := if (0 <? length l)%nat then amounts (tail l) + amount_micro_usd a else amounts (tail l) |}.
Proof.
  unfold totals. rewrite amounts_snoc, shares_snoc, map_app, reverse_app, tail_snoc. f_equal.
  destruct l as [|b l]; [done|]. by rewrite amounts_snoc.
Qed.

Lemma allocations_fold price l t :
  Forall allocation_sized l →
  try_fold (validate_allocation pubkey_from_str pubkey_text price) no_totals (imap pair l) = Ok t ↔
  allocations_ok price l ∧ t = totals l.
Proof.
  revert t. induction l as [|a l IH] using rev_ind; intros t Hl.
  { split; [intros [= <-]; split; [|done]; by repeat constructor|]. intros [_ ->]. done. }
  apply Forall_app in Hl as [Hl [Ha _]%Forall_cons_1]. rewrite imap_app, try_fold_app. cbn [imap].
  rewrite Nat.add_0_r. pose proof (amounts_nonneg _ Hl) as Hpos.
  assert (Forall allocation_sized (tail l)) as Ht by (destruct l; [constructor|by apply Forall_cons_1 in Hl as [_ ?]]).
  pose proof (amounts_nonneg _ Ht) as Htpos.
  assert (amounts (tail l) ≤ amounts l) as Hle.
  { destruct l as [|b l]; [done|]. unfold amounts. simpl. rewrite zsum_cons.
    apply Forall_cons_1 in Hl as [[[? _] _] _]. lia. }
  pose proof (allocation_ok_check price (totals l) (length l) a Ha Hpos Htpos Hle) as Hcheck.
  rewrite bind_Ok. setoid_rewrite IH; [|done]. split.
  - intros (t0 & (Hok & ->) & Hstep). cbn [try_fold] in Hstep. apply bind_Ok in Hstep as (t1 & Hstep & [= <-]).
    apply Hcheck in Hstep as (Hgood & Hnew & Hfit & Hex & ->).
    destruct Hok as [Heach Hnd Hexact Hf]. cbn [totals seen_recipients total_amount split_amount total_bps] in *. split.
    + split.
      * apply Forall_app. by split; [|constructor].
      * rewrite map_app. apply NoDup_app. split_and!; [done| |apply NoDup_singleton].
        intros r Hr ->%list_elem_of_singleton. apply Hnew. by apply elem_of_reverse.
      * rewrite tail_snoc. destruct l as [|b l]; [constructor|]. apply Forall_app. split; [done|].
        constructor; [|constructor]. apply Hex. simpl. lia.
      * by rewrite amounts_snoc.
    + by rewrite totals_snoc.
  - intros [[Heach Hnd Hexact Hf] ->]. exists (totals l). rewrite amounts_snoc in Hf. destruct Ha as [[? ?] ?].
    apply Forall_app in Heach as [Heach [Hgood _]%Forall_cons_1]. rewrite map_app in Hnd.
    apply NoDup_app in Hnd as (Hnd & Hnew & _). rewrite tail_snoc in Hexact. split; [split; [|done]; split; [done|done| |lia]|].
    + destruct l as [|b l]; [constructor|]. by apply Forall_app in Hexact as [? _].
    + cbn [try_fold]. apply bind_Ok. exists (totals (l ++ [a])). split; [|done].
      apply Hcheck. cbn [totals seen_recipients total_amount split_amount total_bps].
      split_and!; [done| |lia| |].
      * rewrite elem_of_reverse. intros Hin. apply (Hnew _ Hin). by apply list_elem_of_singleton.
      * intros Hi. destruct l as [|b l]; [simpl in Hi; lia|]. by apply Forall_app in Hexact as [_ [? _]%Forall_cons_1].
      * apply totals_snoc.
Qed.

Record binding_ok (b : DeploymentSessionBinding) : Prop := {
  bo_schema : schema_version b = 1;
  bo_identity : let d := deployment (policy b) in
    Forall (λ v, v ≠ "" ∧ trim v = v) [owner_key d; resource_name d; created_at d; hostname d];
  bo_version : policy_version (policy b) ≠ 0;
  bo_price : price_micro_usd (policy b) ≠ 0;
  bo_some : allocations (policy b) ≠ [];
  bo_few : zlen (allocations (policy b)) ≤ 8;
  bo_each : allocations_ok (price_micro_usd (policy b)) (allocations (policy b));
  bo_total : amounts (allocations (policy b)) = price_micro_usd (policy b);
  bo_shares : shares (allocations (policy b)) = 10000
}.

Lemma identity_check l :
  existsb (λ value, bool_decide (value = "") || bool_decide (trim value ≠ value)) l = false ↔
  Forall (λ v, v ≠ "" ∧ trim v = v) l.
Proof.
  induction l as [|v l IH]; simpl; [split; [constructor|done]|].
  rewrite orb_false_iff, orb_false_iff, !bool_decide_eq_false, IH, Forall_cons. split.
  - intros [[? Ht] ?]. apply dec_stable in Ht. done.
  - intros [[? ?] ?]. split_and!; [done| |done]. by intros Hn.
Qed.

(** [validate] accepts exactly these bindings. *)
Lemma validate_Ok b :
  Forall allocation_sized (allocations (policy b)) → validate b = Ok tt ↔ binding_ok b.
Proof.
  intros Hsized. unfold DeploymentPolicy.validate. split.
  - intros Hok. apply bind_Ok in Hok as ([] & Hv & Hok). apply bind_Ok in Hok as ([] & Hi & Hok).
    apply bind_Ok in Hok as (t & Hfold & Hok). apply allocations_fold in Hfold as [Hall ->]; [|done]. inv_ok. prop_bools.
    repeat match goal with H : (_ =? _) = true |- _ => apply Z.eqb_eq in H | H : (_ =? _) = false |- _ => apply Z.eqb_neq in H end.
    split; try done; [by apply identity_check|]. match goal with H : (8 <? _) = false |- _ => apply Z.ltb_ge in H; done end.
  - intros [Hv Hid Hver Hprice Hsome Hfew Heach Htotal Hshares]. rewrite Hv. cbn [Z.eqb Pos.eqb negb reject_if]. rewrite bind_ok_simpl.
    cbv zeta. apply identity_check in Hid. rewrite Hid. apply Z.eqb_neq in Hver, Hprice. rewrite Hver, Hprice.
    rewrite bool_decide_eq_false_2 by done. apply Z.ltb_ge in Hfew. rewrite Hfew. cbn [orb reject_if]. rewrite bind_ok_simpl.
    apply bind_Ok. exists (totals (allocations (policy b))). split; [by apply allocations_fold|].
    cbn [totals total_amount total_bps split_amount]. rewrite Htotal, Hshares, Z.eqb_refl. cbn [negb orb Z.eqb Pos.eqb].
    destruct (allocations (policy b)) as [|primary rest] eqn:E; [done|]. apply Forall_cons_1 in Hsized as [[[? ?] _] _].
    cbn [tail]. assert (price_micro_usd (policy b) - amounts rest = amount_micro_usd primary) as Hsub.
    { rewrite <- Htotal. unfold amounts. simpl. rewrite zsum_cons. lia. }
    rewrite bool_decide_eq_false_2; [done|]. intros Hn. apply Hn.
    rewrite checked_sub_in; rewrite Hsub; [done|by unfold in_range].
Qed.
End validated.

(** ** The payout pays the allocations *)

(** What a distribution of [price] pays to [r]: every split its share rounded
    down, the channel's recipient the rest. *)
Definition share_of (price bps : Z) : Z := price * bps / 10000.
Definition paid_to (price : Z) (p : EffectivePayout) (r : string) : Z :=
  zsum (map (λ s, if bool_decide (ps_recipient s = r) then share_of price (ps_bps s) else 0) (ep_splits p)) +
  (if bool_decide (r = ep_recipient p) then price - zsum (map (λ s, share_of price (ps_bps s)) (ep_splits p)) else 0).

Lemma zsum_pick {A} (key : A → string) (f : A → Z) l r :
  r ∉ map key l → zsum (map (λ x, if bool_decide (key x = r) then f x else 0) l) = 0.
Proof.
  induction l as [|x l IH]; [done|]. cbn [map]. rewrite not_elem_of_cons, zsum_cons. intros [Hne Hnot].
  rewrite bool_decide_eq_false_2 by congruence. by rewrite IH.
Qed.

Lemma zsum_pick_one {A} (key : A → string) (f : A → Z) l a :
  NoDup (map key l) → a ∈ l → zsum (map (λ x, if bool_decide (key x = key a) then f x else 0) l) = f a.
Proof.
  induction l as [|x l IH]; [set_solver|]. cbn [map]. rewrite NoDup_cons, zsum_cons. intros [Hnot Hnd].
  rewrite elem_of_cons. intros [->|Hin].
  - rewrite bool_decide_eq_true_2 by done. rewrite zsum_pick by done. lia.
  - rewrite bool_decide_eq_false_2.
    2:{ intros E. apply Hnot. rewrite E. by apply list_elem_of_fmap_2. }
    by rewrite IH.
Qed.

Lemma exact_shares_sum price l : Forall (exact_share price) l →
  zsum (map (λ a, share_of price (basis_points a)) l) = amounts l.
Proof.
  induction 1 as [|a l Ha _ IH]; [done|]. unfold amounts in *. simpl. by rewrite !zsum_cons, IH, Ha.
Qed.

Section payout.
Context (pubkey_from_str : string → result string Pubkey) (pubkey_text : Pubkey → string).

(** A payout that is made, taken apart. *)
Lemma effective_payout_Ok b operator p :
  Forall allocation_sized (allocations (policy b)) →
  effective_payout pubkey_from_str pubkey_text b operator = Ok p →
  binding_ok pubkey_from_str pubkey_text b ∧ is_ok (pubkey_from_str operator) = true ∧
  ∃ primary rest, allocations (policy b) = primary :: rest ∧
    (al_recipient primary ≠ operator → exact_share (price_micro_usd (policy b)) primary) ∧
    p = {| ep_recipient := operator;
           ep_splits := map (λ a, {| ps_recipient := al_recipient a; ps_bps := basis_points a |})
                          (rest ++ if bool_decide (al_recipient primary ≠ operator) then [primary] else []) |}.
Proof.
  intros Hsized Hp. unfold effective_payout in Hp. apply bind_Ok in Hp as ([] & Hv & Hp).
  apply validate_Ok in Hv; [|done]. apply bind_Ok in Hp as (k & Hk & Hp). apply map_err_Ok in Hk.
  split; [done|]. split; [by rewrite Hk|]. destruct (allocations (policy b)) as [|primary rest] eqn:E; [done|].
  exists primary, rest. split; [done|]. inv_ok. split; [|done]. intros Hne.
  match goal with H : _ && _ = false |- _ => rewrite bool_decide_eq_true_2 in H by done; simpl in H end.
  prop_bools. match goal with H : (_ =? _) = true |- _ => apply Z.eqb_eq in H; by unfold exact_share end.
Qed.

(** A deployment session pays what its policy says: in the payout derived
    for any operator, the floor of every split's share and the operator's
    remainder add up to exactly the allocated amount for every allocation of
    the policy, whoever the operator is. *)
Theorem effective_payout_pays_allocations b operator p a :
  Forall allocation_sized (allocations (policy b)) →
  effective_payout pubkey_from_str pubkey_text b operator = Ok p →
  a ∈ allocations (policy b) →
  paid_to (price_micro_usd (policy b)) p (al_recipient a) = amount_micro_usd a.
Proof.
  intros Hsized Hp Ha. destruct (effective_payout_Ok _ _ _ Hsized Hp) as (Hb & _ & primary & rest & E & Hex & ->).
  destruct Hb as [_ _ _ _ _ _ [_ Hnd Hexact _] Htotal _]. rewrite E in *. cbn [tail] in Hexact.
  set (price := price_micro_usd (policy b)) in *. unfold paid_to. cbn [ep_splits ep_recipient]. rewrite !map_map.
  cbn [ps_recipient ps_bps]. cbn [map] in Hnd. pose proof Hnd as Hnd'. apply NoDup_cons in Hnd as [Hnew Hnd].
  assert (price = amount_micro_usd primary + amounts rest) as Hprice by (rewrite <- Htotal; reflexivity).
  case_bool_decide as Hop.
  - specialize (Hex Hop).
    assert (rest ++ [primary] ≡ₚ primary :: rest) as Hperm by (rewrite Permutation_app_comm; done).
    rewrite !Hperm, (zsum_pick_one al_recipient (λ a, share_of price (basis_points a))) by done.
    assert (Forall (exact_share price) (primary :: rest)) as Hall by (by constructor).
    rewrite (exact_shares_sum price (primary :: rest)) by done. rewrite Htotal.
    rewrite Forall_forall in Hall. specialize (Hall a Ha). unfold exact_share in Hall. unfold share_of.
    case_bool_decide; lia.
  - rewrite app_nil_r, (exact_shares_sum price rest) by done.
    apply elem_of_cons in Ha as [->|Ha].
    + rewrite bool_decide_eq_true_2 by done. rewrite (zsum_pick al_recipient) by done. lia.
    + rewrite (zsum_pick_one al_recipient (λ a, share_of price (basis_points a))) by done.
      rewrite bool_decide_eq_false_2.
      2:{ intros Er. apply Hnew. rewrite Hop, <- Er. by apply list_elem_of_fmap_2. }
      rewrite Forall_forall in Hexact. specialize (Hexact a Ha). unfold exact_share in Hexact. unfold share_of. lia.
Qed.
End payout.
