(* ===== verification/DeploymentResolver.v ===== *)
(** * DeploymentResolver: from a host name to a payment policy

    [core/src/server/deployment_policy.rs]: which hosts and paths a deployment
    policy is looked up for, how the answer is read and checked, and the
    payout of a session funded by it ([delegated_session_channel_payout] of
    [core/src/server/session.rs]).  The HTTP client, the metadata server, JSON
    and RFC 3339 parsing are parameters. *)
From S2P Require Import Prelude Text Affixes Landing PushManifest ChannelState DeploymentPolicy.
#[local] Open Scope string_scope.
#[local] Open Scope list_scope.
#[local] Open Scope Z_scope.

Definition RESPONSE_LIMIT : Z := 16 * 1024.
Definition DEADLINE_SECS : Z := 5.
Definition MAX_IN_FLIGHT : Z := 64.

Inductive PolicyError := Configuration | Host | Path | Unavailable | InvalidResponse.
#[global] Instance PolicyError_eq_dec : EqDecision PolicyError.
Proof. solve_decision. Defined.
Abbreviation pres := (result PolicyError).

Inductive PolicyHost := Apex | Deployment (host : string).

Record WirePolicy := {
  wire_deployment : DeploymentIdentity;
  wire_version : Z;
  wire_price_micro_usd : Z;
  wire_expires_at : Z;
  wire_schemes : list string;
  wire_allocations : list PolicyAllocation
}.
Record ResolvedDeploymentPolicy := {
  rp_deployment : DeploymentIdentity;
  rp_version : Z;
  rp_price_micro_usd : Z;
  rp_expires_at : Z;
  rp_allocations : list PolicyAllocation
}.
Definition durable_policy (r : ResolvedDeploymentPolicy) : DurableDeploymentPolicy := {|
  deployment := rp_deployment r; policy_version := rp_version r; price_micro_usd := rp_price_micro_usd r;
  allocations := rp_allocations r |}.

(** ** Names and paths *)
Definition is_ascii_alphanumeric (b : Z) : bool := is_ascii_lowercase b || is_ascii_uppercase b || is_ascii_digit b.
Definition is_ascii_control (b : Z) : bool := (b <? 32) || (b =? 127).
Definition len (s : string) : Z := Z.of_nat (String.length s).

Definition canonical_label (label : string) : bool :=
  negb (bool_decide (label = "")) && (len label <=? 63) && negb (starts_with "-" label) && negb (ends_with "-" label) &&
  forallb (λ b, is_ascii_lowercase b || is_ascii_digit b || (b =? 45)) (str_bytes label).
Definition canonical_dns_name (host : string) : bool :=
  negb (bool_decide (host = "")) && (len host <=? 253) && forallb canonical_label (split_on dot host).

Definition deployment_owner (id : string) : option string :=
  if (63 <? len id) || negb (canonical_dns_name id) || contains_char dot id then None
  else
    rest ← strip_prefix "gcf-" id;
    '(owner, name) ← split_once dash rest;
    if (len owner =? 16) && forallb is_ascii_hexdigit (str_bytes owner) && negb (bool_decide (name = ""))
    then Some owner else None.

Definition resource_segment (value : string) : bool :=
  negb (bool_decide (value = "")) && (len value <=? 63) &&
  forallb (λ b, is_ascii_alphanumeric b || (b =? 45)) (str_bytes value).

Definition validate_path (path_and_query : string) : pres unit :=
  let path := match split_once (Ascii.ascii_of_nat 63) path_and_query with Some (p, _) => p | None => path_and_query end in
  reject_if ((4096 <? len path_and_query) ||
      existsb (λ b, (127 <? b) || is_ascii_control b || (b =? 32)) (str_bytes path_and_query) ||
      contains_char (Ascii.ascii_of_nat 35) path_and_query || contains_char (Ascii.ascii_of_nat 92) path_and_query ||
      negb (starts_with "/" path) || starts_with "//" path || (256 <? len path) ||
      contains_char (Ascii.ascii_of_nat 37) path ||
      existsb (λ segment, bool_decide (segment = ".") || bool_decide (segment = "..")) (split_on slash path) ||
      bool_decide (path = "/internal") || starts_with "/internal/" path ||
      bool_decide (path = "/__402") || starts_with "/__402/" path)
    Path.

(** ** The resolver *)

(** The parts of a parsed URL the constructor checks. *)
Record Url := {
  url_scheme : string;
  url_host : option string;
  url_username : string;
  url_password : option string;
  url_port : option Z;
  url_query : option string;
  url_fragment : option string;
  url_path : string;
  url_origin : string
}.
Record DeploymentPolicyResolver := {
  endpoint : Url;
  audience : string;
  domain : string
}.

Section resolver.
Context (parse_url : string → option Url).

Definition resolver_new (endpoint audience domain : string) : pres DeploymentPolicyResolver :=
  u ← ok_or (parse_url endpoint) Configuration;
  _ ← reject_if (bool_decide (url_scheme u ≠ "https") || negb (is_some (url_host u)) ||
        negb (bool_decide (url_username u = "")) || is_some (url_password u) || is_some (url_port u) ||
        is_some (url_query u) || is_some (url_fragment u) || bool_decide (url_path u ≠ "/__402/payment-policy") ||
        bool_decide (audience ≠ url_origin u) || negb (canonical_dns_name domain) || negb (contains_char dot domain))
      Configuration;
  Ok {| endpoint := u; audience := audience; domain := domain |}.

Definition from_options (endpoint audience domain : option string) : pres (option DeploymentPolicyResolver) :=
  match endpoint, audience, domain with
  | None, None, None => Ok None
  | Some endpoint, Some audience, Some domain => r ← resolver_new endpoint audience domain; Ok (Some r)
  | _, _, _ => Err Configuration
  end.
End resolver.

Definition classify_host (r : DeploymentPolicyResolver) (host : string) : pres PolicyHost :=
  _ ← reject_if (negb (canonical_dns_name host)) Host;
  if bool_decide (host = domain r) then Ok Apex
  else
    id ← ok_or (strip_suffix ("." +:+ domain r) host) Host;
    _ ← ok_or (deployment_owner id) Host;
    Ok (Deployment host).

Section response.
Context (parse_wire : list Z → option WirePolicy) (parse_rfc3339 : string → option Z).
Context (pubkey_from_str : string → result string Pubkey) (pubkey_text : Pubkey → string).

Record WireTotals := {
  wt_recipients : list Pubkey;
  wt_amount : Z;
  wt_bps : Z;
  wt_split : Z
}.
Definition check_allocation (price : Z) (acc : WireTotals) (indexed : nat * PolicyAllocation) : pres WireTotals :=
  let '(index, a) := indexed in
  recipient ← map_err (λ _, InvalidResponse) (pubkey_from_str (al_recipient a));
  _ ← reject_if (bool_decide (pubkey_text recipient ≠ al_recipient a) || bool_decide (recipient = default_pubkey) ||
        bool_decide (recipient ∈ wt_recipients acc) || (amount_micro_usd a =? 0) || (basis_points a =? 0) ||
        (10000 <? basis_points a)) InvalidResponse;
  amount ← ok_or (checked_add 64 (wt_amount acc) (amount_micro_usd a)) InvalidResponse;
  split ← (if negb (index =? 0)%nat then
             let expected := (price * basis_points a / 10000) mod 2 ^ 64 in
             _ ← reject_if (negb (amount_micro_usd a =? expected)) InvalidResponse;
             ok_or (checked_add 64 (wt_split acc) expected) InvalidResponse
           else Ok (wt_split acc));
  Ok {| wt_recipients := recipient :: wt_recipients acc; wt_amount := amount; wt_bps := wt_bps acc + basis_points a;
        wt_split := split |}.

Definition check_identity (w : WirePolicy) (hostname id owner : string) (created now : Z) : bool :=
  let d := wire_deployment w in
  bool_decide (DeploymentPolicy.hostname d = hostname) && bool_decide (owner_key d = owner) &&
  match split_on slash (resource_name d) with
  | [projects; project; locations; location; functions; function] =>
      bool_decide (projects = "projects") && bool_decide (locations = "locations") &&
      bool_decide (functions = "functions") && bool_decide (function = id) &&
      resource_segment project && resource_segment location
  | _ => false
  end && (0 <=? created) && (created <=? now).

Definition validate_response (r : DeploymentPolicyResolver) (hostname : string) (bytes : list Z) (now : Z) :
    pres ResolvedDeploymentPolicy :=
  _ ← reject_if (RESPONSE_LIMIT <? zlen bytes) InvalidResponse;
  w ← ok_or (parse_wire bytes) InvalidResponse;
  host ← classify_host r hostname;
  _ ← reject_if (match host with Deployment _ => false | Apex => true end) InvalidResponse;
  id ← ok_or (strip_suffix ("." +:+ domain r) hostname) InvalidResponse;
  owner ← ok_or (deployment_owner id) InvalidResponse;
  created ← ok_or (parse_rfc3339 (created_at (wire_deployment w))) InvalidResponse;
  _ ← reject_if (negb (check_identity w hostname id owner created now) || (wire_version w =? 0) ||
        (wire_price_micro_usd w =? 0) || (wire_expires_at w <=? now) ||
        bool_decide (wire_schemes w ≠ ["mpp-session"]) || bool_decide (wire_allocations w = []) ||
        (8 <? zlen (wire_allocations w))) InvalidResponse;
  t ← try_fold (check_allocation (wire_price_micro_usd w))
        {| wt_recipients := []; wt_amount := 0; wt_bps := 0; wt_split := 0 |} (imap pair (wire_allocations w));
  _ ← reject_if (negb (wt_amount t =? wire_price_micro_usd w) || negb (wt_bps t =? 10000) ||
        match wire_allocations w with
        | primary :: _ => bool_decide (checked_sub 64 (wire_price_micro_usd w) (wt_split t) ≠ Some (amount_micro_usd primary))
        | [] => true
        end) InvalidResponse;
  Ok {| rp_deployment := wire_deployment w; rp_version := wire_version w; rp_price_micro_usd := wire_price_micro_usd w;
        rp_expires_at := wire_expires_at w; rp_allocations := wire_allocations w |}.

(** A response as it arrives: the declared length, and the chunks, each of
    which may be a transport error. *)
Record Response := {
  resp_status : Z;
  content_length : option Z;
  resp_chunks : list (option (list Z))
}.
Fixpoint read_chunks (limit : Z) (body : list Z) (chunks : list (option (list Z))) : pres (list Z) :=
  match chunks with
  | [] => Ok body
  | None :: _ => Err Unavailable
  | Some chunk :: chunks =>
      if saturating_sub limit (zlen body) <? zlen chunk then Err InvalidResponse
      else read_chunks limit (body ++ chunk) chunks
  end.
Definition read_bounded_response (response : Response) (limit : Z) : pres (list Z) :=
  _ ← reject_if (is_some_and (content_length response) (λ length, limit <? length)) InvalidResponse;
  read_chunks limit [] (resp_chunks response).

(** The answer of the policy endpoint to one request ([None] when sending
    fails), and the clock ([None] before the epoch). *)
Definition fetch_policy (r : DeploymentPolicyResolver) (hostname : string) (response : option Response) (now : option Z) :
    pres ResolvedDeploymentPolicy :=
  response ← ok_or response Unavailable;
  _ ← reject_if (negb (resp_status response =? 200)) Unavailable;
  bytes ← read_bounded_response response RESPONSE_LIMIT;
  now ← ok_or now Unavailable;
  validate_response r hostname bytes now.

(** One lookup: [permit] is whether one of the in-flight permits was free,
    [identity] the lifetime of the identity token, [in_time] whether the whole
    exchange finished before the deadline. *)
Definition resolve (r : DeploymentPolicyResolver) (hostname path_and_query : string) (permit : bool)
    (identity : option Z) (response : option Response) (now : option Z) (in_time : bool) : pres ResolvedDeploymentPolicy :=
  host ← classify_host r hostname;
  _ ← reject_if (match host with Deployment _ => false | Apex => true end) Host;
  _ ← validate_path path_and_query;
  _ ← reject_if (negb permit) Unavailable;
  _ ← reject_if (negb in_time) Unavailable;
  expires_in ← ok_or identity Unavailable;
  _ ← reject_if (expires_in <=? DEADLINE_SECS) Unavailable;
  fetch_policy r hostname response now.
End response.

(** ** The payout of a session *)
Record Split := { split_key : Pubkey; split_bps : Z }.

Section seller.
Context (pubkey_from_str : string → result string Pubkey).

(** [seller_payout]; [None] is the panic of its [expect]. *)
Definition seller_payout (r : ResolvedDeploymentPolicy) : option (string * list Split) :=
  match rp_allocations r with
  | [] => None
  | primary :: rest =>
      splits ← mapM (λ a, match pubkey_from_str (al_recipient a) with
                          | Ok k => Some {| split_key := k; split_bps := basis_points a |}
                          | Err _ => None
                          end) rest;
      Some (al_recipient primary, splits)
  end.

(** Adds [bps] to the first split of [recipient], if there is one. *)
Fixpoint add_to_split (recipient : Pubkey) (bps : Z) (splits : list Split) : option (res (list Split)) :=
  match splits with
  | [] => None
  | s :: splits =>
      if bool_decide (split_key s = recipient) then
        Some (total ← ok_or (checked_add 16 (split_bps s) bps)
                (Config "delegated session recipient split basis points overflow");
              Ok ({| split_key := split_key s; split_bps := total |} :: splits))
      else
        rest ← add_to_split recipient bps splits;
        Some (rest ← rest; Ok (s :: rest))
  end.

Definition delegated_session_channel_payout (recipient operator : string) (splits : list Split) :
    res (string * list Split) :=
  if bool_decide (recipient = operator) then Ok (recipient, splits)
  else
    recipient ← map_err (λ e, Config ("delegated session recipient is not a valid Solana pubkey: " +:+ e))
                  (pubkey_from_str recipient);
    explicit_bps ← checked_sum 16 (Config "delegated session split basis points overflow") 0 (map split_bps splits);
    primary_bps ← ok_or (checked_sub 16 10000 explicit_bps) (Config "delegated session splits exceed 100%");
    splits ← default (Ok (splits ++ [ {| split_key := recipient; split_bps := primary_bps |} ]))
               (add_to_split recipient primary_bps splits);
    Ok (operator, splits).
End seller.

(** ** Names *)
Lemma split_on_bytes c s b : b ∈ str_bytes s → b = byte_of c ∨ ∃ p, p ∈ split_on c s ∧ b ∈ str_bytes p.
Proof.
  induction s as [|a s IH]; [set_solver|]. cbn [str_bytes split_on]. rewrite elem_of_cons.
  destruct (Ascii.eqb_spec a c) as [->|Hne].
  - intros [->|Hb]; [by left|]. destruct (IH Hb) as [->|(p & Hp & Hin)]; [by left|]. right. exists p. set_solver.
  - destruct (split_on c s) as [|p ps] eqn:E; [by destruct s as [|a' s']; simpl in E; [|repeat case_match]|].
    intros [->|Hb]; [right; exists (String a p); cbn [str_bytes]; set_solver|].
    destruct (IH Hb) as [->|(q & Hq & Hin)]; [by left|]. right. apply elem_of_cons in Hq as [->|Hq].
    + exists (String a p). cbn [str_bytes]. set_solver.
    + exists q. set_solver.
Qed.

Lemma forallb_Forall {A} (f : A → bool) l : forallb f l = true ↔ Forall (λ x, f x = true) l.
Proof. rewrite forallb_forall, Forall_forall. by setoid_rewrite list_elem_of_In. Qed.

Lemma split_plain c s : is_plain (byte_of c) → Forall (λ p, Forall is_plain (str_bytes p)) (split_on c s) →
  Forall is_plain (str_bytes s).
Proof.
  intros Hc Hparts. rewrite Forall_forall. intros b [->|(p & Hp & Hb)]%(split_on_bytes c); [done|].
  rewrite Forall_forall in Hparts. specialize (Hparts p Hp). rewrite Forall_forall in Hparts. by apply Hparts.
Qed.

Lemma canonical_plain host : canonical_dns_name host = true → host ≠ "" ∧ Forall is_plain (str_bytes host).
Proof.
  unfold canonical_dns_name. intros Hc. prop_bools. split; [done|]. apply (split_plain dot); [split; vm_compute; done|].
  match goal with H : forallb _ _ = true |- _ => apply forallb_Forall in H; eapply Forall_impl; [exact H|] end.
  intros label Hl. unfold canonical_label in Hl. prop_bools.
  match goal with H : forallb _ _ = true |- _ => apply forallb_Forall in H; eapply Forall_impl; [exact H|] end.
  simpl. intros b Hb. unfold is_ascii_lowercase, is_ascii_digit in Hb. unfold is_plain. lia.
Qed.

Lemma hex_plain s : forallb is_ascii_hexdigit (str_bytes s) = true → Forall is_plain (str_bytes s).
Proof.
  intros Hs%forallb_Forall. eapply Forall_impl; [exact Hs|]. simpl. intros b Hb.
  unfold is_ascii_hexdigit, is_ascii_digit in Hb. unfold is_plain. lia.
Qed.

Lemma segment_plain s : resource_segment s = true → Forall is_plain (str_bytes s).
Proof.
  unfold resource_segment. intros Hs. prop_bools.
  match goal with H : forallb _ _ = true |- _ => apply forallb_Forall in H; eapply Forall_impl; [exact H|] end.
  simpl. intros b Hb. unfold is_ascii_alphanumeric, is_ascii_lowercase, is_ascii_uppercase, is_ascii_digit in Hb.
  unfold is_plain. lia.
Qed.

(** An accepted identifier names its owner. *)
Lemma deployment_owner_Some id owner : deployment_owner id = Some owner →
  canonical_dns_name id = true ∧ len owner = 16 ∧ Forall is_plain (str_bytes owner) ∧
  ∃ name, name ≠ "" ∧ id = "gcf-" +:+ owner +:+ "-" +:+ name.
Proof.
  unfold deployment_owner. destruct (_ || _) eqn:E; [done|]. prop_bools.
  destruct (strip_prefix "gcf-" id) as [rest|] eqn:Hp; [|done]. apply strip_prefix_Some in Hp as ->. simpl.
  destruct (split_once dash rest) as [[o name]|] eqn:Hs; [|done]. apply split_once_Some in Hs as [-> _]. simpl.
  destruct (_ && _) eqn:Ec; [|done]. intros [= <-]. prop_bools.
  match goal with H : (len _ =? 16) = true |- _ => apply Z.eqb_eq in H end.
  split_and!; [done|done|by apply hex_plain|]. exists name. by split.
Qed.

(** ** An accepted policy *)
Section accepted.
Context (parse_wire : list Z → option WirePolicy) (parse_rfc3339 : string → option Z).
Context (pubkey_from_str : string → result string Pubkey) (pubkey_text : Pubkey → string).
Hypothesis default_parses : pubkey_from_str (pubkey_text default_pubkey) = Ok default_pubkey.
Hypothesis timestamps_trimmed : ∀ s t, parse_rfc3339 s = Some t → s ≠ "" ∧ trim s = s.

Definition canonical_key (a : PolicyAllocation) (k : Pubkey) : Prop :=
  pubkey_from_str (al_recipient a) = Ok k ∧ pubkey_text k = al_recipient a.

(** What the loop over the allocations establishes. *)
Record checked (price : Z) (l : list PolicyAllocation) (t : WireTotals) : Prop := {
  ck_keys : Forall2 canonical_key l (reverse (wt_recipients t));
  ck_distinct : NoDup (wt_recipients t);
  ck_known : default_pubkey ∉ wt_recipients t;
  ck_amounts : Forall (λ a, amount_micro_usd a ≠ 0 ∧ basis_points a ≠ 0) l;
  ck_exact : Forall (exact_share price) (tail l);
  ck_total : wt_amount t = amounts l;
  ck_shares : wt_bps t = shares l;
  ck_fits : is_u64 (wt_amount t)
}.

Lemma check_fold price l t :
  is_u64 price → Forall allocation_sized l →
  try_fold (check_allocation pubkey_from_str pubkey_text price)
    {| wt_recipients := []; wt_amount := 0; wt_bps := 0; wt_split := 0 |} (imap pair l) = Ok t →
  checked price l t.
Proof.
  intros [Hp Hp']. revert t. induction l as [|a l IH] using rev_ind; intros t Hl Hfold.
  { injection Hfold as <-. split; simpl; [constructor|apply NoDup_nil_2|apply not_elem_of_nil|constructor|constructor|done..]. }
  apply Forall_app in Hl as [Hl [Ha _]%Forall_cons_1]. rewrite imap_app, try_fold_app in Hfold. cbn [imap] in Hfold.
  rewrite Nat.add_0_r in Hfold. apply bind_Ok in Hfold as (t0 & Hfold & Hstep).
  destruct (IH t0 Hl Hfold) as [Hkeys Hnd Hknown Hamt Hexact Htotal Hshares Hfits]. clear IH Hfold.
  cbn [try_fold] in Hstep. apply bind_Ok in Hstep as (t1 & Hstep & [= <-]). unfold check_allocation in Hstep.
  inv_ok. prop_bools.
  repeat match goal with H : (_ =? _) = false |- _ => apply Z.eqb_neq in H | H : (_ <? _) = false |- _ => apply Z.ltb_ge in H end.
  split; cbn [wt_recipients wt_amount wt_bps].
  - rewrite reverse_cons. apply Forall2_app; [done|]. constructor; [|constructor]. split; [done|].
    match goal with H : ¬ (pubkey_text _ ≠ _) |- _ => by apply dec_stable in H end.
  - by constructor.
  - rewrite not_elem_of_cons. by split.
  - apply Forall_app. split; [done|]. by constructor.
  - rewrite tail_snoc. destruct l as [|b l]; [constructor|]. apply Forall_app. split; [done|]. constructor; [|constructor].
    cbn [length Nat.eqb negb] in *. inv_ok. prop_bools.
    match goal with H : (_ =? _) = true |- _ => apply Z.eqb_eq in H; rename H into Heq end. unfold exact_share.
    rewrite Heq. destruct Ha as [_ [Hb Hb']]. apply Z.mod_small.
    assert (price * basis_points a ≤ price * 10000) by nia.
    split; [apply Z.div_pos; [nia|lia]|]. apply Z.div_lt_upper_bound; lia.
  - rewrite amounts_snoc. by rewrite Htotal.
  - rewrite shares_snoc. by rewrite Hshares.
  - done.
Qed.

Lemma checked_allocations price l t : checked price l t → allocations_ok pubkey_from_str pubkey_text price l.
Proof.
  intros [Hkeys Hnd Hknown Hamt Hexact Htotal _ [_ Hfits]]. rewrite Htotal in Hfits.
  assert (map al_recipient l = map pubkey_text (reverse (wt_recipients t))) as Hmap.
  { clear -Hkeys. induction Hkeys as [|a k l ks [_ Hk] _ IH]; [done|]. simpl. by rewrite Hk, IH. }
  split; [|rewrite Hmap|done|done].
  - rewrite Forall_forall. intros a Ha. rewrite Forall_forall in Hamt. destruct (Hamt a Ha) as [Hz Hb].
    apply list_elem_of_lookup_1 in Ha as [i Hi]. destruct (Forall2_lookup_l _ _ _ _ _ Hkeys Hi) as (k & Hk & Hfrom & Htext).
    split_and!; [by rewrite Hfrom| |done|done]. intros E. rewrite E, default_parses in Hfrom. injection Hfrom as <-.
    apply Hknown, elem_of_reverse. by eapply list_elem_of_lookup_2.
  - apply NoDup_fmap_2_strong; [|by rewrite reverse_Permutation].
    assert (∀ k, k ∈ reverse (wt_recipients t) → pubkey_from_str (pubkey_text k) = Ok k) as Hback.
    { intros k (i & Hi)%list_elem_of_lookup_1. destruct (Forall2_lookup_r _ _ _ _ _ Hkeys Hi) as (a & _ & Hfrom & ->). done. }
    intros k k' Hk%Hback Hk'%Hback E. rewrite E, Hk' in Hk. by injection Hk as ->.
Qed.

(** The integer types of the decoded answer. *)
Hypothesis wire_sized : ∀ bytes w, parse_wire bytes = Some w →
  is_u64 (wire_price_micro_usd w) ∧ Forall allocation_sized (wire_allocations w).

Lemma check_identity_true w host id owner created now :
  check_identity w host id owner created now = true → canonical_dns_name host = true → canonical_dns_name id = true →
  owner ≠ "" → Forall is_plain (str_bytes owner) → parse_rfc3339 (created_at (wire_deployment w)) = Some created →
  let d := wire_deployment w in
  hostname d = host ∧ owner_key d = owner ∧
  Forall (λ v, v ≠ "" ∧ trim v = v) [owner_key d; resource_name d; created_at d; hostname d].
Proof.
  intros Hc Hhost Hid Hne Howner Hcreated d. unfold check_identity in Hc. fold d in Hc.
  repeat (apply andb_true_iff in Hc as [Hc ?]). prop_bools. split; [done|]. split; [done|].
  apply canonical_plain in Hhost as [Hhne Hhost].
  match goal with H : hostname d = host |- _ => rewrite H end. match goal with H : owner_key d = owner |- _ => rewrite H end.
  repeat constructor; [done|by apply trim_plain| | |by eapply timestamps_trimmed|by eapply timestamps_trimmed|done|by apply trim_plain].
  - intros E. by rewrite E in *.
  - apply trim_plain. destruct (split_on slash (resource_name d)) as [|s1 [|s2 [|s3 [|s4 [|s5 [|s6 []]]]]]] eqn:E; try done.
    prop_bools. subst. apply canonical_plain in Hid as [_ Hid]. apply (split_plain slash); [by vm_compute|]. rewrite E.
    assert (∀ s, forallb (λ b, (32 <? b) && (b <? 128)) (str_bytes s) = true → Forall is_plain (str_bytes s)) as Hlit.
    { intros s Hs%forallb_Forall. eapply Forall_impl; [exact Hs|]. simpl. intros b Hb. unfold is_plain. lia. }
    repeat constructor; first [by apply segment_plain|done|by apply Hlit].
Qed.

(** C39. Whatever the policy endpoint answers, an accepted answer is about the
    host that was asked for, names the owner in that host name, has not
    expired, and is a valid durable binding: a session can always be bound to
    a policy the resolver returned. *)
Theorem resolved_policy_binds r host bytes now p :
  validate_response parse_wire parse_rfc3339 pubkey_from_str pubkey_text r host bytes now = Ok p →
  binding_new pubkey_from_str pubkey_text (durable_policy p) = Ok {| schema_version := 1; policy := durable_policy p |} ∧
  hostname (rp_deployment p) = host ∧ now < rp_expires_at p ∧
  ∃ name, name ≠ "" ∧ host = ("gcf-" +:+ owner_key (rp_deployment p) +:+ "-" +:+ name) +:+ "." +:+ domain r.
Proof.
  unfold validate_response. intros Hr. inv_ok.
  match goal with H : parse_wire _ = Some ?w |- _ => destruct (wire_sized _ _ H) as [Hprice Hsized]; rename w into wp end.
  match goal with H : deployment_owner _ = Some _ |- _ =>
    apply deployment_owner_Some in H as (Hid & Hlen & Hplain & name & Hname & Heq) end.
  match goal with H : strip_suffix _ _ = Some _ |- _ => apply strip_suffix_Some in H as Hhost end.
  match goal with H : classify_host _ _ = Ok _ |- _ => unfold classify_host in H; apply bind_Ok in H as ([] & Hcanon & _) end.
  inv_ok. prop_bools. repeat match goal with H : (_ =? _) = true |- _ => apply Z.eqb_eq in H
    | H : (_ =? _) = false |- _ => apply Z.eqb_neq in H | H : (_ <=? _) = false |- _ => apply Z.leb_gt in H
    | H : (_ <? _) = false |- _ => apply Z.ltb_ge in H end.
  match goal with H : try_fold _ _ _ = Ok _ |- _ => apply check_fold in H as Hck; [|done|done] end.
  match goal with H : check_identity _ _ _ ?o _ _ = true |- _ =>
    destruct (check_identity_true _ _ _ _ _ _ H) as (Eh & Eo & Hids); [done|done| |done|done|] end.
  { intros ->. discriminate Hlen. }
  split; [|split_and!; [exact Eh|done|]; exists name; split; [done|]; simpl; by rewrite Eo, <- Heq].
  unfold binding_new. apply bind_Ok. exists tt. split; [|done]. apply validate_Ok; [done|].
  split; try done; [by eapply checked_allocations|..].
  - cbn. rewrite <- (ck_total _ _ _ Hck). done.
  - cbn. rewrite <- (ck_shares _ _ _ Hck). done.
Qed.

(** The policy an accepted answer gives, with the keys of its recipients. *)
Lemma response_checked r host bytes now p :
  validate_response parse_wire parse_rfc3339 pubkey_from_str pubkey_text r host bytes now = Ok p →
  Forall allocation_sized (rp_allocations p) ∧
  ∃ t, checked (rp_price_micro_usd p) (rp_allocations p) t ∧ wt_bps t = 10000.
Proof.
  unfold validate_response. intros Hr. inv_ok.
  match goal with H : parse_wire _ = Some _ |- _ => destruct (wire_sized _ _ H) as [Hprice Hsized] end.
  match goal with H : try_fold _ _ _ = Ok ?t |- _ => apply check_fold in H as Hck; [|done|done]; split; [done|]; exists t end.
  split; [done|]. prop_bools. match goal with H : (wt_bps _ =? _) = true |- _ => by apply Z.eqb_eq in H end.
Qed.

Definition same_split (s : PayoutSplit) (k : Split) : Prop :=
  pubkey_from_str (ps_recipient s) = Ok (split_key k) ∧ split_bps k = ps_bps s.

Lemma add_to_split_new recipient bps splits :
  recipient ∉ map split_key splits → add_to_split recipient bps splits = None.
Proof.
  induction splits as [|s splits IH]; [done|]. cbn [map add_to_split]. rewrite not_elem_of_cons. intros [Hne Hnot].
  rewrite bool_decide_eq_false_2 by congruence. by rewrite IH.
Qed.

Lemma seller_splits l ks :
  Forall2 canonical_key l ks →
  mapM (λ a, match pubkey_from_str (al_recipient a) with
             | Ok k => Some {| split_key := k; split_bps := basis_points a |}
             | Err _ => None
             end) l = Some (zip_with (λ a k, {| split_key := k; split_bps := basis_points a |}) l ks).
Proof. induction 1 as [|a k l ks [Hk _] _ IH]; [done|]. cbn [mapM zip_with]. rewrite Hk. simpl. by rewrite IH. Qed.

Lemma zip_splits l ks : Forall2 canonical_key l ks →
  let splits := zip_with (λ a k, {| split_key := k; split_bps := basis_points a |}) l ks in
  map split_key splits = ks ∧ map split_bps splits = map basis_points l ∧
  Forall2 same_split (map (λ a, {| ps_recipient := al_recipient a; ps_bps := basis_points a |}) l) splits.
Proof.
  induction 1 as [|a k l ks [Hk _] _ (IH1 & IH2 & IH3)]; [split_and!; [done|done|constructor]|]. simpl.
  split_and!; [by rewrite IH1|by rewrite IH2|]. constructor; [by split|done].
Qed.

(** The two conversions of a seller's payout agree: for a policy the
    resolver returned, the payout kept in the durable binding is the one the
    session is opened with, split by split in the same order. *)
Theorem payout_conversions_agree r host bytes now p operator payout :
  validate_response parse_wire parse_rfc3339 pubkey_from_str pubkey_text r host bytes now = Ok p →
  effective_payout pubkey_from_str pubkey_text {| schema_version := 1; policy := durable_policy p |} operator = Ok payout →
  ∃ seller splits splits',
    seller_payout pubkey_from_str p = Some (seller, splits) ∧
    delegated_session_channel_payout pubkey_from_str seller operator splits = Ok (ep_recipient payout, splits') ∧
    Forall2 same_split (ep_splits payout) splits'.
Proof.
  intros Hr Hp. destruct (response_checked _ _ _ _ _ Hr) as (Hsized & t & Hck & Hbps).
  destruct (effective_payout_Ok _ _ {| schema_version := 1; policy := durable_policy p |} operator payout Hsized Hp)
    as (_ & _ & primary & rest & E & _ & ->). cbn in E.
  destruct Hck as [Hkeys Hnd _ _ _ _ Hshares _]. rewrite Hshares in Hbps. rewrite E in Hkeys, Hsized, Hbps.
  apply Forall2_cons_inv_l in Hkeys as (k & ks & [Hk _] & Hkeys & Hrev).
  assert (NoDup (k :: ks)) as Hnd' by (rewrite <- Hrev; by rewrite reverse_Permutation). apply NoDup_cons in Hnd' as [Hnew _].
  destruct (zip_splits _ _ Hkeys) as (Hsk & Hsb & Hsame). set (splits := zip_with _ rest ks) in *.
  exists (al_recipient primary), splits. unfold seller_payout. rewrite E, (seller_splits _ _ Hkeys). cbn [mbind option_bind].
  unfold delegated_session_channel_payout. cbn [ep_recipient ep_splits].
  destruct (decide (al_recipient primary = operator)) as [Heq|Hne].
  { rewrite bool_decide_eq_true_2 by done. rewrite (bool_decide_eq_false_2 (_ ≠ _)) by tauto. exists splits.
    rewrite app_nil_r, Heq. done. }
  rewrite bool_decide_eq_false_2 by done. rewrite bool_decide_eq_true_2 by done. rewrite Hk. cbn [map_err mbind result_bind].
  apply Forall_cons_1 in Hsized as [[_ [Hb0 Hb1]] Hsized]. unfold shares in Hbps. cbn [map] in Hbps. rewrite zsum_cons in Hbps.
  rewrite Hsb, (checked_sum_fits 16); [|done| |lia].
  2:{ rewrite Forall_map. eapply Forall_impl; [exact Hsized|]. simpl. by intros a [_ [? _]]. }
  cbn [mbind result_bind]. rewrite checked_sub_in; replace (10000 - (0 + zsum (map basis_points rest))) with (basis_points primary) by lia;
    [|by split].
  cbn [ok_or mbind result_bind]. rewrite add_to_split_new by (by rewrite Hsk). cbn [default mbind result_bind].
  eexists. split; [done|]. split; [done|]. rewrite map_app. apply Forall2_app; [exact Hsame|]. constructor; [|constructor]. by split.
Qed.
End accepted.

(** ** A concrete policy *)
Module SampleDeployment.
Definition text (k : Pubkey) : string := string_of_bytes k.
Definition host : string := "gcf-0123456789abcdef-sec.compute.example".
Definition allocation (c : string) (amount bps : Z) : PolicyAllocation := {|
  al_recipient := c; amount_micro_usd := amount; basis_points := bps |}.
Definition carol : string := "CCCCCCCCCCCCCCCCCCCCCCCCCCCCCCCC".
Definition wire : WirePolicy := {|
  wire_deployment := {| owner_key := "0123456789abcdef"; resource_name := "projects/p/locations/l/functions/gcf-0123456789abcdef-sec";
                        created_at := "2026-01-01T00:00:00Z"; hostname := host |};
  wire_version := 1; wire_price_micro_usd := 50000; wire_expires_at := 2000; wire_schemes := ["mpp-session"];
  wire_allocations := [allocation Sample.alice 30000 6000; allocation Sample.bob 15000 3000; allocation carol 5000 1000] |}.
Definition parse_wire (_ : list Z) : option WirePolicy := Some wire.
Definition parse_time (s : string) : option Z := if bool_decide (s = "2026-01-01T00:00:00Z") then Some 500 else None.
Definition resolver : DeploymentPolicyResolver := {|
  endpoint := {| url_scheme := "https"; url_host := Some "c"; url_username := ""; url_password := None; url_port := None;
                 url_query := None; url_fragment := None; url_path := "/__402/payment-policy"; url_origin := "https://c" |};
  audience := "https://c"; domain := "compute.example" |}.
Definition resolved : ResolvedDeploymentPolicy := {|
  rp_deployment := wire_deployment wire; rp_version := 1; rp_price_micro_usd := 50000; rp_expires_at := 2000;
  rp_allocations := wire_allocations wire |}.
Abbreviation accept := (validate_response parse_wire parse_time Sample.key_of_text text resolver host [] 1000).
Lemma accepted : accept = Ok resolved.
Proof. vm_compute. reflexivity. Qed.
Lemma default_parses : Sample.key_of_text (text default_pubkey) = Ok default_pubkey.
Proof. vm_compute. reflexivity. Qed.
Lemma times_trimmed s t : parse_time s = Some t → s ≠ "" ∧ trim s = s.
Proof. unfold parse_time. case_bool_decide as E; [|done]. rewrite E. split; [done|vm_compute; reflexivity]. Qed.
Lemma sized : Forall allocation_sized (wire_allocations wire).
Proof. repeat constructor; vm_compute; congruence. Qed.
Lemma wire_sized (bytes : list Z) w : parse_wire bytes = Some w →
  is_u64 (wire_price_micro_usd w) ∧ Forall allocation_sized (wire_allocations w).
Proof. intros [= <-]. split; [split; vm_compute; congruence|exact sized]. Qed.
Definition binding : DeploymentSessionBinding := {| schema_version := 1; policy := durable_policy resolved |}.
(** The operator is none of the recipients: alice's share moves to the end. *)
Definition operator : string := "DDDDDDDDDDDDDDDDDDDDDDDDDDDDDDDD".
Definition payout : EffectivePayout := {| ep_recipient := operator;
  ep_splits := [ {| ps_recipient := Sample.bob; ps_bps := 3000 |}; {| ps_recipient := carol; ps_bps := 1000 |};
                 {| ps_recipient := Sample.alice; ps_bps := 6000 |} ] |}.
Lemma pays : effective_payout Sample.key_of_text text binding operator = Ok payout.
Proof. vm_compute. reflexivity. Qed.
End SampleDeployment.

Lemma effective_payout_pays_allocations_witness : paid_to 50000 SampleDeployment.payout Sample.alice = 30000.
Proof.
  exact (effective_payout_pays_allocations Sample.key_of_text SampleDeployment.text SampleDeployment.binding
    SampleDeployment.operator SampleDeployment.payout (SampleDeployment.allocation Sample.alice 30000 6000)
    SampleDeployment.sized SampleDeployment.pays (list_elem_of_here _ _)).
Defined.

Lemma resolved_policy_binds_witness :
  binding_new Sample.key_of_text SampleDeployment.text (durable_policy SampleDeployment.resolved) = Ok SampleDeployment.binding.
Proof.
  exact (proj1 (resolved_policy_binds SampleDeployment.parse_wire SampleDeployment.parse_time Sample.key_of_text
    SampleDeployment.text SampleDeployment.default_parses SampleDeployment.times_trimmed SampleDeployment.wire_sized
    SampleDeployment.resolver SampleDeployment.host [] 1000 SampleDeployment.resolved SampleDeployment.accepted)).
Defined.

Lemma payout_conversions_agree_witness : ∃ seller splits splits',
  seller_payout Sample.key_of_text SampleDeployment.resolved = Some (seller, splits) ∧
  delegated_session_channel_payout Sample.key_of_text seller SampleDeployment.operator splits =
    Ok (SampleDeployment.operator, splits') ∧ length splits' = 3%nat.
Proof.
  destruct (payout_conversions_agree SampleDeployment.parse_wire SampleDeployment.parse_time Sample.key_of_text
    SampleDeployment.text SampleDeployment.wire_sized
    SampleDeployment.resolver SampleDeployment.host [] 1000 SampleDeployment.resolved SampleDeployment.operator
    SampleDeployment.payout SampleDeployment.accepted SampleDeployment.pays) as (seller & splits & splits' & H1 & H2 & H3).
  exists seller, splits, splits'. split; [exact H1|]. split; [exact H2|]. apply Forall2_length in H3. by rewrite <- H3.
Defined.
