(* ===== verification/SessionCharge.v ===== *)
(** * SessionCharge: charging a delegated session

    [core/src/server/session.rs]: capacity leases and [commit_reserved_usage],
    the debit of one authenticated request.  Other processes act on the same
    channel between the awaits of one charge, so each await is given the record
    it finds.  PayKit's session server is the class [SessionKit]. *)
From S2P Require Import Prelude Text Landing PushManifest ChannelState DeploymentPolicy.
#[local] Open Scope string_scope.
#[local] Open Scope list_scope.
#[local] Open Scope Z_scope.

(** A request authenticated under an operator-signed session. *)
Record DelegatedUse := {
  use_channel_id : string;
  challenge_id : string;
  request_key : string;
  charged : Z
}.
Definition total_with (d : DelegatedUse) (amount : Z) : res Z :=
  ok_or (checked_add 64 (charged d) amount) (Mpp "delegated request total overflow").

Record DelegatedUsageAuthorization := {
  auth_cumulative : Z;
  auth_idle_timeout_seconds : Z
}.

(** Instants of the monotonic clock are milliseconds. *)
Record DelegatedCapacityLease := {
  lease_channel_id : string;
  durable_id : option string;
  lease_deadline : Z;
  initial_cumulative : option Z
}.
Definition deadline (l : DelegatedCapacityLease) : option Z :=
  match durable_id l with Some _ => Some (lease_deadline l) | None => None end.

(** What PayKit returns for a charge. *)
Record OperatorCharge := {
  charge_cumulative : Z;
  charge_request_total : Z;
  charge_charged : Z;
  charge_replay : bool
}.

(** PayKit's session server: the binding check, the authentication of a
    request, and a charge up to the request's running total, committed only if
    the guard accepts the record it replaces. *)
Class SessionKit := {
  require_channel_binding : ChannelState → result string unit;
  authenticate_use : DelegatedUse → result string unit;
  recorded_total : ChannelState → string → option Z;
  charge_operator_request : DelegatedUse → Z → (ChannelState → result string unit) → option ChannelState →
    option ChannelState * result string OperatorCharge
}.

(** What a charge does to the record: nothing when it fails or is a replay,
    and otherwise only the watermark moves, from what the request has been
    charged so far to the total asked for. *)
Class SessionKitLaws `{SessionKit} : Prop := {
  recorded_in_uses : ∀ st key, is_Some (recorded_total st key) ↔ key ∈ processed_uses st;
  failed_charge_changes_nothing : ∀ d total guard s s' e,
    charge_operator_request d total guard s = (s', Err e) → s' = s;
  charge_commits : ∀ d total guard s s' c,
    charge_operator_request d total guard s = (s', Ok c) →
    ∃ st, s = Some st ∧ guard st = Ok tt ∧
      if charge_replay c then s' = s
      else ∃ st', s' = Some st' ∧ charge_charged c = total - default 0 (recorded_total st (request_key d)) ∧
        0 ≤ charge_charged c ∧ cumulative st' = cumulative st + charge_charged c ∧
        deposit st' = deposit st ∧ sealed st' = sealed st ∧ close_requested_at st' = close_requested_at st ∧
        extra st' = extra st
}.

(** ** Capacity in one process *)

(** [reserve_capacity] and [release_capacity]: one holder per channel; [None]
    is a poisoned lock. *)
Abbreviation Reserved := (gmap string Z).
Definition reserve_capacity (r : option Reserved) (channel : string) (amount : Z) : option Reserved * bool :=
  match r with
  | None => (None, false)
  | Some m => if bool_decide (is_Some (m !! channel)) then (Some m, false) else (Some (<[channel := amount]> m), true)
  end.
Definition release_capacity (r : option Reserved) (channel : string) : option Reserved := base.delete channel <$> r.

(** [record_committed_watermark]. *)
Definition record_committed_watermark (w : gmap string Z) (session : string) (c : Z) : gmap string Z :=
  <[session := match w !! session with Some current => Z.max current c | None => c end]> w.

Section charge.
Context `{ClaimsCodec} `{SessionKit} (binding_text : BindingError → string) (pubkey_text : Pubkey → string).

(** The closures given to the store. *)
Definition reserve_update (id : string) (amount now expires_at : Z) : Update := λ s,
  s ← ok_or s "Channel not found";
  _ ← require_channel_binding s;
  map_err binding_text (reserve s id amount now expires_at).
Definition renew_update (id : string) (now expires_at : Z) : Update := λ s,
  s ← ok_or s "Channel not found";
  _ ← require_channel_binding s;
  map_err binding_text (renew s id now expires_at).
Definition release_update (id : string) : Update := λ s,
  s ← ok_or s "Channel not found";
  map_err binding_text (release s id).
Definition active_update (id : string) (amount now : Z) : Update := λ s,
  s ← ok_or s "Channel not found";
  _ ← require_channel_binding s;
  _ ← map_err binding_text (require_reservation s id amount now);
  Ok s.

(** [reserve_deployment_capacity]: the lease and the record after it.  The
    expiry is taken from the clock when the request starts, and the record is
    tested against the clock when the store applies the update. *)
Definition reserve_deployment_capacity (channel id : string) (amount started now instant : Z) (s : option ChannelState) :
    option ChannelState * res DelegatedCapacityLease :=
  let expires_at := saturating_add 64 started 300000 in
  let '(s', r) := update_channel (reserve_update id amount now expires_at) s in
  (s', reserved ← map_err PaymentRejected r;
       Ok {| lease_channel_id := channel; durable_id := Some id; lease_deadline := instant + 300000;
             initial_cumulative := Some (cumulative reserved) |}).

(** [require_active]: it writes the record it read. *)
Definition require_active (l : DelegatedCapacityLease) (amount instant now : Z) (s : option ChannelState) :
    option ChannelState * res unit :=
  match durable_id l with
  | None => (s, Ok tt)
  | Some id =>
      if lease_deadline l <=? instant then (s, Err (PaymentRejected "deployment request lifetime exceeded"))
      else
        let '(s', r) := update_channel (active_update id amount now) s in
        (s', _ ← map_err PaymentRejected r; Ok tt)
  end.

(** The guard of the charge, on the record that the commit replaces. *)
Definition charge_guard (key : string) (charged_before amount : Z) (lease : option DelegatedCapacityLease)
    (instant now : Z) (st : ChannelState) : result string unit :=
  _ ← reject_if ((0 <? charged_before) && negb (bool_decide (key ∈ processed_uses st)))
        "the request's charge record was evicted";
  match lease ≫= durable_id with
  | None => Ok tt
  | Some id =>
      _ ← reject_if (bool_decide ((lease ≫= initial_cumulative) ≠ Some (cumulative st)))
            "deployment reservation was already consumed";
      _ ← reject_if (is_some_and (lease ≫= deadline) (λ d, d <=? instant)) "deployment request lifetime exceeded";
      map_err binding_text (require_reservation st id amount now)
  end.

(** The parts of the session configuration a charge reads. *)
Record ChargeConfig := {
  channel_bound : bool;
  config_amount : Z;
  operator_signs : bool;
  charge_signer : option Pubkey;
  config_operator : result string Pubkey
}.

(** What one charge finds at each await: when the lease is checked, when the
    record is read, and when the charge commits, with the clocks there. *)
Record Awaits := {
  at_active : option ChannelState; active_instant : Z; active_now : Z;
  at_read : result string (option ChannelState);
  at_commit : option ChannelState; commit_instant : Z; commit_now : Z
}.

(** Everything checked before the amount is looked at: the record read and
    its idle timeout. *)
Definition check_charge (cfg : ChargeConfig) (d : DelegatedUse) (amount : Z) (lease : option DelegatedCapacityLease)
    (w : Awaits) : res (ChannelState * Z) :=
  _ ← reject_if (channel_bound cfg && negb (is_some (lease ≫= durable_id)))
        (PaymentRejected "deployment charge requires a durable reservation");
  _ ← match lease with
      | Some l =>
          _ ← reject_if (bool_decide (lease_channel_id l ≠ use_channel_id d))
                (PaymentRejected "reservation belongs to another channel");
          (require_active l amount (active_instant w) (active_now w) (at_active w)).2
      | None => Ok tt
      end;
  _ ← reject_if (channel_bound cfg && negb (amount =? config_amount cfg))
        (PaymentRejected "deployment charge differs from policy price");
  _ ← reject_if (negb (operator_signs cfg)) (Mpp "session does not delegate voucher authority to the operator");
  found ← map_err (λ e, Mpp ("failed to restore delegated session channel " +:+ use_channel_id d +:+ ": " +:+ e)) (at_read w);
  state ← ok_or found (Mpp ("unknown delegated session channel: " +:+ use_channel_id d));
  _ ← map_err PaymentRejected (require_channel_binding state);
  idle ← ok_or (idle_timeout_seconds state)
           (Mpp ("delegated session channel " +:+ use_channel_id d +:+ " is missing its negotiated idle timeout"));
  Ok (state, idle).

(** The signer, the request's proof, and the running total to ask for. *)
Definition charge_total (cfg : ChargeConfig) (d : DelegatedUse) (amount : Z) : res Z :=
  signer ← ok_or (charge_signer cfg) (Mpp "delegated session signer is not configured");
  operator ← map_err (λ e, Mpp ("invalid session operator: " +:+ e)) (config_operator cfg);
  _ ← reject_if (bool_decide (signer ≠ operator))
        (Mpp ("delegated session signer " +:+ pubkey_text signer +:+ " does not match operator " +:+ pubkey_text operator));
  _ ← map_err PaymentRejected (authenticate_use d);
  total_with d amount.

(** [commit_reserved_usage]: the record after the commit, the request with
    what it has been charged, the watermark to record, and the outcome. *)
Definition commit_reserved_usage (cfg : ChargeConfig) (d : DelegatedUse) (amount : Z)
    (lease : option DelegatedCapacityLease) (w : Awaits) :
    option ChannelState * DelegatedUse * option Z * res DelegatedUsageAuthorization :=
  match check_charge cfg d amount lease w with
  | Err e => (at_commit w, d, None, Err e)
  | Ok (state, idle) =>
      if amount =? 0 then
        (at_commit w, d, Some (cumulative state),
         Ok {| auth_cumulative := cumulative state; auth_idle_timeout_seconds := idle |})
      else
        match charge_total cfg d amount with
        | Err e => (at_commit w, d, Some (cumulative state), Err e)
        | Ok request_total =>
            let guard := charge_guard (request_key d) (request_total - amount) amount lease (commit_instant w) (commit_now w) in
            match charge_operator_request d request_total guard (at_commit w) with
            | (s', Err e) => (s', d, Some (cumulative state), Err (PaymentRejected e))
            | (s', Ok c) =>
                (s', {| use_channel_id := use_channel_id d; challenge_id := challenge_id d; request_key := request_key d;
                        charged := Z.max (charged d) (charge_request_total c) |},
                 Some (charge_cumulative c),
                 Ok {| auth_cumulative := charge_cumulative c; auth_idle_timeout_seconds := idle |})
            end
        end
  end.
End charge.

(** ** Any number of processes on one bound channel *)
Section history.
Context `{ClaimsCodecLaws} `{SessionKitLaws} (binding_text : BindingError → string) (pubkey_text : Pubkey → string).
Context (has_blocking_authorization : ChannelState → Z → bool).

(** What happened to the channel, with the clock of the process it happened in. *)
Inductive event :=
  | Reserved_ (id : string) (amount now expires_at : Z)
  | Renewed (id : string) (now expires_at : Z)
  | Released (id : string)
  | CloseClaimed (owner : string) (now expires_at : Z)
  | Charged (id : string) (amount now paid : Z)
  | Touched.

(** A charge of a request by its running total: what the request has been
    charged is no more than what the record says. *)
Definition in_step (d : DelegatedUse) (s : ChannelState) : Prop :=
  0 ≤ charged d ∧ ∀ r, recorded_total s (request_key d) = Some r → charged d ≤ r.

(** One atomic update of a bound channel, and the leases issued so far with
    the watermark each starts from. *)
Inductive channel_step (leases : list (string * Z)) (s : ChannelState) : event → list (string * Z) → ChannelState → Prop :=
  | step_reserve channel id amount started now instant s' l :
      0 ≤ amount → id ∉ map fst leases →
      reserve_deployment_capacity binding_text channel id amount started now instant (Some s) = (Some s', Ok l) →
      channel_step leases s (Reserved_ id amount now (saturating_add 64 started 300000)) ((id, cumulative s) :: leases) s'
  | step_renew id now expires_at s' :
      renew_update binding_text id now expires_at (Some s) = Ok s' → channel_step leases s (Renewed id now expires_at) leases s'
  | step_release id s' :
      release_update binding_text id (Some s) = Ok s' → channel_step leases s (Released id) leases s'
  | step_close owner now expires_at s' :
      claim_close has_blocking_authorization s owner now expires_at = Ok (s', true) →
      channel_step leases s (CloseClaimed owner now expires_at) leases s'
  | step_charge cfg d amount l id w s' d' wm a :
      channel_bound cfg = true → 0 < amount → durable_id l = Some id →
      (∀ c0, initial_cumulative l = Some c0 → (id, c0) ∈ leases) →
      at_commit w = Some s → in_step d s →
      commit_reserved_usage binding_text pubkey_text cfg d amount (Some l) w = (Some s', d', wm, Ok a) →
      channel_step leases s (Charged id amount (commit_now w) (cumulative s' - cumulative s)) leases s'
  | step_touch s' :
      cumulative s' = cumulative s → deposit s ≤ deposit s' → extra s' = extra s →
      (sealed s = true → sealed s' = true) →
      (is_Some (close_requested_at s) → is_Some (close_requested_at s')) →
      channel_step leases s Touched leases s'.

(** Any number of steps from a record and the leases issued before it. *)
Inductive channel_history (leases0 : list (string * Z)) (s0 : ChannelState) :
    list event → list (string * Z) → ChannelState → Prop :=
  | channel_start : channel_history leases0 s0 [] leases0 s0
  | channel_next h leases s e leases' s' :
      channel_history leases0 s0 h leases s → channel_step leases s e leases' s' →
      channel_history leases0 s0 (h ++ [e]) leases' s'.

(** *** The claims in the record *)
Lemma claims_versioned s c : claims s = Ok c → claims_version c = 1.
Proof.
  unfold claims. destruct (extra s !! LIFECYCLE_KEY); intros Hc; inv_ok; [|done]. prop_bools. by apply Z.eqb_eq.
Qed.

Lemma claims_write s c : claims_version c = 1 → claims (write_claims s c) = Ok c.
Proof.
  intros Hv. unfold claims, write_claims. cbn [with_extra extra]. rewrite lookup_insert_eq, claims_roundtrip.
  cbn [ok_or mbind result_bind]. by rewrite Hv.
Qed.

Lemma claims_extra s s' : extra s' = extra s → claims s' = claims s.
Proof. intros E. unfold claims. by rewrite E. Qed.

Definition closing (s : ChannelState) : Prop := is_Some (close_requested_at s).

Lemma is_some_false {A} (o : option A) : is_some o = false ↔ o = None.
Proof. destruct o; naive_solver. Qed.

Lemma reserve_Ok s id amount now expires s' :
  reserve s id amount now expires = Ok s' →
  ∃ c, claims s = Ok c ∧ close_requested_at s = None ∧ sealed s = false ∧ close c = None ∧
    (∀ r, reservation c = Some r → res_expires_at_ms r ≤ now) ∧ amount ≤ saturating_sub (deposit s) (cumulative s) ∧
    s' = write_claims s {| claims_version := 1; close := None;
           reservation := Some {| res_id := id; res_amount := amount; res_expires_at_ms := expires |} |}.
Proof.
  unfold reserve. intros Hr. inv_ok. prop_bools.
  repeat match goal with H : is_some _ = false |- _ => apply is_some_false in H end.
  match goal with H : claims s = Ok ?c |- _ => exists c; pose proof (claims_versioned _ _ H) as Hv end.
  rewrite Hv. split_and!; try done.
  - intros r Hres. match goal with H : is_some_and _ _ = false |- _ => rewrite Hres in H; simpl in H; by apply Z.ltb_ge in H end.
  - match goal with H : (_ <? amount) = false |- _ => by apply Z.ltb_ge in H end.
  - match goal with H : close _ = None |- _ => by rewrite H end.
Qed.

Lemma require_reservation_Ok s id amount now :
  require_reservation s id amount now = Ok tt →
  ∃ c r, claims s = Ok c ∧ reservation c = Some r ∧ res_id r = id ∧ amount ≤ res_amount r ∧ now < res_expires_at_ms r ∧
    close_requested_at s = None ∧ close c = None ∧ sealed s = false.
Proof.
  unfold require_reservation. intros Hr. inv_ok. prop_bools.
  repeat match goal with H : is_some _ = false |- _ => apply is_some_false in H end.
  match goal with H : claims s = Ok ?c |- _ => exists c; destruct (reservation c) as [r|] eqn:E; [|done] end.
  cbn [is_some_and] in *. prop_bools. exists r. split_and!; try done; lia.
Qed.

Lemma renew_Ok s id now expires s' :
  renew s id now expires = Ok s' →
  ∃ c r, claims s = Ok c ∧ reservation c = Some r ∧ res_id r = id ∧ now < expires ∧ close_requested_at s = None ∧ close c = None ∧
    s' = write_claims s {| claims_version := 1; close := None;
           reservation := Some {| res_id := id; res_amount := res_amount r; res_expires_at_ms := expires |} |}.
Proof.
  unfold renew. intros Hr. apply bind_Ok in Hr as ([] & Hreq & Hr).
  apply require_reservation_Ok in Hreq as (c & r & Hc & Hres & <- & _ & _ & Hcl & Hclose & _). inv_ok.
  match goal with H : claims s = Ok _ |- _ => rewrite Hc in H; injection H as <- end.
  exists c, r. rewrite Hres, Hclose, (claims_versioned _ _ Hc). simpl. split_and!; try done.
  match goal with H : (_ <=? _) = false |- _ => by apply Z.leb_gt in H end.
Qed.

Lemma release_Ok s id s' :
  release s id = Ok s' →
  ∃ c, claims s = Ok c ∧
   ((s' = s ∧ ∀ r, reservation c = Some r → res_id r ≠ id) ∨
    (∃ r, reservation c = Some r ∧ res_id r = id) ∧
    s' = write_claims s {| claims_version := 1; reservation := None; close := close c |}).
Proof.
  unfold release. intros Hr. apply bind_Ok in Hr as (c & Hc & Hr). exists c. split; [done|].
  destruct (is_some_and _ _) eqn:E; injection Hr as <-; rewrite ?(claims_versioned _ _ Hc).
  { right. split; [|done]. destruct (reservation c) as [r|]; [|done]. exists r. split; [done|]. by apply bool_decide_eq_true in E. }
  left. split; [done|]. intros r Hres. rewrite Hres in E. simpl in E. by apply bool_decide_eq_false in E.
Qed.

Lemma claim_close_Ok s owner now expires s' :
  claim_close has_blocking_authorization s owner now expires = Ok (s', true) →
  ∃ c, claims s = Ok c ∧ (∀ r, reservation c = Some r → res_expires_at_ms r ≤ now) ∧ closing s' ∧
    cumulative s' = cumulative s ∧ deposit s' = deposit s ∧ sealed s' = sealed s ∧
    claims s' = Ok {| claims_version := 1; reservation := None;
      close := Some {| cc_owner := owner; cc_expires_at_ms := expires |} |}.
Proof.
  unfold claim_close. intros Hr. inv_ok.
  match goal with H : claims s = Ok ?c |- _ => exists c; rename H into Hc end.
  destruct (_ || _) eqn:E in Hr; [done|]. injection Hr as <-. prop_bools. split; [done|].
  rewrite (claims_versioned _ _ Hc). split; [|split_and!; try done; [by eexists|by rewrite claims_write]].
  intros r Hres. match goal with H : is_some_and (reservation _) _ = false |- _ => rewrite Hres in H; simpl in H; by apply Z.ltb_ge in H end.
Qed.

(** A successful charge on a bound channel, whatever happened between its
    awaits. *)
Lemma commit_Ok cfg d amount l id w s s' d' wm a :
  channel_bound cfg = true → 0 < amount → durable_id l = Some id → at_commit w = Some s → in_step d s →
  commit_reserved_usage binding_text pubkey_text cfg d amount (Some l) w = (Some s', d', wm, Ok a) →
  amount = config_amount cfg ∧ initial_cumulative l = Some (cumulative s) ∧ require_reservation s id amount (commit_now w) = Ok tt ∧
  (s' = s ∨ 0 ≤ cumulative s' - cumulative s ≤ amount ∧ deposit s' = deposit s ∧ sealed s' = sealed s ∧
     close_requested_at s' = close_requested_at s ∧ extra s' = extra s).
Proof.
  intros Hb Hpos Hid Hat [Hch Hstep]. unfold commit_reserved_usage.
  destruct (check_charge _ _ _ _ _) as [[state idle]|e] eqn:E1; [|done]. replace (amount =? 0) with false by lia.
  destruct (charge_total _ _ _) as [total|e] eqn:E2; [|done].
  unfold check_charge in E1. rewrite Hb in E1. unfold charge_total, total_with in E2. inv_ok. cbn [andb] in *. prop_bools.
  replace (charged d + amount - amount) with (charged d) by lia. rewrite Hat.
  destruct (charge_operator_request _ _ _ _) as [s1 [c|e]] eqn:Hc; [|done].
  intros [= -> <- <- <-]. apply charge_commits in Hc as (st & [= <-] & Hguard & Hres).
  unfold charge_guard in Hguard. cbn [mbind option_bind] in Hguard. rewrite Hid in Hguard.
  apply bind_Ok in Hguard as ([] & Hev & Hguard). apply bind_Ok in Hguard as ([] & Hinit & Hguard).
  apply bind_Ok in Hguard as ([] & _ & Hreq). apply map_err_Ok in Hreq. inv_ok. prop_bools.
  split; [by apply Z.eqb_eq|]. split; [by apply dec_stable|]. split; [done|].
  destruct (charge_replay c); [injection Hres as ->; by left|].
  destruct Hres as (st' & [= <-] & Hcharged & Hnn & Hcum & Hdep & Hse & Hcl & Hex). right. split; [|done].
  rewrite Hcum. replace (cumulative s + charge_charged c - cumulative s) with (charge_charged c) by lia. split; [done|].
  rewrite Hcharged. destruct (recorded_total s (request_key d)) as [r|] eqn:Hr; simpl.
  - specialize (Hstep r eq_refl). lia.
  - assert (request_key d ∉ processed_uses s) as Hnot.
    { intros Hin%recorded_in_uses. rewrite Hr in Hin. by destruct Hin. }
    rewrite bool_decide_eq_false_2 in Hev by done. simpl in Hev. lia.
Qed.

Lemma reserve_capacity_Ok channel id amount started now instant s s' l :
  reserve_deployment_capacity binding_text channel id amount started now instant (Some s) = (Some s', Ok l) →
  reserve s id amount now (saturating_add 64 started 300000) = Ok s' ∧ initial_cumulative l = Some (cumulative s').
Proof.
  unfold reserve_deployment_capacity, update_channel, reserve_update. cbn [ok_or mbind result_bind].
  destruct (require_channel_binding s) as [[]|e]; [|done]. cbn [mbind result_bind].
  destruct (reserve s id amount now _) as [s1|e]; [|done]. cbn. by intros [= -> <-].
Qed.

Lemma renew_update_Ok id now expires s s' : renew_update binding_text id now expires (Some s) = Ok s' → renew s id now expires = Ok s'.
Proof. unfold renew_update. intros Hr. inv_ok. by simplify_eq. Qed.
Lemma release_update_Ok id s s' : release_update binding_text id (Some s) = Ok s' → release s id = Ok s'.
Proof. unfold release_update. intros Hr. inv_ok. by simplify_eq. Qed.

Definition charge_of (e : event) : option (string * Z) :=
  match e with Charged id _ _ paid => if 0 <? paid then Some (id, paid) else None | _ => None end.
(** The charges that moved the watermark. *)
Definition charges (h : list event) : list (string * Z) := omap charge_of h.
Definition paid (h : list event) : Z := zsum (map snd (charges h)).

Lemma charges_snoc h e : charges (h ++ [e]) = charges h ++ match charge_of e with Some x => [x] | None => [] end.
Proof. unfold charges. rewrite omap_app. simpl. by destruct (charge_of e). Qed.

(** The invariant: the live reservation fits above the watermark its lease
    started from, and a lease that was charged is below the watermark. *)
Record bound_inv (s0 : ChannelState) (h : list event) (leases : list (string * Z)) (s : ChannelState) : Prop := {
  bi_claims : ∃ c, claims s = Ok c ∧ ∀ r, reservation c = Some r →
    ∃ c0, (res_id r, c0) ∈ leases ∧ c0 + res_amount r ≤ deposit s;
  bi_leases : NoDup (map fst leases) ∧ ∀ id c0, (id, c0) ∈ leases → c0 ≤ cumulative s;
  bi_deposit : cumulative s ≤ deposit s;
  bi_paid : cumulative s = cumulative s0 + paid h;
  bi_charged : NoDup (map fst (charges h)) ∧
    ∀ id x, (id, x) ∈ charges h → ∃ c0, (id, c0) ∈ leases ∧ c0 < cumulative s
}.

Lemma lease_unique (leases : list (string * Z)) id a b : NoDup (map fst leases) → (id, a) ∈ leases → (id, b) ∈ leases → a = b.
Proof.
  induction leases as [|[id' c] leases IH]; [set_solver|]. cbn [map]. rewrite NoDup_cons. intros [Hnot Hnd].
  rewrite !elem_of_cons. intros [[= -> ->]|Ha] [[= ->]|Hb]; [done| | |by apply IH].
  - exfalso. apply Hnot. by apply (list_elem_of_fmap_2 fst) in Hb.
  - subst. exfalso. apply Hnot. by apply (list_elem_of_fmap_2 fst) in Ha.
Qed.

(** Steps that move no money keep the invariant. *)
Lemma quiet_step s0 h leases s e leases' s' c' :
  bound_inv s0 h leases s → charge_of e = None → cumulative s' = cumulative s → deposit s ≤ deposit s' →
  claims s' = Ok c' → NoDup (map fst leases') → leases ⊆ leases' →
  (∀ id c0, (id, c0) ∈ leases' → c0 ≤ cumulative s) →
  (∀ r, reservation c' = Some r → ∃ c0, (res_id r, c0) ∈ leases' ∧ c0 + res_amount r ≤ deposit s') →
  bound_inv s0 (h ++ [e]) leases' s'.
Proof.
  intros [_ [_ _] Hdep Hpaid [Hnd Hch]] He Hcum Hd Hc Hnd' Hsub Hle Hres.
  assert (charges (h ++ [e]) = charges h) as Ech by (by rewrite charges_snoc, He, app_nil_r).
  split; unfold paid; rewrite ?Ech, ?Hcum; [by exists c'|by split|lia|done|]. split; [done|].
  intros id x Hin. destruct (Hch id x Hin) as (c0 & Hin0 & Hlt). exists c0. split; [by apply Hsub|done].
Qed.

Lemma step_bound_inv s0 h leases s e leases' s' :
  bound_inv s0 h leases s → channel_step leases s e leases' s' → bound_inv s0 (h ++ [e]) leases' s'.
Proof.
  intros Hinv Hstep. pose proof Hinv as [(c & Hc & Hres) [Hnd Hle] Hdep Hpaid [Hcnd Hch]].
  destruct Hstep as [channel id amount started now instant s' l Hpos Hnew Hr|id now ex s' Hr|id s' Hr|owner now ex s' Hr|
    cfg d amount l id w s' d' wm a Hb Hpos Hid Hl Hat Hin Hcommit|s' Hcum Hd Hex _ _].
  - apply reserve_capacity_Ok in Hr as [Hr _]. apply reserve_Ok in Hr as (c1 & _ & _ & _ & _ & _ & Hfit & ->).
    eapply quiet_step; [exact Hinv|done|done|done|by apply claims_write|by constructor|set_solver| |].
    + intros id' c0 [[= -> ->]|Hin]%elem_of_cons; [lia|by eapply Hle].
    + intros r [= <-]. exists (cumulative s). split; [constructor|]. simpl. unfold saturating_sub in Hfit. lia.
  - apply renew_update_Ok, renew_Ok in Hr as (c1 & r & Hc1 & Hr & Hrid & _ & _ & _ & ->).
    eapply quiet_step; [exact Hinv|done|done|done|by apply claims_write|done|done|exact Hle|].
    intros r' [= <-]. simpl. rewrite Hc in Hc1. injection Hc1 as <-. destruct (Hres r Hr) as (c0 & Hin & Hf).
    exists c0. by rewrite <- Hrid.
  - apply release_update_Ok, release_Ok in Hr as (c1 & Hc1 & [[-> _]|[_ ->]]).
    + by eapply quiet_step.
    + by eapply quiet_step; [exact Hinv|..|apply claims_write|done|done|exact Hle|].
  - apply claim_close_Ok in Hr as (c1 & _ & _ & _ & Hcum & Hd & _ & Hc'). eapply quiet_step; try done. lia.
  - destruct (commit_Ok _ _ _ _ _ _ _ _ _ _ _ Hb Hpos Hid Hat Hin Hcommit) as (_ & Hinit & Hreq & Hs').
    specialize (Hl _ Hinit). apply require_reservation_Ok in Hreq as (c1 & r & Hc1 & Hr & Hrid & Hamt & _).
    rewrite Hc in Hc1. injection Hc1 as <-. destruct (Hres r Hr) as (c0 & Hlease & Hfit). rewrite Hrid in Hlease.
    pose proof (lease_unique _ _ _ _ Hnd Hl Hlease) as <-.
    assert (cumulative s' = cumulative s ∧ claims s' = claims s ∧ deposit s' = deposit s ∨
      0 < cumulative s' - cumulative s ≤ amount ∧ claims s' = claims s ∧ deposit s' = deposit s) as [(E & Ec & Ed)|(E & Ec & Ed)].
    { destruct Hs' as [->|(Hb1 & Hd & _ & _ & Hex)]; [by left|]. apply claims_extra in Hex.
      destruct (decide (cumulative s' = cumulative s)); [by left|right]. split; [lia|done]. }
    + eapply quiet_step; [exact Hinv|simpl; by rewrite E, Z.sub_diag|exact E|lia|by rewrite Ec|done|done|exact Hle|].
      intros r' Hr'. destruct (Hres r' Hr') as (c2 & ? & ?). exists c2. split; [done|lia].
    + assert (charge_of (Charged id amount (commit_now w) (cumulative s' - cumulative s)) =
        Some (id, cumulative s' - cumulative s)) as He by (simpl; by replace (0 <? _) with true by lia).
      split; unfold paid; rewrite ?charges_snoc, ?He.
      * exists c. rewrite Ec. split; [done|]. intros r' Hr'. destruct (Hres r' Hr') as (c2 & ? & ?). exists c2. split; [done|lia].
      * split; [done|]. intros id' c2 Hin'. specialize (Hle id' c2 Hin'). lia.
      * lia.
      * rewrite map_app, zsum_app. simpl. rewrite zsum_cons. change (zsum []) with 0. unfold paid in Hpaid. lia.
      * rewrite map_app. split.
        { apply NoDup_app. split_and!; [done| |apply NoDup_singleton]. intros id' ((id1 & x) & -> & Hx)%list_elem_of_fmap_1.
          cbn [map fst]. rewrite list_elem_of_singleton. simpl. intros ->. destruct (Hch _ _ Hx) as (c2 & Hc2 & Hlt).
          pose proof (lease_unique _ _ _ _ Hnd Hl Hc2). lia. }
        { intros id' x [Hx|[= -> _]%list_elem_of_singleton]%elem_of_app.
          - destruct (Hch _ _ Hx) as (c2 & Hc2 & Hlt). exists c2. split; [done|lia].
          - exists (cumulative s). split; [done|lia]. }
  - eapply quiet_step; try done; [by rewrite (claims_extra _ _ Hex)|].
    intros r Hr. destruct (Hres r Hr) as (c0 & ? & ?). exists c0. split; [done|lia].
Qed.

(** A channel on which nothing is reserved. *)
Definition unreserved (s : ChannelState) : Prop := ∃ c, claims s = Ok c ∧ reservation c = None.
Definition within_amount (e : event) : Prop :=
  match e with Charged _ amount _ paid => 0 ≤ paid ≤ amount | _ => True end.


(** What a closing channel no longer allows. *)
Definition refused_when_closing (e : event) : Prop :=
  match e with Reserved_ _ _ _ _ | Renewed _ _ _ | Charged _ _ _ _ => False | _ => True end.

Lemma closing_step leases s e leases' s' :
  closing s → channel_step leases s e leases' s' → closing s' ∧ cumulative s' = cumulative s ∧ refused_when_closing e.
Proof.
  intros [t Ht] Hstep.
  destruct Hstep as [channel id amount started now instant s' l Hpos Hnew Hr|id now ex s' Hr|id s' Hr|owner now ex s' Hr|
    cfg d amount l id w s' d' wm a Hb Hpos Hid Hl Hat Hin Hcommit|s' Hcum Hd Hex _ Hcl].
  - apply reserve_capacity_Ok in Hr as [Hr _]. apply reserve_Ok in Hr as (? & _ & Hnone & _). congruence.
  - apply renew_update_Ok, renew_Ok in Hr as (? & ? & _ & _ & _ & _ & Hnone & _). congruence.
  - apply release_update_Ok, release_Ok in Hr as (c & _ & [[-> _]|[_ ->]]); (split; [by exists t|done]).
  - apply claim_close_Ok in Hr as (c & _ & _ & Hcl & Hcum & _). done.
  - destruct (commit_Ok _ _ _ _ _ _ _ _ _ _ _ Hb Hpos Hid Hat Hin Hcommit) as (_ & _ & Hreq & _).
    apply require_reservation_Ok in Hreq as (? & ? & _ & _ & _ & _ & _ & Hnone & _). congruence.
  - split; [apply Hcl; by exists t|done].
Qed.

(** Closing is final: after a close has been claimed, by whatever process
    and however its lease expires or is taken over, no reservation is granted
    or renewed and no charge lands, so the amount being settled cannot change
    under the closer. *)
Theorem closing_is_final leases0 s h leases s' :
  closing s → channel_history leases0 s h leases s' →
  closing s' ∧ cumulative s' = cumulative s ∧ Forall refused_when_closing h.
Proof.
  intros Hcl. induction 1 as [|h leases s1 e leases' s2 _ (IH1 & IH2 & IH3) Hstep]; [done|].
  destruct (closing_step _ _ _ _ _ IH1 Hstep) as (Hcl' & Hcum & Hok). split; [done|]. split; [lia|].
  apply Forall_app. split; [done|]. by constructor.
Qed.

(** The clocks of the events that need the reservation to be over, and the
    renewals, leave it alive until [expiry]. *)
Definition before (expiry : Z) (e : event) : Prop :=
  match e with
  | Reserved_ _ _ now _ | CloseClaimed _ now _ => now < expiry
  | Renewed _ _ expires_at => expiry ≤ expires_at
  | _ => True
  end.
Definition belongs_to (id : string) (e : event) : Prop :=
  match e with
  | Reserved_ _ _ _ _ | CloseClaimed _ _ _ => False
  | Renewed id' _ _ | Charged id' _ _ _ => id' = id
  | Released _ | Touched => True
  end.
Definition holds (id : string) (amount expiry : Z) (s : ChannelState) : Prop := ∃ c r,
  claims s = Ok c ∧ reservation c = Some r ∧ res_id r = id ∧ res_amount r = amount ∧ expiry ≤ res_expires_at_ms r.

Lemma exclusive_step id amount expiry leases s e leases' s' :
  holds id amount expiry s → before expiry e → e ≠ Released id → channel_step leases s e leases' s' →
  holds id amount expiry s' ∧ belongs_to id e.
Proof.
  intros (c & r & Hc & Hr & <- & <- & Hexp) Hbefore Hrel Hstep.
  destruct Hstep as [channel id amount started now instant s' l Hpos Hnew Hres|id now ex s' Hren|id s' Hre|owner now ex s' Hcl|
    cfg d amount l id w s' d' wm a Hb Hpos Hid Hl Hat Hin Hcommit|s' Hcum Hd Hex _ _]; simpl in Hbefore.
  - apply reserve_capacity_Ok in Hres as [Hres _]. apply reserve_Ok in Hres as (c1 & Hc1 & _ & _ & _ & Hold & _).
    rewrite Hc in Hc1. injection Hc1 as <-. specialize (Hold r Hr). lia.
  - apply renew_update_Ok, renew_Ok in Hren as (c1 & r1 & Hc1 & Hr1 & <- & _ & _ & _ & ->).
    rewrite Hc in Hc1. injection Hc1 as <-. rewrite Hr in Hr1. injection Hr1 as <-. split; [|done].
    eexists _, _. split; [by apply claims_write|]. done.
  - apply release_update_Ok, release_Ok in Hre as (c1 & Hc1 & [[-> _]|[(r1 & Hr1 & Hid1) _]]).
    + split; [|done]. by exists c, r.
    + rewrite Hc in Hc1. injection Hc1 as <-. rewrite Hr in Hr1. injection Hr1 as <-. by rewrite Hid1 in Hrel.
  - apply claim_close_Ok in Hcl as (c1 & Hc1 & Hold & _). rewrite Hc in Hc1. injection Hc1 as <-. specialize (Hold r Hr). lia.
  - destruct (commit_Ok _ _ _ _ _ _ _ _ _ _ _ Hb Hpos Hid Hat Hin Hcommit) as (_ & _ & Hreq & Hs').
    apply require_reservation_Ok in Hreq as (c1 & r1 & Hc1 & Hr1 & <- & _). rewrite Hc in Hc1. injection Hc1 as <-.
    rewrite Hr in Hr1. injection Hr1 as <-. split; [|done].
    assert (claims s' = claims s) as E by (destruct Hs' as [->|(_ & _ & _ & _ & Hex)]; [done|by apply claims_extra]).
    exists c, r. by rewrite E.
  - split; [|done]. exists c, r. by rewrite (claims_extra _ _ Hex).
Qed.

(** A live reservation is exclusive: until it expires or its own holder
    releases it, no other request reserves the channel, no closer claims it,
    and every charge is made under it; releasing another, stale lease does not
    disturb it. *)
Theorem live_reservation_is_exclusive id amount expiry leases0 s h leases s' :
  holds id amount expiry s → channel_history leases0 s h leases s' →
  Forall (λ e, before expiry e ∧ e ≠ Released id) h →
  holds id amount expiry s' ∧ Forall (belongs_to id) h.
Proof.
  intros Hs. induction 1 as [|h leases s1 e leases' s2 _ IH Hstep]; intros Hh; [by split|].
  apply Forall_app in Hh as [Hh [[Hb Hr] _]%Forall_cons_1]. destruct (IH Hh) as [Hs1 Hall].
  destruct (exclusive_step _ _ _ _ _ _ _ _ Hs1 Hb Hr Hstep). split; [done|]. apply Forall_app. split; [done|]. by constructor.
Qed.
End history.

(** ** A concrete channel *)
Module SampleCharge.
Definition reservation_value (r : option Reservation) : json :=
  match r with Some r => JArr [JStr (res_id r); JNum (res_amount r); JNum (res_expires_at_ms r)] | None => JNull end.
Definition close_value (k : option CloseClaim) : json :=
  match k with Some k => JArr [JStr (cc_owner k); JNum (cc_expires_at_ms k)] | None => JNull end.
Definition value_reservation (v : json) : option (option Reservation) :=
  match v with
  | JNull => Some None
  | JArr [JStr id; JNum amount; JNum expires] => Some (Some {| res_id := id; res_amount := amount; res_expires_at_ms := expires |})
  | _ => None
  end.
Definition value_close (v : json) : option (option CloseClaim) :=
  match v with
  | JNull => Some None
  | JArr [JStr owner; JNum expires] => Some (Some {| cc_owner := owner; cc_expires_at_ms := expires |})
  | _ => None
  end.
#[global] Instance claims_codec : ClaimsCodec := {|
  claims_to_value := λ c, JArr [JNum (claims_version c); reservation_value (reservation c); close_value (close c)];
  claims_from_value := λ v, match v with
    | JArr [JNum version; r; k] =>
        r ← value_reservation r; k ← value_close k; Some {| claims_version := version; reservation := r; close := k |}
    | _ => None end |}.
#[global] Instance claims_codec_laws : ClaimsCodecLaws.
Proof. split. by intros [v [[]|] [[]|]]. Qed.

(** A request is charged once; asking again is a replay. *)
Definition used (st : ChannelState) (key : string) (paid : Z) : ChannelState := {|
  state_channel_id := state_channel_id st; deposit := deposit st; cumulative := cumulative st + paid; sealed := sealed st;
  close_requested_at := close_requested_at st; open_slot := open_slot st; idle_timeout_seconds := idle_timeout_seconds st;
  processed_uses := key :: processed_uses st; pending_setup := pending_setup st; lifecycle := lifecycle st; extra := extra st |}.
#[global] Instance kit : SessionKit := {|
  require_channel_binding := λ _, Ok tt;
  authenticate_use := λ _, Ok tt;
  recorded_total := λ st key, if bool_decide (key ∈ processed_uses st) then Some (cumulative st) else None;
  charge_operator_request := λ d total guard s,
    match s with
    | None => (None, Err "Channel not found")
    | Some st =>
        match guard st with
        | Err e => (s, Err e)
        | Ok _ =>
            if bool_decide (request_key d ∈ processed_uses st) then
              (s, Ok {| charge_cumulative := cumulative st; charge_request_total := total; charge_charged := 0; charge_replay := true |})
            else if total <? 0 then (s, Err "invalid total")
            else (Some (used st (request_key d) total),
                  Ok {| charge_cumulative := cumulative st + total; charge_request_total := total; charge_charged := total;
                        charge_replay := false |})
        end
    end |}.
#[global] Instance kit_laws : SessionKitLaws.
Proof.
  split.
  - intros st key. simpl. case_bool_decide; [by split; [|eexists]|]. split; [by intros []|done].
  - intros d total guard s s' e. simpl. destruct s as [st|]; [|by intros [= <-]].
    repeat case_match; by intros [= <-].
  - intros d total guard [st|] s' c; simpl; [|done]. destruct (guard st) as [[]|e] eqn:Hg; [|done].
    case_bool_decide as Hu.
    + intros [= <- <-]. exists st. by simpl.
    + destruct (Z.ltb_spec total 0); [done|]. intros [= <- <-]. exists st. split_and!; [done..|]. simpl.
      exists (used st (request_key d) total). rewrite bool_decide_eq_false_2 by done. simpl. split_and!; done || lia.
Qed.

Definition text (e : BindingError) : string := match e with Invalid what => what | BindingJson => "json" end.
Definition opened : ChannelState := {|
  state_channel_id := "ch"; deposit := 100; cumulative := 0; sealed := false; close_requested_at := None;
  open_slot := Some 42; idle_timeout_seconds := Some 300; processed_uses := []; pending_setup := None;
  lifecycle := Some {| lc_owner := "gw"; close_after := 2000 |}; extra := ∅ |}.
Definition cfg : ChargeConfig := {|
  channel_bound := true; config_amount := 50; operator_signs := true; charge_signer := Some []; config_operator := Ok [] |}.
Definition request : DelegatedUse := {| use_channel_id := "ch"; challenge_id := "c"; request_key := "k1"; charged := 0 |}.
Definition reserving := reserve_deployment_capacity text "ch" "lease" 50 1000 1001 7 (Some opened).
Definition reserved : ChannelState := Eval vm_compute in default opened reserving.1.
Definition lease : DelegatedCapacityLease := {|
  lease_channel_id := "ch"; durable_id := Some "lease"; lease_deadline := 300007; initial_cumulative := Some 0 |}.
Definition awaits : Awaits := {|
  at_active := Some reserved; active_instant := 10; active_now := 1100; at_read := Ok (Some reserved);
  at_commit := Some reserved; commit_instant := 20; commit_now := 1200 |}.
Definition charging := commit_reserved_usage text (λ _, "key") cfg request 50 (Some lease) awaits.
Definition after : ChannelState := Eval vm_compute in default opened charging.1.1.1.
Definition released : ChannelState := Eval vm_compute in
  match release_update text "lease" (Some after) with Ok s => s | Err _ => opened end.
Definition closed : ChannelState := Eval vm_compute in
  match claim_close (λ _ _, false) released "w1" 2500 3000 with Ok (s, _) => s | Err _ => opened end.
Definition reclaimed : ChannelState := Eval vm_compute in
  match claim_close (λ _ _, false) closed "w2" 3500 4000 with Ok (s, _) => s | Err _ => opened end.

Abbreviation step := (channel_step text (λ _, "key") (λ _ _, false)).
Abbreviation history := (channel_history text (λ _, "key") (λ _ _, false)).
Lemma step1 : step [] opened (Reserved_ "lease" 50 1001 301000) [("lease", 0)] reserved.
Proof.
  apply (step_reserve text (λ _, "key") (λ _ _, false) [] opened "ch" "lease" 50 1000 1001 7 reserved lease); [lia|set_solver|].
  vm_compute. reflexivity.
Qed.
Lemma step2 : step [("lease", 0)] reserved (Charged "lease" 50 1200 50) [("lease", 0)] after.
Proof.
  apply (step_charge text (λ _, "key") (λ _ _, false) [("lease", 0)] reserved cfg request 50 lease "lease" awaits after
    {| use_channel_id := "ch"; challenge_id := "c"; request_key := "k1"; charged := 50 |} (Some 50)
    {| auth_cumulative := 50; auth_idle_timeout_seconds := 300 |}); try done.
  - intros c0 [= <-]. constructor.
Qed.
Lemma step3 : step [("lease", 0)] after (Released "lease") [("lease", 0)] released.
Proof. apply step_release. vm_compute. reflexivity. Qed.
Lemma step4 : step [("lease", 0)] released (CloseClaimed "w1" 2500 3000) [("lease", 0)] closed.
Proof. apply step_close. vm_compute. reflexivity. Qed.
Lemma step5 : step [("lease", 0)] closed (CloseClaimed "w2" 3500 4000) [("lease", 0)] reclaimed.
Proof. apply step_close. vm_compute. reflexivity. Qed.
Lemma charged_twice_refused : (commit_reserved_usage text (λ _, "key") cfg
    {| use_channel_id := "ch"; challenge_id := "c"; request_key := "k2"; charged := 0 |} 50 (Some lease)
    {| at_active := Some after; active_instant := 10; active_now := 1100; at_read := Ok (Some after);
       at_commit := Some after; commit_instant := 20; commit_now := 1200 |}).2 =
  Err (PaymentRejected "deployment reservation was already consumed").
Proof. vm_compute. reflexivity. Qed.
End SampleCharge.


Lemma closing_is_final_witness : cumulative SampleCharge.reclaimed = cumulative SampleCharge.closed.
Proof.
  apply (closing_is_final SampleCharge.text (λ _, "key") (λ _ _, false) [("lease", 0)] SampleCharge.closed
    [CloseClaimed "w2" 3500 4000] [("lease", 0)] SampleCharge.reclaimed).
  - by eexists.
  - eapply (channel_next _ _ _ _ _ []); [apply channel_start|exact SampleCharge.step5].
Defined.

Lemma live_reservation_is_exclusive_witness : holds "lease" 50 301000 SampleCharge.after.
Proof.
  apply (live_reservation_is_exclusive SampleCharge.text (λ _, "key") (λ _ _, false) "lease" 50 301000 [("lease", 0)]
    SampleCharge.reserved [Charged "lease" 50 1200 50] [("lease", 0)] SampleCharge.after).
  - do 2 eexists. split_and!; [vm_compute; reflexivity..|vm_compute; congruence].
  - eapply (channel_next _ _ _ _ _ []); [apply channel_start|exact SampleCharge.step2].
  - by repeat constructor.
Defined.
