(* ===== verification/SessionLifecycle.v ===== *)
(** * SessionLifecycle: the runloop that closes and settles channels

    [SessionLifecycleRunloop] of [core/src/server/session.rs]: lifecycle
    leases shared by several gateways, idle close with its retries, deferred
    payouts, and the rotation of watermark settlement.  Times are unsigned
    milliseconds and durations nanoseconds; what the store, PayKit and the
    chain answer is an argument. *)
From stdpp Require Import sorting.
From S2P Require Import Prelude Text Affixes Landing PushManifest ChannelState DeploymentPolicy SessionCharge MeteringTypes.
#[local] Open Scope string_scope.
#[local] Open Scope list_scope.
#[local] Open Scope Z_scope.

(** ** Durations *)
Definition DURATION_MAX : Z := u64_max * 1000000000 + 999999999.
Definition secs (n : Z) : Z := n * 1000000000.
Definition duration_mul (d n : Z) : Z := Z.min DURATION_MAX (d * n).
(** [duration_millis]: [as_millis] as a [u64], saturating. *)
Definition duration_millis (d : Z) : Z := default u64_max (try_from 64 (d / 1000000)).

Definition MIN_LIFECYCLE_OWNER_LEASE : Z := secs 30.
Definition CLOSE_RETRY_BACKOFF : Z := secs 60.
Definition MAX_CLOSE_RETRY_BACKOFF : Z := secs 3600.
Definition LIFECYCLE_OWNER_LEASE_PREFIX : string := "embedded-v1:".

Definition round_up_timestamp (timestamp_ms interval_ms : Z) : Z :=
  if interval_ms =? 0 then timestamp_ms
  else
    let remainder := timestamp_ms mod interval_ms in
    if remainder =? 0 then timestamp_ms else saturating_add 64 timestamp_ms (interval_ms - remainder).

(** [Duration::from_millis] of the distance from [now]. *)
Definition duration_until_next_boundary (now interval : Z) : Z :=
  let next := round_up_timestamp (saturating_add 64 now 1) (duration_millis interval) in
  saturating_sub next now * 1000000.

Definition next_lifecycle_wakeup (close settlement : option Z) : option (Z * bool) :=
  match close, settlement with
  | Some close, Some settlement => if close <=? settlement then Some (close, true) else Some (settlement, false)
  | Some close, None => Some (close, true)
  | None, Some settlement => Some (settlement, false)
  | None, None => None
  end.

Definition close_retry_due (requested_at_secs now_ms : Z) : bool :=
  saturating_add 64 (saturating_mul 64 requested_at_secs 1000) (duration_millis CLOSE_RETRY_BACKOFF) <=? now_ms.

(** ** Watermark settlement *)
Definition covers (min_delta onchain_settled accepted : Z) : bool := min_delta <=? saturating_sub accepted onchain_settled.
(** [WatermarkSettlement]: an interval and the least amount worth a settle. *)
Definition WatermarkSettlement : Type := option (Z * Z).
Definition settlement_every (interval min_delta : Z) : WatermarkSettlement :=
  if interval =? 0 then None else Some (interval, min_delta).
Definition settlement_interval (w : WatermarkSettlement) : option Z := fst <$> w.
Definition settlement_min_delta (w : WatermarkSettlement) : option Z := snd <$> w.

(** ** Leases *)
Definition parse_lifecycle_owner_lease (owner : string) : option (string * Z) :=
  owner ← strip_prefix LIFECYCLE_OWNER_LEASE_PREFIX owner;
  '(owner_id, expires_at_ms) ← rsplit_once colon owner;
  match u64_from_str expires_at_ms with Ok expires => Some (owner_id, expires) | Err _ => None end.

Inductive SessionLifecycleReconciliation := Embedded | External.
#[global] Instance reconciliation_eq_dec : EqDecision SessionLifecycleReconciliation.
Proof. solve_decision. Defined.

Record CloseRetry := { next_at_ms : Z; backoff : Z }.

Record Runloop := {
  owner : string;
  close_delay : option Z;
  close_batch_interval : Z;
  settlement : WatermarkSettlement;
  next_settlement : option Z;
  reconciliation : SessionLifecycleReconciliation;
  settlement_cursor : Z;
  deferred_payouts_pending : bool;
  close_retries : gmap string CloseRetry
}.
Definition runloop_new (id : string) : Runloop := {|
  owner := id; close_delay := None; close_batch_interval := secs 60; settlement := None; next_settlement := None;
  reconciliation := Embedded; settlement_cursor := 0; deferred_payouts_pending := false; close_retries := ∅ |}.
Definition with_retries (l : Runloop) (r : gmap string CloseRetry) : Runloop := {|
  owner := owner l; close_delay := close_delay l; close_batch_interval := close_batch_interval l; settlement := settlement l;
  next_settlement := next_settlement l; reconciliation := reconciliation l; settlement_cursor := settlement_cursor l;
  deferred_payouts_pending := deferred_payouts_pending l; close_retries := r |}.
Definition with_settlement (l : Runloop) (next : option Z) (cursor : Z) : Runloop := {|
  owner := owner l; close_delay := close_delay l; close_batch_interval := close_batch_interval l; settlement := settlement l;
  next_settlement := next; reconciliation := reconciliation l; settlement_cursor := cursor;
  deferred_payouts_pending := deferred_payouts_pending l; close_retries := close_retries l |}.
Definition with_deferred (l : Runloop) (pending : bool) : Runloop := {|
  owner := owner l; close_delay := close_delay l; close_batch_interval := close_batch_interval l; settlement := settlement l;
  next_settlement := next_settlement l; reconciliation := reconciliation l; settlement_cursor := settlement_cursor l;
  deferred_payouts_pending := pending; close_retries := close_retries l |}.

Definition lifecycle_owner_lease_duration (l : Runloop) : Z :=
  let close_lease := Z.max (duration_mul (close_batch_interval l) 3) MIN_LIFECYCLE_OWNER_LEASE in
  let settlement_lease := default 0 ((λ interval, duration_mul interval 3) <$> settlement_interval (settlement l)) in
  Z.max close_lease settlement_lease.

Definition lease_expiry (l : Runloop) (now_ms : Z) : Z :=
  saturating_add 64 now_ms (duration_millis (lifecycle_owner_lease_duration l)).
Definition leased_owner (l : Runloop) (now_ms : Z) : string :=
  LIFECYCLE_OWNER_LEASE_PREFIX +:+ owner l +:+ ":" +:+ show (lease_expiry l now_ms).

Definition owns_lifecycle (l : Runloop) (lc : ChannelLifecycle) : bool :=
  match parse_lifecycle_owner_lease (lc_owner lc) with
  | Some (id, _) => bool_decide (id = owner l)
  | None => bool_decide (lc_owner lc = owner l)
  end.

(** Whether a record may be taken over: a record without a lease, our own, or
    an expired one. *)
Definition claimable (id : string) (now_ms : Z) (lc : ChannelLifecycle) : bool :=
  match parse_lifecycle_owner_lease (lc_owner lc) with
  | Some (current, expires) => bool_decide (current = id) || (expires <=? now_ms)
  | None => true
  end.

(** ** Commands *)
(** [Configure]; the caller reconciles ownership afterwards in the embedded
    mode. *)
Definition configure (l : Runloop) (delay : option Z) (batch : Z) (w : WatermarkSettlement)
    (mode : SessionLifecycleReconciliation) (instant : Z) : Runloop := {|
  owner := owner l; close_delay := delay; close_batch_interval := batch; settlement := w;
  next_settlement := (λ interval, instant + interval) <$> settlement_interval w; reconciliation := mode;
  settlement_cursor := settlement_cursor l;
  deferred_payouts_pending := if bool_decide (mode = Embedded) then true else deferred_payouts_pending l;
  close_retries := close_retries l |}.

(** The deadline of a touch: the close delay, or the negotiated idle timeout
    when that is shorter, rounded up to the batch interval. *)
Definition touch_deadline (l : Runloop) (delay : Z) (idle_timeout : option Z) (touched_at_ms : Z) : Z :=
  let effective := match idle_timeout with
                   | Some seconds => Z.min (duration_millis delay) (saturating_mul 64 seconds 1000)
                   | None => duration_millis delay
                   end in
  round_up_timestamp (saturating_add 64 touched_at_ms effective) (duration_millis (close_batch_interval l)).

(** [persist_touch]; [found] is the record read first, [touch_channel_lifecycle]
    what the store does with the new lifecycle. *)
Definition persist_touch (l : Runloop) (channel_id : string) (touched_at_ms now_ms : Z)
    (found : result string (option ChannelState))
    (touch_channel_lifecycle : ChannelLifecycle → result string ChannelState) : res (option ChannelState) :=
  match close_delay l with
  | None => Ok None
  | Some delay =>
      state ← map_err (λ e, Mpp ("failed to load channel " +:+ channel_id +:+ " for lifecycle touch: " +:+ e)) found;
      let lc_owner := if bool_decide (reconciliation l = Embedded) then leased_owner l now_ms else owner l in
      state ← map_err (λ e, Mpp ("failed to persist lifecycle deadline for " +:+ channel_id +:+ ": " +:+ e))
        (touch_channel_lifecycle {| ChannelState.lc_owner := lc_owner;
           close_after := touch_deadline l delay (state ≫= idle_timeout_seconds) touched_at_ms |});
      Ok (Some state)
  end.

(** [touch_channel], on the record read and what the runloop answers. *)
Definition touch_channel `{SessionKit} (found : result string (option ChannelState)) (touched : res (option ChannelState)) :
    res unit :=
  found ← map_err Mpp found;
  state ← ok_or found (PaymentRejected "unknown session channel");
  _ ← map_err PaymentRejected (SessionCharge.require_channel_binding state);
  touched ← touched;
  reject_if (is_some_and touched (λ s, sealed s || is_some (close_requested_at s)))
    (PaymentRejected "payment channel close is pending").

(** [reserve_delegated_capacity] of a session without a deployment: [None]
    when the channel is busy. *)
Definition reserve_delegated_capacity `{SessionKit} (cap : option Reserved) (channel : string) (amount instant : Z)
    (found : result string (option ChannelState)) (touched : res (option ChannelState)) :
    option Reserved * res (option DelegatedCapacityLease) :=
  match touch_channel found touched with
  | Err e => (cap, Err e)
  | Ok _ =>
      let '(cap, free) := reserve_capacity cap channel amount in
      (cap, Ok (if free then Some {| lease_channel_id := channel; durable_id := None;
                                     lease_deadline := instant + 300000; initial_cumulative := None |}
                else None))
  end.

Definition DISTRIBUTION_DEFERRED_AT_KEY : string := "payDistributionDeferredAt".
(** [as_i64] of the stored number. *)
Definition distribution_deferred_at (s : ChannelState) : option Z :=
  match extra s !! DISTRIBUTION_DEFERRED_AT_KEY with Some (JNum n) => Some n | _ => None end.

Section runloop.
Context (require_channel_binding : ChannelState → result string unit).

(** ** Ownership *)

(** The closure of [reconcile_persisted_ownership] for one channel. *)
Definition reconcile_update (l : Runloop) (now_ms : Z) (locally_active : bool) : Update := λ current,
  current ← ok_or current "Channel not found";
  if sealed current || is_some (close_requested_at current) then Ok current
  else Ok (with_lifecycle current
    match lifecycle current with
    | Some lc =>
        if claimable (owner l) now_ms lc
        then Some {| lc_owner := leased_owner l now_ms; close_after := close_after lc |} else Some lc
    | None => if locally_active then Some {| lc_owner := leased_owner l now_ms; close_after := now_ms |} else None
    end).

(** Which channels of a scan are reconciled. *)
Definition reconciles (l : Runloop) (watermarks : gmap string Z) (s : ChannelState) : option bool :=
  let locally_active := is_some (settlement_interval (settlement l)) && is_some (watermarks !! state_channel_id s) in
  if sealed s || is_some (close_requested_at s) || negb (is_ok (require_channel_binding s)) then None
  else if negb (is_some (lifecycle s)) && negb locally_active then None
  else Some locally_active.

(** [claim_deferred_payout]: the record, and whether it was claimed. *)
Definition claim_deferred_update (l : Runloop) (now_ms : Z) (current : option ChannelState) :
    result string (ChannelState * bool) :=
  current ← ok_or current "Channel not found";
  if sealed current || negb (is_some (distribution_deferred_at current)) then Ok (current, false)
  else if match lifecycle current with Some lc => claimable (owner l) now_ms lc | None => true end then
    Ok (with_lifecycle current (Some {| lc_owner := leased_owner l now_ms;
          close_after := match lifecycle current with Some lc => close_after lc | None => now_ms end |}), true)
  else Ok (current, false).

(** [retry_deferred_payouts]: the channels to claim. *)
Definition deferred_channels (states : list ChannelState) : list string :=
  map state_channel_id (filter (λ s, sealed s = false ∧ is_Some (distribution_deferred_at s)) states).
Definition retry_deferred_payouts (l : Runloop) (states : list ChannelState) : Runloop * list string :=
  match deferred_channels states with
  | [] => (with_deferred l false, [])
  | ids => (l, ids)
  end.

(** ** Closing *)
Definition IDLE_CLOSE_LIFECYCLE_CHANGED : string := "channel lifecycle changed since the idle scan".

(** The closure of [request_server_close]. *)
Definition request_server_close (now_secs : Z) (observed : option ChannelLifecycle) : Update := λ state,
  state ← ok_or state "Channel not found";
  _ ← require_channel_binding state;
  _ ← reject_if (sealed state) "Channel is already sealed";
  _ ← reject_if (is_some (close_requested_at state)) "Close already requested";
  _ ← reject_if (is_some observed && bool_decide (lifecycle state ≠ observed)) IDLE_CLOSE_LIFECYCLE_CHANGED;
  Ok (with_close_requested state (Some now_secs)).

(** Which of the scanned channels this runloop closes now. *)
Definition scan_states (states : list ChannelState) : list ChannelState :=
  filter (λ s, distribution_deferred_at s = None ∧ sealed s = false) states.
Definition retain_retries (states : list ChannelState) (r : gmap string CloseRetry) : gmap string CloseRetry :=
  filter (λ kv, Exists (λ s, state_channel_id s = kv.1 ∧ is_Some (close_requested_at s)) states) r.
Definition close_due (l : Runloop) (now_ms : Z) (s : ChannelState) : bool :=
  is_some_and (lifecycle s) (owns_lifecycle l) &&
  match close_requested_at s with
  | Some requested_at =>
      match close_retries l !! state_channel_id s with
      | Some retry => next_at_ms retry <=? now_ms
      | None => close_retry_due requested_at now_ms
      end
  | None => is_some_and (lifecycle s) (λ lc, close_after lc <=? now_ms)
  end.
Definition due_channels (l : Runloop) (now_ms : Z) (states : list ChannelState) :
    Runloop * list (string * option ChannelLifecycle) :=
  let states := scan_states states in
  let l := with_retries l (retain_retries states (close_retries l)) in
  (l, map (λ s, (state_channel_id s, lifecycle s)) (filter (λ s, close_due l now_ms s = true) states)).

(** The channels whose slot was free, which are closed, and the busy ones,
    which are touched instead. *)
Fixpoint claim_slots (cap : option Reserved) (due : list (string * option ChannelLifecycle)) :
    option Reserved * list (string * option ChannelLifecycle) * list string :=
  match due with
  | [] => (cap, [], [])
  | (id, observed) :: due =>
      let '(cap, free) := reserve_capacity cap id 0 in
      let '(cap, closing, busy) := claim_slots cap due in
      if free then (cap, (id, observed) :: closing, busy) else (cap, closing, id :: busy)
  end.

Inductive SessionCloseResult := Closed (settled : Z) | AlreadyFinalized | Rearmed.

Definition session_close_already_finalized (message : string) : bool := str_contains message "already finalized".
Definition session_close_needs_reconciliation (message : string) : bool :=
  str_contains message "Close already requested" || str_contains message "Channel is already sealed".

Record CloseSettlement := { close_signature : string; close_distributed : bool }.

(** [finish_close]: a close that distributed seals the record; one that did
    not marks the payout as deferred, keeping an earlier mark. *)
Definition finish_close (mark_sealed : Update) (settlement : CloseSettlement) (sealed_at : Z) : Update := λ state,
  if close_distributed settlement then mark_sealed state
  else
    state ← ok_or state "Channel not found";
    Ok (with_extra state
          (match extra state !! DISTRIBUTION_DEFERRED_AT_KEY with
           | Some _ => extra state
           | None => <[DISTRIBUTION_DEFERRED_AT_KEY := JNum sealed_at]> (extra state)
           end)).

(** What [operator_close_channel] learns on its way: whether the chain shows
    the channel gone, before and after a failed settlement, the settled amount
    of the seal, and the settlement. *)
Record CloseAnswers := {
  tombstoned_before : bool;
  tombstoned_after : bool;
  seal_settled : result string Z;
  submitted : res (option CloseSettlement);
  requested_secs : Z;
  sealed_secs : Z
}.
Definition sealing (mark_sealed : Update) (s : option ChannelState) : option ChannelState * res SessionCloseResult :=
  let '(s, r) := update_channel mark_sealed s in
  (s, _ ← map_err (λ e, Mpp ("Failed to mark session sealed: " +:+ e)) r; Ok AlreadyFinalized).

Definition settle_close (mark_sealed : Update) (a : CloseAnswers) (s : option ChannelState) :
    option ChannelState * res SessionCloseResult :=
  match seal_settled a with
  | Err e => (s, Err (Mpp ("Failed to get seal params: " +:+ e)))
  | Ok settled =>
      match submitted a with
      | Err e => if tombstoned_after a then sealing mark_sealed s else (s, Err e)
      | Ok None => (s, Ok (Closed settled))
      | Ok (Some settlement) =>
          let '(s, r) := update_channel (finish_close mark_sealed settlement (sealed_secs a)) s in
          (s, _ ← map_err (λ e, Mpp ((if close_distributed settlement then "Failed to mark session sealed: "
                                      else "Failed to record the deferred payout: ") +:+ e)) r;
              Ok (Closed settled))
      end
  end.

Definition operator_close_channel (store_text : string → string) (mark_sealed : Update) (a : CloseAnswers)
    (observed : option ChannelLifecycle) (s : option ChannelState) : option ChannelState * res SessionCloseResult :=
  if tombstoned_before a then sealing mark_sealed s
  else
    match update_channel (request_server_close (requested_secs a) observed) s with
    | (s, Ok _) => settle_close mark_sealed a s
    | (s, Err e) =>
        let error := Mpp ("Session auto-close failed: " +:+ store_text e) in
        if str_contains (error_text error) IDLE_CLOSE_LIFECYCLE_CHANGED then (s, Ok Rearmed)
        else if session_close_already_finalized (error_text error) then (s, Ok AlreadyFinalized)
        else if session_close_needs_reconciliation (error_text error) then settle_close mark_sealed a s
        else (s, Err error)
    end.

(** One finished close: the slot is free again; a failure schedules the retry
    with a doubled backoff. *)
Definition close_finished (cap : option Reserved) (l : Runloop) (now_ms : Z) (id : string) (r : res SessionCloseResult) :
    option Reserved * Runloop :=
  let cap := release_capacity cap id in
  match r with
  | Ok _ => (cap, with_retries l (base.delete id (close_retries l)))
  | Err _ =>
      let next := match close_retries l !! id with
                  | Some retry => Z.min (duration_mul (backoff retry) 2) MAX_CLOSE_RETRY_BACKOFF
                  | None => CLOSE_RETRY_BACKOFF
                  end in
      (cap, with_retries l (<[id := {| next_at_ms := saturating_add 64 now_ms (duration_millis next); backoff := next |}]>
                             (close_retries l)))
  end.

(** [close_due_channels] on a scan: [close] is [operator_close_channel] for
    each channel, [clock] the time it finishes.  The channels to touch are the
    busy ones and those whose close failed. *)
Definition close_due_channels (l : Runloop) (cap : option Reserved) (now_ms : Z) (scan : result string (list ChannelState))
    (close : string → option ChannelLifecycle → res SessionCloseResult) (clock : string → Z) :
    Runloop * option Reserved * list (string * Z) :=
  match close_delay l, scan with
  | None, _ | _, Err _ => (l, cap, [])
  | Some _, Ok states =>
      let '(l, due) := due_channels l now_ms states in
      let '(cap, closing, busy) := claim_slots cap due in
      let '(cap, l) := foldl (λ '(cap, l) '(id, observed), close_finished cap l (clock id) id (close id observed)) (cap, l) closing in
      (l, cap, map (λ id, (id, now_ms)) busy ++
        map (λ '(id, _), (id, clock id)) (filter (λ '(id, observed), is_ok (close id observed) = false) closing))
  end.

(** ** Pushing watermarks *)

(** [iter().cycle().skip(start).take(cap)]. *)
Definition cycle_slice (all : list string) (start cap : Z) : list string :=
  omap (λ i, all !! Z.to_nat ((start + i) mod zlen all)) (seqZ 0 cap).

(** The channels of one cycle and the cursor after it. *)
Definition settlement_slice (max_per_cycle : option Z) (cursor : Z) (all : list string) : list string * Z :=
  match max_per_cycle with
  | Some cap =>
      if cap <? zlen all then
        let all := merge_sort String.le all in
        let start := cursor mod zlen all in
        (cycle_slice all start cap, (start + cap) mod zlen all)
      else (all, cursor)
  | None => (all, cursor)
  end.

(** [push_due_watermarks]: the channels to push, whose slots were free. *)
Definition push_due_watermarks (l : Runloop) (cap : option Reserved) (max_per_cycle : option Z) (instant : Z)
    (active : list string) : Runloop * list string :=
  match settlement_interval (settlement l), settlement_min_delta (settlement l) with
  | Some interval, Some _ =>
      if is_some_and (next_settlement l) (λ deadline, instant <? deadline) then (l, [])
      else
        let '(channels, cursor) := settlement_slice max_per_cycle (settlement_cursor l) active in
        (with_settlement l (Some (instant + interval)) cursor,
         (claim_slots cap (map (λ id, (id, None)) channels)).1.2.*1)
  | _, _ => (with_settlement l None (settlement_cursor l), [])
  end.

(** ** The loop *)
Definition next_wakeup (l : Runloop) (now_ms instant : Z) : option (Z * bool) :=
  let close := if bool_decide (reconciliation l = Embedded) && (is_some (close_delay l) || deferred_payouts_pending l)
               then Some (duration_until_next_boundary now_ms (close_batch_interval l)) else None in
  next_lifecycle_wakeup close ((λ deadline, saturating_sub deadline instant) <$> next_settlement l).
End runloop.

(** ** Leases *)
Lemma lease_roundtrip l now_ms :
  0 ≤ now_ms → parse_lifecycle_owner_lease (leased_owner l now_ms) = Some (owner l, lease_expiry l now_ms).
Proof.
  intros Hnow. unfold parse_lifecycle_owner_lease, leased_owner.
  set (rest := owner l +:+ ":" +:+ show (lease_expiry l now_ms)).
  assert (strip_prefix LIFECYCLE_OWNER_LEASE_PREFIX (LIFECYCLE_OWNER_LEASE_PREFIX +:+ rest) = Some rest) as ->
    by (by apply strip_prefix_Some).
  cbn [mbind option_bind].
  assert (is_u64 (lease_expiry l now_ms)) as Hexp.
  { unfold lease_expiry, saturating_add, in_range.
    assert (0 ≤ duration_millis (lifecycle_owner_lease_duration l)); [|lia].
    unfold duration_millis. destruct (try_from 64 _) as [x|] eqn:E; simpl; [|done].
    apply try_from_Some in E as [-> [? _]]. done. }
  assert (rsplit_once colon rest = Some (owner l, show (lease_expiry l now_ms))) as ->.
  { apply rsplit_once_Some. split; [done|]. intros Hin%show_digits; [|by destruct Hexp].
    change (byte_of colon) with 58 in Hin. lia. }
  cbn [mbind option_bind]. by rewrite u64_show_roundtrip.
Qed.

Lemma str_contains_skip a h b : str_contains h b = true → str_contains (a +:+ h) b = true.
Proof.
  intros Hh. induction a as [|x a IH]; [done|].
  change (String x a +:+ h) with (String x (a +:+ h)). simpl. rewrite IH. by rewrite orb_true_r.
Qed.

Lemma str_contains_prefix b c : str_contains (b +:+ c) b = true.
Proof.
  assert (String.prefix b (b +:+ c) = true) as Hp.
  { induction b as [|x b IH]; [by destruct c|]. change (String x b +:+ c) with (String x (b +:+ c)). simpl.
    by destruct (Ascii.ascii_dec x x). }
  destruct (b +:+ c); cbn [str_contains]; by rewrite Hp.
Qed.

Lemma lease_expiry_u64 l now_ms : 0 ≤ now_ms → is_u64 (lease_expiry l now_ms).
Proof.
  intros Hnow. unfold lease_expiry, saturating_add, in_range.
  assert (0 ≤ duration_millis (lifecycle_owner_lease_duration l)); [|lia].
  unfold duration_millis. destruct (try_from 64 _) as [x|] eqn:E; simpl; [|done].
  by apply try_from_Some in E as [-> [? _]].
Qed.

(** The lease in a record, read back by another gateway. *)
Lemma leased_claimable l now_ms c l' now_ms' :
  0 ≤ now_ms → owner l' ≠ owner l → now_ms' < lease_expiry l now_ms →
  claimable (owner l') now_ms' {| lc_owner := leased_owner l now_ms; close_after := c |} = false.
Proof.
  intros Hnow Hne Hlt. unfold claimable. cbn [lc_owner]. rewrite lease_roundtrip by done.
  rewrite bool_decide_false by congruence. by apply Z.leb_gt.
Qed.

Lemma leased_owns l now_ms c l' :
  0 ≤ now_ms → owns_lifecycle l' {| lc_owner := leased_owner l now_ms; close_after := c |} = bool_decide (owner l = owner l').
Proof. intros Hnow. unfold owns_lifecycle. cbn [lc_owner]. by rewrite lease_roundtrip. Qed.

Lemma with_lifecycle_id s : with_lifecycle s (lifecycle s) = s.
Proof. by destruct s. Qed.

(** A channel found due is in the scan, open, and owned by the runloop. *)
Lemma due_channels_in l now_ms states id lc :
  (id, lc) ∈ (due_channels l now_ms states).2 →
  ∃ s, s ∈ states ∧ state_channel_id s = id ∧ lifecycle s = lc ∧ sealed s = false ∧ distribution_deferred_at s = None ∧
    is_some_and lc (owns_lifecycle l) = true.
Proof.
  unfold due_channels. cbn [snd].
  intros (s & [= -> ->] & [Hdue [[Hdef Hsealed] Hin]%list_elem_of_filter]%list_elem_of_filter)%list_elem_of_fmap.
  exists s. split_and!; try done. unfold close_due in Hdue. by apply andb_true_iff in Hdue as [? _].
Qed.

(** A channel that another runloop owns is not due. *)
Lemma not_due_unless_owned l now_ms states s :
  s ∈ states → NoDup (map state_channel_id states) → is_some_and (lifecycle s) (owns_lifecycle l) = false →
  state_channel_id s ∉ (due_channels l now_ms states).2.*1.
Proof.
  intros Hs Hnd Hno ([id lc] & Heq & Hdue)%list_elem_of_fmap. cbn [fst] in Heq.
  apply due_channels_in in Hdue as (s' & Hs' & Hid & Hlc' & _ & _ & Howns).
  assert (s' = s) as -> by (eapply (NoDup_map_unique state_channel_id); [done..|congruence]).
  congruence.
Qed.


(** A close that was claimed but not sealed is only ever retried by the
    process that claimed it: once its owner (an identifier drawn anew by every
    process) is gone, no other runloop finds the channel due, takes over its
    lease or claims its payout, at any time, expired lease or not. *)
Theorem orphaned_close_is_never_retried s requested_at l' :
  close_requested_at s = Some requested_at → distribution_deferred_at s = None →
  is_some_and (lifecycle s) (owns_lifecycle l') = false →
  (∀ now_ms states, s ∈ states → NoDup (map state_channel_id states) →
     state_channel_id s ∉ (due_channels l' now_ms states).2.*1) ∧
  (∀ now_ms active, update_channel (reconcile_update l' now_ms active) (Some s) = (Some s, Ok s)) ∧
  (∀ now_ms, claim_deferred_update l' now_ms (Some s) = Ok (s, false)).
Proof.
  intros Hreq Hdef Hno. split_and!.
  - intros now_ms states Hs Hnd. by apply not_due_unless_owned.
  - intros now_ms active. unfold update_channel, reconcile_update. cbn [ok_or mbind result_bind].
    by rewrite Hreq, orb_true_r.
  - intros now_ms. unfold claim_deferred_update. cbn [ok_or mbind result_bind]. by rewrite Hdef, orb_true_r.
Qed.

(** ** Closing *)

(** A channel whose lifecycle was re-armed between the idle scan and the
    close stays open: the close reports it as re-armed, and the record is as
    it was, so neither its deadline nor its acceptance of vouchers is lost. *)
Theorem rearmed_channel_stays_open require store_text mark_sealed a observed s :
  (∀ e, ∃ before after, store_text e = before +:+ (e +:+ after)) →
  tombstoned_before a = false → require s = Ok tt → sealed s = false → close_requested_at s = None →
  lifecycle s ≠ Some observed →
  operator_close_channel require store_text mark_sealed a (Some observed) (Some s) = (Some s, Ok Rearmed).
Proof.
  intros Htext Htomb Hreq Hsealed Hclose Hne. unfold operator_close_channel, update_channel, request_server_close.
  rewrite Htomb. cbn [ok_or mbind result_bind]. rewrite Hreq, Hsealed, Hclose.
  cbn [reject_if is_some andb mbind result_bind]. rewrite bool_decide_true by done. cbn [reject_if mbind result_bind].
  destruct (Htext IDLE_CLOSE_LIFECYCLE_CHANGED) as (before & after & ->).
  cbn [error_text]. by rewrite (str_contains_skip _ _ _ (str_contains_skip _ _ _ (str_contains_skip _ _ _ (str_contains_prefix _ _)))).
Qed.

(** *** Slots *)

(** The slots of a list of channels. *)
Definition occupy (ids : list string) (m : gmap string Z) : gmap string Z := foldr (λ id, <[id := 0]>) m ids.

Lemma occupy_lookup_ne ids m id : id ∉ ids → occupy ids m !! id = m !! id.
Proof.
  induction ids as [|i ids IH]; [done|]. intros [Hne Hni]%not_elem_of_cons. simpl.
  rewrite lookup_insert_ne by done. by apply IH.
Qed.

Lemma occupy_lookup ids m id : id ∈ ids → is_Some (occupy ids m !! id).
Proof.
  induction 1 as [i ids|id i ids Hin IH]; simpl; [by rewrite lookup_insert_eq|].
  destruct (decide (i = id)) as [->|Hne]; [by rewrite lookup_insert_eq|by rewrite lookup_insert_ne].
Qed.

Lemma occupy_insert ids m id : id ∉ ids → occupy ids (<[id := 0]> m) = <[id := 0]> (occupy ids m).
Proof.
  induction ids as [|i ids IH]; [done|]. intros [Hne Hni]%not_elem_of_cons. simpl.
  rewrite IH by done. by apply insert_insert_ne.
Qed.

(** A claimed slot was free and is claimed once; every channel is either
    claimed or busy. *)
Record slots_claimed (m : gmap string Z) (due : list (string * option ChannelLifecycle)) (m' : gmap string Z)
    (closing : list (string * option ChannelLifecycle)) (busy : list string) : Prop := {
  sc_after : m' = occupy closing.*1 m;
  sc_free : Forall (λ id, m !! id = None) closing.*1;
  sc_once : NoDup closing.*1;
  sc_busy : Forall (λ id, is_Some (m' !! id)) busy;
  sc_all : due.*1 ≡ₚ closing.*1 ++ busy;
  sc_sub : closing ⊆ due
}.

Lemma claim_slots_spec due m :
  ∃ m' closing busy, claim_slots (Some m) due = (Some m', closing, busy) ∧ slots_claimed m due m' closing busy.
Proof.
  revert m. induction due as [|[id observed] due IH]; intros m.
  { exists m, [], []. split; [done|]. by split; try constructor. }
  cbn [claim_slots reserve_capacity]. destruct (bool_decide _) eqn:E.
  - apply bool_decide_eq_true in E as [x Hx]. destruct (IH m) as (m' & closing & busy & -> & [Ha Hf Ho Hb Hp Hs]).
    exists m', closing, (id :: busy). split; [done|]. constructor; [done|done|done| | |set_solver].
    + constructor; [|done]. rewrite Ha, occupy_lookup_ne; [by rewrite Hx|].
      intros Hin. rewrite Forall_forall in Hf. rewrite (Hf _ Hin) in Hx. done.
    + simpl. rewrite Hp. apply Permutation_middle.
  - apply bool_decide_eq_false, eq_None_not_Some in E.
    destruct (IH (<[id := 0]> m)) as (m' & closing & busy & -> & [Ha Hf Ho Hb Hp Hs]).
    assert (id ∉ closing.*1) as Hni.
    { intros Hin. rewrite Forall_forall in Hf. specialize (Hf _ Hin). by rewrite lookup_insert_eq in Hf. }
    exists m', ((id, observed) :: closing), busy. split; [done|]. constructor; [| | |done| |set_solver].
    + rewrite Ha. by apply occupy_insert.
    + constructor; [done|]. eapply Forall_impl; [exact Hf|]. intros i Hi. cbn beta in Hi.
      destruct (decide (i = id)) as [->|]; [done|]. by rewrite lookup_insert_ne in Hi.
    + by constructor.
    + simpl. by rewrite Hp.
Qed.

Lemma release_occupied ids m :
  NoDup ids → Forall (λ id, m !! id = None) ids → foldl release_capacity (Some (occupy ids m)) ids = Some m.
Proof.
  intros Hnd. revert m. induction Hnd as [|id ids Hni Hnd IH]; intros m Hf; [done|].
  apply Forall_cons in Hf as [Hid Hf].
  change (foldl release_capacity (Some (base.delete id (<[id := 0]> (occupy ids m)))) ids = Some m).
  rewrite delete_insert_id by (by rewrite (occupy_lookup_ne ids m id Hni)). by apply IH.
Qed.

Lemma close_finished_cap cap l now_ms id r : (close_finished cap l now_ms id r).1 = release_capacity cap id.
Proof. by destruct r. Qed.

Lemma close_finished_all (clock : string → Z) (close : string → option ChannelLifecycle → res SessionCloseResult) closing cap l :
  (foldl (λ '(cap, l) '(id, observed), close_finished cap l (clock id) id (close id observed)) (cap, l) closing).1
  = foldl release_capacity cap closing.*1.
Proof.
  revert cap l. induction closing as [|[id observed] closing IH]; intros cap l; [done|]. cbn [foldl fmap list_fmap fst].
  pose proof (close_finished_cap cap l (clock id) id (close id observed)) as E.
  destruct (close_finished _ _ _ _ _) as [cap' l']. cbn [fst] in E. subst cap'. apply IH.
Qed.

(** Closing and serving exclude each other: every due channel is either
    closed or found busy; one that is closed had a free slot and is closed
    once, no request can reserve it while the close runs, and when all closes
    have finished, failed ones included, exactly the slots held before are
    held. *)
Theorem closing_excludes_serving m due l now_ms scan close clock :
  (∃ m' closing busy, claim_slots (Some m) due = (Some m', closing, busy) ∧
     due.*1 ≡ₚ closing.*1 ++ busy ∧ NoDup closing.*1 ∧ Forall (λ id, is_Some (m' !! id)) busy ∧
     Forall (λ id, m !! id = None ∧ ∀ amount, reserve_capacity (Some m') id amount = (Some m', false)) closing.*1) ∧
  (close_due_channels l (Some m) now_ms scan close clock).1.2 = Some m.
Proof.
  split.
  - destruct (claim_slots_spec due m) as (m' & closing & busy & -> & [-> Hf Ho Hb Hp _]).
    exists (occupy closing.*1 m), closing, busy. split_and!; try done.
    rewrite Forall_forall in Hf |- *. intros id Hid. split; [by apply Hf|]. intros amount.
    unfold reserve_capacity. by rewrite bool_decide_true by by apply occupy_lookup.
  - unfold close_due_channels. destruct (close_delay l), scan as [states|]; try done.
    destruct (due_channels l now_ms states) as [l' due'].
    destruct (claim_slots_spec due' m) as (m' & closing & busy & -> & [-> Hf Ho _ _ _]).
    pose proof (close_finished_all clock close closing (Some (occupy closing.*1 m)) l') as E.
    destruct (foldl _ _ closing) as [cap l'']. cbn [fst snd] in *. rewrite E. by apply release_occupied.
Qed.

(** ** Rotation of watermark settlement *)
Lemma merge_sort_agrees (l k : list string) : l ≡ₚ k → merge_sort String.le l = merge_sort String.le k.
Proof.
  intros Hp. apply (Sorted_unique String.le); [apply (Sorted_merge_sort _)..|].
  by rewrite !(merge_sort_Permutation String.le).
Qed.

Lemma cycle_slice_elem all start cap i x :
  0 ≤ i < cap → all !! Z.to_nat ((start + i) mod zlen all) = Some x → x ∈ cycle_slice all start cap.
Proof. intros Hi Hx. apply list_elem_of_omap. exists i. split; [by apply elem_of_seqZ; lia|done]. Qed.

(** A slice shorter than the list visits no channel twice. *)
Lemma NoDup_omap_inj {A B} (f : A → option B) l :
  NoDup l → (∀ x y b, x ∈ l → y ∈ l → f x = Some b → f y = Some b → x = y) → NoDup (omap f l).
Proof.
  induction 1 as [|x l Hni Hnd IH]; intros Hinj; [constructor|]. cbn [omap list_omap].
  assert (NoDup (omap f l)) as Hl by (apply IH; intros y z b Hy Hz; apply Hinj; by right).
  destruct (f x) as [b|] eqn:E; [|done]. constructor; [|done].
  intros (y & Hy & Hb)%list_elem_of_omap. by rewrite (Hinj x y b) in Hni by (done || by constructor).
Qed.

Lemma cycle_slice_NoDup all start cap : NoDup all → cap ≤ zlen all → NoDup (cycle_slice all start cap).
Proof.
  intros Hnd Hcap. apply NoDup_omap_inj; [apply NoDup_seqZ|].
  intros x y b Hx%elem_of_seqZ Hy%elem_of_seqZ Hbx Hby.
  pose proof (NoDup_lookup _ _ _ _ Hnd Hbx Hby) as E. unfold zlen in *.
  assert ((start + x) mod Z.of_nat (length all) = (start + y) mod Z.of_nat (length all)) as Em.
  { apply Z2Nat.inj; [apply Z.mod_pos_bound; lia..|done]. }
  pose proof (Z.div_mod (start + x) (Z.of_nat (length all))). pose proof (Z.div_mod (start + y) (Z.of_nat (length all))).
  assert ((start + x) / Z.of_nat (length all) = (start + y) / Z.of_nat (length all)); nia.
Qed.

(** One cycle that is due: what it pushes, and the runloop after it. *)
Lemma push_cycle l m max instant active interval delta :
  settlement l = Some (interval, delta) → is_some_and (next_settlement l) (λ d, instant <? d) = false →
  let '(slice, cursor) := settlement_slice max (settlement_cursor l) active in
  let '(l', pushed) := push_due_watermarks l (Some m) max instant active in
  l' = with_settlement l (Some (instant + interval)) cursor ∧ NoDup pushed ∧ pushed ⊆ slice ∧
  ∀ id, id ∈ slice → m !! id = None → id ∈ pushed.
Proof.
  intros Hs Hdue. unfold push_due_watermarks. rewrite Hs. cbn [settlement_interval settlement_min_delta fmap option_fmap option_map fst snd].
  rewrite Hdue. destruct (settlement_slice max (settlement_cursor l) active) as [slice cursor].
  destruct (claim_slots_spec (map (λ id, (id, None)) slice) m) as (m' & closing & busy & -> & [-> Hf Ho Hb Hp _]).
  assert ((map (λ id : string, (id, @None ChannelLifecycle)) slice).*1 = slice) as E.
  { rewrite <-list_fmap_compose. apply list_fmap_id. }
  rewrite E in Hp. split_and!; [done|done| |].
  - intros id Hid. rewrite Hp. set_solver.
  - intros id Hid Hfree. rewrite Hp in Hid. apply elem_of_app in Hid as [?|Hid]; [done|].
    rewrite Forall_forall in Hb. destruct (decide (id ∈ closing.*1)) as [?|Hni]; [done|].
    specialize (Hb _ Hid). rewrite occupy_lookup_ne in Hb by done. rewrite Hfree in Hb. by destruct Hb.
Qed.

(** Any number of cycles, each with its instant, the slots held and the
    active channels in the order the map lists them. *)
Definition cycle : Type := Z * gmap string Z * list string.
Fixpoint push_cycles (max_per_cycle : option Z) (l : Runloop) (cycles : list cycle) : list (list string) :=
  match cycles with
  | [] => []
  | (instant, m, active) :: cycles =>
      let '(l, pushed) := push_due_watermarks l (Some m) max_per_cycle instant active in
      pushed :: push_cycles max_per_cycle l cycles
  end.

(** Cycles no closer than the settlement interval. *)
Fixpoint paced (interval : Z) (next : option Z) (cycles : list cycle) : Prop :=
  match cycles with
  | [] => True
  | (instant, _, _) :: cycles => (∀ d, next = Some d → d ≤ instant) ∧ paced interval (Some (instant + interval)) cycles
  end.

Lemma due_when_paced next instant : (∀ d, next = Some d → d ≤ instant) → is_some_and next (λ d, instant <? d) = false.
Proof. destruct next as [d|]; [|done]. intros Hd. cbn. apply Z.ltb_ge. by apply Hd. Qed.

(** Where the cursor points after a cycle that does not reach [p]. *)
Lemma cursor_advances n cap c p :
  0 < n → 0 ≤ cap → cap ≤ (p - c) mod n → (p - (c mod n + cap) mod n) mod n = (p - c) mod n - cap.
Proof.
  intros Hn Hcap Hge. rewrite Zminus_mod_idemp_r. replace (p - (c mod n + cap)) with (p - cap - c mod n) by lia.
  rewrite Zminus_mod_idemp_r. replace (p - cap - c) with (p - c - cap) by lia.
  rewrite <-Zminus_mod_idemp_l. apply Z.mod_small. pose proof (Z.mod_pos_bound (p - c) n). lia.
Qed.

Lemma rotation_reaches cap ids p id interval delta cycles l :
  0 < cap < zlen ids → merge_sort String.le ids !! Z.to_nat p = Some id → 0 ≤ p →
  settlement l = Some (interval, delta) → paced interval (next_settlement l) cycles →
  Forall (λ c, c.2 ≡ₚ ids ∧ c.1.2 !! id = None) cycles →
  (p - settlement_cursor l) mod zlen ids < zlen cycles * cap →
  Exists (λ pushed, id ∈ pushed) (push_cycles (Some cap) l cycles).
Proof.
  intros Hcap Hp Hp0. revert l. induction cycles as [|[[instant m] active] cycles IH]; intros l Hs Hpace Hall Hreach.
  { pose proof (Z.mod_pos_bound (p - settlement_cursor l) (zlen ids)). unfold zlen in *. simpl in *. lia. }
  destruct Hpace as [Hdue Hpace]. apply Forall_cons in Hall as [[Hact Hfree] Hall]. cbn [fst snd] in *.
  assert (zlen active = zlen ids) as Hlen by (unfold zlen; by rewrite Hact).
  assert (zlen (merge_sort String.le ids) = zlen ids) as Hlen' by (unfold zlen; by rewrite (merge_sort_Permutation String.le)).
  pose proof (push_cycle l m (Some cap) instant active _ _ Hs (due_when_paced _ _ Hdue)) as Hstep.
  cbn [push_cycles]. cbn [settlement_slice] in Hstep.
  rewrite Hlen, (proj2 (Z.ltb_lt cap (zlen ids))), (merge_sort_agrees _ _ Hact), Hlen' in Hstep by lia.
  destruct (push_due_watermarks _ _ _ _ _) as [l' pushed]. destruct Hstep as (-> & _ & _ & Hpush).
  apply Exists_cons. set (d := (p - settlement_cursor l) mod zlen ids) in *.
  pose proof (Z.mod_pos_bound (p - settlement_cursor l) (zlen ids)).
  destruct (decide (d < cap)) as [Hlt|Hge].
  - left. apply Hpush; [|done]. apply (cycle_slice_elem _ _ _ d); [lia|]. rewrite Hlen'. unfold d.
    rewrite <-Zplus_mod, Zplus_minus, Z.mod_small; [done|].
    apply lookup_lt_Some in Hp. unfold zlen in *. lia.
  - right. apply IH; [done|done|done|]. cbn [with_settlement settlement_cursor].
    rewrite cursor_advances by (fold d; lia). fold d. unfold zlen in *. cbn [length] in Hreach. lia.
Qed.

Lemma length_omap_le {A B} (f : A → option B) l : (length (omap f l) ≤ length l)%nat.
Proof. unfold omap. induction l as [|x l IH]; [done|]. cbn [list_omap]. destruct (f x); cbn [length]; lia. Qed.

Lemma settlement_slice_bounded cap cursor active : 0 ≤ cap → zlen (settlement_slice (Some cap) cursor active).1 ≤ cap.
Proof.
  intros Hcap. cbn [settlement_slice]. destruct (Z.ltb_spec cap (zlen active)); [|done]. cbn [fst].
  unfold cycle_slice, zlen. etransitivity; [apply inj_le, length_omap_le|]. rewrite length_seqZ. lia.
Qed.

Lemma cycles_bounded cap interval delta cycles l :
  0 ≤ cap → settlement l = Some (interval, delta) → paced interval (next_settlement l) cycles →
  Forall (λ pushed, NoDup pushed ∧ zlen pushed ≤ cap) (push_cycles (Some cap) l cycles).
Proof.
  intros Hcap. revert l. induction cycles as [|[[instant m] active] cycles IH]; intros l Hs Hpace; [constructor|].
  destruct Hpace as [Hdue Hpace].
  pose proof (push_cycle l m (Some cap) instant active _ _ Hs (due_when_paced _ _ Hdue)) as Hstep.
  pose proof (settlement_slice_bounded cap (settlement_cursor l) active Hcap) as Hb.
  cbn [push_cycles]. destruct (settlement_slice _ _ _) as [slice cursor], (push_due_watermarks _ _ _ _ _) as [l' pushed].
  destruct Hstep as (-> & Hnd & Hsub & _). constructor; [|by apply IH]. split; [done|]. cbn [fst] in Hb.
  assert (length pushed ≤ length slice)%nat by (apply submseteq_length, NoDup_submseteq; [done|by intros x; apply Hsub]).
  unfold zlen in *. lia.
Qed.

(** With a cap on the settlements of one cycle, the rotation leaves no
    channel behind: while the same channels are active, each one whose slot is
    free is pushed within [ceil (active / cap)] cycles, however the map lists
    them, and no cycle pushes more than the cap or a channel twice. *)
Theorem rotation_settles_every_channel cap ids id interval delta cycles l :
  0 < cap → id ∈ ids → settlement l = Some (interval, delta) → paced interval (next_settlement l) cycles →
  Forall (λ c, c.2 ≡ₚ ids ∧ c.1.2 !! id = None) cycles → zlen ids ≤ zlen cycles * cap →
  Exists (λ pushed, id ∈ pushed) (push_cycles (Some cap) l cycles) ∧
  Forall (λ pushed, NoDup pushed ∧ zlen pushed ≤ cap) (push_cycles (Some cap) l cycles).
Proof.
  intros Hcap Hid Hs Hpace Hall Hn. split; [|eapply cycles_bounded; [lia|done..]].
  destruct (decide (cap < zlen ids)) as [Hlt|Hge].
  - assert (id ∈ merge_sort String.le ids) as [p Hp]%list_elem_of_lookup by by rewrite (merge_sort_Permutation String.le).
    apply (rotation_reaches cap ids (Z.of_nat p) id interval delta); try done; [by rewrite Nat2Z.id|lia|].
    pose proof (Z.mod_pos_bound (Z.of_nat p - settlement_cursor l) (zlen ids)). lia.
  - destruct cycles as [|[[instant m] active] cycles].
    { apply list_elem_of_lookup in Hid as [i Hi]. apply lookup_lt_Some in Hi. unfold zlen in *. simpl in *. lia. }
    destruct Hpace as [Hdue _]. apply Forall_cons in Hall as [[Hact Hfree] _]. cbn [fst snd] in *.
    pose proof (push_cycle l m (Some cap) instant active _ _ Hs (due_when_paced _ _ Hdue)) as Hstep.
    assert (zlen active = zlen ids) as Hlen by (unfold zlen; by rewrite Hact).
    cbn [push_cycles]. cbn [settlement_slice] in Hstep. rewrite (proj2 (Z.ltb_ge _ _)) in Hstep by lia.
    destruct (push_due_watermarks _ _ _ _ _) as [l' pushed]. destruct Hstep as (_ & _ & _ & Hpush).
    apply Exists_cons_hd, Hpush; [by rewrite Hact|done].
Qed.

(** ** Retries and wake-ups *)

(** [k] closes of one channel fail in a row, at the given times. *)
Definition failures (cap : option Reserved) (l : Runloop) (id : string) (times : list (Z * Error)) : Runloop :=
  foldl (λ l '(now_ms, e), (close_finished cap l now_ms id (Err e)).2) l times.

(** The pause after the [k]-th failure in a row, [k] from 1. *)
Definition backoff_after (k : nat) : Z := Z.min (secs 60 * 2 ^ (Z.of_nat k - 1)) (secs 3600).

Lemma backoff_after_step k : (1 ≤ k)%nat → Z.min (duration_mul (backoff_after k) 2) MAX_CLOSE_RETRY_BACKOFF = backoff_after (S k).
Proof.
  intros Hk. unfold backoff_after, duration_mul, MAX_CLOSE_RETRY_BACKOFF, secs, DURATION_MAX, u64_max.
  replace (Z.of_nat (S k) - 1) with (Z.succ (Z.of_nat k - 1)) by lia. rewrite Z.pow_succ_r by lia.
  assert (0 < 2 ^ (Z.of_nat k - 1)) by (apply Z.pow_pos_nonneg; lia). lia.
Qed.

Lemma failures_snoc cap l id times now_ms e :
  failures cap l id (times ++ [(now_ms, e)]) = (close_finished cap (failures cap l id times) now_ms id (Err e)).2.
Proof. unfold failures. by rewrite foldl_app. Qed.

Lemma failures_backoff cap l id times now_ms e :
  close_retries l !! id = None →
  close_retries (failures cap l id (times ++ [(now_ms, e)])) !! id =
    let b := backoff_after (S (length times)) in
    Some {| next_at_ms := saturating_add 64 now_ms (duration_millis b); backoff := b |}.
Proof.
  intros Hnone. revert now_ms e. induction times as [|[t e'] times IH] using rev_ind; intros now_ms e.
  - cbn -[duration_millis saturating_add]. rewrite Hnone. cbn [with_retries close_retries]. by rewrite lookup_insert_eq.
  - rewrite failures_snoc. cbn [close_finished snd with_retries close_retries]. rewrite IH. cbn [backoff].
    rewrite lookup_insert_eq, backoff_after_step, length_app, Nat.add_1_r by lia. done.
Qed.

Lemma failures_owner cap l id times : owner (failures cap l id times) = owner l.
Proof. induction times as [|[t e] times IH] using rev_ind; [done|]. by rewrite failures_snoc. Qed.

Lemma backoff_millis n : duration_millis (backoff_after (S n)) = Z.min (60000 * 2 ^ Z.of_nat n) 3600000.
Proof.
  unfold duration_millis, backoff_after, secs. replace (Z.of_nat (S n) - 1) with (Z.of_nat n) by lia.
  assert (0 < 2 ^ Z.of_nat n) by (apply Z.pow_pos_nonneg; lia). set (x := 2 ^ Z.of_nat n) in *.
  assert (Z.min (60 * 1000000000 * x) (3600 * 1000000000) / 1000000 = Z.min (60000 * x) 3600000) as ->.
  { replace (Z.min _ (3600 * 1000000000)) with (Z.min (60000 * x) 3600000 * 1000000) by lia. by apply Z.div_mul. }
  by rewrite try_from_in by (unfold in_range; lia).
Qed.

(** Failed closes back off exponentially and never give up or spin: after
    the [k]-th failure in a row of a channel without a pending retry the next
    attempt is due [60 s * 2^(k-1)] later, capped at an hour, and not a
    millisecond earlier, provided the lease is still the runloop's own; a
    close that succeeds forgets the retry. *)
Theorem close_retries_back_off cap l id times now_ms e s requested_at later :
  is_u64 (now_ms + 3600000) → close_retries l !! id = None → state_channel_id s = id →
  close_requested_at s = Some requested_at → is_some_and (lifecycle s) (owns_lifecycle l) = true →
  let l' := failures cap l id (times ++ [(now_ms, e)]) in
  let pause := Z.min (60000 * 2 ^ zlen times) 3600000 in
  (close_due l' later s = true ↔ now_ms + pause ≤ later) ∧
  (∀ r, close_retries (close_finished cap l' later id (Ok r)).2 !! id = None).
Proof.
  intros [_ Hfit] Hnone <- Hreq Howns l' pause.
  assert (∀ lc, owns_lifecycle l' lc = owns_lifecycle l lc) as Hsame.
  { intros lc. unfold owns_lifecycle, l'. by rewrite failures_owner. }
  split.
  - unfold close_due. rewrite Hreq. unfold l' at 2. rewrite failures_backoff by done. cbn [next_at_ms].
    destruct (lifecycle s) as [lc|]; [|done]. cbn [is_some_and] in *. rewrite Hsame, Howns, backoff_millis.
    cbn [andb]. rewrite Z.leb_le. unfold saturating_add, pause, zlen. lia.
  - intros r. cbn [close_finished snd with_retries close_retries]. apply lookup_delete_eq.
Qed.

Lemma duration_millis_bound d : 1000000 ≤ d → 1 ≤ duration_millis d ∧ duration_millis d * 1000000 ≤ d.
Proof.
  intros Hd. pose proof (Z.div_le_lower_bound d 1000000 1). pose proof (Z.mul_div_le d 1000000). unfold duration_millis.
  destruct (try_from 64 (d / 1000000)) as [x|] eqn:E; cbn [default from_option id].
  - apply try_from_Some in E as [-> _]. lia.
  - apply try_from_None in E. unfold in_range, u64_max in *. lia.
Qed.

(** The least multiple of the interval that is not before the timestamp. *)
Lemma round_up_spec t d :
  0 < d → 0 ≤ t → t + d ≤ 2 ^ 64 →
  round_up_timestamp t d mod d = 0 ∧ t ≤ round_up_timestamp t d < t + d.
Proof.
  intros Hd Ht Hfit. unfold round_up_timestamp. rewrite (proj2 (Z.eqb_neq d 0)) by lia.
  pose proof (Z.mod_pos_bound t d Hd). destruct (Z.eqb_spec (t mod d) 0) as [|Hne]; [lia|].
  unfold saturating_add. rewrite Z.min_r by lia. split; [|lia].
  replace (t + (d - t mod d)) with ((t / d + 1) * d) by (pose proof (Z.div_mod t d); lia). by apply Z.mod_mul; lia.
Qed.

(** The close pass wakes up on the boundaries of its batch interval: every
    wake-up is in the future and at most one interval away, so the loop makes
    progress and never spins, and it lands on a multiple of the interval. *)
Theorem wakeups_make_progress now_ms interval :
  is_u64 now_ms → 1000000 ≤ interval → is_u64 (now_ms + duration_millis interval) →
  let wait := duration_until_next_boundary now_ms interval in
  0 < wait ≤ interval ∧ (now_ms * 1000000 + wait) mod (duration_millis interval * 1000000) = 0.
Proof.
  intros [Hnow _] Hint [_ Hfit] wait. destruct (duration_millis_bound interval Hint) as [Hd Hle].
  unfold wait, duration_until_next_boundary. set (d := duration_millis interval) in *.
  unfold saturating_add. rewrite Z.min_r by lia. destruct (round_up_spec (now_ms + 1) d) as [Hm Hb]; [lia..|].
  unfold saturating_sub. set (next := round_up_timestamp (now_ms + 1) d) in *. rewrite Z.max_r by lia. split; [lia|].
  replace (now_ms * 1000000 + (next - now_ms) * 1000000) with (next * 1000000) by lia.
  rewrite Z.mul_mod_distr_r by lia. by rewrite Hm.
Qed.

(** ** Two gateways on one store *)
Module SampleLifecycle.

Definition gateway : Runloop := configure (runloop_new "gw-1") (Some (secs 300)) (secs 60) (settlement_every (secs 10) 5) Embedded 0.
Definition other : Runloop := configure (runloop_new "gw:2") (Some (secs 300)) (secs 60) (settlement_every (secs 10) 5) Embedded 0.

Definition lease : ChannelLifecycle := {| lc_owner := leased_owner gateway 1000000; close_after := 1000000 |}.
Definition record : ChannelState := {|
  state_channel_id := "chan-a"; deposit := 100; cumulative := 10; sealed := false; close_requested_at := None;
  open_slot := None; idle_timeout_seconds := Some 60; processed_uses := []; pending_setup := None;
  lifecycle := Some lease; extra := ∅ |}.
Definition answers : CloseAnswers := {|
  tombstoned_before := false; tombstoned_after := false; seal_settled := Ok 10; submitted := Ok None;
  requested_secs := 1001; sealed_secs := 1002 |}.


Lemma rearmed_channel_stays_open_witness :
  operator_close_channel (λ _, Ok tt) (λ e, "internal store error: " +:+ e) (λ s, ok_or s "gone") answers
    (Some {| lc_owner := leased_owner gateway 1000000; close_after := 900000 |}) (Some record)
  = (Some record, Ok Rearmed).
Proof.
  apply (rearmed_channel_stays_open (λ _, Ok tt) _ _ answers _ record); try reflexivity.
  - intros e. exists "internal store error: ", "". by rewrite string_app_nil_r.
  - intros E. by apply (f_equal (option_map close_after)) in E.
Defined.

Definition cycles : list cycle :=
  [ (secs 10, ∅, ["chan-c"; "chan-a"; "chan-b"]); (secs 20, ∅, ["chan-b"; "chan-c"; "chan-a"]) ].
Lemma rotation_settles_every_channel_witness :
  push_cycles (Some 2) gateway cycles = [ ["chan-a"; "chan-b"]; ["chan-c"; "chan-a"] ] ∧
  Exists (λ pushed, "chan-c" ∈ pushed) (push_cycles (Some 2) gateway cycles).
Proof.
  split; [by vm_compute|].
  apply (rotation_settles_every_channel 2 ["chan-a"; "chan-b"; "chan-c"] "chan-c" (secs 10) 5 cycles gateway); try done.
  - apply (bool_decide_unpack _). by vm_compute.
  - cbn. split_and!; try done; intros d [= <-]; vm_compute; done.
  - apply (bool_decide_unpack _). by vm_compute.
Defined.

Definition claimed : ChannelState := with_close_requested record (Some 1000).
Lemma orphaned_close_is_never_retried_witness :
  lease_expiry gateway 1000000 < 9000000000 ∧ (due_channels other 9000000000 [claimed]).2 = [] ∧
  update_channel (reconcile_update other 9000000000 true) (Some claimed) = (Some claimed, Ok claimed).
Proof.
  split; [by vm_compute|]. split; [by vm_compute|].
  apply (orphaned_close_is_never_retried claimed 1000 other); by vm_compute.
Defined.

Lemma close_retries_back_off_witness :
  let l := failures None gateway "chan-a" ([(1000000, Mpp "rpc"); (1100000, Mpp "rpc")] ++ [(1300000, Mpp "rpc")]) in
  close_due l 1539999 claimed = false ∧ close_due l 1540000 claimed = true.
Proof.
  intros l.
  destruct (close_retries_back_off None gateway "chan-a" [(1000000, Mpp "rpc"); (1100000, Mpp "rpc")] 1300000 (Mpp "rpc")
    claimed 1000 1540000) as [Hdue _]; [by vm_compute|done..|].
  split; [by vm_compute|]. apply Hdue. by vm_compute.
Defined.

Lemma wakeups_make_progress_witness : duration_until_next_boundary 1000001 (secs 60) = 19999000000 ∧ 0 < 19999000000 ≤ secs 60.
Proof.
  split; [by vm_compute|].
  apply (wakeups_make_progress 1000001 (secs 60)); by vm_compute.
Defined.
End SampleLifecycle.
