(* ===== verification/Gate.v ===== *)
(** * Gate: the payment gate, [core/src/server/gate.rs]

    [PaymentGate::evaluate] decides what happens to a request: answered by the
    gate, forwarded after a payment, passed through, or kept local.  The gate
    is written here as a program that calls its payment backends ([call]) and
    goes on with their answers; running it against an arbitrary backend gives
    the decision and the calls that were made, so the theorems speak about what
    was verified and settled before a request was let through. *)
From S2P Require Import Prelude F64 MeteringTypes Text Affixes Decimals Accounting Pricing Landing PushManifest UsageSettlement.
From S2P Require Import Routes ChannelState DeploymentPolicy DeploymentResolver SessionCharge ChargeTerms ApiSpecs.
#[local] Open Scope string_scope.
#[local] Open Scope list_scope.
#[local] Open Scope Z_scope.

(** [VerificationError], as its text. *)
Record VerificationError := { ve_message : string; ve_retryable : bool }.

(** ** Backends

    The types and the pure functions of PayKit and of the HTTP library that the
    gate uses. *)
Class GateKit := {
  MppServer : Type;
  mpp_currency : MppServer → string;
  mpp_network : MppServer → string;
  mpp_recipient : MppServer → string;
  mpp_rpc_url : MppServer → string;
  mpp_decimals : MppServer → Z;
  SessionMpp : Type;
  session_currency : SessionMpp → string;
  session_network : SessionMpp → string;
  session_decimals : SessionMpp → Z;
  client_signs_vouchers : SessionMpp → bool;
  deployment_template_ok : SessionMpp → bool;
  Credential : Type;
  cred_intent : Credential → string;
  cred_method : Credential → string;
  parse_authorization : string → result string Credential;
  session_request_currency : Credential → option string;
  ChargeRequest : Type;
  cr_currency : ChargeRequest → string;
  cr_external_id : ChargeRequest → option string;
  decode_charge : Credential → result string ChargeRequest;
  PaymentChallenge : Type;
  challenge_request : PaymentChallenge → result string ChargeRequest;
  format_www_authenticate_many : list PaymentChallenge → result string (list string);
  challenge_to_html : PaymentChallenge → string → string → string;
  Receipt : Type;
  receipt_reference : Receipt → string;
  format_receipt : Receipt → result string string;
  verification_error : string → VerificationError;
  VerifiedExact : Type;
  VerifiedUptoOpen : Type;
  open_max_amount : VerifiedUptoOpen → Z;
  BatchOutcome : Type;
  outcome_serve : BatchOutcome → bool;
  BatchSettlementResponse : Type;
  batch_settlement_header : BatchSettlementResponse → result string (string * string);
  UptoSettlementResponse : Type;
  upto_success : UptoSettlementResponse → bool;
  upto_error_reason : UptoSettlementResponse → option string;
  upto_transaction : UptoSettlementResponse → string;
  upto_settlement_header : UptoSettlementResponse → result string (string * string);
  exact_envelope_memo : string → option (option (option string));
  resolve_stablecoin_mint : string → option string → option string;
  validate_credit_providers : list string → result string unit;
  default_rpc_url : string → string;
  accepts_html : string → bool;
  SERVICE_WORKER_PARAM : string;
  service_worker_js : string;
  MAX_MEMO_BYTES : nat;
  EXACT_MAX_MEMO_BYTES : nat;
  EXACT_SCHEME : string;
  UPTO_SCHEME : string;
  BATCH_SETTLEMENT_SCHEME : string;
  PAYMENT_RECEIPT_HEADER : string;
  PAYMENT_RESPONSE_HEADER : string;
  solana_mainnet : string;
  solana_devnet : string;
  solana_testnet : string;
  header_name_ok : string → bool;
  header_value_ok : string → bool;
  reconstructed_query : string → option string → option string;
  base64_decode : string → option (list Z);
  parse_json : list Z → result string json;
  blake3 : list Z → list Z;
  f64_text : f64 → string;
  policy_text : DurableDeploymentPolicy → string
}.

(** ** Routes of a request *)
Definition resolve_api (apis : list ApiSpec) (host : option string) : option ApiSpec :=
  match find (λ api, bool_decide (api_subdomain api = subdomain_of host)) apis with
  | Some api => Some api
  | None => match apis with [api] => Some api | _ => None end
  end.

(** [UpstreamRoute]: the API, method and path admitted, and the place of the
    endpoint that was billed. *)
Record UpstreamRoute := {
  route_subdomain : string;
  route_method : string;
  route_path : string;
  route_endpoint : option nat
}.
Definition route_new (api : ApiSpec) (req : GateRequest) (endpoint : option (nat * Endpoint)) : UpstreamRoute := {|
  route_subdomain := api_subdomain api; route_method := rq_method req; route_path := rq_path req;
  route_endpoint := fst <$> endpoint |}.
Definition endpoint_of (r : UpstreamRoute) (api : ApiSpec) : option Endpoint := i ← route_endpoint r; api_endpoints api !! i.
Definition routing_of (r : UpstreamRoute) (api : ApiSpec) : RoutingConfig :=
  default (api_routing api) (endpoint_of r api ≫= ep_routing).
Definition admits (r : UpstreamRoute) (api : ApiSpec) (method path : string) : bool :=
  bool_decide (route_subdomain r = api_subdomain api) && bool_decide (route_method r = method) &&
  bool_decide (default path (strip_prefix "/" path) = route_path r).

(** ** Decisions *)
Inductive Body := BodyJson (v : json) | BodyText (s : string).
Record GateResponse := { gr_status : Z; gr_headers : list (string * string); gr_body : Body }.
Definition handler_completed (status : Z) : bool := (200 <=? status) && (status <? 400).

Section data.
Context `{GateKit}.

(** [HeaderValue::from_str] refuses some texts, which are then left out. *)
Definition header (name value : string) : list (string * string) := if header_value_ok value then [(name, value)] else [].
Definition named_header (h : string * string) : list (string * string) :=
  if header_name_ok h.1 && header_value_ok h.2 then [h] else [].
Definition json_response (status : Z) (v : json) : GateResponse :=
  {| gr_status := status; gr_headers := header "content-type" "application/json"; gr_body := BodyJson v |}.
Definition with_headers (r : GateResponse) (hs : list (string * string)) : GateResponse :=
  {| gr_status := gr_status r; gr_headers := gr_headers r ++ hs; gr_body := gr_body r |}.

Record ReceiptAnnotation := { ra_headers : list (string * string); ra_reference : option string }.

Inductive SessionSettlementPlan := MeteredPlan (plan : UptoSettlementPlan) | FixedPlan (base_units : Z).
Record SessionForward := {
  sf_handle : SessionMpp;
  sf_channel_id : string;
  sf_committed_base_units : Z;
  sf_settlement : option SessionSettlementPlan;
  sf_available_base_units : Z;
  sf_authorized_base_units : Z;
  sf_verified_payer : option string;
  sf_request_body_bytes : option Z;
  sf_payment_policy : option string;
  sf_reservation : option DelegatedCapacityLease;
  sf_delegated : option DelegatedUse
}.
Record UptoForward := { uf_open : VerifiedUptoOpen; uf_settle_amount : Z; uf_settlement : option UptoSettlementPlan; uf_ceiling_usd : f64 }.
Record BatchForward := { bf_outcome : BatchOutcome }.
Record Forwarded := {
  fw_route : UpstreamRoute;
  fw_session : option SessionForward;
  fw_receipt : option ReceiptAnnotation;
  fw_upto : option UptoForward;
  fw_batch : option BatchForward
}.
Inductive GateDecision :=
  | Respond (r : GateResponse)
  | Forward (f : Forwarded)
  | Passthrough (r : UpstreamRoute)
  | Local.

Inductive SessionOutcome :=
  | Active (state : ChannelState) (payer : string) (signature : option string) (delegated : option DelegatedUse)
  | Voucher (channel_id : string) (cumulative : Z) (verified_payer : option string)
  | SessionClosed (signature : option string).
Inductive BatchAccess :=
  | Replay (settlement : BatchSettlementResponse)
  | InProgress
  | Resume (outcome : BatchOutcome)
  | Serve (outcome : BatchOutcome)
  | Control (outcome : BatchOutcome).
Inductive LegacyAuthentication := NotSubscribed (message : string) (retryable : bool) | Live.
Record ChargeOptions := {
  co_description : option string;
  co_route : option string;
  co_external_id : option string;
  co_splits : list ChargeTerms.Split
}.
Record OperatorDefaults := {
  od_puller : string;
  od_recipient : string;
  od_network : string;
  od_rpc_url : string;
  od_challenge_binding_secret : option string;
  od_realm : option string;
  od_fee_payer : bool
}.

(** ** The calls to the backends, with their answers *)
Inductive call : Type → Type :=
  | Random : call (list Z)
  | IssueCharge (mpp : MppServer) (amount : string) (options : ChargeOptions) : call (result string PaymentChallenge)
  | VerifyCharge (mpp : MppServer) (credential : Credential) (expected : ChargeRequest) (route : string) :
      call (result VerificationError Receipt)
  | ExactChallenge (amount : string) (memo : option string) : call (result string (string * string))
  | ProcessExact (header amount : string) (memo : option string) : call (result string VerifiedExact)
  | SettleExact (verified : VerifiedExact) : call (result string string)
  | UptoChallenge (amount : string) (route : string) : call (result string (string * string))
  | VerifyUpto (header amount route : string) : call (result string VerifiedUptoOpen)
  | SettleUpto (open : VerifiedUptoOpen) (amount : Z) : call (result string UptoSettlementResponse)
  | BatchChallenge (amount : string) (resource : option string) : call (result string (string * string))
  | ReserveBatch (header amount : string) : call (result string BatchAccess)
  | BatchFailure (header amount error : string) (resource : option string) : call (result string (string * string))
  | MarkHandlerSucceeded (outcome : BatchOutcome) : call (result string unit)
  | FinishCommit (outcome : BatchOutcome) : call (result string BatchSettlementResponse)
  | SettleBatchPayment (outcome : BatchOutcome) : call (result string BatchSettlementResponse)
  | ReleaseBatch (outcome : BatchOutcome) : call (result string unit)
  | SessionChallenge (session : SessionMpp) (amount : option Z) : call (result string string)
  | ProcessSession (session : SessionMpp) (credential : Credential) (route_amount : option Z) : call (result string SessionOutcome)
  | ReserveCapacity (session : SessionMpp) (channel_id : string) (amount : Z) : call (result string (option DelegatedCapacityLease))
  | TouchChannel (session : SessionMpp) (channel_id : string) : call (result string unit)
  | AuthorizeUsage (session : SessionMpp) (use : DelegatedUse) (amount : Z) (lease : option DelegatedCapacityLease) :
      call (result string DelegatedUsageAuthorization)
  | ResolvePolicy (hostname path : string) : call (pres ResolvedDeploymentPolicy)
  | DeploymentSession (template : SessionMpp) (binding : DeploymentSessionBinding) : call (result string SessionMpp)
  | PrepareDeployment (session : SessionMpp) : call (result string unit)
  | SubscriptionChallenge (spec : SubscriptionEndpoint) (defaults : OperatorDefaults) (description : option string) :
      call (result string (result string string))
  | LiveSubscriber (spec : SubscriptionEndpoint) (defaults : OperatorDefaults) (subdomain canonical : string)
      (description : option string) (credential : Credential) : call (result string LegacyAuthentication)
  | SubscriptionHandler (spec : SubscriptionEndpoint) (defaults : OperatorDefaults) (description : option string) : call (result string unit)
  | VerifySubscription (spec : SubscriptionEndpoint) (credential : Credential) : call (result VerificationError Receipt).

(** ** Programs *)
Inductive gate (A : Type) : Type :=
  | Ret (a : A)
  | Call (B : Type) (c : call B) (k : B → gate A).
Arguments Ret {A} a.
Arguments Call {A B} c k.
Fixpoint gate_bind {A B} (p : gate A) (k : A → gate B) : gate B :=
  match p with Ret a => k a | Call c k' => Call c (λ b, gate_bind (k' b) k) end.
Definition ask {B} (c : call B) : gate B := Call c (λ b, Ret b).

(** One answered call; a run against a backend that may answer each call by
    everything that was asked before. *)
Record event := Event { ev_type : Type; ev_call : call ev_type; ev_answer : ev_type }.
Arguments Event {_} _ _.
Definition backend : Type := list event → ∀ B, call B → B.
Fixpoint run {A} (o : backend) (p : gate A) (t : list event) : list event * A :=
  match p with
  | Ret a => (t, a)
  | Call c k => let b := o t _ c in run o (k b) (t ++ [Event c b])
  end.
End data.
Arguments Ret {_ _} a.
Arguments Call {_ _ _} c k.
Arguments Event {_ _} _ _.
#[global] Instance gate_mret `{GateKit} : MRet gate := λ A a, Ret a.
#[global] Instance gate_mbind `{GateKit} : MBind gate := λ A B k p, gate_bind p k.

Section gate.
Context `{GateKit}.
(** The process environment, the Unicode lower case, and base58 keys. *)
Context (env_var : string → option string) (to_lowercase : string → string).
Context (pubkey_from_str : string → result string Pubkey) (pubkey_text : Pubkey → string).

(** ** Helpers *)
Definition body_props (req : GateRequest) : RequestProperties := {|
  input_tokens := None; input_characters := None; context_length := None; body_size := rq_content_length req;
  duration_seconds := None; batch_size := None; image_pixels := None |}.
Definition fixed_price_message (e : MeterDirection * BillingUnit) : string :=
  direction_debug e.1 +:+ " " +:+ unit_debug e.2 +:+ " usage is metered from the response and cannot be charged per call".
Abbreviation fixed_price := (resolve_fixed_price (S := InMemoryStore)).
Abbreviation quoted_price := (λ m props hint, resolve_price (S := InMemoryStore) m props hint None).

(** [fixed_charge_amount]: the amount of a per-call scheme, or a 500. *)
Definition fixed_charge_amount (meter : Metering) (props : RequestProperties) (variant : option string) : result GateResponse string :=
  match fixed_price meter props variant with
  | Ok price => Ok (charge_amount_from_price price)
  | Err e => Err (json_response 500 (JObj [("error", JStr "payment_configuration_error"); ("message", JStr (fixed_price_message e))]))
  end.

Definition same_currency (configured candidate network : string) : bool :=
  if bool_decide (configured = candidate) then true
  else match resolve_stablecoin_mint configured (Some network), resolve_stablecoin_mint candidate (Some network) with
       | Some a, Some b => bool_decide (a = b)
       | _, _ => false
       end.
Definition mpp_accepts_currency (mpp : MppServer) (currency : string) : bool := same_currency (mpp_currency mpp) currency (mpp_network mpp).
Definition session_accepts_currency (s : SessionMpp) (currency : string) : bool :=
  same_currency (session_currency s) currency (session_network s).
Definition session_unit_amount (price : option ResolvedPrice) (s : SessionMpp) : option Z :=
  (λ price, price_unit_base_amount price (session_decimals s)) <$> price.

(** [explorer.rs]: the receipt page of a transaction or of an account. *)
Definition network_query (network : string) : option (option string) :=
  if bool_decide (network ∈ ["mainnet"; "mainnet-beta"; "solana"; solana_mainnet]) then Some None
  else if bool_decide (network ∈ ["devnet"; "solana-devnet"; solana_devnet]) then Some (Some "devnet")
  else if bool_decide (network ∈ ["testnet"; "solana-testnet"; solana_testnet]) then Some (Some "testnet")
  else if bool_decide (network ∈ ["localnet"; "surfnet"; "sandbox"; "local"; "solana-localnet"]) then Some (Some "sandbox")
  else None.
Definition tx_url (network signature : string) : option string :=
  if bool_decide (signature = "") then None
  else slug ← network_query network;
       Some ("https://pay.sh/receipt/" +:+ signature +:+ match slug with Some slug => "?network=" +:+ slug | None => "" end).

Definition readable_verification_message (error : VerificationError) : string :=
  let message := ve_message error in
  if str_contains message "Fee payer cannot authorize the SPL payment transfer" then
    "Payment used the same account for the server and client. Restart the demo server, then retry the request."
  else if str_contains message "Fee payer token account cannot fund the SPL payment transfer" then
    "Payment used the server account instead of the client account. Restart the demo server, then retry the request."
  else if str_contains message "ATA creation owner is not authorized by the challenge" then
    "Payment tried to create a token account this charge did not allow."
  else message.

Definition variant_hint_from_path (path : string) : option string := extract_variant_hint path.

(** [x402_payment_scheme]: the scheme a payment header names. *)
Definition x402_payment_scheme (header : string) : option string :=
  decoded ← base64_decode (trim header);
  payload ← match parse_json decoded with Ok v => Some v | Err _ => None end;
  scheme ← match json_get payload "accepted" ≫= λ a, json_get a "scheme" with Some s => Some s | None => json_get payload "scheme" end;
  json_str scheme.

(** [x402_exact_payment_memo] and [mpp_charge_payment_external_id]: the memo
    the payment carries, once it names this endpoint's resource. *)
Definition x402_exact_payment_memo (pay_header : string) (resource : option string) : result string (option string) :=
  match trimmed resource with
  | None => Ok None
  | Some resource =>
      match exact_envelope_memo pay_header with
      | None | Some None => Ok None
      | Some (Some None) => Err "x402 exact payment is missing the endpoint resource memo"
      | Some (Some (Some memo)) =>
          if resource_memo_matches blake3 memo resource EXACT_MAX_MEMO_BYTES then Ok (Some memo)
          else Err "x402 exact payment memo does not match endpoint resource"
      end
  end.
Definition mpp_charge_payment_external_id (credential : Credential) (resource : option string) : result string (option string) :=
  match trimmed resource with
  | None => Ok None
  | Some resource =>
      request ← map_err (λ e, "MPP charge credential request decode failed: " +:+ e) (decode_charge credential);
      external_id ← ok_or (cr_external_id request) "MPP charge credential missing expected resource externalId";
      if resource_memo_matches blake3 external_id resource MAX_MEMO_BYTES then Ok (Some external_id)
      else Err "MPP charge credential externalId does not match endpoint resource"
  end.

Definition verification_failed (message : string) : GateResponse :=
  json_response 402 (JObj [("error", JStr "verification_failed"); ("message", JStr message)]).
Definition verification_failed_retry (message : string) (retryable : bool) : GateResponse :=
  json_response 402 (JObj [("error", JStr "verification_failed"); ("message", JStr message); ("retryable", JBool retryable)]).
Definition malformed_credential (e : string) : GateDecision :=
  Respond (json_response 400 (JObj [("error", JStr "malformed_credential"); ("message", JStr e)])).
Definition deployment_policy_unavailable : GateDecision :=
  Respond (json_response 503 (JObj [("error", JStr "deployment_payment_policy_unavailable")])).
Definition upto_unpriced : string := "x402-upto with several or usage-metered dimensions requires upto.max_usd".

Definition forwarded (route : UpstreamRoute) (receipt : option ReceiptAnnotation) : Forwarded :=
  {| fw_route := route; fw_session := None; fw_receipt := receipt; fw_upto := None; fw_batch := None |}.

(** ** MPP charges *)
Definition charge_splits (api : ApiSpec) (meter : Metering) (req : GateRequest) (path amount : string) (mpp : MppServer) :
    list ChargeTerms.Split :=
  resolve_charge_splits env_var to_lowercase (mpp_decimals mpp mod 256)
    (resolve_split_rules meter (body_props req) (variant_hint_from_path path)) (api_recipients api)
    (reconstructed_query path (rq_query req)) amount.

(** The servers that take the currency, in turn; each verifies against the
    charge it would issue itself. *)
Fixpoint verify_with (options : MppServer → ChargeOptions) (amount : string) (credential : Credential) (route : string)
    (servers : list MppServer) (last_error : option VerificationError) : gate (result (option VerificationError) (MppServer * Receipt)) :=
  match servers with
  | [] => Ret (Err last_error)
  | mpp :: servers =>
      let next e := verify_with options amount credential route servers (Some e) in
      issued ← ask (IssueCharge mpp amount (options mpp));
      match issued with
      | Err e => next (verification_error ("rebuild expected charge: " +:+ e))
      | Ok challenge =>
          match challenge_request challenge with
          | Err e => next (verification_error ("decode expected charge: " +:+ e))
          | Ok expected =>
              verified ← ask (VerifyCharge mpp credential expected route);
              match verified with Ok receipt => Ret (Ok (mpp, receipt)) | Err e => next e end
          end
      end
  end.

Definition charge_receipt (mpp : MppServer) (receipt : Receipt) : ReceiptAnnotation := {|
  ra_headers := match tx_url (mpp_network mpp) (receipt_reference receipt) with Some url => header "payment-receipt-url" url | None => [] end ++
                match format_receipt receipt with Ok text => header PAYMENT_RECEIPT_HEADER text | Err _ => [] end;
  ra_reference := Some (receipt_reference receipt) |}.

Definition charge_verify (mpps : list MppServer) (api : ApiSpec) (meter : Metering) (description resource : option string)
    (auth subdomain path : string) (req : GateRequest) (upstream : UpstreamRoute) : gate GateDecision :=
  match mpps with
  | [] => Ret (Respond (json_response 500 (JObj [("error", JStr "payment_backend_unconfigured");
            ("message", JStr "This endpoint requires payment, but no payment backend is configured.")])))
  | _ =>
      match parse_authorization auth with
      | Err e => Ret (malformed_credential e)
      | Ok credential =>
          match fixed_charge_amount meter (body_props req) (variant_hint_from_path path) with
          | Err response => Ret (Respond response)
          | Ok amount =>
              match mpp_charge_payment_external_id credential resource with
              | Err e => Ret (Respond (verification_failed_retry e false))
              | Ok external_id =>
                  match decode_charge credential with
                  | Err e => Ret (Respond (verification_failed_retry ("Failed to decode credential request: " +:+ e) false))
                  | Ok request =>
                      match filter (λ mpp, mpp_accepts_currency mpp (cr_currency request) = true) mpps with
                      | [] =>
                          Ret (Respond (verification_failed_retry ("Credential currency `" +:+ cr_currency request +:+
                                 "` is not accepted by this endpoint (accepted: " +:+ String.concat ", " (map mpp_currency mpps) +:+ ")") false))
                      | matching =>
                          let options mpp := {| co_description := description; co_route := None; co_external_id := external_id;
                                                co_splits := charge_splits api meter req path amount mpp |} in
                          verified ← verify_with options amount credential (charge_route req subdomain path) matching None;
                          Ret (match verified with
                               | Ok (mpp, receipt) => Forward (forwarded upstream (Some (charge_receipt mpp receipt)))
                               | Err last_error =>
                                   let error := default (verification_error "MPP not configured") last_error in
                                   Respond (verification_failed_retry (readable_verification_message error) (ve_retryable error))
                               end)
                      end
                  end
              end
          end
      end
  end.

(** ** x402 *)
Definition x402_exact_verify (has_signer : bool) (meter : Metering) (req : GateRequest) (path pay_header : string)
    (resource : option string) (upstream : UpstreamRoute) : gate GateDecision :=
  match fixed_charge_amount meter (body_props req) (variant_hint_from_path path) with
  | Err response => Ret (Respond response)
  | Ok amount =>
      match x402_exact_payment_memo pay_header (x402_exact_binding req resource) with
      | Err e => Ret (Respond (verification_failed e))
      | Ok memo =>
          processed ← ask (ProcessExact pay_header amount memo);
          match processed with
          | Err e => Ret (Respond (verification_failed e))
          | Ok verified =>
              if negb has_signer then
                Ret (Respond (verification_failed "x402 exact settlement requires a fee-payer signer (set operator.fee_payer)"))
              else
                settled ← ask (SettleExact verified);
                Ret (match settled with
                     | Ok reference =>
                         Forward (forwarded upstream (Some {| ra_headers := named_header (PAYMENT_RESPONSE_HEADER, reference);
                                                              ra_reference := Some reference |}))
                     | Err e => Respond (verification_failed e)
                     end)
          end
      end
  end.

Definition upto_settle_amount (min_usd : option f64) (ceiling_usd : f64) (max_amount : Z) : Z :=
  match min_usd with
  | Some min_usd =>
      if f64_geb min_usd f64_zero && f64_gtb ceiling_usd f64_zero then
        let units_per_usd := f64_div (f64_of_Z max_amount) ceiling_usd in
        Z.min (f64_as_u64 (f64_round (f64_mul min_usd units_per_usd))) max_amount
      else max_amount
  | None => max_amount
  end.

Definition x402_upto_verify (meter : Metering) (req : GateRequest) (path pay_header : string) (upstream : UpstreamRoute) :
    gate GateDecision :=
  let props := body_props req in
  let variant := variant_hint_from_path path in
  match upto_max_usd meter (quoted_price meter props variant) with
  | None => Ret (Respond (json_response 500 (JObj [("error", JStr "payment_configuration_error"); ("message", JStr upto_unpriced)])))
  | Some ceiling =>
      let amount := f64_text ceiling in
      verified ← ask (VerifyUpto pay_header amount (upto_route req path));
      Ret (match verified with
           | Ok open =>
               let ceiling_usd := default f64_zero (f64_from_str amount) in
               Forward {| fw_route := upstream; fw_session := None; fw_receipt := None; fw_batch := None;
                 fw_upto := Some {| uf_open := open;
                   uf_settle_amount := upto_settle_amount (upto_min_usd meter) ceiling_usd (open_max_amount open);
                   uf_settlement :=
                     if upto_uses_response_usage meter variant
                     then Some {| plan_metering := meter; plan_variant_hint := variant; plan_request_properties := props;
                                  ceiling_usd := ceiling_usd; inferred_usage := None |}
                     else None;
                   uf_ceiling_usd := ceiling_usd |} |}
           | Err e => Respond (verification_failed e)
           end)
  end.

Definition batch_replay_response (settlement : BatchSettlementResponse) : GateResponse :=
  with_headers (json_response 200 (JObj [("status", JStr "already_settled");
      ("message", JStr "this authorization was already charged; its payment result is attached")]))
    (header "payment-replay" "true" ++ match batch_settlement_header settlement with Ok h => named_header h | Err _ => [] end).

Definition x402_batch_verify (meter : Metering) (req : GateRequest) (path pay_header : string) (resource : option string)
    (upstream : UpstreamRoute) : gate GateDecision :=
  match fixed_charge_amount meter (body_props req) (variant_hint_from_path path) with
  | Err response => Ret (Respond response)
  | Ok amount =>
      access ← ask (ReserveBatch pay_header amount);
      match access with
      | Err e =>
          corrective ← ask (BatchFailure pay_header amount e resource);
          Ret (Respond (with_headers (verification_failed e) (match corrective with Ok h => named_header h | Err _ => [] end)))
      | Ok (Replay settlement) => Ret (Respond (batch_replay_response settlement))
      | Ok InProgress =>
          Ret (Respond (with_headers (json_response 409 (JObj [("error", JStr "duplicate_settlement");
            ("message", JStr "payment authorization is already in flight")])) (header "retry-after" "1")))
      | Ok (Resume outcome) =>
          finished ← ask (FinishCommit outcome);
          Ret (Respond (match finished with
                        | Ok settlement => batch_replay_response settlement
                        | Err e => json_response 502 (JObj [("error", JStr "settlement_failed"); ("message", JStr e)])
                        end))
      | Ok (Serve outcome) | Ok (Control outcome) =>
          if negb (outcome_serve outcome) then
            settled ← ask (SettleBatchPayment outcome);
            Ret (Respond (match settled with
                          | Ok settlement =>
                              with_headers (json_response 200 (JObj [("status", JStr "channel_closing")]))
                                (match batch_settlement_header settlement with Ok h => named_header h | Err _ => [] end)
                          | Err e => json_response 502 (JObj [("error", JStr "close_failed"); ("message", JStr e)])
                          end))
          else
            Ret (Forward {| fw_route := upstream; fw_session := None; fw_receipt := None; fw_upto := None;
                            fw_batch := Some {| bf_outcome := outcome |} |})
      end
  end.

(** ** Sessions *)
Inductive SessionPricing := MeteredPricing (meter : Metering) | FixedPricing (amount : Z).

Definition session_receipt_annotation (network reference : string) : ReceiptAnnotation := {|
  ra_headers := match tx_url network reference with Some url => header "payment-receipt-url" url | None => [] end;
  ra_reference := Some reference |}.
Definition session_receipt_headers (s : SessionMpp) (signature : option string) : list (string * string) :=
  match signature with Some reference => ra_headers (session_receipt_annotation (session_network s) reference) | None => [] end.
Definition session_message (error message : string) (channel : string) : json :=
  JObj [("error", JStr error); ("message", JStr message); ("channelId", JStr channel)].
Definition usd_units (s : SessionMpp) (usd : f64) : Z := f64_as_u64 (f64_ceil (f64_mul usd (f64_pow10 (session_decimals s)))).

(** What one request of a session may take of the channel's [available]. *)
Definition indivisible_price (s : SessionMpp) (pricing : SessionPricing) : option Z :=
  match pricing with
  | FixedPricing amount => Some amount
  | MeteredPricing meter => usd_units s <$> flat_request_price meter
  end.
Definition per_request_base_units (s : SessionMpp) (pricing : SessionPricing) (available : Z) : Z :=
  match pricing with
  | FixedPricing amount => amount
  | MeteredPricing meter => Z.min (default available (usd_units s <$> (m_upto meter ≫= upto_max))) available
  end.

Definition session_authorized (s : SessionMpp) (handle : option SessionMpp) (credential : Credential) (pricing : SessionPricing)
    (req : GateRequest) (path : string) (upstream : UpstreamRoute) : gate GateDecision :=
  let props := body_props req in
  let variant := variant_hint_from_path path in
  let route_amount := match pricing with
                      | MeteredPricing meter => session_unit_amount (quoted_price meter props variant) s
                      | FixedPricing _ => None
                      end in
  processed ← ask (ProcessSession s credential route_amount);
  match processed with
  | Ok (Active state payer signature delegated) =>
      let answer error message :=
        Ret (Respond (with_headers (json_response 402 (session_message error message (state_channel_id state)))
                        (session_receipt_headers s signature))) in
      if client_signs_vouchers s then
        answer "session_voucher_required" "The channel is open; submit a client-signed voucher before requesting paid service."
      else
        match handle with
        | None => Ret (Respond (json_response 500 (JObj [("error", JStr "session_backend_unavailable")])))
        | Some handle =>
            match delegated with
            | None => answer "session_use_required" "The channel is funded; authenticate the request with the session's use proof."
            | Some delegated =>
                let available := saturating_sub (deposit state) (cumulative state) in
                if (available =? 0) || match indivisible_price s pricing with Some amount => available <? amount | None => false end then
                  Ret (Respond (json_response 402 (session_message "session_cap_exhausted"
                    "The session spending cap has been exhausted; open a new session." (state_channel_id state))))
                else
                  let per_request := per_request_base_units s pricing available in
                  reserved ← ask (ReserveCapacity handle (state_channel_id state) per_request);
                  match reserved with
                  | Ok None =>
                      Ret (Respond (json_response 402 (JObj [("error", JStr "session_capacity_reserved");
                        ("message", JStr "Another request is currently using this session capacity.")])))
                  | Err _ =>
                      Ret (Respond (json_response 402 (JObj [("error", JStr "session_close_pending");
                        ("message", JStr "The session channel is closing; open a new session.")])))
                  | Ok (Some lease) =>
                      let settlement := match pricing with
                                        | FixedPricing base_units => FixedPlan base_units
                                        | MeteredPricing meter => MeteredPlan {|
                                            plan_metering := meter; plan_variant_hint := variant; plan_request_properties := props;
                                            ceiling_usd := f64_div (f64_of_Z per_request) (f64_pow10 (session_decimals s));
                                            inferred_usage := None |}
                                        end in
                      Ret (Forward {| fw_route := upstream; fw_upto := None; fw_batch := None;
                        fw_session := Some {| sf_handle := handle; sf_channel_id := state_channel_id state;
                          sf_committed_base_units := cumulative state; sf_settlement := Some settlement;
                          sf_available_base_units := per_request; sf_authorized_base_units := deposit state;
                          sf_verified_payer := Some payer; sf_request_body_bytes := None; sf_payment_policy := None;
                          sf_reservation := Some lease; sf_delegated := Some delegated |};
                        fw_receipt := session_receipt_annotation (session_network s) <$> signature |})
                  end
            end
        end
  | Ok (Voucher channel_id cumulative verified_payer) =>
      Ret (Forward {| fw_route := upstream; fw_receipt := None; fw_upto := None; fw_batch := None;
        fw_session := (λ handle, {| sf_handle := handle; sf_channel_id := channel_id; sf_committed_base_units := cumulative;
          sf_settlement := None; sf_available_base_units := 0; sf_authorized_base_units := cumulative;
          sf_verified_payer := verified_payer; sf_request_body_bytes := None; sf_payment_policy := None;
          sf_reservation := None; sf_delegated := None |}) <$> handle |})
  | Ok (SessionClosed signature) =>
      let url := signature ≫= tx_url (session_network s) in
      let text o := match o with Some s => JStr s | None => JNull end in
      Ret (Respond (with_headers (json_response 200 (JObj [("status", JStr "closed"); ("signature", text signature);
             ("transactionId", text signature); ("receiptUrl", text url)]))
             (match url with Some url => header "payment-receipt-url" url | None => [] end)))
  | Err e =>
      Ret (Respond (json_response 402 (JObj [("error", JStr "session_failed"); ("message", JStr e); ("retryable", JBool true)])))
  end.

(** ** Subscriptions *)
Record Backends := {
  be_apis : list ApiSpec;
  be_mpps : list MppServer;
  be_browser_rpc_url : option string;
  be_session_handles : list SessionMpp;
  be_session_mpps : list SessionMpp;
  be_fee_payer_signer : bool;
  be_x402 : bool;
  be_x402_upto : bool;
  be_x402_batch : bool
}.

Definition subscription_402 (spec : SubscriptionEndpoint) (defaults : OperatorDefaults) (description : option string)
    (req : GateRequest) (path : string) (error : option (string * bool)) : gate GateDecision :=
  built ← ask (SubscriptionChallenge spec defaults description);
  Ret (match built with
       | Err _ => Respond (json_response 500 (JObj [("error", JStr "subscription_misconfigured")]))
       | Ok formatted =>
           let body := match error with
                       | Some (message, retryable) =>
                           JObj [("error", JStr "verification_failed"); ("message", JStr message); ("retryable", JBool retryable)]
                       | None =>
                           JObj [("error", JStr "payment_required"); ("message", JStr "This endpoint requires a subscription.");
                             ("endpoint", JObj [("method", JStr (rq_method req)); ("path", JStr path)])]
                       end in
           Respond (with_headers (json_response 402 body)
             (match formatted with Ok w => header "www-authenticate" w | Err _ => [] end))
       end).

Definition subscription_defaults (b : Backends) (api : ApiSpec) (spec : SubscriptionEndpoint) (subdomain : string) :
    option OperatorDefaults :=
  let operator := api_operator api in
  puller ← match operator ≫= op_recipient with Some r => Some r | None => mpp_recipient <$> head (be_mpps b) end;
  let network := default "mainnet" (operator ≫= op_network) in
  Some {| od_puller := puller; od_recipient := default puller (sub_recipient spec); od_network := network;
          od_rpc_url := default (default_rpc_url network) (mpp_rpc_url <$> head (be_mpps b));
          od_challenge_binding_secret := operator ≫= op_challenge_binding_secret;
          od_realm := match operator ≫= op_realm with Some realm => Some realm | None => Some subdomain end;
          od_fee_payer := match operator with Some o => op_fee_payer o | None => false end |}.

Definition evaluate_subscription (b : Backends) (api : ApiSpec) (spec : SubscriptionEndpoint) (description : option string)
    (req : GateRequest) (subdomain path : string) (upstream : UpstreamRoute) : gate GateDecision :=
  match subscription_defaults b api spec subdomain with
  | None => Ret (Respond (json_response 500 (JObj [("error", JStr "subscription_misconfigured"); ("message", JStr "missing operator.recipient")])))
  | Some defaults =>
      let canonical := "https://" +:+ subdomain +:+ "/" +:+ trim_start_matches slash path in
      let challenge error := subscription_402 spec defaults description req path error in
      match rq_authorization req with
      | Some auth =>
          if negb (is_payment_authorization auth) then challenge None
          else
            match parse_authorization auth with
            | Err e => Ret (malformed_credential e)
            | Ok credential =>
                if bool_decide (cred_intent credential = "authenticate") then
                  verified ← ask (LiveSubscriber spec defaults subdomain canonical description credential);
                  match verified with
                  | Ok (NotSubscribed message retryable) => challenge (Some (message, retryable))
                  | Ok Live => Ret (Forward (forwarded upstream None))
                  | Err _ => challenge None
                  end
                else if negb (bool_decide (cred_intent credential = "subscription")) then challenge None
                else
                  handler ← ask (SubscriptionHandler spec defaults description);
                  match handler with
                  | Err e => Ret (Respond (json_response 500 (JObj [("error", JStr "subscription_misconfigured"); ("message", JStr e)])))
                  | Ok _ =>
                      verified ← ask (VerifySubscription spec credential);
                      match verified with
                      | Ok receipt =>
                          Ret (Forward (forwarded upstream (Some {|
                            ra_headers := match format_receipt receipt with Ok text => header PAYMENT_RECEIPT_HEADER text | Err _ => [] end;
                            ra_reference := Some (receipt_reference receipt) |})))
                      | Err e => challenge (Some (ve_message e, ve_retryable e))
                      end
                  end
            end
      | None => challenge None
      end
  end.

(** ** Challenges *)
Definition gen_failed : GateDecision := Respond (json_response 500 (JObj [("error", JStr "challenge_generation_failed")])).

Fixpoint session_challenges (price : option ResolvedPrice) (sessions : list SessionMpp) : gate (result unit (list (string * string))) :=
  match sessions with
  | [] => Ret (Ok [])
  | s :: sessions =>
      issued ← ask (SessionChallenge s (session_unit_amount price s));
      match issued with
      | Err _ => Ret (Err tt)
      | Ok h =>
          rest ← session_challenges price sessions;
          Ret (match rest with Ok hs => Ok (header "www-authenticate" h ++ hs) | Err u => Err u end)
      end
  end.
Fixpoint charge_challenges (options : MppServer → ChargeOptions) (amount : string) (mpps : list MppServer) :
    gate (result unit (list PaymentChallenge)) :=
  match mpps with
  | [] => Ret (Ok [])
  | mpp :: mpps =>
      issued ← ask (IssueCharge mpp amount (options mpp));
      match issued with
      | Err _ => Ret (Err tt)
      | Ok c => rest ← charge_challenges options amount mpps; Ret (match rest with Ok cs => Ok (c :: cs) | Err u => Err u end)
      end
  end.
(** The headers of one x402 scheme; an error drops the scheme. *)
Definition x402_header (answer : result string (string * string)) : list (string * string) :=
  match answer with Ok h => named_header h | Err _ => [] end.
Definition price_json (price : option ResolvedPrice) : json :=
  match price with
  | None => JNull
  | Some price => JObj [("dimensions", JArr (map (λ d, JObj [("direction", JStr (rd_direction d)); ("unit", JStr (rd_unit d));
      ("scale", JNum (rd_scale d)); ("price_usd", JFloat (rd_price_usd d))]) (rp_dimensions price)))]
  end.
Definition PAYMENT_PAGE_CSP : string :=
  "default-src 'self'; script-src 'unsafe-inline'; style-src 'unsafe-inline'; img-src 'self' data: blob: https:; connect-src 'self' http://localhost:* http://127.0.0.1:* https:; worker-src 'self'".

(** The MPP charge part: the headers, and the first challenge for a browser. *)
Definition charge_part (b : Backends) (api : ApiSpec) (meter : Metering) (fixed : option ResolvedPrice) (req : GateRequest)
    (subdomain path : string) (description resource : option string) :
    gate (result unit (list (string * string) * option (PaymentChallenge * string * string))) :=
  match be_mpps b with
  | [] => Ret (Ok ([], None))
  | first :: _ =>
      let amount := charge_amount_from_price fixed in
      random ← ask Random;
      let external_id := resource_memo_with_nonce blake3 random resource MAX_MEMO_BYTES in
      let options mpp := {| co_description := description; co_route := Some (charge_route req subdomain path);
                            co_external_id := external_id; co_splits := charge_splits api meter req path amount mpp |} in
      issued ← charge_challenges options amount (be_mpps b);
      Ret (challenges ← issued;
           match format_www_authenticate_many challenges with
           | Err _ => Err tt
           | Ok ws =>
               let html := match head challenges with
                           | Some c => Some (c, default (mpp_rpc_url first) (be_browser_rpc_url b), mpp_network first)
                           | None => None
                           end in
               Ok (flat_map (header "www-authenticate") ws, html)
           end)
  end.

Definition build_challenge (b : Backends) (api : ApiSpec) (meter : Metering) (accepted : list Scheme) (sessions : list SessionMpp)
    (req : GateRequest) (subdomain path : string) (description resource : option string) (html : bool) : gate GateDecision :=
  let props := body_props req in
  let variant := variant_hint_from_path path in
  let price := quoted_price meter props variant in
  let fixed := match fixed_price meter props variant with Ok p => Some p | Err _ => None end in
  session_part ← (if bool_decide (MppSession ∈ accepted) then session_challenges price sessions else Ret (Ok []));
  match session_part with
  | Err _ => Ret gen_failed
  | Ok session_headers =>
      charge ← match fixed with
               | Some p => if bool_decide (MppCharge ∈ accepted) then charge_part b api meter p req subdomain path description resource
                           else Ret (Ok ([], None))
               | None => Ret (Ok ([], None))
               end;
      match charge with
      | Err _ => Ret gen_failed
      | Ok (charge_headers, page) =>
          exact_headers ← match fixed with
                          | Some p =>
                              if bool_decide (X402Exact ∈ accepted) && be_x402 b then
                                random ← ask Random;
                                let memo := resource_memo_with_nonce blake3 random (x402_exact_binding req resource) EXACT_MAX_MEMO_BYTES in
                                answer ← ask (ExactChallenge (charge_amount_from_price p) memo);
                                Ret (x402_header answer)
                              else Ret []
                          | None => Ret []
                          end;
          upto_headers ← (if bool_decide (X402Upto ∈ accepted) && be_x402_upto b then
                            match upto_max_usd meter price with
                            | Some usd => answer ← ask (UptoChallenge (f64_text usd) (upto_route req path)); Ret (x402_header answer)
                            | None => Ret []
                            end
                          else Ret []);
          batch_headers ← match fixed with
                          | Some p =>
                              if bool_decide (X402BatchSettlement ∈ accepted) && be_x402_batch b then
                                answer ← ask (BatchChallenge (charge_amount_from_price p) resource); Ret (x402_header answer)
                              else Ret []
                          | None => Ret []
                          end;
          let challenge_headers := session_headers ++ charge_headers ++ exact_headers ++ upto_headers ++ batch_headers in
          let advertised :=
            (if bool_decide (MppSession ∈ accepted) && negb (bool_decide (sessions = [])) then ["mpp/session"] else []) ++
            match fixed with
            | Some _ => if bool_decide (MppCharge ∈ accepted) && negb (bool_decide (be_mpps b = [])) then ["mpp/charge"] else []
            | None => []
            end ++
            (if bool_decide (exact_headers = []) then [] else ["x402/exact"]) ++
            (if bool_decide (upto_headers = []) then [] else ["x402/upto"]) ++
            (if bool_decide (batch_headers = []) then [] else ["x402/batch"]) in
          Ret (Respond
            (if bool_decide (challenge_headers = []) then
               json_response 500 (JObj [("error", JStr "payment_backend_unconfigured");
                 ("message", JStr "No payment backend for the accepted schemes.")])
             else
               match (if html then page else None) with
               | Some (challenge, rpc_url, network) =>
                   {| gr_status := 402;
                      gr_headers := header "content-type" "text/html; charset=utf-8" ++
                                    header "content-security-policy" PAYMENT_PAGE_CSP ++ challenge_headers;
                      gr_body := BodyText (challenge_to_html challenge rpc_url network) |}
               | None =>
                   with_headers (json_response 402 (JObj [("error", JStr "payment_required");
                     ("message", JStr "This endpoint requires payment.");
                     ("endpoint", JObj [("method", JStr (rq_method req)); ("path", JStr path)]);
                     ("pricing", price_json price); ("payment", JObj [("schemes", JArr (map JStr advertised))])])) challenge_headers
               end))
      end
  end.

(** ** Deployments *)
Definition set_policy (policy : string) (d : GateDecision) : GateDecision :=
  match d with
  | Forward {| fw_route := route; fw_session := Some sf; fw_receipt := receipt; fw_upto := upto; fw_batch := batch |} =>
      Forward {| fw_route := route; fw_receipt := receipt; fw_upto := upto; fw_batch := batch;
        fw_session := Some {| sf_handle := sf_handle sf; sf_channel_id := sf_channel_id sf;
          sf_committed_base_units := sf_committed_base_units sf; sf_settlement := sf_settlement sf;
          sf_available_base_units := sf_available_base_units sf; sf_authorized_base_units := sf_authorized_base_units sf;
          sf_verified_payer := sf_verified_payer sf; sf_request_body_bytes := sf_request_body_bytes sf;
          sf_payment_policy := Some policy; sf_reservation := sf_reservation sf; sf_delegated := sf_delegated sf |} |}
  | _ => d
  end.

Definition deployment_challenge (session : SessionMpp) : gate GateDecision :=
  issued ← ask (SessionChallenge session None);
  Ret (match issued with
       | Ok challenge =>
           Respond (with_headers (json_response 402 (JObj [("error", JStr "payment_required"); ("scheme", JStr "mpp-session")]))
             (header "www-authenticate" challenge ++ header "cache-control" "no-store"))
       | Err _ => deployment_policy_unavailable
       end).

(** The session a deployment's policy is served under, once it is prepared. *)
Definition deployment_session (b : Backends) (hostname : string) (req : GateRequest) :
    gate (option (ResolvedDeploymentPolicy * SessionMpp)) :=
  let path := "/" +:+ rq_path req +:+ query_suffix (rq_query req) in
  resolved ← ask (ResolvePolicy hostname path);
  match resolved with
  | Err _ => Ret None
  | Ok policy =>
      match be_session_handles b with
      | [template] =>
          if negb (deployment_template_ok template) then Ret None
          else
            match binding_new pubkey_from_str pubkey_text (durable_policy policy) with
            | Err _ => Ret None
            | Ok binding =>
                session ← ask (DeploymentSession template binding);
                match session with
                | Err _ => Ret None
                | Ok session =>
                    prepared ← ask (PrepareDeployment session);
                    Ret (match prepared with Ok _ => Some (policy, session) | Err _ => None end)
                end
            end
      | _ => Ret None
      end
  end.

Definition evaluate_deployment (b : Backends) (hostname : string) (req : GateRequest) : gate GateDecision :=
  found ← deployment_session b hostname req;
  match found with
  | None => Ret deployment_policy_unavailable
  | Some (policy, session) =>
      match rq_x402_payment req with
      | Some _ => Ret (Respond (json_response 400 (JObj [("error", JStr "unsupported_deployment_payment_scheme")])))
      | None =>
          match rq_authorization req with
          | Some auth =>
              if negb (is_payment_authorization auth) then deployment_challenge session
              else
                match parse_authorization auth with
                | Err _ => Ret (Respond (json_response 400 (JObj [("error", JStr "malformed_credential")])))
                | Ok credential =>
                    if bool_decide (cred_intent credential = "session") && bool_decide (cred_method credential = "solana") then
                      match resolve_api (be_apis b) (rq_host req) with
                      | None => Ret (Respond (json_response 404 (JObj [("error", JStr "not_found")])))
                      | Some api =>
                          let path := trim_start_matches slash (rq_path req) in
                          let endpoint := match find_endpoint (api_endpoints api) (rq_method req) path with
                                          | Some found => Some found
                                          | None => find_endpoint_by_path (api_endpoints api) path
                                          end in
                          decision ← session_authorized session (Some session) credential (FixedPricing (rp_price_micro_usd policy))
                                       req (rq_path req) (route_new api req endpoint);
                          Ret (set_policy (policy_text (durable_policy policy)) decision)
                      end
                    else deployment_challenge session
                end
          | None => deployment_challenge session
          end
      end
  end.

(** ** The decision *)

(** [payment_credential]: a [Payment] authorization, parsed once. *)
Definition payment_credential (req : GateRequest) : option (string * result string Credential) :=
  auth ← rq_authorization req;
  if is_payment_authorization auth then Some (auth, parse_authorization auth) else None.
Definition is_session_credential (credential : option (string * result string Credential)) : bool :=
  match credential with Some (_, Ok c) => bool_decide (cred_intent c = "session") | _ => false end.

(** The endpoint of the request, and whether it was found by its method. *)
Definition gate_endpoint (api : ApiSpec) (req : GateRequest) (html session : bool) : option (nat * Endpoint) * option (nat * Endpoint) :=
  let match_method := if bool_decide (rq_method req = "HEAD") then "GET" else rq_method req in
  let exact_match := find_endpoint (api_endpoints api) match_method (rq_path req) in
  (exact_match, match exact_match with
                | Some found => Some found
                | None => if html || session then find_endpoint_by_path (api_endpoints api) (rq_path req) else None
                end).

(** A verified credential of one of the accepted schemes, if there is one. *)
Definition paid_decision (b : Backends) (api : ApiSpec) (e : Endpoint) (meter : Metering) (sessions : list SessionMpp)
    (req : GateRequest) (subdomain path : string) (route : UpstreamRoute) : option (gate GateDecision) :=
  let accepted := accepted_schemes meter in
  let x402 := match rq_x402_payment req with
              | None => None
              | Some pay_header =>
                  let named := x402_payment_scheme pay_header in
                  let wants scheme := match named with Some s => bool_decide (s = scheme) | None => true end in
                  if wants EXACT_SCHEME && bool_decide (X402Exact ∈ accepted) && be_x402 b then
                    Some (x402_exact_verify (be_fee_payer_signer b) meter req path pay_header (ep_resource e) route)
                  else if wants BATCH_SETTLEMENT_SCHEME && bool_decide (X402BatchSettlement ∈ accepted) && be_x402_batch b then
                    Some (x402_batch_verify meter req path pay_header (ep_resource e) route)
                  else if wants UPTO_SCHEME && bool_decide (X402Upto ∈ accepted) && be_x402_upto b then
                    Some (x402_upto_verify meter req path pay_header route)
                  else None
              end in
  match payment_credential req with
  | Some (_, Err e) => Some (Ret (malformed_credential e))
  | Some (auth, Ok credential) =>
      let session :=
        if bool_decide (cred_intent credential = "session") && bool_decide (MppSession ∈ accepted) then
          currency ← session_request_currency credential;
          list_find (λ s, session_accepts_currency s currency = true) sessions
        else None in
      match session with
      | Some (index, s) =>
          Some (session_authorized s (be_session_handles b !! index) credential (MeteredPricing meter) req path route)
      | None =>
          if bool_decide (cred_intent credential = "charge") && bool_decide (MppCharge ∈ accepted) then
            Some (charge_verify (be_mpps b) api meter (ep_description e) (ep_resource e) auth subdomain path req route)
          else x402
      end
  | None => x402
  end.

(** [validate_operator] of [credit_provider.rs]: a provider that is not
    available is never advertised. *)
Definition configuration_error (api : ApiSpec) : option GateResponse :=
  operator ← api_operator api;
  match validate_credit_providers (op_credit_providers operator) with
  | Ok _ => None
  | Err error => Some (json_response 500 (JObj [("error", JStr "payment_configuration_error"); ("message", JStr (error_text (Config error)))]))
  end.

(** An endpoint that charges nothing, or none: path-only resolution never
    admits another method to a free endpoint. *)
Definition unbilled (api : ApiSpec) (req : GateRequest) (exact_match endpoint : option (nat * Endpoint)) : gate GateDecision :=
  if is_respond (api_routing api) && bool_decide (exact_match = None) &&
     bool_decide (is_Some (find_endpoint_by_path (api_endpoints api) (rq_path req))) then
    Ret (Respond (json_response 404 (JObj [("error", JStr "not_found"); ("message", JStr "method not allowed")])))
  else if bool_decide (is_Some exact_match) || bool_decide (api_endpoints api = []) then Ret (Passthrough (route_new api req endpoint))
  else Ret Local.

Definition evaluate (b : Backends) (resolver : option DeploymentPolicyResolver) (req : GateRequest) : gate GateDecision :=
  let path := rq_path req in
  if bool_decide (rq_method req = "GET") && bool_decide (path = "__402/health") && bool_decide (rq_query req = None) then Ret Local
  else
    match resolver with
    | Some resolver =>
        match classify_host resolver <$> rq_host req with
        | Some (Ok Apex) => Ret Local
        | Some (Ok (Deployment hostname)) => evaluate_deployment b hostname req
        | _ => Ret (Respond (json_response 400 (JObj [("error", JStr "invalid_deployment_host")])))
        end
    | None =>
        if is_local_path path then Ret Local
        else
          let subdomain := subdomain_of (rq_host req) in
          let html := match rq_accept req with Some accept => accepts_html accept | None => false end in
          match resolve_api (be_apis b) (rq_host req) with
          | None => Ret Local
          | Some api =>
              if str_contains (default "" (rq_query req)) SERVICE_WORKER_PARAM then
                Ret (Respond {| gr_status := 200; gr_headers := header "content-type" "application/javascript" ++ header "service-worker-allowed" "/";
                                gr_body := BodyText service_worker_js |})
              else
                let '(exact_match, endpoint) := gate_endpoint api req html (is_session_credential (payment_credential req)) in
                let metering_config := endpoint ≫= λ e, ep_metering e.2 in
                let subscription_config := endpoint ≫= λ e, ep_subscription e.2 in
                let route := route_new api req endpoint in
                match endpoint, subscription_config, metering_config with
                | Some (_, e), None, Some meter =>
                    match configuration_error api with
                    | Some response => Ret (Respond response)
                    | None =>
                        let sessions := match be_session_handles b with [] => be_session_mpps b | handles => handles end in
                        match paid_decision b api e meter sessions req subdomain path route with
                        | Some decision => decision
                        | None => build_challenge b api meter (accepted_schemes meter) sessions req subdomain path
                                    (ep_description e) (ep_resource e) html
                        end
                    end
                | Some (_, e), Some spec, _ =>
                    match configuration_error api with
                    | Some response => Ret (Respond response)
                    | None => evaluate_subscription b api spec (ep_description e) req subdomain path route
                    end
                | _, _, _ => unbilled api req exact_match endpoint
                end
          end
    end.

(** ** After the response *)

(** [confirmed_upto_settlement], [unsettled_upto] and [settle_upto]. *)
Definition confirmed_upto_settlement (outcome : result string UptoSettlementResponse) : result string UptoSettlementResponse :=
  settlement ← outcome;
  if negb (upto_success settlement) then Err (default "settlement was not successful" (upto_error_reason settlement))
  else if bool_decide (upto_transaction settlement = "") then Err "settlement returned no transaction signature"
  else Ok settlement.
Definition unsettled_upto (amount : Z) (message : string) : result Error (option (string * string)) :=
  if 0 <? amount then Err (PaymentRejected ("x402 upto settlement failed: " +:+ message)) else Ok None.
(** A header that HTTP can carry. *)
Definition receipt_header (h : string * string) : option (string * string) :=
  if header_name_ok h.1 && header_value_ok h.2 then Some h else None.
Definition settle_upto (b : Backends) (open : VerifiedUptoOpen) (settle_amount : Z) (served_ok : bool) :
    gate (result Error (option (string * string))) :=
  let amount := if served_ok then Z.min settle_amount (open_max_amount open) else 0 in
  if negb (be_x402_upto b) then Ret (unsettled_upto amount "x402 upto backend is not configured")
  else
    outcome ← ask (SettleUpto open amount);
    Ret (match confirmed_upto_settlement outcome with
         | Err message => unsettled_upto amount message
         | Ok settlement => match upto_settlement_header settlement with Ok h => Ok (receipt_header h) | Err _ => Ok None end
         end).

(** [settle_upto_metered]: [None] is the panic of a ceiling that is no number. *)
Definition settle_upto_metered (pointer : json → string → option json) (utf8_error_text : list Z → string) (b : Backends)
    (open : VerifiedUptoOpen) (plan : UptoSettlementPlan) (served_ok : bool) (headers : string → option (result string string))
    (body : option (list Z)) : option (gate (result Error (option (string * string)))) :=
  if negb served_ok then Some (settle_upto b open 0 false)
  else
    actual ← upto_actual_amount_from_response parse_json pointer f64_text utf8_error_text plan (open_max_amount open) headers body;
    let amount := match actual with Ok a => actual_base_units a | Err _ => 0 end in
    Some (settle_upto b open amount true).

(** [commit_batch_result], [release_batch] and [settle_batch]. *)
Definition commit_batch_result (b : Backends) (forward : BatchForward) : gate (result string (option (string * string))) :=
  if negb (be_x402_batch b) then Ret (Err "batch backend unavailable")
  else
    _ ← ask (MarkHandlerSucceeded (bf_outcome forward));
    committed ← ask (FinishCommit (bf_outcome forward));
    Ret (match committed with
         | Ok settlement => match batch_settlement_header settlement with Ok h => Ok (receipt_header h) | Err _ => Ok None end
         | Err e => Err e
         end).
Definition release_batch (b : Backends) (forward : BatchForward) : gate unit :=
  if negb (be_x402_batch b) then Ret tt else _ ← ask (ReleaseBatch (bf_outcome forward)); Ret tt.
Definition settle_batch (b : Backends) (forward : BatchForward) (response_status : option Z) : gate (result string (option (string * string))) :=
  match response_status with
  | Some status => if handler_completed status then commit_batch_result b forward else _ ← release_batch b forward; Ret (Ok None)
  | None => _ ← release_batch b forward; Ret (Ok None)
  end.

(** [settle_delegated_session]: what is charged, before the receipt. *)
Definition delegated_charge (pointer : json → string → option json) (utf8_error_text : list Z → string) (pending : SessionForward)
    (headers : string → option (result string string)) (body : option (list Z)) : option (result string (option Z)) :=
  match sf_settlement pending with
  | None => Some (Ok None)
  | Some (MeteredPlan plan) =>
      actual ← upto_actual_amount_from_response parse_json pointer f64_text utf8_error_text plan (sf_available_base_units pending) headers body;
      Some (match actual with Ok a => Ok (Some (actual_base_units a)) | Err e => Err (usage_error_text e) end)
  | Some (FixedPlan base_units) =>
      Some (if sf_available_base_units pending <? base_units then Err "deployment price exceeds reserved channel capacity"
            else Ok (Some base_units))
  end.
Definition settle_delegated_session (pointer : json → string → option json) (utf8_error_text : list Z → string) (pending : SessionForward)
    (headers : string → option (result string string)) (body : option (list Z)) :
    option (gate (result string (option (Z * DelegatedUsageAuthorization)))) :=
  charge ← delegated_charge pointer utf8_error_text pending headers body;
  Some (match charge with
        | Err e => Ret (Err e)
        | Ok None => Ret (Ok None)
        | Ok (Some base_units) =>
            if base_units =? 0 then
              touched ← ask (TouchChannel (sf_handle pending) (sf_channel_id pending));
              Ret (match touched with Ok _ => Ok None | Err e => Err e end)
            else
              match sf_delegated pending with
              | None => Ret (Err "delegated charge requires an authenticated request")
              | Some use =>
                  authorized ← ask (AuthorizeUsage (sf_handle pending) use base_units (sf_reservation pending));
                  Ret (match authorized with Ok a => Ok (Some (base_units, a)) | Err e => Err e end)
              end
        end).
End gate.
