(* ===== verification/GateSafety.v ===== *)
(** * GateSafety: what the payment gate lets through

    Theorems about [Gate]: a request reaches the upstream of a metered or
    subscription endpoint only after a backend has verified a payment of that
    endpoint's price for that route, an unpaid request only where nothing is
    charged, and what is settled after the response stays within what was
    authorized. *)
From S2P Require Import Prelude F64 MeteringTypes Text Affixes Decimals Accounting Pricing Landing PushManifest UsageSettlement.
From S2P Require Import Routes ChannelState DeploymentPolicy DeploymentResolver SessionCharge ChargeTerms ApiSpecs Gate.
#[local] Open Scope string_scope.
#[local] Open Scope list_scope.
#[local] Open Scope Z_scope.

(** ** Every run of a program *)
Section runs.
Context `{GateKit}.

(** [P] holds of the calls and the result, whatever the backends answer. *)
Definition always {A} (P : list event → A → Prop) (p : gate A) (t : list event) : Prop :=
  ∀ o, P (run o p t).1 (run o p t).2.

Lemma always_ret {A} (P : list event → A → Prop) a t : P t a → always P (Ret a) t.
Proof. by intros HP o. Qed.

Lemma always_call {A B} (P : list event → A → Prop) (c : call B) k t :
  (∀ b, always P (k b) (t ++ [Event c b])) → always P (Call c k) t.
Proof. intros HP o. exact (HP _ o). Qed.

Lemma run_bind {A B} o (p : gate A) (k : A → gate B) : ∀ t,
  run o (p ≫= k) t = run o (k (run o p t).2) (run o p t).1.
Proof. induction p as [a|C c k' IH]; intros t; [done|]. cbn. apply IH. Qed.

Lemma always_bind {A B} (P : list event → B → Prop) (p : gate A) k t :
  always (λ t' a, always P (k a) t') p t → always P (p ≫= k) t.
Proof. intros HP o. rewrite run_bind. apply (HP o o). Qed.

Lemma always_ask {A B} (P : list event → A → Prop) (c : call B) (k : B → gate A) t :
  (∀ b, always P (k b) (t ++ [Event c b])) → always P (ask c ≫= k) t.
Proof. intros HP. apply always_call. exact HP. Qed.

Lemma always_mono {A} (P Q : list event → A → Prop) p t :
  always P p t → (∀ t' a, P t' a → Q t' a) → always Q p t.
Proof. intros HP HPQ o. apply HPQ, HP. Qed.

Lemma always_any {A} (P : list event → A → Prop) p t : (∀ t' a, P t' a) → always P p t.
Proof. intros HP o. apply HP. Qed.

(** The calls of a run are kept by what runs after it. *)
Lemma run_extends {A} o (p : gate A) : ∀ t, ∃ t', (run o p t).1 = t ++ t'.
Proof.
  induction p as [a|B c k IH]; intros t; [exists []; by rewrite app_nil_r|].
  destruct (IH (o t B c) (t ++ [Event c (o t B c)])) as [t' E]. exists (Event c (o t B c) :: t'). cbn. by rewrite E, <-app_assoc.
Qed.
End runs.

(** One step through a program: a call with any answer, or a choice it makes. *)
Ltac gate_step :=
  match goal with
  | |- always _ (Ret _) _ => apply always_ret
  | |- always _ (ask _ ≫= _) _ => apply always_ask; intros ?
  | |- always _ (match ?x with _ => _ end) _ => destruct x eqn:?
  end.
(** A decision that forwards nothing. *)
Ltac no_forward := let H := fresh in intros ? H; solve [discriminate H | repeat case_match; discriminate H].

(** A call that was made is in the trace. *)
Ltac trace_in := repeat (rewrite ?elem_of_app, ?list_elem_of_singleton); eauto 10.

Section payments.
Context `{GateKit}.
Context (env_var : string → option string) (to_lowercase : string → string).
Context (pubkey_from_str : string → result string Pubkey) (pubkey_text : Pubkey → string).

(** ** What counts as a payment of a metered endpoint *)
Section metered.
Context (b : Backends) (api : ApiSpec) (e : Endpoint) (meter : Metering) (req : GateRequest).
Let subdomain := subdomain_of (rq_host req).
Let path := rq_path req.
Let variant := variant_hint_from_path path.
Let accepted := accepted_schemes meter.

(** An MPP charge: a server of the credential's currency verified it, for this
    route, against the charge it issues for the endpoint's own price, splits
    and resource. *)
Record paid_charge (t : list event) (f : Forwarded) : Prop := {
  pc_proof : ∃ auth credential amount external_id request mpp challenge expected receipt,
    rq_authorization req = Some auth ∧ parse_authorization auth = Ok credential ∧ cred_intent credential = "charge" ∧
    MppCharge ∈ accepted ∧ fixed_charge_amount meter (body_props req) variant = Ok amount ∧
    mpp_charge_payment_external_id credential (ep_resource e) = Ok external_id ∧
    decode_charge credential = Ok request ∧ mpp ∈ be_mpps b ∧ mpp_accepts_currency mpp (cr_currency request) = true ∧
    Event (IssueCharge mpp amount {| co_description := ep_description e; co_route := None; co_external_id := external_id;
             co_splits := charge_splits env_var to_lowercase api meter req path amount mpp |}) (Ok challenge) ∈ t ∧
    challenge_request challenge = Ok expected ∧
    Event (VerifyCharge mpp credential expected (charge_route req subdomain path)) (Ok receipt) ∈ t ∧
    fw_receipt f = Some (charge_receipt mpp receipt)
}.

(** An x402 exact payment: verified at the endpoint's price with a memo that
    names its resource, and settled on chain. *)
Record paid_exact (t : list event) (f : Forwarded) : Prop := {
  pe_proof : ∃ pay_header amount memo verified reference,
    rq_x402_payment req = Some pay_header ∧ X402Exact ∈ accepted ∧
    fixed_charge_amount meter (body_props req) variant = Ok amount ∧
    x402_exact_payment_memo pay_header (x402_exact_binding req (ep_resource e)) = Ok memo ∧
    Event (ProcessExact pay_header amount memo) (Ok verified) ∈ t ∧ Event (SettleExact verified) (Ok reference) ∈ t ∧
    (ra_reference <$> fw_receipt f) = Some (Some reference)
}.

(** An x402 upto channel: opened for this route with the ceiling as deposit. *)
Record paid_upto (t : list event) (f : Forwarded) : Prop := {
  pu_proof : ∃ pay_header ceiling open u,
    rq_x402_payment req = Some pay_header ∧ X402Upto ∈ accepted ∧
    upto_max_usd meter (resolve_price (S := InMemoryStore) meter (body_props req) variant None) = Some ceiling ∧
    Event (VerifyUpto pay_header (f64_text ceiling) (upto_route req path)) (Ok open) ∈ t ∧
    fw_upto f = Some u ∧ uf_open u = open ∧ uf_settle_amount u ≤ open_max_amount open
}.

(** An x402 batch voucher: verified and reserved at the endpoint's price. *)
Record paid_batch (t : list event) (f : Forwarded) : Prop := {
  pb_proof : ∃ pay_header amount outcome,
    rq_x402_payment req = Some pay_header ∧ X402BatchSettlement ∈ accepted ∧
    fixed_charge_amount meter (body_props req) variant = Ok amount ∧
    (Event (ReserveBatch pay_header amount) (Ok (Serve outcome)) ∈ t ∨ Event (ReserveBatch pay_header amount) (Ok (Control outcome)) ∈ t) ∧
    outcome_serve outcome = true ∧ fw_batch f = Some {| bf_outcome := outcome |}
}.
End metered.

(** A session: a client's voucher was accepted, or the request authenticated
    under an operator-signed session whose capacity for it is reserved. *)
Record paid_session (s : SessionMpp) (credential : Credential) (pricing : SessionPricing) (t : list event) (f : Forwarded) : Prop := {
  ps_proof : ∃ route_amount,
    (∃ channel cumulative payer, Event (ProcessSession s credential route_amount) (Ok (Voucher channel cumulative payer)) ∈ t ∧
       ∀ sf, fw_session f = Some sf → sf_settlement sf = None) ∨
    (∃ state payer signature use handle lease sf,
       Event (ProcessSession s credential route_amount) (Ok (Active state payer signature (Some use))) ∈ t ∧
       client_signs_vouchers s = false ∧
       Event (ReserveCapacity handle (state_channel_id state) (sf_available_base_units sf)) (Ok (Some lease)) ∈ t ∧
       fw_session f = Some sf ∧ sf_reservation sf = Some lease ∧ sf_delegated sf = Some use ∧
       sf_channel_id sf = state_channel_id state ∧ sf_verified_payer sf = Some payer ∧
       sf_available_base_units sf ≤ deposit state - cumulative state ∧
       match pricing with
       | FixedPricing amount => sf_settlement sf = Some (FixedPlan amount) ∧ sf_available_base_units sf = amount
       | MeteredPricing meter => ∃ plan, sf_settlement sf = Some (MeteredPlan plan) ∧ plan_metering plan = meter
       end)
}.

(** ** Each scheme forwards only what it has verified *)
Abbreviation forwards P := (λ (t : list event) (d : GateDecision), ∀ f, d = Forward f → P t f).

Lemma upto_settle_amount_le min_usd ceiling max_amount : upto_settle_amount min_usd ceiling max_amount ≤ max_amount.
Proof. unfold upto_settle_amount. destruct min_usd as [m|]; [|lia]. destruct (_ && _); lia. Qed.

Lemma exact_forwards e meter req pay_header signer route t :
  rq_x402_payment req = Some pay_header → X402Exact ∈ accepted_schemes meter →
  always (forwards (λ t f, fw_route f = route ∧ paid_exact e meter req t f))
    (x402_exact_verify signer meter req (rq_path req) pay_header (ep_resource e) route) t.
Proof.
  intros Hpay Hacc. unfold x402_exact_verify. repeat gate_step; try no_forward.
  intros f Hf. case_match; simplify_eq. split; [done|]. constructor.
  eexists _, _, _, _, _. split_and!; [done|done|eassumption|eassumption|trace_in|trace_in|done].
Qed.

Lemma upto_forwards meter req pay_header route t :
  rq_x402_payment req = Some pay_header → X402Upto ∈ accepted_schemes meter →
  always (forwards (λ t f, fw_route f = route ∧ paid_upto meter req t f))
    (x402_upto_verify meter req (rq_path req) pay_header route) t.
Proof.
  intros Hpay Hacc. unfold x402_upto_verify. repeat gate_step; try no_forward.
  intros f Hf. case_match; simplify_eq. split; [done|]. constructor.
  eexists _, _, _, _. split_and!; [done|done|eassumption|trace_in|done|done|apply upto_settle_amount_le].
Qed.

Lemma batch_forwards e meter req pay_header route t :
  rq_x402_payment req = Some pay_header → X402BatchSettlement ∈ accepted_schemes meter →
  always (forwards (λ t f, fw_route f = route ∧ paid_batch meter req t f))
    (x402_batch_verify meter req (rq_path req) pay_header (ep_resource e) route) t.
Proof.
  intros Hpay Hacc. unfold x402_batch_verify. repeat gate_step; try no_forward; subst;
    intros f Hf; simplify_eq; (split; [done|]); constructor; eexists _, _, _;
    (split_and!; [done|done|eassumption| |by apply negb_false_iff|done]); [left|right]; trace_in.
Qed.

Lemma session_forwards s handle credential pricing req route t :
  always (forwards (λ t f, fw_route f = route ∧ paid_session s credential pricing t f))
    (session_authorized s handle credential pricing req (rq_path req) route) t.
Proof.
  unfold session_authorized. repeat gate_step; try no_forward; subst; intros f Hf; simplify_eq; (split; [done|]); constructor.
  - eexists. right. match goal with Hor : (_ || _) = false |- _ => apply orb_false_iff in Hor as [Hne%Z.eqb_neq Hind] end.
    set (available := saturating_sub _ _) in *.
    assert (available = deposit state - cumulative state) as Havail by (unfold available, saturating_sub in *; lia).
    eexists _, _, _, _, _, _, _. split_and!; try reflexivity; try done; [trace_in|trace_in| |].
    + cbn [sf_available_base_units]. rewrite <-Havail. unfold per_request_base_units, indivisible_price in *. destruct pricing; lia.
    + destruct pricing; [by eexists|done].
  - eexists. left. eexists _, _, _. split; [trace_in|]. cbn. intros sf Hsf.
    apply fmap_Some in Hsf as (h & _ & ->). done.
Qed.

(** The loop over the servers: what it returns was verified. *)
Lemma verify_with_spec options amount credential route servers : ∀ last t,
  always (λ t r, ∀ mpp receipt, r = Ok (mpp, receipt) → mpp ∈ servers ∧
      ∃ challenge expected, Event (IssueCharge mpp amount (options mpp)) (Ok challenge) ∈ t ∧
        challenge_request challenge = Ok expected ∧ Event (VerifyCharge mpp credential expected route) (Ok receipt) ∈ t)
    (verify_with options amount credential route servers last) t.
Proof.
  induction servers as [|mpp servers IH]; intros last t; cbn [verify_with]; [by apply always_ret|].
  assert (∀ e t, always (λ t r, ∀ mpp' receipt, r = Ok (mpp', receipt) → mpp' ∈ mpp :: servers ∧
      ∃ challenge expected, Event (IssueCharge mpp' amount (options mpp')) (Ok challenge) ∈ t ∧
        challenge_request challenge = Ok expected ∧ Event (VerifyCharge mpp' credential expected route) (Ok receipt) ∈ t)
      (verify_with options amount credential route servers (Some e)) t) as Hnext.
  { intros e t'. eapply always_mono; [apply IH|]. intros t'' r Hr mpp' receipt ->. destruct (Hr mpp' receipt eq_refl). split; [by right|done]. }
  repeat (gate_step; try apply Hnext). subst. intros mpp' receipt Hr. simplify_eq. split; [by left|].
  eexists _, _. split; [|split; [eassumption|]]; trace_in.
Qed.

Lemma charge_forwards b api e meter req auth credential route t :
  rq_authorization req = Some auth → parse_authorization auth = Ok credential → cred_intent credential = "charge" →
  MppCharge ∈ accepted_schemes meter →
  always (forwards (λ t f, fw_route f = route ∧ paid_charge b api e meter req t f))
    (charge_verify env_var to_lowercase (be_mpps b) api meter (ep_description e) (ep_resource e) auth (subdomain_of (rq_host req))
       (rq_path req) req route) t.
Proof.
  intros Hauth Hparse Hintent Hacc. unfold charge_verify. rewrite Hparse.
  destruct (be_mpps b) as [|mpp0 mpps0] eqn:Hmpps; [gate_step; no_forward|]. rewrite <-Hmpps.
  repeat (gate_step; try no_forward). 
  match goal with Hf : filter _ _ = _ |- _ => rewrite <-Hf; clear Hf end.
  apply always_bind. eapply always_mono; [apply verify_with_spec|]. intros t' r Hr. gate_step.
  intros f Hf. destruct r as [[mpp receipt]|err]; [|done]. simplify_eq. split; [done|].
  destruct (Hr mpp receipt eq_refl) as ([Hcur Hin]%list_elem_of_filter & challenge & expected & Hi & Hreq & Hv).
  constructor. eexists _, _, _, _, _, _, _, _, _. split_and!; first [eassumption|reflexivity].
Qed.

(** A challenge never forwards. *)
Lemma subscription_402_responds spec defaults description req path error t :
  always (λ t d, ∀ f, d ≠ Forward f) (subscription_402 spec defaults description req path error) t.
Proof. unfold subscription_402. repeat gate_step. intros f. repeat case_match; done. Qed.

Lemma deployment_challenge_responds session t : always (λ t d, ∀ f, d ≠ Forward f) (deployment_challenge session) t.
Proof. unfold deployment_challenge. repeat gate_step. intros f. case_match; done. Qed.

Lemma build_challenge_responds b api meter accepted sessions req subdomain path description resource html t :
  always (λ t d, ∀ f, d ≠ Forward f)
    (build_challenge env_var to_lowercase b api meter accepted sessions req subdomain path description resource html) t.
Proof.
  unfold build_challenge. repeat first [gate_step | apply always_bind, always_any; intros ? ?]; done.
Qed.

(** A subscription: activated or recognized by the endpoint's own terms, or
    a wallet that holds a live subscription to it. *)
Record paid_subscription (b : Backends) (api : ApiSpec) (e : Endpoint) (spec : SubscriptionEndpoint) (req : GateRequest)
    (t : list event) (f : Forwarded) : Prop := {
  sub_proof : ∃ auth credential defaults,
    rq_authorization req = Some auth ∧ parse_authorization auth = Ok credential ∧
    subscription_defaults b api spec (subdomain_of (rq_host req)) = Some defaults ∧
    ((∃ receipt, cred_intent credential = "subscription" ∧
        Event (SubscriptionHandler spec defaults (ep_description e)) (Ok tt) ∈ t ∧
        Event (VerifySubscription spec credential) (Ok receipt) ∈ t) ∨
     (cred_intent credential = "authenticate" ∧
        Event (LiveSubscriber spec defaults (subdomain_of (rq_host req))
          ("https://" +:+ subdomain_of (rq_host req) +:+ "/" +:+ trim_start_matches slash (rq_path req)) (ep_description e) credential) (Ok Live) ∈ t))
}.

Lemma subscription_forwards b api e spec req route t :
  always (forwards (λ t f, fw_route f = route ∧ paid_subscription b api e spec req t f))
    (evaluate_subscription b api spec (ep_description e) req (subdomain_of (rq_host req)) (rq_path req) route) t.
Proof.
  assert (∀ defaults error t P, always (forwards P) (subscription_402 spec defaults (ep_description e) req (rq_path req) error) t) as Hno.
  { intros defaults error t' P. eapply always_mono; [apply subscription_402_responds|]. intros t'' d Hd f Hf. by destruct (Hd f). }
  unfold evaluate_subscription. repeat (gate_step; try no_forward; try apply Hno); subst;
    intros f Hf; simplify_eq; (split; [done|]); constructor; eexists _, _, _;
    (split; [eassumption|]); (split; [eassumption|]); (split; [eassumption|]).
  - right. split; [|trace_in]. match goal with Hb : bool_decide _ = true |- _ => by apply bool_decide_eq_true in Hb end.
  - left. eexists. split; [match goal with Hb : negb (bool_decide (_ = "subscription")) = false |- _ => by apply negb_false_iff, bool_decide_eq_true in Hb end|].
    split; [|trace_in]. match goal with u : unit |- _ => destruct u end. trace_in.
Qed.

(** The session credential of the request, and the session it is paid under:
    the first the gate offers that takes the credential's currency. *)
Definition session_credential (req : GateRequest) (credential : Credential) : Prop :=
  ∃ auth, rq_authorization req = Some auth ∧ is_payment_authorization auth = true ∧ parse_authorization auth = Ok credential ∧
    cred_intent credential = "session".
Definition offered_sessions (b : Backends) : list SessionMpp :=
  match be_session_handles b with [] => be_session_mpps b | handles => handles end.
Definition session_selected (b : Backends) (credential : Credential) (s : SessionMpp) : Prop :=
  ∃ currency, session_request_currency credential = Some currency ∧ s ∈ offered_sessions b ∧ session_accepts_currency s currency = true.

(** A payment of a metered endpoint, by any scheme. *)
Inductive paid_metered (b : Backends) (api : ApiSpec) (e : Endpoint) (meter : Metering) (req : GateRequest) (t : list event) (f : Forwarded) : Prop :=
  | by_charge : paid_charge b api e meter req t f → paid_metered b api e meter req t f
  | by_exact : paid_exact e meter req t f → paid_metered b api e meter req t f
  | by_upto : paid_upto meter req t f → paid_metered b api e meter req t f
  | by_batch : paid_batch meter req t f → paid_metered b api e meter req t f
  | by_session s credential : MppSession ∈ accepted_schemes meter → session_credential req credential → session_selected b credential s →
      paid_session s credential (MeteredPricing meter) t f → paid_metered b api e meter req t f.

Lemma paid_decision_forwards b api e meter req route p t :
  paid_decision env_var to_lowercase b api e meter (offered_sessions b) req (subdomain_of (rq_host req)) (rq_path req) route = Some p →
  always (forwards (λ t f, fw_route f = route ∧ paid_metered b api e meter req t f)) p t.
Proof.
  unfold paid_decision. set (x402 := match rq_x402_payment req with None => None | Some _ => _ end).
  assert (∀ p t, x402 = Some p → always (forwards (λ t f, fw_route f = route ∧ paid_metered b api e meter req t f)) p t) as Hx402.
  { clear p t. unfold x402. intros p t. destruct (rq_x402_payment req) as [pay_header|] eqn:Hpay; [|done]. cbv beta zeta.
    repeat match goal with
    | |- (if ?c then _ else _) = _ → _ => destruct c eqn:Hc;
        [apply andb_true_iff in Hc as [[_ Hacc%bool_decide_eq_true]%andb_true_iff _]; intros [= <-]|clear Hc]
    end; [..|done].
    - eapply always_mono; [by apply exact_forwards|]. intros t' d Hd f Hf. destruct (Hd f Hf). split; [done|by apply by_exact].
    - eapply always_mono; [by apply batch_forwards|]. intros t' d Hd f Hf. destruct (Hd f Hf). split; [done|by apply by_batch].
    - eapply always_mono; [by apply upto_forwards|]. intros t' d Hd f Hf. destruct (Hd f Hf). split; [done|by apply by_upto]. }
  clearbody x402. unfold payment_credential. destruct (rq_authorization req) as [auth|] eqn:Hauth; [|by apply Hx402].
  cbn [mbind option_bind]. destruct (is_payment_authorization auth) eqn:Hpa; [|by apply Hx402].
  destruct (parse_authorization auth) as [credential|err] eqn:Hparse; [|intros [= <-]; gate_step; no_forward].
  assert (∀ p t, (if bool_decide (cred_intent credential = "charge") && bool_decide (MppCharge ∈ accepted_schemes meter)
      then Some (charge_verify env_var to_lowercase (be_mpps b) api meter (ep_description e) (ep_resource e) auth
                   (subdomain_of (rq_host req)) (rq_path req) req route) else x402) = Some p →
    always (forwards (λ t f, fw_route f = route ∧ paid_metered b api e meter req t f)) p t) as Hcharge.
  { intros p' t'. destruct (_ && _) eqn:Hc; [|by apply Hx402].
    apply andb_true_iff in Hc as [Hi%bool_decide_eq_true Hacc%bool_decide_eq_true].
    intros [= <-]. eapply always_mono; [by eapply charge_forwards|]. intros t'' d Hd f Hf. destruct (Hd f Hf). split; [done|by apply by_charge]. }
  destruct (bool_decide (cred_intent credential = "session") && bool_decide (MppSession ∈ accepted_schemes meter)) eqn:Hs; [|apply Hcharge].
  apply andb_true_iff in Hs as [Hintent%bool_decide_eq_true Hacc%bool_decide_eq_true].
  destruct (session_request_currency credential ≫= _) as [[i s]|] eqn:Hsel; [|apply Hcharge].
  apply bind_Some in Hsel as (currency & Hcur & (Hin & Htakes & _)%list_find_Some).
  intros [= <-]. eapply always_mono; [apply session_forwards|]. intros t' d Hd f Hf. destruct (Hd f Hf). split; [done|].
  eapply by_session; [done|by exists auth|exists currency; eauto using list_elem_of_lookup_2|done].
Qed.

(** ** The gate *)
Abbreviation decide_request := (evaluate env_var to_lowercase pubkey_from_str pubkey_text).

Lemma gate_endpoint_in api req html session exact i e :
  gate_endpoint api req html session = (exact, Some (i, e)) → api_endpoints api !! i = Some e.
Proof.
  unfold gate_endpoint. set (m := if bool_decide (rq_method req = "HEAD") then "GET" else rq_method req).
  destruct (find_endpoint (api_endpoints api) m (rq_path req)) as [[i' e']|] eqn:Hf.
  - intros [= _ <- <-]. by apply find_endpoint_spec in Hf as [? _].
  - destruct (html || session); [|done]. intros [= _ Hp]. by apply find_endpoint_by_path_spec in Hp as [? _].
Qed.

(** What a forwarded request has shown for itself: the endpoint it is routed
    to, and a payment of exactly that endpoint. *)
Definition admitted (b : Backends) (req : GateRequest) (t : list event) (f : Forwarded) : Prop :=
  ∃ api i e, resolve_api (be_apis b) (rq_host req) = Some api ∧ api_endpoints api !! i = Some e ∧
    route_endpoint (fw_route f) = Some i ∧ admits (fw_route f) api (rq_method req) ("/" +:+ rq_path req) = true ∧
    ((∃ spec, ep_subscription e = Some spec ∧ paid_subscription b api e spec req t f) ∨
     (∃ meter, ep_subscription e = None ∧ ep_metering e = Some meter ∧ paid_metered b api e meter req t f)).

Lemma route_new_admits api req endpoint : admits (route_new api req endpoint) api (rq_method req) ("/" +:+ rq_path req) = true.
Proof.
  unfold admits, route_new. cbn [route_subdomain route_method route_path].
  rewrite (proj2 (strip_prefix_Some "/" ("/" +:+ rq_path req) (rq_path req))) by done. cbn [default].
  by rewrite !bool_decide_eq_true_2.
Qed.

(** C1. Whatever the backends answer, the gate forwards a request to an API
    only to the endpoint it matched, and only after a payment of that
    endpoint: its own price, splits and resource verified for this very route
    (a charge), settled on chain (x402 exact), opened to its ceiling (x402
    upto), reserved at its price (x402 batch), accepted or reserved under a
    session, or covered by a subscription to it. *)
Theorem forward_requires_payment o b req t f :
  run o (decide_request b None req) [] = (t, Forward f) → admitted b req t f.
Proof.
  enough (always (forwards (admitted b req)) (decide_request b None req) []) as Hall.
  { intros Hrun. specialize (Hall o). rewrite Hrun in Hall. by apply Hall. }
  unfold evaluate. gate_step; [gate_step; no_forward|]. gate_step; [gate_step; no_forward|].
  destruct (resolve_api (be_apis b) (rq_host req)) as [api|] eqn:Hapi; [|gate_step; no_forward].
  gate_step; [gate_step; no_forward|].
  destruct (gate_endpoint _ _ _ _) as [exact endpoint] eqn:He.
  assert (always (forwards (admitted b req)) (unbilled api req exact endpoint) []) as Hfree.
  { unfold unbilled. repeat gate_step; no_forward. }
  destruct endpoint as [[i e]|]; [|exact Hfree]. cbn [mbind option_bind snd]. pose proof (gate_endpoint_in _ _ _ _ _ _ _ He) as Hi.
  assert (∀ t f, fw_route f = route_new api req (Some (i, e)) →
    ((∃ spec, ep_subscription e = Some spec ∧ paid_subscription b api e spec req t f) ∨
     (∃ meter, ep_subscription e = None ∧ ep_metering e = Some meter ∧ paid_metered b api e meter req t f)) → admitted b req t f) as Hadm.
  { intros t' f' Hroute Hpaid. exists api, i, e. split_and!; [done|done|by rewrite Hroute|rewrite Hroute; apply route_new_admits|done]. }
  destruct (ep_subscription e) as [spec|] eqn:Hs.
  - gate_step; [gate_step; no_forward|]. eapply always_mono; [apply subscription_forwards|].
    intros t' d Hd f' Hf'. destruct (Hd f' Hf') as [Hroute Hp]. apply Hadm; [done|]. left. by exists spec.
  - destruct (ep_metering e) as [meter|] eqn:Hm; [|exact Hfree]. gate_step; [gate_step; no_forward|]. cbv zeta.
    destruct (paid_decision _ _ _ _ _ _ _ _ _ _ _) as [p|] eqn:Hp.
    + eapply always_mono; [by eapply paid_decision_forwards|]. intros t' d Hd f' Hf'. destruct (Hd f' Hf') as [Hroute Hpaid].
      apply Hadm; [done|]. right. by exists meter.
    + eapply always_mono; [apply build_challenge_responds|]. intros t' d Hd f' Hf'. by destruct (Hd f').
Qed.

(** The session of a deployment is the one its resolved policy is bound to. *)
Lemma deployment_session_spec b hostname req t :
  always (λ t r, ∀ policy session, r = Some (policy, session) →
      Event (ResolvePolicy hostname ("/" +:+ rq_path req +:+ query_suffix (rq_query req))) (Ok policy) ∈ t ∧
      ∃ template binding, be_session_handles b = [template] ∧ deployment_template_ok template = true ∧
        binding_new pubkey_from_str pubkey_text (durable_policy policy) = Ok binding ∧
        Event (DeploymentSession template binding) (Ok session) ∈ t)
    (deployment_session pubkey_from_str pubkey_text b hostname req) t.
Proof.
  unfold deployment_session. repeat gate_step; try (intros ? ? Hr; solve [discriminate Hr]); subst; intros policy session Hr;
    case_match; simplify_eq. split; [trace_in|].
  eexists _, _. split_and!; [done|by apply negb_false_iff|eassumption|trace_in].
Qed.

Lemma set_policy_forward policy d f : set_policy policy d = Forward f →
  ∃ f0, d = Forward f0 ∧ fw_route f = fw_route f0 ∧
    (∀ sf, fw_session f = Some sf → sf_payment_policy sf = Some policy ∧ ∃ sf0, fw_session f0 = Some sf0 ∧
       sf_settlement sf = sf_settlement sf0 ∧ sf_available_base_units sf = sf_available_base_units sf0 ∧
       sf_reservation sf = sf_reservation sf0 ∧ sf_delegated sf = sf_delegated sf0 ∧ sf_handle sf = sf_handle sf0).
Proof. destruct d as [r|[route [sf0|] receipt upto batch]|r|]; cbn; intros [= <-]; eexists; (split; [reflexivity|]); cbn; naive_solver. Qed.

(** What a request forwarded to a deployment has shown for itself. *)
Definition deployment_admitted (b : Backends) (resolver : DeploymentPolicyResolver) (req : GateRequest) (t : list event) (f : Forwarded) : Prop :=
  ∃ host hostname policy session template binding f0,
    rq_host req = Some host ∧ classify_host resolver host = Ok (Deployment hostname) ∧
    Event (ResolvePolicy hostname ("/" +:+ rq_path req +:+ query_suffix (rq_query req))) (Ok policy) ∈ t ∧
    be_session_handles b = [template] ∧ binding_new pubkey_from_str pubkey_text (durable_policy policy) = Ok binding ∧
    Event (DeploymentSession template binding) (Ok session) ∈ t ∧
    (∃ credential, session_credential req credential ∧
       paid_session session credential (FixedPricing (rp_price_micro_usd policy)) t f0) ∧ fw_route f = fw_route f0 ∧
    ∀ sf, fw_session f = Some sf → sf_payment_policy sf = Some (policy_text (durable_policy policy)) ∧
      ∃ sf0, fw_session f0 = Some sf0 ∧ sf_settlement sf = sf_settlement sf0 ∧
        sf_available_base_units sf = sf_available_base_units sf0 ∧ sf_reservation sf = sf_reservation sf0 ∧
        sf_delegated sf = sf_delegated sf0 ∧ sf_handle sf = sf_handle sf0.

Lemma always_extends {A} (P : list event → A → Prop) (p : gate A) t :
  (∀ t', always (λ t'' a, t `prefix_of` t'' → P t'' a) p t') → always P p t.
Proof. intros HP o. apply (HP t o). destruct (run_extends o p t) as [t' ->]. by exists t'. Qed.


(** No verification and no challenge passes a request through. *)
Definition no_pass (t : list event) (d : GateDecision) : Prop := ∀ r, d ≠ Passthrough r.
Ltac never_passes :=
  repeat first [gate_step | apply always_bind, always_any; intros ? ?]; intros ?; repeat case_match; discriminate.

Lemma session_no_pass s handle credential pricing req path route t : always no_pass (session_authorized s handle credential pricing req path route) t.
Proof. unfold session_authorized. never_passes. Qed.

Lemma subscription_no_pass b api spec description req subdomain path route t :
  always no_pass (evaluate_subscription b api spec description req subdomain path route) t.
Proof. unfold evaluate_subscription, subscription_402. never_passes. Qed.

Lemma paid_decision_no_pass b api e meter sessions req subdomain path route p t :
  paid_decision env_var to_lowercase b api e meter sessions req subdomain path route = Some p → always no_pass p t.
Proof.
  unfold paid_decision. intros Hp. repeat case_match; simplify_eq; try (apply session_no_pass);
    unfold charge_verify, x402_exact_verify, x402_batch_verify, x402_upto_verify; never_passes.
Qed.

Lemma deployment_no_pass b hostname req t : always no_pass (evaluate_deployment pubkey_from_str pubkey_text b hostname req) t.
Proof.
  unfold evaluate_deployment, deployment_challenge. apply always_bind, always_any. intros t' found.
  repeat (first [gate_step | apply always_bind; eapply always_mono; [apply session_no_pass|]; intros t'' d Hd]); intros pass;
    try (repeat case_match; discriminate).
  unfold set_policy. intros Hr. repeat case_match; simplify_eq; by apply (Hd pass).
Qed.

Lemma build_challenge_no_pass b api meter accepted sessions req subdomain path description resource html t :
  always no_pass (build_challenge env_var to_lowercase b api meter accepted sessions req subdomain path description resource html) t.
Proof. unfold build_challenge. repeat first [gate_step | apply always_bind, always_any; intros ? ?]; intros ?; discriminate. Qed.

Lemma unbilled_passes o api req exact endpoint t r :
  run o (unbilled api req exact endpoint) [] = (t, Passthrough r) →
  t = [] ∧ r = route_new api req endpoint ∧ (is_Some exact ∨ api_endpoints api = []).
Proof.
  unfold unbilled. destruct (_ && _ && _); [done|].
  destruct (bool_decide (is_Some exact) || bool_decide (api_endpoints api = [])) eqn:Hor; [|done]. intros [= <- <-].
  apply orb_true_iff in Hor. rewrite !bool_decide_eq_true in Hor. done.
Qed.

Lemma gate_endpoint_exact api req html session found endpoint :
  gate_endpoint api req html session = (Some found, endpoint) →
  endpoint = Some found ∧
  find_endpoint (api_endpoints api) (if bool_decide (rq_method req = "HEAD") then "GET" else rq_method req) (rq_path req) = Some found.
Proof. unfold gate_endpoint. by destruct (find_endpoint _ _ _); intros [= <- <-]. Qed.

(** A request passes through unpaid only where nothing is charged: with no
    deployments configured, on an endpoint declared for its method with
    neither metering nor subscription, or on an API that declares no endpoint
    at all; and no backend is asked anything. *)
Theorem passthrough_is_free o b resolver req t r :
  run o (decide_request b resolver req) [] = (t, Passthrough r) →
  resolver = None ∧ t = [] ∧ ∃ api, resolve_api (be_apis b) (rq_host req) = Some api ∧
    admits r api (rq_method req) ("/" +:+ rq_path req) = true ∧
    (api_endpoints api = [] ∨
     ∃ i e, find_endpoint (api_endpoints api) (if bool_decide (rq_method req = "HEAD") then "GET" else rq_method req) (rq_path req) = Some (i, e) ∧
       route_endpoint r = Some i ∧ ep_metering e = None ∧ ep_subscription e = None).
Proof.
  assert (∀ p t t', always no_pass p t → run o p t ≠ (t', Passthrough r)) as Hnever.
  { intros p t' t'' Hp Hrun. specialize (Hp o r). by rewrite Hrun in Hp. }
  unfold evaluate. destruct (_ && _ && _); [done|]. destruct resolver as [resolver|].
  { destruct (classify_host resolver <$> rq_host req) as [[[|hostname]|]|]; try done.
    intros Hrun. destruct (Hnever _ _ _ (deployment_no_pass _ _ _ _) Hrun). }
  destruct (is_local_path _); [done|]. destruct (resolve_api _ _) as [api|] eqn:Hapi; [|done].
  destruct (str_contains _ _); [done|]. destruct (gate_endpoint _ _ _ _) as [exact endpoint] eqn:He.
  set (concl := None = None ∧ _).
  assert (run o (unbilled api req exact endpoint) [] = (t, Passthrough r) →
    (∀ i e, endpoint = Some (i, e) → ep_metering e = None ∧ ep_subscription e = None) → concl) as Hfree.
  { intros (-> & -> & Hwhy)%unbilled_passes Hep. split; [done|]. split; [done|]. exists api. split; [done|].
    split; [apply route_new_admits|]. destruct Hwhy as [[[i e] ->]|Hnil]; [right|by left].
    apply gate_endpoint_exact in He as [-> Hf]. exists i, e. by destruct (Hep i e eq_refl). }
  destruct endpoint as [[i e]|]; [|intros Hrun; apply (Hfree Hrun); done]. cbn [mbind option_bind snd].
  destruct (ep_subscription e) as [spec|] eqn:Hs.
  { destruct (configuration_error api); [done|]. intros Hrun.
    destruct (Hnever _ _ _ (subscription_no_pass _ _ _ _ _ _ _ _ _) Hrun). }
  destruct (ep_metering e) as [meter|] eqn:Hm; [|intros Hrun; apply (Hfree Hrun); naive_solver].
  destruct (configuration_error api); [done|]. cbv zeta. destruct (paid_decision _ _ _ _ _ _ _ _ _ _ _) as [p|] eqn:Hp.
  - intros Hrun. destruct (Hnever _ _ _ (paid_decision_no_pass _ _ _ _ _ _ _ _ _ _ _ Hp) Hrun).
  - intros Hrun. destruct (Hnever _ _ _ (build_challenge_no_pass _ _ _ _ _ _ _ _ _ _ _ _) Hrun).
Qed.
End payments.

(** ** After the response: what is settled was authorized *)
Section settlements.
Context `{GateKit}.
Context (pointer : json → string → option json) (utf8_error_text : list Z → string).

(** One settlement of an upto channel: at most one call, for the amount owed,
    and the response is withheld exactly when that amount was not paid. *)
Lemma settle_upto_run o b open settle_amount served t r :
  0 ≤ settle_amount → 0 ≤ open_max_amount open → run o (settle_upto b open settle_amount served) [] = (t, r) →
  ∃ amount, 0 ≤ amount ≤ open_max_amount open ∧ (served = false → amount = 0) ∧ (served = true → amount = Z.min settle_amount (open_max_amount open)) ∧
    ((t = [] ∧ be_x402_upto b = false ∧ is_ok r = negb (0 <? amount)) ∨
     (∃ outcome, t = [Event (SettleUpto open amount) outcome] ∧ is_ok r = is_ok (confirmed_upto_settlement outcome) || negb (0 <? amount))).
Proof.
  intros Hs Hmax. unfold settle_upto. set (amount := if served then _ else 0). intros Hrun. exists amount.
  assert (0 ≤ amount ≤ open_max_amount open ∧ (served = false → amount = 0) ∧ (served = true → amount = Z.min settle_amount (open_max_amount open)))
    as (Hr & Hf & Ht) by (unfold amount; destruct served; split_and!; try done; lia).
  split; [done|]. split; [done|]. split; [done|]. destruct (be_x402_upto b) eqn:Hb; cbn [negb] in Hrun.
  - right. cbn in Hrun. injection Hrun as <- <-. eexists. split; [reflexivity|].
    destruct (confirmed_upto_settlement _) as [settlement|message]; [by destruct (upto_settlement_header settlement)|].
    unfold unsettled_upto. by destruct (0 <? amount).
  - left. injection Hrun as <- <-. split; [done|]. split; [done|]. unfold unsettled_upto. by destruct (0 <? amount).
Qed.


(** A batch voucher is committed only for a handler that completed, after
    the crash boundary was recorded; otherwise the authorization is released
    and nothing is charged.  A completed response is released exactly when the
    charge was committed. *)
Theorem batch_commits_only_completed o b forward status t r :
  be_x402_batch b = true → run o (settle_batch b forward status) [] = (t, r) →
  if match status with Some s => handler_completed s | None => false end
  then ∃ marked committed, t = [Event (MarkHandlerSucceeded (bf_outcome forward)) marked; Event (FinishCommit (bf_outcome forward)) committed] ∧
         is_ok r = is_ok committed
  else r = Ok None ∧ ∃ released, t = [Event (ReleaseBatch (bf_outcome forward)) released].
Proof.
  intros Hb. unfold settle_batch, commit_batch_result, release_batch. rewrite Hb. cbn [negb].
  destruct status as [status|]; [destruct (handler_completed status)|]; cbn; intros [= <- <-].
  - eexists _, _. split; [reflexivity|]. destruct (o _ _ (FinishCommit _)) as [settlement|]; [|done]. by destruct (batch_settlement_header settlement).
  - split; [done|]. by eexists.
  - split; [done|]. by eexists.
Qed.

Lemma delegated_charge_range pending headers body base_units :
  0 ≤ sf_available_base_units pending → match sf_settlement pending with Some (FixedPlan n) => 0 ≤ n | _ => True end →
  delegated_charge pointer utf8_error_text pending headers body = Some (Ok (Some base_units)) →
  0 ≤ base_units ≤ sf_available_base_units pending.
Proof.
  intros Havail Hfixed. unfold delegated_charge. destruct (sf_settlement pending) as [[plan|n]|]; [| |done].
  - intros (actual & Ha & [= Hb])%bind_Some. destruct actual as [a|]; [|done]. injection Hb as <-.
    by apply actual_amount_range in Ha as [? _].
  - destruct (Z.ltb_spec (sf_available_base_units pending) n); [done|]. intros [= <-]. lia.
Qed.

(** A response under an operator-signed session is charged at most what
    the gate reserved for it, against the request that was authenticated and
    its reservation; a response rated at nothing only touches the channel. *)
Theorem delegated_charge_within_reservation o pending headers body p t r :
  0 ≤ sf_available_base_units pending → match sf_settlement pending with Some (FixedPlan n) => 0 ≤ n | _ => True end →
  settle_delegated_session pointer utf8_error_text pending headers body = Some p → run o p [] = (t, r) →
  (t = [] ∧ ∀ x, r ≠ Ok (Some x)) ∨
  (∃ touched, t = [Event (TouchChannel (sf_handle pending) (sf_channel_id pending)) touched] ∧ ∀ x, r ≠ Ok (Some x)) ∨
  (∃ use amount answer, sf_delegated pending = Some use ∧ 0 < amount ≤ sf_available_base_units pending ∧
     t = [Event (AuthorizeUsage (sf_handle pending) use amount (sf_reservation pending)) answer] ∧
     r = match answer with Ok a => Ok (Some (amount, a)) | Err e => Err e end).
Proof.
  intros Havail Hfixed. unfold settle_delegated_session. intros (charge & Hcharge & [= <-])%bind_Some.
  destruct charge as [[base_units|]|e]; [|intros [= <- <-]; by left..].
  pose proof (delegated_charge_range pending headers body base_units Havail Hfixed Hcharge) as Hrange.
  destruct (Z.eqb_spec base_units 0) as [->|Hne].
  { cbn. intros [= <- <-]. right; left. eexists. split; [reflexivity|]. intros x. by destruct (o _ _ _). }
  destruct (sf_delegated pending) as [use|]; [|intros [= <- <-]; by left]. cbn. intros [= <- <-]. right; right.
  eexists use, base_units, _. split; [done|]. split; [lia|]. split; reflexivity.
Qed.
End settlements.
