(* ===== verification/GateSamples.v ===== *)
(** * GateSamples: the payment gate at work

    A concrete PayKit, an API with a paid and a free endpoint, and backends
    that accept what they are asked; the theorems of [GateSafety] at requests
    the gate forwards, passes through and settles. *)
From S2P Require Import Prelude F64 MeteringTypes Text Affixes Decimals Accounting Pricing Landing PushManifest PushPlanner PushPermit.
From S2P Require Import UsageSettlement Routes ChannelState DeploymentPolicy DeploymentResolver SessionCharge ChargeTerms UpstreamAuth ApiSpecs Gate GateSafety.
#[local] Open Scope string_scope.
#[local] Open Scope list_scope.
#[local] Open Scope Z_scope.

(** Servers are named by their currency, credentials by their intent; an
    authorization reads [Payment <intent>]. *)
#[local] Instance sample_kit : GateKit := {|
  MppServer := string; mpp_currency s := s; mpp_network _ := "mainnet"; mpp_recipient _ := "operator"; mpp_rpc_url _ := "https://rpc";
  mpp_decimals _ := 6;
  SessionMpp := string; session_currency s := s; session_network _ := "mainnet"; session_decimals _ := 6;
  client_signs_vouchers _ := false; deployment_template_ok _ := true;
  Credential := string; cred_intent c := c; cred_method _ := "solana";
  parse_authorization s := match strip_prefix "Payment " s with Some intent => Ok intent | None => Err "no credential" end;
  session_request_currency _ := Some "USDC";
  ChargeRequest := string; cr_currency _ := "USDC"; cr_external_id _ := None; decode_charge c := Ok c;
  PaymentChallenge := string; challenge_request c := Ok c; format_www_authenticate_many cs := Ok cs; challenge_to_html c _ _ := c;
  Receipt := string; receipt_reference r := r; format_receipt r := Ok r;
  verification_error m := {| ve_message := m; ve_retryable := true |};
  VerifiedExact := string; VerifiedUptoOpen := Z; open_max_amount z := z;
  BatchOutcome := bool; outcome_serve s := s;
  BatchSettlementResponse := string; batch_settlement_header s := Ok ("payment-response", s);
  UptoSettlementResponse := string; upto_success _ := true; upto_error_reason _ := None; upto_transaction s := s;
  upto_settlement_header s := Ok ("payment-response", s);
  exact_envelope_memo _ := None; resolve_stablecoin_mint c _ := Some c; validate_credit_providers _ := Ok tt; default_rpc_url n := n;
  accepts_html a := str_contains a "text/html"; SERVICE_WORKER_PARAM := "__pay_sw"; service_worker_js := "";
  MAX_MEMO_BYTES := 80; EXACT_MAX_MEMO_BYTES := 80;
  EXACT_SCHEME := "exact"; UPTO_SCHEME := "upto"; BATCH_SETTLEMENT_SCHEME := "batch-settlement";
  PAYMENT_RECEIPT_HEADER := "payment-receipt"; PAYMENT_RESPONSE_HEADER := "payment-response";
  solana_mainnet := "solana:mainnet"; solana_devnet := "solana:devnet"; solana_testnet := "solana:testnet";
  header_name_ok _ := true; header_value_ok _ := true; reconstructed_query _ q := q; base64_decode _ := None;
  parse_json := SampleUsage.parse_json; blake3 _ := []; f64_text := SampleUsage.text; policy_text _ := "policy"
|}.

Module SampleGate.
Definition state : ChannelState := {|
  state_channel_id := "channel"; deposit := 1000000; cumulative := 200000; sealed := false; close_requested_at := None; open_slot := None;
  idle_timeout_seconds := None; processed_uses := []; pending_setup := None; lifecycle := None; extra := ∅ |}.
Definition use : DelegatedUse := {| use_channel_id := "channel"; challenge_id := "c"; request_key := "r"; charged := 0 |}.
Definition lease : DelegatedCapacityLease := {|
  lease_channel_id := "channel"; durable_id := None; lease_deadline := 60000; initial_cumulative := None |}.

(** Backends that accept every payment. *)
Definition accepting : backend := λ _ B c,
  match c in call B return B with
  | Random => []
  | IssueCharge _ amount _ => Ok amount
  | VerifyCharge _ _ _ route => Ok ("paid for " +:+ route)
  | ExactChallenge amount _ => Ok ("payment-required", amount)
  | ProcessExact header _ _ => Ok header
  | SettleExact v => Ok ("settled " +:+ v)
  | UptoChallenge amount _ => Ok ("payment-required", amount)
  | VerifyUpto _ _ _ => Ok 1000000
  | SettleUpto _ _ => Ok "transaction"
  | BatchChallenge amount _ => Ok ("payment-required", amount)
  | ReserveBatch _ _ => Ok (Serve true)
  | BatchFailure _ _ e _ => Err e
  | MarkHandlerSucceeded _ => Ok tt
  | FinishCommit _ => Ok "committed"
  | SettleBatchPayment _ => Ok "closed"
  | ReleaseBatch _ => Ok tt
  | SessionChallenge s _ => Ok s
  | ProcessSession _ _ _ => Ok (Active state "payer" None (Some use))
  | ReserveCapacity _ _ _ => Ok (Some lease)
  | TouchChannel _ _ => Ok tt
  | AuthorizeUsage _ _ amount _ => Ok {| auth_cumulative := 200000 + amount; auth_idle_timeout_seconds := 60 |}
  | ResolvePolicy _ _ => Ok SampleDeployment.resolved
  | DeploymentSession template _ => Ok template
  | PrepareDeployment _ => Ok tt
  | SubscriptionChallenge _ _ _ => Ok (Ok "subscribe")
  | LiveSubscriber _ _ _ _ _ _ => Ok Live
  | SubscriptionHandler _ _ _ => Ok tt
  | VerifySubscription _ _ => Ok "subscribed"
  end.

(** A paid endpoint, a cent a request, and a free one. *)
Definition meter : Metering := {|
  m_dimensions := [{| dim_direction := Usage; dim_unit := Requests; dim_scale := 1; dim_period := None;
                      dim_tiers := [SampleUsage.flat_tier (f64_dec 1 2) []]; dim_meter := None |}];
  m_variants := []; m_sku_tiers := []; m_splits := []; m_schemes := Some [MppSession; MppCharge; X402Exact]; m_min_usd := None; m_upto := None |}.
Definition endpoint (method : HttpMethod) (path : string) (metering : option Metering) : Endpoint := {|
  ep_method := method; ep_path := path; ep_description := None; ep_resource := None; ep_routing := None; ep_metering := metering;
  ep_subscription := None |}.
Definition api : ApiSpec := {|
  api_subdomain := "api"; api_routing := RespondDirectly;
  api_endpoints := [endpoint Post "v1/chat" (Some meter); endpoint Get "v1/status" None]; api_operator := None; api_recipients := ∅;
  api_session := None; api_batch_settlement := None |}.
Definition backends : Backends := {|
  be_apis := [api]; be_mpps := ["USDC"]; be_browser_rpc_url := None; be_session_handles := ["USDC"]; be_session_mpps := [];
  be_fee_payer_signer := true; be_x402 := true; be_x402_upto := true; be_x402_batch := true |}.
Definition request (method path host : string) (authorization x402 : option string) : GateRequest := {|
  rq_method := method; rq_path := path; rq_host := Some host; rq_accept := None; rq_authorization := authorization;
  rq_content_length := None; rq_query := None; rq_x402_payment := x402 |}.
Definition decide_sample (resolver : option DeploymentPolicyResolver) (req : GateRequest) : gate GateDecision :=
  evaluate (λ _, None) (λ s, s) Sample.key_of_text SampleDeployment.text backends resolver req.
Definition chat (authorization x402 : option string) : GateRequest := request "POST" "v1/chat" "api.example.com" authorization x402.

(** Without a payment the gate answers with a challenge. *)
Example unpaid_is_challenged :
  match (run accepting (decide_sample None (chat None None)) []).2 with Respond r => gr_status r | _ => 0 end = 402.
Proof. vm_compute. reflexivity. Qed.

Lemma forward_requires_payment_witness :
  ∃ t f, run accepting (decide_sample None (chat None (Some "payment"))) [] = (t, Forward f) ∧
    admitted (λ _, None) (λ s, s) backends (chat None (Some "payment")) t f.
Proof.
  eexists _, _. split; [vm_compute; reflexivity|].
  apply (forward_requires_payment (λ _, None) (λ s, s) Sample.key_of_text SampleDeployment.text accepting). vm_compute. reflexivity.
Defined.

(** The same endpoint under a session and by a charge. *)
Example session_and_charge_are_forwarded :
  map (λ intent, match (run accepting (decide_sample None (chat (Some ("Payment " +:+ intent)) None)) []).2 with
                 | Forward f => route_endpoint (fw_route f)
                 | _ => None
                 end) ["session"; "charge"] = [Some 0; Some 0]%nat.
Proof. vm_compute. reflexivity. Qed.

Definition deployed : GateRequest := request "GET" "run" SampleDeployment.host (Some "Payment session") None.

Lemma passthrough_is_free_witness :
  let req := request "HEAD" "v1/status" "api.example.com" None None in
  ∃ t r, run accepting (decide_sample None req) [] = (t, Passthrough r) ∧ t = [].
Proof.
  eexists _, _. split; [vm_compute; reflexivity|].
  apply (passthrough_is_free (λ _, None) (λ s, s) Sample.key_of_text SampleDeployment.text accepting backends None
    (request "HEAD" "v1/status" "api.example.com" None None) [] (route_new api (request "HEAD" "v1/status" "api.example.com" None None)
      (Some (1%nat, endpoint Get "v1/status" None)))). vm_compute. reflexivity.
Defined.

Definition dollar : @VerifiedUptoOpen sample_kit := 1000000.
Definition served : @BatchOutcome sample_kit := true.
Definition handle : @SessionMpp sample_kit := "USDC".


Lemma batch_commits_only_completed_witness :
  Ok None = (Ok None : result string (option (string * string))) ∧
  ∃ released, [Event (ReleaseBatch served) (Ok tt)] = [Event (ReleaseBatch served) released].
Proof.
  exact (batch_commits_only_completed accepting backends {| bf_outcome := served |} (Some 503)
    [Event (ReleaseBatch served) (Ok tt)] (Ok None) eq_refl eq_refl).
Defined.

Definition pending : SessionForward := {|
  sf_handle := handle; sf_channel_id := "channel"; sf_committed_base_units := 200000; sf_settlement := Some (FixedPlan 50000);
  sf_available_base_units := 50000; sf_authorized_base_units := 1000000; sf_verified_payer := Some "payer"; sf_request_body_bytes := None;
  sf_payment_policy := None; sf_reservation := Some lease; sf_delegated := Some use |}.
Lemma delegated_charge_within_reservation_witness :
  ∃ p, settle_delegated_session SampleUsage.pointer SampleUsage.error_text pending SampleUsage.plain None = Some p ∧
    ∃ amount answer, 0 < amount ≤ 50000 ∧ (run accepting p []).1 = [Event (AuthorizeUsage handle use amount (Some lease)) answer].
Proof.
  eexists. split; [vm_compute; reflexivity|].
  set (answer := Ok {| auth_cumulative := 250000; auth_idle_timeout_seconds := 60 |} : result string DelegatedUsageAuthorization).
  destruct (delegated_charge_within_reservation SampleUsage.pointer SampleUsage.error_text accepting pending SampleUsage.plain None
    (match settle_delegated_session SampleUsage.pointer SampleUsage.error_text pending SampleUsage.plain None with Some p => p | None => Ret (Err "") end)
    [Event (AuthorizeUsage handle use 50000 (Some lease)) answer] (match answer with Ok a => Ok (Some (50000, a)) | Err e => Err e end))
    as [[Ht _]|[(touched & Ht & _)|(use' & amount & answer' & Huse & Hamount & Ht & _)]];
    [by vm_compute|by vm_compute|reflexivity|vm_compute; reflexivity|discriminate Ht| |].
  - apply (f_equal (map (λ e, match ev_call e with TouchChannel _ _ => true | _ => false end))) in Ht. discriminate Ht.
  - exists amount, answer'. split; [exact Hamount|]. injection Huse as <-. exact Ht.
Defined.
End SampleGate.
