(* ===== verification/SpecSafety.v ===== *)
(** * SpecSafety: what a checked specification guarantees at run time

    The gateway starts only on a specification [validate_api_spec] has no
    issue with ([cli/src/commands/server/start.rs]).  The theorems follow such
    a specification into the gate: the splits of a charge resolve, and no two
    legs of a payment coincide; the price of every accepted scheme is known;
    the session splits resolve at boot. *)
From S2P Require Import Prelude F64 MeteringTypes Text Affixes Decimals Accounting Pricing PushManifest UsageSettlement UpstreamAuth Routes.
From S2P Require Import ChargeTerms ApiSpecs Gate GateSamples.
#[local] Open Scope string_scope.
#[local] Open Scope list_scope.
#[local] Open Scope Z_scope.

(** ** Reading an empty list of issues *)
Lemma when_nil c i : when c i = [] ↔ c = false.
Proof. by destruct c. Qed.

Lemma flat_map_nil {A B} (f : A → list B) l : flat_map f l = [] ↔ ∀ x, x ∈ l → f x = [].
Proof.
  induction l as [|x l IH]; cbn [flat_map]; [split; [intros _ y Hy; by apply elem_of_nil in Hy|done]|].
  split.
  - intros [Hx Hl]%app_eq_nil y [->|Hy]%elem_of_cons; [done|]. by apply IH.
  - intros H. rewrite (H x) by apply list_elem_of_here. apply IH. intros y Hy. apply H. by apply list_elem_of_further.
Qed.

Lemma length_0 {A} (l : list A) : negb (bool_decide (length l = 0%nat)) = true ↔ l ≠ [].
Proof. rewrite negb_true_iff, bool_decide_eq_false. by destruct l. Qed.

Ltac no_issues :=
  repeat match goal with
  | H : _ ++ _ = [] |- _ => apply app_eq_nil in H as [? H]
  | H : when _ _ = [] |- _ => apply when_nil in H
  end.

Lemma repeats_nil {A K} `{EqDecision K} (key : A → K) l : ∀ seen,
  repeats key l seen = [] ↔ NoDup (map key l) ∧ ∀ x, x ∈ l → key x ∉ seen.
Proof.
  induction l as [|x l IH]; intros seen; cbn [repeats map].
  { split; [intros _; split; [constructor|intros x Hx; by apply elem_of_nil in Hx]|done]. }
  case_bool_decide as Hx.
  { split; [done|]. intros [_ H]. destruct (H x); [apply list_elem_of_here|done]. }
  rewrite IH, NoDup_cons. split.
  - intros [Hnd Hin]. split; [split; [|done]|].
    + intros (y & E & Hy)%list_elem_of_fmap. apply (Hin y Hy). rewrite <- E. set_solver.
    + intros y [->|Hy]%elem_of_cons; [done|]. specialize (Hin y Hy). set_solver.
  - intros [[Hnew Hnd] Hin]. split; [done|]. intros y Hy [|E%list_elem_of_singleton]%elem_of_app.
    + apply (Hin y); [by apply list_elem_of_further|done].
    + apply Hnew. rewrite <- E. by apply list_elem_of_fmap_2.
Qed.

(** ** The checks of an endpoint *)
Section checked.
Context (api : ApiSpec) (e : Endpoint) (m : Metering).
Context (Hvalid : validate_api_spec api = []) (He : e ∈ api_endpoints api) (Hm : ep_metering e = Some m).
Abbreviation recipients := (api_recipients api).

Lemma checked_metering : validate_metering api m (ep_path e) = [].
Proof using Hvalid He Hm.
  unfold validate_api_spec in Hvalid. no_issues. match goal with H : flat_map _ _ = [] |- _ => apply flat_map_nil with (x := e) in H; [|done]; rename H into H0 end.
  unfold validate_endpoint in H0. rewrite Hm in H0. by no_issues.
Qed.

(** A rule names a known recipient and has one of amount and percent. *)
Definition well_formed_rule (rule : SplitRule) : Prop :=
  is_Some (recipients !! split_recipient rule) ∧ (is_Some (split_amount rule) ↔ split_percent rule = None).

Lemma rule_checked a b rule : unknown recipients rule = false → rule_issue a b rule = [] → well_formed_rule rule.
Proof.
  unfold unknown, rule_issue. rewrite bool_decide_eq_false. intros Hk Hr. split; [by apply not_eq_None_Some|].
  destruct (split_amount rule), (split_percent rule); naive_solver.
Qed.

Lemma tier_rules_checked variant dims d t rule :
  validate_tier_splits_in dims recipients (ep_path e) variant = [] → d ∈ dims → t ∈ dim_tiers d → rule ∈ tier_splits t → well_formed_rule rule.
Proof.
  unfold validate_tier_splits_in. intros H Hd Ht Hr. no_issues.
  apply flat_map_nil with (x := d) in H; [|done]. apply flat_map_nil with (x := t) in H; [|done].
  unfold validate_tier in H. case_bool_decide as Hl; [by destruct (tier_splits t); [apply elem_of_nil in Hr|]|].
  apply app_eq_nil in H as [H _]. apply flat_map_nil with (x := rule) in H; [|done]. no_issues. by eapply rule_checked.
Qed.

Lemma rules_checked rule : rule ∈ all_split_rules m → well_formed_rule rule.
Proof using Hvalid He Hm.
  pose proof checked_metering as H. unfold validate_metering in H. no_issues.
  unfold all_split_rules. rewrite !elem_of_app.
  assert (∀ variant dims, (variant, dims) ∈ dimension_sets m →
    rule ∈ flat_map (λ d, flat_map tier_splits (dim_tiers d)) dims → well_formed_rule rule) as Htier.
  { intros variant dims Hin Hrule.
    match goal with H : validate_tier_splits _ _ _ = [] |- _ => apply flat_map_nil with (x := (variant, dims)) in H; [|done]; rename H into Hsets end.
    apply list_elem_of_In, in_flat_map in Hrule as (d & Hd & Hrule). apply in_flat_map in Hrule as (t & Ht & Hrule).
    rewrite <- !list_elem_of_In in *. by eapply tier_rules_checked. }
  intros [Hr|[Hr|Hr]].
  - repeat match goal with
    | H : validate_split_recipients _ _ _ = [] |- _ => apply flat_map_nil with (x := rule) in H; [|done]; apply when_nil in H
    | H : validate_split_rules _ _ = [] |- _ => apply flat_map_nil with (x := rule) in H; [|done]
    end. by eapply rule_checked.
  - apply (Htier "" (m_dimensions m)); [apply list_elem_of_here|done].
  - apply list_elem_of_In, in_flat_map in Hr as (v & Hv & Hr). apply (Htier (variant_label v) (variant_dimensions v)).
    + apply list_elem_of_further, list_elem_of_fmap. exists v. split; [done|]. by apply list_elem_of_In.
    + by apply list_elem_of_In.
Qed.

(** The rules a charge applies are one of the sets that were checked. *)
Lemma applied_set_checked props hint : ∃ label, (label, resolve_split_rules m props hint) ∈ split_sets m.
Proof.
  unfold resolve_split_rules, split_sets. destruct (find _ _) as [rules|] eqn:Hf; cbn [default]; [|eexists; apply list_elem_of_here].
  apply find_some in Hf as [Hin%list_elem_of_In Hne]. apply length_0 in Hne. apply list_elem_of_omap in Hin as (d & Hd & Ht).
  apply fmap_Some in Ht as (t & Ht%select_tier_in & ->). apply fixed_charge_dimensions_in, elem_of_app in Hd.
  assert (∀ variant dims, (variant, dims) ∈ dimension_sets m → d ∈ dims →
    ∃ label, (label, tier_splits t) ∈ flat_map (λ '(variant, dimensions), tier_sets variant dimensions) (dimension_sets m)) as Hset.
  { intros variant dims Hin Hdims. exists {| label_variant := variant; label_per_unit := Some (f64_div (price_usd t) (scale_of d)) |}.
    apply list_elem_of_In, in_flat_map. exists (variant, dims). split; [by apply list_elem_of_In|].
    apply in_flat_map. exists d. split; [by apply list_elem_of_In|]. apply list_elem_of_In, list_elem_of_omap. exists t.
    split; [done|]. rewrite bool_decide_eq_false_2; [done|]. by destruct (tier_splits t). }
  assert (∃ variant dims, (variant, dims) ∈ dimension_sets m ∧ d ∈ dims) as (variant & dims & Hin & Hdims).
  { destruct Hd as [Hd|Hd]; [exists "", (m_dimensions m); split; [apply list_elem_of_here|done]|].
    apply list_elem_of_In, in_flat_map in Hd as (v & Hv & Hd). exists (variant_label v), (variant_dimensions v).
    split; [|by apply list_elem_of_In]. apply list_elem_of_further, list_elem_of_fmap. exists v. split; [done|by apply list_elem_of_In]. }
  destruct (Hset variant dims Hin Hdims) as [label Hl]. exists label. by apply list_elem_of_further.
Qed.

Lemma applied_set_distinct props hint : let rules := resolve_split_rules m props hint in
  if has_session_scheme api m then NoDup (map (session_key recipients) rules) else NoDup (map (charge_key recipients) rules).
Proof using Hvalid He Hm.
  cbv zeta. destruct (applied_set_checked props hint) as [label Hin].
  pose proof checked_metering as H. unfold validate_metering in H. no_issues.
  match goal with H : validate_split_recipient_uniqueness _ _ _ _ = [] |- _ => apply flat_map_nil with (x := (label, resolve_split_rules m props hint)) in H; [|done]; rename H into Hset end.
  destruct (has_session_scheme api m); apply map_eq_nil, repeats_nil in Hset; by destruct Hset.
Qed.
End checked.

(** ** The splits of a charge *)
Section charged.
Context (env_var : string → option string) (to_lowercase : string → string).
Context (recipients : gmap string RecipientAlias) (total_usd : f64) (decimals : Z) (query_params : gmap string string).
Abbreviation rule_outcome := (resolve_rule env_var to_lowercase recipients total_usd decimals query_params).
Abbreviation splits_outcome := (λ rules, resolve_splits env_var to_lowercase rules recipients total_usd decimals query_params).

(** The errors only a request or the environment brings about. *)
Definition runtime_error (err : SplitError) : Prop :=
  match err with SplitsExceedTotal _ _ | UnresolvableAccount _ _ => True | _ => False end.

Lemma resolve_account_error account name :
  match resolve_account env_var to_lowercase account name query_params with Ok _ => True | Err err => runtime_error err end.
Proof.
  unfold resolve_account. destruct (_ || _); [done|].
  set (own := env_var _). destruct own as [[|]|]; [|done|]; (destruct (query_params !! to_lowercase _); [done|]);
    (destruct (try_suffixes _ _ _); [done|]); by destruct (query_params !! name).
Qed.

Lemma well_formed_rule_resolves api rule :
  api_recipients api = recipients → well_formed_rule api rule →
  match rule_outcome rule with Ok _ => True | Err err => runtime_error err end.
Proof.
  intros <- [[alias Ha] Hone]. unfold resolve_rule. rewrite Ha. cbn [ok_or mbind result_bind].
  pose proof (resolve_account_error (alias_account alias) (split_recipient rule)) as Hacc.
  destruct (split_amount rule), (split_percent rule); cbn [mbind result_bind]; [exfalso; naive_solver| | |exfalso; naive_solver];
    by destruct (resolve_account _ _ _ _ _).
Qed.

Lemma rules_resolve api rules :
  api_recipients api = recipients → (∀ rule, rule ∈ rules → well_formed_rule api rule) →
  match splits_outcome rules with Ok _ => True | Err err => runtime_error err end.
Proof.
  intros Hr Hw. unfold resolve_splits. destruct rules as [|rule0 rules']; [done|]. set (rules := rule0 :: rules') in *. clearbody rules.
  destruct (try_fold _ _ rules) as [[resolved total]|err] eqn:Hf.
  { cbn [mbind result_bind]. by destruct (f64_geb total total_usd). }
  cbn [mbind result_bind]. revert Hf Hw. generalize (@nil ResolvedSplit, f64_zero) as acc. clear rule0 rules'.
  induction rules as [|rule rules IH]; intros [r t]; [done|]. cbn [try_fold]. intros Hf Hw.
  pose proof (well_formed_rule_resolves api rule Hr (Hw rule (list_elem_of_here _ _))) as Hrule.
  destruct (rule_outcome rule) as [[split usd]|err']; [|by cbn [mbind result_bind] in Hf; injection Hf as <-].
  cbn [mbind result_bind] in Hf. apply IH in Hf; [done|]. intros r' Hr'. apply Hw. by apply list_elem_of_further.
Qed.

(** An account that is not a [${VAR}] template is the recipient itself. *)
Definition literal_accounts (rules : list SplitRule) : Prop :=
  ∀ rule alias, rule ∈ rules → recipients !! split_recipient rule = Some alias → starts_with "${" (alias_account alias) = false.

Lemma resolved_legs rules ps : literal_accounts rules → splits_outcome rules = Ok ps →
  map (λ p, (rsplit_recipient p, default "" (rsplit_memo p))) ps = map (charge_key recipients) rules.
Proof.
  intros Hlit (qs & -> & HF & _)%resolve_splits_each. induction HF as [|rule q rules qs Hq _ IH]; [done|]. cbn [map]. f_equal.
  - unfold resolve_rule in Hq. inv_ok. cbn [fst rsplit_recipient rsplit_memo].
    unfold charge_key, account_of. rewrite Hok. cbn [fmap option_fmap option_map default].
    unfold resolve_account in Hok1. rewrite (Hlit rule a) in Hok1 by (try done; apply list_elem_of_here).
    cbn [negb orb] in Hok1. by injection Hok1 as <-.
  - apply IH. intros rule' alias' Hin. apply Hlit. by apply list_elem_of_further.
Qed.
End charged.

Lemma NoDup_session_charge recipients rules : NoDup (map (session_key recipients) rules) → NoDup (map (charge_key recipients) rules).
Proof.
  intros Hnd. apply (NoDup_fmap_1 fst). rewrite <- list_fmap_compose. exact Hnd.
Qed.


(** ** The price of every accepted scheme *)
Lemma resolve_variant_member vs hint v : resolve_variant vs hint = Some v → v ∈ vs.
Proof.
  destruct hint as [h|]; [apply resolve_variant_in|]. unfold resolve_variant.
  assert (∀ acc, acc.2 = None → (∀ d, acc.1 = Some d → d ∈ vs) → ∀ ws, (∀ w, w ∈ ws → w ∈ vs) →
    ∃ d, foldl (resolve_variant_step None) acc ws = (d, None) ∧ ∀ v, d = Some v → v ∈ vs) as Hfold.
  { intros acc Ha Hd ws. revert acc Ha Hd. induction ws as [|w ws IH]; intros [d b] Ha Hd Hws; cbn [foldl fst snd] in *; [by exists d; subst|].
    apply IH; [|intros d' Hd'|intros w' Hw'; by apply Hws, list_elem_of_further];
      unfold resolve_variant_step in *; destruct (eq_ignore_ascii_case _ _); cbn in *; try done; [|by apply Hd].
    destruct d as [d|]; [by apply Hd|]. injection Hd' as <-. apply Hws, list_elem_of_here. }
  destruct (Hfold (None, None) eq_refl (λ _, ltac:(done)) vs (λ _ Hw, Hw)) as (d & -> & Hd). intros ->. by apply Hd.
Qed.

(** A quoted price has the dimensions of the top level or of a variant. *)
Lemma quoted_dimensions m props hint p :
  resolve_price (S := InMemoryStore) m props hint None = Some p →
  (length (rp_dimensions p) ≤ 1)%nat ∨ ∃ variant dims, (variant, dims) ∈ dimension_sets m ∧ length (rp_dimensions p) = length dims.
Proof.
  assert (∀ dims, length (rp_dimensions (resolve_dimensions (S := InMemoryStore) dims props None)) = length dims) as Hlen
    by (intros; apply length_map).
  assert (("", m_dimensions m) ∈ dimension_sets m) as Htop by apply list_elem_of_here.
  assert (∀ v, v ∈ m_variants m → (variant_label v, variant_dimensions v) ∈ dimension_sets m) as Hvar.
  { intros v Hv. apply list_elem_of_further, list_elem_of_fmap. by exists v. }
  unfold resolve_price. destruct (variant_branch m hint) as [dims|] eqn:Hb.
  - intros [= <-]. right. rewrite Hlen. unfold variant_branch in Hb. destruct (m_variants m) as [|first rest] eqn:Hvs; [done|]. rewrite <- Hvs in *.
    destruct (resolve_variant (m_variants m) hint) as [v|] eqn:Hv.
    + injection Hb as <-. eexists _, _. split; [apply Hvar; by eapply resolve_variant_member|done].
    + destruct (m_dimensions m) as [|d ds] eqn:Hd; injection Hb as <-; [|eexists _, _; by split].
      eexists _, _. split; [apply Hvar; rewrite Hvs; apply list_elem_of_here|done].
  - destruct (m_dimensions m) as [|d ds] eqn:Hd; [|intros [= <-]; right; rewrite Hlen; eexists _, _; by split].
    destruct (m_sku_tiers m); [done|]. intros [= <-]. by left.
Qed.

Section quoted.
Context `{GateKit}.

(** C33. Under a specification without issues the gate never answers that an
    endpoint's price is misconfigured: a scheme with a fixed amount always
    has one, and an upto channel always has a ceiling. *)
Theorem checked_prices_are_quoted api e m props hint :
  validate_api_spec api = [] → e ∈ api_endpoints api → ep_metering e = Some m →
  (∀ scheme, scheme ∈ accepted_schemes m → is_fixed_scheme scheme = true → ∃ amount, fixed_charge_amount m props hint = Ok amount) ∧
  (X402Upto ∈ accepted_schemes m → is_Some (upto_max_usd m (resolve_price (S := InMemoryStore) m props hint None))).
Proof.
  intros Hvalid He Hm. pose proof (checked_metering api e m Hvalid He Hm) as Hc. unfold validate_metering in Hc. no_issues. split.
  - intros scheme Hs Hfixed. unfold validate_fixed_scheme_dimensions in Hc. case_bool_decide as Hnil.
    { exfalso. assert (scheme ∈ filter (λ s, is_fixed_scheme s = true) (accepted_schemes m)) as Hin by (by apply list_elem_of_filter).
      rewrite Hnil in Hin. by apply elem_of_nil in Hin. }
    no_issues. unfold fixed_charge_amount, resolve_fixed_price. unfold has_aggregate_dimensions in Hc. apply find_existsb_None in Hc. rewrite Hc.
    by destruct (fixed_charge_dimensions m props hint); eexists.
  - intros Hu. unfold upto_max_usd. destruct (m_upto m ≫= upto_max) as [usd|] eqn:Hmax; [done|].
    match goal with H : validate_upto_ceiling _ _ = [] |- _ => unfold validate_upto_ceiling in H; apply when_nil in H; rename H into Hceil end.
    rewrite Hmax, andb_true_r, (bool_decide_eq_true_2 _ Hu), andb_true_r in Hceil. prop_bools.
    match goal with H : has_aggregate_dimensions m = false |- _ => rewrite H end.
    destruct (resolve_price m props hint None) as [p|] eqn:Hp; cbn [fmap option_fmap option_map]; [|done].
    enough (length (rp_dimensions p) ≤ 1)%nat as Hlen by (destruct (rp_dimensions p) as [|? [|]]; cbn [length] in Hlen; [done|done|lia]).
    apply quoted_dimensions in Hp as [|(variant & dims & Hin & ->)]; [done|].
    apply elem_of_cons in Hin as [[= -> ->]|(v & [= -> ->] & Hv)%list_elem_of_fmap]; [by apply Nat.ltb_ge|].
    apply Nat.ltb_ge. match goal with H : existsb _ _ = false |- _ => rename H into Hvs end.
    destruct (1 <? length (variant_dimensions v))%nat eqn:E; [|done]. exfalso.
    apply (eq_true_false_abs _ (proj2 (existsb_exists _ _) (ex_intro _ v (conj (proj1 (list_elem_of_In _ _) Hv) E)))) in Hvs. done.
Qed.
End quoted.

(** ** Session splits *)
Section session.
Context (env_var : string → option string) (pubkey_from_str : string → result string Pubkey).
Context (recipients : gmap string RecipientAlias).
Abbreviation session_rule := (resolve_session_rule env_var pubkey_from_str recipients).
Abbreviation session_step := (λ '(splits, total_bps) rule, '(split, total_bps) ← session_rule rule total_bps; Ok (splits ++ [split], total_bps)).

(** The accounts of the rules are in the environment and are keys. *)
Definition accounts_resolve (rules : list SplitRule) : Prop :=
  ∀ rule alias, rule ∈ rules → recipients !! split_recipient rule = Some alias →
    ∃ account key, resolve_static_account env_var (alias_account alias) = Ok account ∧ pubkey_from_str account = Ok key.

Ltac refuted H := exfalso; cbn in H; repeat case_match; simplify_eq/=.

(** A rule without issues resolves, as long as a share is left. *)
Lemma checked_rule_resolves rule rules total seen total' :
  validate_session_rules (rule :: rules) recipients total seen = ([], total') → accounts_resolve (rule :: rules) →
  ∃ bps key seen', 1 ≤ bps < 10000 ∧ validate_session_rules rules recipients (wrapping 32 (total + bps)) seen' = ([], total') ∧
    (0 ≤ total → total + bps < 10000 → session_rule rule total = Ok ((key, bps), total + bps)).
Proof.
  intros Hv Hacc. cbn [validate_session_rules] in Hv. unfold resolve_session_rule.
  destruct (split_amount rule) as [a|]; [by refuted Hv|].
  change (bool_decide (is_Some None)) with false in *. cbn [negb when] in Hv.
  destruct (split_percent rule) as [p|] eqn:Hp; [|exfalso; repeat (case_match; try discriminate)].
  destruct (negb (f64_is_finite p)) eqn:Hfin; [by refuted Hv|].
  destruct (f64_leb p f64_zero) eqn:Hpos; [by refuted Hv|]. cbn [orb] in Hv.
  destruct (bps_in_range (basis_points_of p)) eqn:Hr; [|exfalso; cbn in Hv; repeat (case_match; try discriminate)]. cbn [negb] in Hv.
  destruct (recipients !! split_recipient rule) as [alias|] eqn:Ha; [|exfalso; repeat (case_match; try discriminate)].
  case_bool_decide; [by refuted Hv|].
  destruct (validate_session_rules rules _ _ _) as [issues t] eqn:Hrest. injection Hv as -> ->.
  destruct (Hacc rule alias (list_elem_of_here _ _) Ha) as (account & key & Hsa & Hkey).
  pose proof Hr as Hrange. unfold bps_in_range in Hrange. apply andb_true_iff in Hrange as [Hlo Hhi].
  pose proof (as_u64_round_range _ Hlo Hhi) as Hbps. change (f64_round (f64_mul p (f64_of_Z 100))) with (basis_points_of p) in Hbps.
  exists (f64_as_u64 (basis_points_of p)), key. eexists. split; [done|].
  unfold f64_as_u32 in Hrest. rewrite Z.min_r in Hrest by lia. split; [exact Hrest|]. intros H0 Ht.
  cbn [ok_or mbind result_bind]. rewrite Hfin, Hpos, Hr. cbn [reject_if mbind result_bind negb]. unfold f64_as_u16. rewrite Z.min_r by lia. unfold wrapping. rewrite Z.mod_small by lia.
  destruct (Z.leb_spec 10000 (total + f64_as_u64 (basis_points_of p))); [lia|]. cbn [reject_if mbind result_bind].
  rewrite Hsa. cbn [mbind result_bind]. by rewrite Hkey.
Qed.

Lemma checked_rules_resolve rules : ∀ total seen total' acc,
  validate_session_rules rules recipients total seen = ([], total') → accounts_resolve rules →
  0 ≤ total → total + 10000 * zlen rules < 2 ^ 32 → total' < 10000 →
  ∃ out, try_fold session_step (acc, total) rules = Ok (acc ++ out, total') ∧ length out = length rules ∧
    Forall (λ split, 1 ≤ split.2 < 10000) out ∧ total' = total + zsum (map snd out).
Proof.
  induction rules as [|rule rules IH]; intros total seen total' acc Hv Hacc H0 Hlen Ht.
  { injection Hv as <-. exists []. rewrite app_nil_r. split; [done|]. split; [done|]. split; [constructor|]. unfold zsum. cbn. lia. }
  destruct (checked_rule_resolves _ _ _ _ _ Hv Hacc) as (bps & key & seen' & Hbps & Hrest & Hres).
  unfold zlen in Hlen. rewrite length_cons in Hlen. unfold wrapping in Hrest. rewrite Z.mod_small in Hrest by lia.
  destruct (IH (total + bps) seen' total' (acc ++ [(key, bps)])) as (out & Hfold & Hl & HF & Hsum); [done| |lia|unfold zlen; lia|done|].
  { intros r alias Hin. apply Hacc. by apply list_elem_of_further. }
  assert (0 ≤ zsum (map snd out)) as Hz.
  { apply zsum_nonneg, Forall_fmap. eapply Forall_impl; [exact HF|]. cbn. lia. }
  exists ((key, bps) :: out). cbn [try_fold]. rewrite Hres by lia. cbn [mbind result_bind]. split; [|split; [|split]].
  - rewrite Hfold. by rewrite <- app_assoc.
  - cbn. by rewrite Hl.
  - by constructor.
  - cbn [map snd]. rewrite zsum_cons. lia.
Qed.
End session.

(** The session splits of a specification without issues resolve when the
    gateway boots, if the accounts they name are keys: every share is between
    1 and 9999 basis points, and together they leave the payee a positive
    one. *)
Theorem checked_session_splits_resolve api session env_var pubkey_from_str :
  validate_api_spec api = [] → api_session api = Some session → zlen (session_splits session) ≤ 400000 →
  accounts_resolve env_var pubkey_from_str (api_recipients api) (session_splits session) →
  ∃ splits, resolve_session_splits env_var pubkey_from_str api session = Ok splits ∧
    length splits = length (session_splits session) ∧ Forall (λ split, 1 ≤ split.2 < 10000) splits ∧ zsum (map snd splits) < 10000.
Proof.
  intros Hvalid Hs Hlen Hacc. unfold validate_api_spec in Hvalid. rewrite Hs in Hvalid. no_issues.
  match goal with H : validate_session _ _ = [] |- _ => unfold validate_session in H; apply app_eq_nil in H as [H _]; rename H into Hv end.
  unfold validate_session_splits in Hv. destruct (validate_session_rules _ _ _ _) as [issues total] eqn:Hr.
  apply app_eq_nil in Hv as [-> Ht%when_nil]. apply Z.leb_gt in Ht.
  destruct (checked_rules_resolve env_var pubkey_from_str _ _ _ _ _ [] Hr Hacc) as (out & Hf & Hl & HF & Hsum); [lia|lia|done|].
  exists out. unfold resolve_session_splits, SessionSplit in *. rewrite Hf. cbn [mbind result_bind app]. split; [done|]. split; [done|]. split; [done|lia].
Qed.

(** ** A specification without issues *)
Module SampleSpec.
Definition key (n : Z) : Pubkey := replicate 32 n.
Definition pubkey_from_str (s : string) : result string Pubkey :=
  if bool_decide (s = "VendorWallet") then Ok (key 7) else if bool_decide (s = "PlatformWallet") then Ok (key 8) else Err "not a key".
Definition env_var (name : string) : option string := if bool_decide (name = "PLATFORM") then Some "PlatformWallet" else None.

Definition share (name : string) (percent : Z) : SplitRule :=
  {| split_recipient := name; split_amount := None; split_percent := Some (f64_of_Z percent); split_memo := None |}.
Definition fee (name : string) (cents : Z) : SplitRule :=
  {| split_recipient := name; split_amount := Some (f64_dec cents 2); split_percent := None; split_memo := Some "fee" |}.
Definition per_request (cents : Z) : MeterDimension := {|
  dim_direction := Usage; dim_unit := Requests; dim_scale := 1; dim_period := None;
  dim_tiers := [SampleUsage.flat_tier (f64_dec cents 2) []]; dim_meter := None |}.
Definition metering (dimensions : list MeterDimension) (variants : list MeterVariant) (splits : list SplitRule) : Metering := {|
  m_dimensions := dimensions; m_variants := variants; m_sku_tiers := []; m_splits := splits;
  m_schemes := Some [MppCharge; X402Upto]; m_min_usd := None; m_upto := None |}.
Definition endpoint (m : Metering) : Endpoint := {|
  ep_method := Post; ep_path := "v1/speak"; ep_description := None; ep_resource := None; ep_routing := None; ep_metering := Some m;
  ep_subscription := None |}.
Definition session : SessionSpec := {|
  cap_usdc := f64_of_Z 5; min_voucher_delta := 0; voucher_signer := ClientSigner; idle_timeout_options_seconds := None;
  close_delay_ms := 600000; close_batch_interval_ms := 60000; settlement_interval_ms := 5000;
  session_splits := [share "vendor" 20; share "platform" 5]; reuse_from_chain := false |}.
Definition spec (m : Metering) : ApiSpec := {|
  api_subdomain := "speech"; api_routing := RespondDirectly; api_endpoints := [endpoint m]; api_operator := None;
  api_recipients := {[ "vendor" := {| alias_account := "VendorWallet"; alias_label := Some "Vendor" |};
                       "platform" := {| alias_account := "${PLATFORM}"; alias_label := None |} ]};
  api_session := Some session; api_batch_settlement := None |}.

Definition two_splits : Metering := metering [per_request 10] [] [fee "vendor" 2; share "platform" 10].
Definition splits (m : Metering) : result SplitError (list ResolvedSplit) :=
  resolve_splits env_var id (resolve_split_rules m default_properties None) (api_recipients (spec m)) (f64_dec 10 2) 6 ∅.


Lemma checked_prices_are_quoted_witness :
  (∃ amount, fixed_charge_amount (H := sample_kit) two_splits default_properties None = Ok amount) ∧
  is_Some (upto_max_usd two_splits (resolve_price (S := InMemoryStore) two_splits default_properties None None)).
Proof.
  destruct (checked_prices_are_quoted (H := sample_kit) (spec two_splits) (endpoint two_splits) two_splits default_properties None)
    as [Hfixed Hupto]; [by vm_compute|left|done|].
  split; [apply (Hfixed MppCharge); [left|done]|apply Hupto; right; left].
Defined.

Lemma checked_session_splits_resolve_witness :
  resolve_session_splits env_var pubkey_from_str (spec two_splits) session = Ok [(key 7, 2000); (key 8, 500)] ∧
  ∃ splits, resolve_session_splits env_var pubkey_from_str (spec two_splits) session = Ok splits ∧
    length splits = length (session_splits session) ∧ Forall (λ split, 1 ≤ split.2 < 10000) splits ∧ zsum (map snd splits) < 10000.
Proof.
  split; [by vm_compute|].
  apply (checked_session_splits_resolve (spec two_splits) session env_var pubkey_from_str); [by vm_compute|done|by vm_compute|].
  intros rule alias [->|[->|[]%elem_of_nil]%elem_of_cons]%elem_of_cons [= <-];
    [exists "VendorWallet", (key 7)|exists "PlatformWallet", (key 8)]; split; by vm_compute.
Defined.

(** The splits of an endpoint priced by its variants alone are held against
    no price: the specification passes, and the split that takes more than the
    charge is then left out of it, so the recipient is paid nothing. *)
Definition speaker : MeterVariant := {|
  variant_param := "voices"; variant_value := "chirp"; variant_description := None; variant_dimensions := [per_request 5] |}.
Definition by_variant : Metering := metering [] [speaker] [fee "vendor" 9].
Theorem variant_splits_are_not_priced :
  validate_api_spec (spec by_variant) = [] ∧
  resolve_splits env_var id (resolve_split_rules by_variant default_properties (Some "chirp")) (api_recipients (spec by_variant))
    (f64_dec 5 2) 6 ∅ = Err (SplitsExceedTotal (f64_dec 5 2) (f64_dec 9 2)) ∧
  resolve_charge_splits env_var id 6 (resolve_split_rules by_variant default_properties (Some "chirp")) (api_recipients (spec by_variant))
    None "0.05" = [] ∧
  validate_api_spec (spec (metering [per_request 5] [] [fee "vendor" 9])) = [SplitsReachPrice "v1/speak" (f64_dec 9 2) (f64_dec 5 2)].
Proof. repeat split; vm_compute; reflexivity. Qed.
End SampleSpec.
