(* ===== verification/UpstreamRequest.v ===== *)
(** * UpstreamRequest: the request the gateway sends on

    [core/src/server/proxy.rs] from the gate's decision to the upstream
    request: the rewritten URL, the headers that are passed on, the identity
    the gateway vouches for, and the credentials it adds; and back, the
    response headers with those credentials removed.  URLs, hashes and the
    percent codecs are the libraries'; the answer of a token endpoint, the
    clock and the random source are inputs. *)
From S2P Require Import Prelude F64 MeteringTypes Text Affixes Decimals Accounting Pricing PushManifest UsageSettlement UpstreamAuth Routes.
From S2P Require Import ChargeTerms ApiSpecs Gate.
#[local] Open Scope string_scope.
#[local] Open Scope list_scope.
#[local] Open Scope Z_scope.

(** ** The libraries *)
Class UpstreamKit := {
  Url : Type;
  url_parse : string → result string Url;
  url_path : Url → string;
  url_query : Url → option string;
  url_host_str : Url → option string;
  url_port : Url → option Z;
  query_pairs : Url → list (string * string);
  clear_query : Url → Url;
  append_pair : Url → string → string → Url;
  hmac_bytes : HmacAlgorithm → list Z → list Z → result string (list Z);
  digest_bytes : HmacDigestAlgorithm → list Z → list Z;
  base64_encode : list Z → string;
  percent_encode : string → string → string;
  percent_decode_lossy : string → string;
  byte_serialize : string → string;
  form_parse : string → list (string * string);
  value_from_str : string → bool;
  value_to_str : string → bool;
}.

(** What a [prepare] binding draws from the clock and the random source. *)
Record Draw := {
  timestamp_text : HmacTimestampFormat → string;
  uuid_text : string;
  random_bytes : Z → list Z
}.

(** ** Header names *)
Definition STRIP_HEADERS : list string := [
  "host"; "connection"; "transfer-encoding"; "authorization"; "payment-signature"; "payment-required"; "x-payment";
  "x-pay-verified-payer"; "x-pay-verified-channel"; "x-pay-original-host"; "x-pay-gateway-host"; "x-pay-wallet-resolver-proof";
  "x-pay-payment-policy"; "x-pay-payment-policy-version"; "forwarded"; "x-real-ip"; "x-host"; "x-http-host"; "x-rewrite-url";
  "x-client-ip"; "true-client-ip"; "cf-connecting-ip"; "fastly-client-ip"; "x-cluster-client-ip"].
Definition STRIP_HEADER_PREFIXES : list string := ["x-forwarded-"; "x-original-"].
(** [name.get(..prefix.len())] with its case ignored. *)
Definition has_prefix_ignore_case (name prefix : string) : bool :=
  (String.length prefix <=? String.length name)%nat && eq_ignore_ascii_case (String.substring 0 (String.length prefix) name) prefix.
Definition is_stripped_request_header (name : string) : bool :=
  existsb (eq_ignore_ascii_case name) STRIP_HEADERS || existsb (has_prefix_ignore_case name) STRIP_HEADER_PREFIXES.

(** ** Upstream URLs *)

(** [format!("{base}{rewritten}{query}")] and the segments it is built from;
    [join] is [slice::join]. *)
Fixpoint join (sep : string) (l : list string) : string :=
  match l with [] => "" | [s] => s | s :: l => s +:+ sep +:+ join sep l end.

Definition is_placeholder (pat : string) : bool := starts_with "{" pat && ends_with "}" pat.
Fixpoint prefix_matches (pats segments : list string) : bool :=
  match pats, segments with
  | [], _ => true
  | pat :: pats, segment :: segments => (is_placeholder pat || bool_decide (pat = segment)) && prefix_matches pats segments
  | _ :: _, [] => false
  end.
Fixpoint substitute (pats : list string) (value : string) (segments : list string) : list string :=
  match pats, segments with
  | pat :: pats, segment :: segments => (if is_placeholder pat then value else segment) :: substitute pats value segments
  | _, segments => segments
  end.
(** The first place the prefix matches at. *)
Fixpoint rewrite_segments (pats : list string) (value : string) (segments : list string) : list string :=
  if prefix_matches pats segments then substitute pats value segments
  else match segments with [] => [] | segment :: rest => segment :: rewrite_segments pats value rest end.

Section rewriting.
Context (env_var : string → option string).
Definition rewrite_path (path : string) (rewrites : list PathRewrite) : string :=
  "/" +:+ join "/" (foldl (λ segments r, rewrite_segments (split_on slash (rewrite_prefix r)) (default "" (env_var (rewrite_env r))) segments)
                      (split_on slash (default path (strip_prefix "/" path))) rewrites).
Definition question_mark : Ascii.ascii := Ascii.ascii_of_nat 63.
Definition upstream_url (routing : RoutingConfig) (path_and_query : string) : option string :=
  match routing with
  | Proxy url path_rewrites _ =>
      let base := trim_end_matches slash url in
      match path_rewrites with
      | [] => Some (base +:+ path_and_query)
      | _ =>
          let '(path, query) := match split_once question_mark path_and_query with
                                | Some (path, query) => (path, "?" +:+ query)
                                | None => (path_and_query, "")
                                end in
          Some (base +:+ rewrite_path path path_rewrites +:+ query)
      end
  | RespondDirectly => None
  end.
End rewriting.

(** The routing of a path, and whether its authentication reads the body. *)
Definition resolve_routing (api : ApiSpec) (path : string) : RoutingConfig :=
  default (api_routing api)
    ('(_, e) ← find_endpoint_by_path (api_endpoints api) (trim_start_matches slash path); ep_routing e).
Definition digests_body (binding : HmacPrepareBinding) : bool := match binding_value binding with BodyDigest _ _ => true | _ => false end.
Definition routing_signs_request_body (api : ApiSpec) (route : UpstreamRoute) : bool :=
  match routing_auth (routing_of route api) with
  | Some (Hmac _ _ _ _ prepare _ _) | Some (AccessToken prepare _ _) => existsb digests_body prepare
  | _ => false
  end.

(** ** Credentials in URLs *)
Record UrlCredentials := { cred_query : list string; cred_path_segments : list string }.
Definition no_credentials : UrlCredentials := {| cred_query := []; cred_path_segments := [] |}.
Definition push_query (value : string) (c : UrlCredentials) : UrlCredentials :=
  if bool_decide (value = "") then c else {| cred_query := cred_query c ++ [value]; cred_path_segments := cred_path_segments c |}.
Definition push_path (value : string) (c : UrlCredentials) : UrlCredentials :=
  {| cred_query := cred_query c;
     cred_path_segments := cred_path_segments c ++ filter (λ segment, segment ≠ "") (split_on slash value) |}.

Section upstream.
Context `{UpstreamKit}.
(** [std::env::var]: [None] is unset or not Unicode. *)
Context (env_var : string → option string).

(** ** The prepared request *)
Record PreparedUpstreamRequest := {
  prep_url : Url;
  prep_headers : list (string * string);
  prep_credentials : UrlCredentials
}.
Definition set_url (url : Url) (p : PreparedUpstreamRequest) : PreparedUpstreamRequest :=
  {| prep_url := url; prep_headers := prep_headers p; prep_credentials := prep_credentials p |}.
Definition set_headers (headers : list (string * string)) (p : PreparedUpstreamRequest) : PreparedUpstreamRequest :=
  {| prep_url := prep_url p; prep_headers := headers; prep_credentials := prep_credentials p |}.
Definition set_credentials (c : UrlCredentials) (p : PreparedUpstreamRequest) : PreparedUpstreamRequest :=
  {| prep_url := prep_url p; prep_headers := prep_headers p; prep_credentials := c |}.

Definition prepared_new (upstream_url : string) : result string PreparedUpstreamRequest :=
  url ← map_err (λ e, "Invalid upstream URL: " +:+ e) (url_parse upstream_url);
  Ok {| prep_url := url; prep_headers := []; prep_credentials := no_credentials |}.
Definition add_forwarded_header (name value : string) (p : PreparedUpstreamRequest) : PreparedUpstreamRequest :=
  set_headers (prep_headers p ++ [(name, value)]) p.
Definition set_header (name value : string) (p : PreparedUpstreamRequest) : PreparedUpstreamRequest :=
  set_headers (filter (λ h, eq_ignore_ascii_case h.1 name = false) (prep_headers p) ++ [(name, value)]) p.
Definition header_value (p : PreparedUpstreamRequest) (name : string) : option string :=
  snd <$> find (λ h, eq_ignore_ascii_case h.1 name) (reverse (prep_headers p)).
Definition append_query_credential (name value : string) (p : PreparedUpstreamRequest) : PreparedUpstreamRequest :=
  set_credentials (push_query value (prep_credentials p)) (set_url (append_pair (prep_url p) name value) p).
Definition set_query_param (name value : string) (p : PreparedUpstreamRequest) : PreparedUpstreamRequest :=
  let existing := filter (λ kv, kv.1 ≠ name) (query_pairs (prep_url p)) in
  set_url (append_pair (foldl (λ url '(k, v), append_pair url k v) (clear_query (prep_url p)) existing) name value) p.

(** ** Authentication *)
Definition apply_hmac_target (kind : HmacTargetType) (name value : string) (p : PreparedUpstreamRequest) : PreparedUpstreamRequest :=
  match kind with TargetHeader => set_header name value p | TargetQueryParam => set_query_param name value p end.
Definition apply_credential_target (kind : HmacTargetType) (name value : string) (p : PreparedUpstreamRequest) : PreparedUpstreamRequest :=
  let p := apply_hmac_target kind name value p in
  match kind with TargetHeader => p | TargetQueryParam => set_credentials (push_query value (prep_credentials p)) p end.

Definition encode_bytes (bytes : list Z) (encoding : HmacEncoding) : string :=
  match encoding with Base64 => base64_encode bytes | Hex => hash_hex bytes end.
Definition host_header_value (url : Url) : result string string :=
  host ← ok_or (url_host_str url) "HMAC upstream_host requires a host in the upstream URL";
  Ok (match url_port url with Some port => host +:+ ":" +:+ show port | None => host end).
Definition resolve_hmac_prepare_value (draw : Draw) (url : Url) (body : list Z) (value : HmacPrepareValue) : result string string :=
  match value with
  | PrepareLiteral value => Ok value
  | PrepareEnv from_env => ok_or (env_var from_env) ("HMAC prepare env var not set: " +:+ from_env)
  | UpstreamHost => host_header_value url
  | Timestamp format => Ok (timestamp_text draw format)
  | UuidV4 => Ok (uuid_text draw)
  | RandomHex bytes => Ok (hash_hex (random_bytes draw bytes))
  | BodyDigest algorithm encoding => Ok (encode_bytes (digest_bytes algorithm body) encoding)
  end.

(** The bindings in order; the [i]-th draw is the [i]-th binding's. *)
Fixpoint apply_prepare (draws : nat → Draw) (body : list Z) (bindings : list HmacPrepareBinding) (i : nat) (p : PreparedUpstreamRequest) :
    result string PreparedUpstreamRequest :=
  match bindings with
  | [] => Ok p
  | binding :: bindings =>
      value ← resolve_hmac_prepare_value (draws i) (prep_url p) body (binding_value binding);
      apply_prepare draws body bindings (S i)
        (apply_hmac_target (target_kind (binding_target binding)) (target_name (binding_target binding)) value p)
  end.

Definition parse_raw_query_pairs (raw_query : string) : list (string * string) :=
  map (λ pair, default (pair, "") (split_once equals pair)) (filter (λ pair, pair ≠ "") (split_on ampersand raw_query)).
(** A stable sort by name and then value, as texts are ordered byte by byte. *)
Fixpoint bytes_le (a b : list Z) : bool :=
  match a, b with
  | [], _ => true
  | _ :: _, [] => false
  | x :: a, y :: b => (x <? y) || ((x =? y) && bytes_le a b)
  end.
Definition pair_le (a b : string * string) : bool :=
  if bool_decide (a.1 = b.1) then bytes_le (str_bytes a.2) (str_bytes b.2) else bytes_le (str_bytes a.1) (str_bytes b.1).
Fixpoint insert_pair (x : string * string) (l : list (string * string)) : list (string * string) :=
  match l with
  | [] => [x]
  | y :: l => if pair_le x y then x :: y :: l else y :: insert_pair x l
  end.
Definition sort_pairs (l : list (string * string)) : list (string * string) := foldr insert_pair [] l.

Definition canonical_query_component (url : Url) (style : HmacQueryStyle) (encoding : HmacStringEncoding) : result string string :=
  raw_query ← ok_or (q ← url_query url; if bool_decide (q = "") then None else Some q) "HMAC canonical query is missing";
  let rendered := match style with
                  | RawQuery => raw_query
                  | SortedPairs => join "&" (map (λ '(name, value), name +:+ "=" +:+ value) (sort_pairs (parse_raw_query_pairs raw_query)))
                  end in
  Ok (match encoding with NoEncoding => rendered | PercentRfc3986 => percent_encode "-._~" rendered end).

Definition missing_header (name : string) : string := "HMAC canonical header `" +:+ name +:+ "` is missing".
Definition canonical_component (p : PreparedUpstreamRequest) (method : string) (component : HmacCanonicalComponent) : result string string :=
  match component with
  | CanonicalMethod => Ok method
  | CanonicalPath => Ok (url_path (prep_url p))
  | CanonicalQuery style encoding => canonical_query_component (prep_url p) style encoding
  | CanonicalHeader name => ok_or (header_value p name) (missing_header name)
  | CanonicalHeaders names join_with format =>
      rendered ← try_fold (λ rendered name,
        value ← ok_or (header_value p name) (missing_header name);
        line ← render_named_value_template format name value;
        Ok (rendered ++ [line])) [] names;
      Ok (join join_with rendered)
  | CanonicalLiteral value => Ok value
  end.
Definition build_hmac_canonical_string (p : PreparedUpstreamRequest) (method : string) (canonical : HmacCanonicalConfig) : result string string :=
  parts ← try_fold (λ parts component, part ← canonical_component p method component; Ok (parts ++ [part])) []
            (canonical_components canonical);
  Ok (join (canonical_join_with canonical) parts).

Definition apply_hmac_auth (draws : nat → Draw) (p : PreparedUpstreamRequest) (method : string) (body : list Z)
    (algorithm : HmacAlgorithm) (secret_from_env : string) (secret_suffix key_id_from_env : option string)
    (prepare : list HmacPrepareBinding) (canonical : HmacCanonicalConfig) (signature : HmacSignatureConfig) :
    result string PreparedUpstreamRequest :=
  secret ← ok_or (env_var secret_from_env) ("HMAC secret env var not set: " +:+ secret_from_env);
  key_id ← match key_id_from_env with
           | Some env_name => key_id ← ok_or (env_var env_name) ("HMAC key ID env var not set: " +:+ env_name); Ok (Some key_id)
           | None => Ok None
           end;
  p ← apply_prepare draws body prepare 0 p;
  canonical_string ← build_hmac_canonical_string p method canonical;
  let signing_secret := secret +:+ default "" secret_suffix in
  signature_bytes ← hmac_bytes algorithm (str_bytes signing_secret) (str_bytes canonical_string);
  let encoded_signature := encode_bytes signature_bytes (signature_encoding signature) in
  let destination := signature_destination signature in
  rendered ← render_hmac_template (dest_template destination) encoded_signature key_id;
  Ok (apply_credential_target (dest_kind destination) (dest_name destination) rendered p).

(** The secret of a header or query scheme: an unset or blank one is an
    error, whose text names the variable. *)
Definition injected_secret (value_from_env unset empty : string) : result string string :=
  secret ← ok_or (env_var value_from_env) unset;
  _ ← reject_if (is_blank secret) empty;
  Ok secret.
Definition misconfigured (value_from_env : string) : string := "Proxy auth misconfigured: env var `" +:+ value_from_env +:+ "` is ".
Definition header_use (key : string) : string := "can't inject the `" +:+ key +:+ "` header into the upstream request.".
Definition query_use (key : string) : string := "can't inject `?" +:+ key +:+ "=...` into the upstream request.".
Definition export_hint : string := " Export it in the shell that runs `pay gate api`.".

Definition apply_prepared_request_auth (draws : nat → Draw) (p : PreparedUpstreamRequest) (method : string) (body : list Z) (auth : AuthConfig) :
    result string PreparedUpstreamRequest :=
  match auth with
  | Header key prefix value_from_env =>
      secret ← injected_secret value_from_env (misconfigured value_from_env +:+ "not set, " +:+ header_use key +:+ export_hint)
                 (misconfigured value_from_env +:+ "set but empty, " +:+ header_use key);
      Ok (set_header key (default "" prefix +:+ secret) p)
  | QueryParam key value_from_env =>
      secret ← injected_secret value_from_env (misconfigured value_from_env +:+ "not set, " +:+ query_use key +:+ export_hint)
                 (misconfigured value_from_env +:+ "set but empty, " +:+ query_use key);
      Ok (append_query_credential key secret p)
  | Hmac algorithm secret_from_env secret_suffix key_id_from_env prepare canonical signature =>
      apply_hmac_auth draws p method body algorithm secret_from_env secret_suffix key_id_from_env prepare canonical signature
  | Oauth2 _ _ _ _ _ _ => Err "Nested oauth2 auth is not supported when preparing another upstream request"
  | AccessToken _ _ _ => Err "Nested access_token auth is not supported when preparing another upstream request"
  end.

(** [token] is what the token endpoint, or the cache of its last answer,
    gave. *)
Definition apply_access_token_auth (draws : nat → Draw) (p : PreparedUpstreamRequest) (body : list Z) (prepare : list HmacPrepareBinding)
    (token : result string string) (inject : AccessTokenInjectConfig) : result string PreparedUpstreamRequest :=
  p ← apply_prepare draws body prepare 0 p;
  token ← token;
  rendered ← render_access_token_template (inject_template inject) token;
  Ok (apply_credential_target (target_kind (inject_target inject)) (target_name (inject_target inject)) rendered p).

Definition apply_oauth2 (p : PreparedUpstreamRequest) (token : string) (headers : list (string * string)) : PreparedUpstreamRequest :=
  foldl (λ p '(name, from_env), match env_var from_env with Some value => set_header name value p | None => p end)
    (set_header "authorization" ("Bearer " +:+ token) p) headers.

(** ** The plan *)
Record TrustedPaymentIdentity := {
  id_payer : option string;
  id_channel_id : option string;
  id_original_host : option string;
  id_payment_policy : option string
}.
(** [HeaderMap::insert] of a value that makes a header. *)
Definition inserted (name : string) (value : option string) : list (string * string) :=
  match value with Some v => if value_from_str v then [(name, v)] else [] | None => [] end.
Definition inject_original_host_header (original_host : option string) : list (string * string) := inserted "x-pay-original-host" original_host.
Definition inject_verified_payer_headers (payer : string) (channel_id : option string) : list (string * string) :=
  if value_from_str payer then ("x-pay-verified-payer", payer) :: inserted "x-pay-verified-channel" channel_id else [].
Definition inject_payment_policy_header (policy : option string) : list (string * string) := inserted "x-pay-payment-policy" policy.
Definition identity_headers (trusted : TrustedPaymentIdentity) : list (string * string) :=
  inject_original_host_header (id_original_host trusted) ++
  match id_payer trusted with Some payer => inject_verified_payer_headers payer (id_channel_id trusted) | None => [] end ++
  inject_payment_policy_header (id_payment_policy trusted).

(** Headers whose value is a text, [HeaderValue::to_str]. *)
Definition textual (headers : list (string * string)) : list (string * string) := filter (λ h, value_to_str h.2 = true) headers.
Definition forwarded_headers (headers : list (string * string)) : list (string * string) :=
  textual (filter (λ h, is_stripped_request_header h.1 = false) headers).

Definition rewrite_credentials (routing : RoutingConfig) : UrlCredentials :=
  match routing with
  | Proxy _ path_rewrites _ =>
      foldl (λ c r, match env_var (rewrite_env r) with Some value => push_path value c | None => c end) no_credentials path_rewrites
  | RespondDirectly => no_credentials
  end.

Record UpstreamCall := {
  call_method : string;
  call_path : string;
  call_path_and_query : string;
  call_headers : list (string * string);
  call_body : list Z
}.
(** An answer of the gateway's own: a status and an error or a status text. *)
Record LocalResponse := { local_status : Z; local_message : string }.
Inductive UpstreamPlan := PlanRespond (r : LocalResponse) | PlanForward (p : PreparedUpstreamRequest).
Definition bad_gateway (message : string) : LocalResponse := {| local_status := 502; local_message := message |}.
Definition not_found : UpstreamPlan := PlanRespond {| local_status := 404; local_message := "not_found" |}.

Definition inject_auth (draws : nat → Draw) (token : result string string) (call : UpstreamCall) (auth : option AuthConfig)
    (p : PreparedUpstreamRequest) : result LocalResponse PreparedUpstreamRequest :=
  match auth with
  | None => Ok p
  | Some (Oauth2 _ _ _ _ _ headers) =>
      match token with
      | Ok token => Ok (apply_oauth2 p token headers)
      | Err _ => Err (bad_gateway "OAuth2 token request failed")
      end
  | Some (AccessToken prepare _ inject) =>
      map_err (λ _, bad_gateway "Access token request failed") (apply_access_token_auth draws p (call_body call) prepare token inject)
  | Some auth => map_err bad_gateway (apply_prepared_request_auth draws p (call_method call) (call_body call) auth)
  end.

Definition prepare_upstream_with_identity (api : ApiSpec) (route : UpstreamRoute) (call : UpstreamCall)
    (trusted_identity : option TrustedPaymentIdentity) (draws : nat → Draw) (token : result string string) :
    result LocalResponse UpstreamPlan :=
  if has_dot_segment (call_path call) then Err {| local_status := 400; local_message := "Invalid request path" |}
  else if negb (admits route api (call_method call) (call_path call)) then Ok not_found
  else
    let routing := routing_of route api in
    match upstream_url env_var routing (call_path_and_query call) with
    | None =>
        Ok (match find_endpoint_by_path (api_endpoints api) (trim_start_matches slash (call_path call)) with
            | Some _ => PlanRespond {| local_status := 200; local_message := "ok" |}
            | None => not_found
            end)
    | Some upstream_url =>
        p ← map_err bad_gateway (prepared_new upstream_url);
        let p := set_credentials (rewrite_credentials routing) p in
        let p := set_headers (forwarded_headers (call_headers call) ++
                              match trusted_identity with Some trusted => textual (identity_headers trusted) | None => [] end) p in
        p ← inject_auth draws token call (routing_auth routing) p;
        Ok (PlanForward p)
    end.

(** What is sent: a body-less call that may carry one says so. *)
Definition sent_headers (method : string) (body : list Z) (p : PreparedUpstreamRequest) : list (string * string) :=
  prep_headers p ++
  (if bool_decide (length body = 0%nat) && bool_decide (method ∈ ["POST"; "PUT"; "PATCH"]) then [("content-length", "0")] else []).

(** ** Response headers *)

(** [str::split] at any byte of a set. *)
Fixpoint split_any (delimiters : list Z) (s : string) : list string :=
  match s with
  | EmptyString => [""]
  | String c s =>
      if bool_decide (byte_of c ∈ delimiters) then "" :: split_any delimiters s
      else match split_any delimiters s with part :: parts => String c part :: parts | [] => [String c ""] end
  end.
(** ['/', '?', '#', '&', '='], and those around a URL in a structured value:
    angle brackets, a semicolon, a comma, quotes, a space and a tab. *)
Definition url_delimiters : list Z := [47; 63; 35; 38; 61].
Definition value_delimiters : list Z := url_delimiters ++ [60; 62; 59; 44; 34; 39; 32; 9].

(** The forms a secret can take in a URL. *)
Definition forms (secret : string) : list string := [secret; byte_serialize secret; percent_encode "" secret].
Definition exposed_in (c : UrlCredentials) (value : string) : bool :=
  let decoded := percent_decode_lossy value in
  existsb (λ secret, existsb (str_contains value) (forms secret) || str_contains decoded secret) (cred_query c) ||
  existsb (λ delimiters, existsb (λ part, bool_decide (part ∈ cred_path_segments c)) (split_any delimiters decoded))
    [url_delimiters; value_delimiters].

(** A query pair that carries a secret. *)
Definition carries_secret (c : UrlCredentials) (pair : string) : bool :=
  existsb (λ kv, bool_decide (kv.2 ∈ cred_query c)) (form_parse pair).
Definition scrub_url (c : UrlCredentials) (value : string) : option string :=
  if negb (exposed_in c value) then Some value
  else
    let '(reference, fragment) := match split_once hash_sign value with
                                  | Some (reference, fragment) => (reference, Some fragment)
                                  | None => (value, None)
                                  end in
    let '(target, query) := match split_once question_mark reference with
                            | Some (target, query) => (target, Some query)
                            | None => (reference, None)
                            end in
    let kept := match query with
                | Some query => filter (λ pair, carries_secret c pair = false) (split_on ampersand query)
                | None => []
                end in
    let scrubbed := target +:+ match kept with [] => "" | _ => "?" +:+ join "&" kept end +:+
                    match fragment with Some fragment => "#" +:+ fragment | None => "" end in
    if exposed_in c scrubbed then None else Some scrubbed.

(** [split_link_values]: a comma in a target or in quotes does not separate;
    [cur] is the value being read. *)
Fixpoint link_values (s : string) (in_target in_quote escaped : bool) (cur : string) : list string :=
  match s with
  | EmptyString => [cur]
  | String c s =>
      let next := cur +:+ String c "" in
      if in_quote then
        if escaped then link_values s in_target true false next
        else if byte_of c =? 92 then link_values s in_target true true next
        else link_values s in_target (negb (byte_of c =? 34)) false next
      else if (byte_of c =? 60) && negb in_target then link_values s true false escaped next
      else if (byte_of c =? 62) && in_target then link_values s false false escaped next
      else if (byte_of c =? 34) && negb in_target then link_values s in_target true escaped next
      else if (byte_of c =? 44) && negb in_target then cur :: link_values s in_target false escaped ""
      else link_values s in_target false escaped next
  end.
Definition split_link_values (value : string) : list string := link_values value false false false "".
Definition angle_close : Ascii.ascii := Ascii.ascii_of_nat 62.

(** One link: kept as it is or without its credential, or dropped. *)
Definition scrub_link (c : UrlCredentials) (link : string) : option string :=
  scrubbed ← match strip_prefix "<" link ≫= split_once angle_close with
             | Some (target, params) => target ← scrub_url c target; Some ("<" +:+ target +:+ ">" +:+ params)
             | None => Some link
             end;
  if exposed_in c scrubbed then None else Some scrubbed.
Definition scrub_link_list (c : UrlCredentials) (value : string) : option string :=
  let links := filter (λ link, link ≠ "") (map trim (split_link_values value)) in
  let scrubbed := map (λ link, (link, scrub_link c link)) links in
  if forallb (λ '(link, s), bool_decide (s = Some link)) scrubbed then Some value
  else match omap snd scrubbed with [] => None | kept => Some (join ", " kept) end.

(** [value.find([';', ','])]: before it and after it. *)
Fixpoint split_delay (s : string) : option (string * string) :=
  match s with
  | EmptyString => None
  | String c s =>
      if (byte_of c =? 59) || (byte_of c =? 44) then Some ("", s)
      else '(l, r) ← split_delay s; Some (String c l, r)
  end.
Definition unquote (quote : string) (target : string) : option string := strip_prefix quote target ≫= strip_suffix quote.
Definition double_quote : string := String (Ascii.ascii_of_nat 34) "".
Definition scrub_refresh (c : UrlCredentials) (value : string) : option string :=
  let '(delay, target) := match split_delay value with Some (l, r) => (l, trim r) | None => (value, "") end in
  let target := default target
    (if has_prefix_ignore_case target "url"
     then trim_start <$> strip_prefix "=" (trim_start (String.substring 3 (String.length target - 3) target)) else None) in
  let target := match unquote double_quote target with
                | Some inner => inner
                | None => default target (unquote "'" target)
                end in
  if bool_decide (target = "") then Some value
  else
    scrubbed ← scrub_url c target;
    if bool_decide (scrubbed = target) then Some value
    else Some (trim delay +:+ "; url=" +:+ scrubbed).

Inductive UrlHeaderSyntax := Reference | LinkList | Refresh.
Definition URL_RESPONSE_HEADERS : list (string * UrlHeaderSyntax) :=
  [("location", Reference); ("content-location", Reference); ("link", LinkList); ("refresh", Refresh)].
Definition scrub_value (c : UrlCredentials) (syntax : UrlHeaderSyntax) (value : string) : option string :=
  if negb (value_to_str value) then None
  else
    scrubbed ← match syntax with
               | Reference => scrub_url c value
               | LinkList => scrub_link_list c value
               | Refresh => scrub_refresh c value
               end;
    if negb (exposed_in c scrubbed) && value_from_str scrubbed then Some scrubbed else None.
Definition scrub_header (c : UrlCredentials) (headers : list (string * string)) (h : string * UrlHeaderSyntax) : list (string * string) :=
  filter (λ kv, kv.1 ≠ h.1) headers ++
  omap (λ kv, if bool_decide (kv.1 = h.1) then pair h.1 <$> scrub_value c h.2 kv.2 else None) headers.
Definition scrub_response_headers (c : UrlCredentials) (headers : list (string * string)) : list (string * string) :=
  if bool_decide (length (cred_query c) = 0%nat) && bool_decide (length (cred_path_segments c) = 0%nat) then headers
  else foldl (scrub_header c) headers URL_RESPONSE_HEADERS.

(** [HeaderMap::insert]: the value replaces every earlier one of the name. *)
Definition insert_header (headers : list (string * string)) (h : string * string) : list (string * string) :=
  filter (λ kv, kv.1 ≠ h.1) headers ++ [h].
(** The headers of an upstream response as they are relayed: [insert] in turn,
    without those the client library has consumed. *)
Definition skip_response_headers : list string := ["content-encoding"; "content-length"; "transfer-encoding"].
Definition relayed_headers (c : UrlCredentials) (upstream : list (string * string)) : list (string * string) :=
  scrub_response_headers c (foldl insert_header [] (filter (λ h, h.1 ∉ skip_response_headers) upstream)).
End upstream.
