(* ===== verification/UpstreamSafety.v ===== *)
(** * UpstreamSafety: what reaches an upstream and what comes back

    Of [core/src/server/proxy.rs]: every header of an upstream request has a
    source the gateway answers for, the secrets it puts in a URL do not come
    back in a redirect, and an HMAC scheme that passed the configuration checks
    signs every request that carries what it names. *)
From S2P Require Import Prelude F64 MeteringTypes Text Affixes Decimals Accounting Pricing PushManifest UsageSettlement UpstreamAuth Routes.
From S2P Require Import ChargeTerms ApiSpecs Gate SpecSafety UpstreamRequest.
#[local] Open Scope string_scope.
#[local] Open Scope list_scope.
#[local] Open Scope Z_scope.

(** ** Templates *)

(** A template whose tokens were read renders when they all resolve, and the
    text of each is in what it renders to. *)
Lemma tokens_render resolve s : ∀ cur tokens tokens' rendered,
  template_tokens s cur tokens = Ok tokens' →
  ∃ new, tokens' = tokens ++ new ∧
    ((∀ t, t ∈ new → is_Some (resolve t)) →
     ∃ out, render_tokens resolve s cur rendered = Ok (rendered +:+ out) ∧
       ∀ t r, t ∈ new → resolve t = Some r → ∃ a b, out = a +:+ r +:+ b).
Proof.
  induction s as [|c s IH]; intros cur tokens tokens' rendered; cbn [template_tokens render_tokens].
  { destruct cur; [done|]. intros [= <-]. exists []. rewrite app_nil_r. split; [done|]. intros _. exists "".
    rewrite string_app_nil_r. split; [done|]. intros t r []%elem_of_nil. }
  destruct cur as [token|].
  - destruct (Ascii.eqb c open_brace); [done|]. destruct (Ascii.eqb c close_brace); [|apply IH].
    case_bool_decide; [done|]. intros Ht.
    destruct (resolve token) as [r0|] eqn:Hr0; cycle 1.
    { destruct (IH None (tokens ++ [token]) tokens' "" Ht) as (new & -> & _). exists (token :: new).
      rewrite <- app_assoc. split; [done|]. intros Hall. destruct (Hall token (list_elem_of_here _ _)) as [? ?]. congruence. }
    destruct (IH None (tokens ++ [token]) tokens' (rendered +:+ r0) Ht) as (new & -> & Hnew). exists (token :: new).
    rewrite <- app_assoc. split; [done|]. intros Hall. destruct Hnew as (out & -> & Hout).
    { intros t Hin. apply Hall. by apply list_elem_of_further. }
    exists (r0 +:+ out). rewrite string_app_assoc. split; [done|]. intros t r [->|Hin]%elem_of_cons Hr.
    + exists "", out. assert (r = r0) as -> by congruence. done.
    + destruct (Hout t r Hin Hr) as (a & b & ->). exists (r0 +:+ a), b. by rewrite string_app_assoc.
  - destruct (Ascii.eqb c open_brace); [apply IH|]. destruct (Ascii.eqb c close_brace); [done|]. intros Ht.
    destruct (IH None tokens tokens' (rendered +:+ String c "") Ht) as (new & -> & Hnew). exists new. split; [done|]. intros Hall.
    destruct (Hnew Hall) as (out & -> & Hout). exists (String c out). split; [by rewrite string_app_assoc|].
    intros t r Hin Hr. destruct (Hout t r Hin Hr) as (a & b & ->). by exists (String c a), b.
Qed.

Lemma template_renders resolve template allowed tokens :
  validate_template_tokens template allowed = Ok tokens → (∀ t, t ∈ tokens → is_Some (resolve t)) →
  (∀ t, t ∈ tokens → t ∈ allowed) ∧
  ∃ out, render_template template resolve = Ok out ∧ ∀ t r, t ∈ tokens → resolve t = Some r → ∃ a b, out = a +:+ r +:+ b.
Proof.
  unfold validate_template_tokens, extract_template_tokens. intros (tokens' & Ht & Hf)%bind_Ok.
  destruct (find _ tokens') as [|] eqn:Hfind; [done|]. injection Hf as ->.
  destruct (tokens_render resolve template None [] tokens "" Ht) as (new & -> & Hnew). intros Hall. split; [|by apply Hnew].
  intros t Hin. apply list_elem_of_In in Hin. pose proof (find_none _ _ Hfind t Hin) as Hn.
  apply negb_false_iff, bool_decide_eq_true in Hn. done.
Qed.

Lemma allowed_tokens template allowed tokens t :
  validate_template_tokens template allowed = Ok tokens → t ∈ tokens → t ∈ allowed.
Proof.
  unfold validate_template_tokens. intros (tokens' & _ & Hf)%bind_Ok Hin.
  destruct (find _ tokens') as [|] eqn:Hfind; [done|]. injection Hf as ->. apply list_elem_of_In in Hin.
  pose proof (find_none _ _ Hfind t Hin) as Hn. by apply negb_false_iff, bool_decide_eq_true in Hn.
Qed.

Lemma concat_nil_lookup {A} (ls : list (list A)) i l : concat ls = [] → ls !! i = Some l → l = [].
Proof. revert i. induction ls as [|l0 ls IH]; intros [|i]; [done|done| |]; cbn; intros [? ?]%app_eq_nil; [by intros [= <-]|by apply IH]. Qed.

Lemma issue_if_nil c m : issue_if c m = [] ↔ c = false.
Proof. by destruct c. Qed.

(** ** Headers *)
Section upstream.
Context `{UpstreamKit} (env_var : string → option string).
Implicit Types (p : PreparedUpstreamRequest).

Lemma eq_ignore_case_sym a b : eq_ignore_ascii_case a b = eq_ignore_ascii_case b a.
Proof. unfold eq_ignore_ascii_case. apply bool_decide_ext. by split. Qed.
Lemma eq_ignore_case_trans a b c : eq_ignore_ascii_case a b = true → eq_ignore_ascii_case a c = eq_ignore_ascii_case b c.
Proof. unfold eq_ignore_ascii_case. rewrite bool_decide_eq_true. intros ->. done. Qed.

Lemma find_filter {A} (f : A → bool) (P : A → Prop) `{∀ x, Decision (P x)} l :
  (∀ x, f x = true → P x) → find f (filter P l) = find f l.
Proof.
  intros HP. induction l as [|x l IH]; [done|]. rewrite filter_cons. cbn [find]. destruct (f x) eqn:Hf.
  - rewrite decide_True by (by apply HP). cbn [find]. by rewrite Hf.
  - destruct (decide (P x)); cbn [find]; [by rewrite Hf|done].
Qed.

Lemma header_value_set name value p other :
  header_value (set_header name value p) other =
  if eq_ignore_ascii_case name other then Some value else header_value p other.
Proof.
  unfold header_value, set_header. cbn [prep_headers set_headers]. rewrite reverse_app. cbn [reverse rev_append app find fst snd].
  destruct (eq_ignore_ascii_case name other) eqn:E; [done|].
  rewrite <- filter_reverse, find_filter; [done|]. intros [k v] Hk. cbn [fst] in *.
  destruct (eq_ignore_ascii_case k name) eqn:Hn; [|done]. rewrite (eq_ignore_case_trans _ _ _ Hn) in Hk. congruence.
Qed.

Lemma set_header_in name value p h : h ∈ prep_headers (set_header name value p) → h ∈ prep_headers p ∨ h = (name, value).
Proof.
  cbn [set_header set_headers prep_headers]. rewrite elem_of_app, list_elem_of_filter, list_elem_of_singleton. naive_solver.
Qed.

(** The names a target, and a list of bindings, can write. *)
Definition written_name (kind : HmacTargetType) (name : string) : list string := match kind with TargetHeader => [name] | TargetQueryParam => [] end.
Definition binding_names (bindings : list HmacPrepareBinding) : list string :=
  flat_map (λ b, written_name (target_kind (binding_target b)) (target_name (binding_target b))) bindings.

Lemma apply_target_in kind name value p n v :
  (n, v) ∈ prep_headers (apply_hmac_target kind name value p) → (n, v) ∈ prep_headers p ∨ n ∈ written_name kind name.
Proof. destruct kind; [|by left]. intros [Hin|[= -> _]]%set_header_in; [by left|right; apply list_elem_of_here]. Qed.

Lemma credential_target_in kind name value p n v :
  (n, v) ∈ prep_headers (apply_credential_target kind name value p) → (n, v) ∈ prep_headers p ∨ n ∈ written_name kind name.
Proof. intros Hin. apply (apply_target_in kind name value). by destruct kind. Qed.

Lemma apply_prepare_in draws body bindings : ∀ i p p' n v,
  apply_prepare env_var draws body bindings i p = Ok p' → (n, v) ∈ prep_headers p' →
  (n, v) ∈ prep_headers p ∨ n ∈ binding_names bindings.
Proof.
  induction bindings as [|b bindings IH]; intros i p p' n v; cbn [apply_prepare]; [intros [= <-]; by left|].
  intros (value & _ & Hp)%bind_Ok Hin. unfold binding_names; cbn [flat_map]. rewrite elem_of_app.
  destruct (IH _ _ _ _ _ Hp Hin) as [Hin'|]; [|by right; right]. apply apply_target_in in Hin' as [|]; [by left|by right; left].
Qed.

Definition auth_header_names (auth : AuthConfig) : list string :=
  match auth with
  | QueryParam _ _ => []
  | Header key _ _ => [key]
  | Hmac _ _ _ _ prepare _ signature =>
      binding_names prepare ++ written_name (dest_kind (signature_destination signature)) (dest_name (signature_destination signature))
  | AccessToken prepare _ inject =>
      binding_names prepare ++ written_name (target_kind (inject_target inject)) (target_name (inject_target inject))
  | Oauth2 _ _ _ _ _ headers => "authorization" :: map fst headers
  end.

Lemma apply_oauth2_in p token headers n v :
  (n, v) ∈ prep_headers (apply_oauth2 env_var p token headers) → (n, v) ∈ prep_headers p ∨ n ∈ "authorization" :: map fst headers.
Proof.
  unfold apply_oauth2. intros Hin.
  assert ((n, v) ∈ prep_headers (set_header "authorization" ("Bearer " +:+ token) p) ∨ n ∈ map fst headers) as [H0|H0].
  { revert Hin. generalize (set_header "authorization" ("Bearer " +:+ token) p) as p0. induction headers as [|[name e] headers IH]; intros p0;
      cbn [foldl map fst]; [by left|]. intros [Hin|Hin]%IH; [|right; by apply list_elem_of_further].
    destruct (env_var e); [|by left]. apply set_header_in in Hin as [|[= -> _]]; [by left|right; apply list_elem_of_here]. }
  - apply set_header_in in H0 as [|[= -> _]]; [by left|right; apply list_elem_of_here].
  - right. by apply list_elem_of_further.
Qed.

Lemma inject_auth_in draws token call auth p p' n v :
  inject_auth env_var draws token call auth p = Ok p' → (n, v) ∈ prep_headers p' →
  (n, v) ∈ prep_headers p ∨ ∃ a, auth = Some a ∧ n ∈ auth_header_names a.
Proof.
  destruct auth as [auth|]; [|intros [= <-]; by left]. intros Hi Hin.
  enough ((n, v) ∈ prep_headers p ∨ n ∈ auth_header_names auth) as [|] by naive_solver.
  destruct auth; cbn [inject_auth apply_prepared_request_auth auth_header_names] in *; try (destruct token as [token|]; [|done]); inv_ok; rewrite ?elem_of_app.
  - by left.
  - apply set_header_in in Hin as [|[= -> _]]; [by left|right; apply list_elem_of_here].
  - unfold apply_hmac_auth in Hi. inv_ok. apply credential_target_in in Hin as [Hin|]; [|by right; right].
    eapply apply_prepare_in in Hin as [|]; [by left|by right; left|done].
  - unfold apply_access_token_auth in Hi. inv_ok. apply credential_target_in in Hin as [Hin|]; [|by right; right].
    eapply apply_prepare_in in Hin as [|]; [by left|by right; left|done].
  - by apply apply_oauth2_in in Hin.
Qed.

(** C16. Where every header of an upstream request comes from: the caller, if it is
    not one of the stripped ones, the identity the gateway has verified, or
    the operator's own authentication; and the call was the one the gate
    admitted.  So no caller can send an upstream a verified payer, a payment
    policy or a host of its choice. *)
Theorem upstream_headers_have_a_source api route call trusted draws token p n v :
  prepare_upstream_with_identity env_var api route call trusted draws token = Ok (PlanForward p) →
  (n, v) ∈ prep_headers p →
  admits route api (call_method call) (call_path call) = true ∧
  (((n, v) ∈ call_headers call ∧ is_stripped_request_header n = false) ∨
   (∃ identity, trusted = Some identity ∧ (n, v) ∈ identity_headers identity) ∨
   (∃ auth, routing_auth (routing_of route api) = Some auth ∧ n ∈ auth_header_names auth)).
Proof.
  unfold prepare_upstream_with_identity. destruct (has_dot_segment _); [done|]. destruct (admits _ _ _ _); [|done]. cbn [negb].
  destruct (upstream_url _ _ _) as [url|]; [|by case_match]. intros Hp Hin. split; [done|]. inv_ok.
  match goal with Hi : inject_auth _ _ _ _ _ _ = Ok _ |- _ => eapply inject_auth_in in Hi as [Hh|]; [|by right; right|exact Hin] end.
  cbn [prep_headers set_headers] in Hh. unfold forwarded_headers, textual in Hh.
  apply elem_of_app in Hh as [[_ [Hs Hc]%list_elem_of_filter]%list_elem_of_filter|Hh]; [by left|].
  destruct trusted as [identity|]; [|by apply elem_of_nil in Hh]. apply list_elem_of_filter in Hh as [_ Hh]. right; left. by exists identity.
Qed.

(** ** Secrets in URLs *)

Lemma scrub_value_clean c syntax value out : scrub_value c syntax value = Some out → exposed_in c out = false.
Proof.
  unfold scrub_value. destruct (value_to_str value); [|done]. cbn [negb].
  destruct (match syntax with Reference => _ | LinkList => _ | Refresh => _ end) as [scrubbed|]; [|done]. cbn [mbind option_bind].
  destruct (exposed_in c scrubbed) eqn:E; [done|]. destruct (value_from_str scrubbed); [|done]. by intros [= <-].
Qed.

(** Each pass leaves nothing exposed under its name, and only moves what
    other names have. *)
Lemma scrub_headers_clean c hs : ∀ (seen : list string) headers,
  (∀ n v, (n, v) ∈ headers → n ∈ seen → exposed_in c v = false) →
  ∀ n v, (n, v) ∈ foldl (scrub_header c) headers hs → n ∈ seen ++ map fst hs → exposed_in c v = false.
Proof.
  induction hs as [|h hs IH]; intros seen headers Hclean n v; cbn [foldl map]; [rewrite app_nil_r; apply Hclean|].
  replace (seen ++ h.1 :: map fst hs) with ((seen ++ [h.1]) ++ map fst hs) by (by rewrite <- app_assoc). apply IH.
  clear n v. intros n v [[Hne Hin]%list_elem_of_filter|((k & v') & Hin & Hv)%list_elem_of_omap]%elem_of_app Hn.
  - apply (Hclean n v Hin). apply elem_of_app in Hn as [| ->%list_elem_of_singleton]; [done|done].
  - cbn [fst snd] in Hv. case_bool_decide; [|done]. apply fmap_Some in Hv as (w & Hw & [= _ ->]). by eapply scrub_value_clean.
Qed.

Lemma relayed_clean c upstream n v :
  cred_query c ≠ [] ∨ cred_path_segments c ≠ [] → n ∈ map fst URL_RESPONSE_HEADERS → (n, v) ∈ relayed_headers c upstream →
  exposed_in c v = false.
Proof.
  intros Hc Hn. unfold relayed_headers, scrub_response_headers.
  destruct (_ && _) eqn:E.
  { apply andb_true_iff in E as [Hq%bool_decide_eq_true Hp%bool_decide_eq_true]. apply nil_length_inv in Hq, Hp. naive_solver. }
  intros Hin. refine (scrub_headers_clean c URL_RESPONSE_HEADERS [] _ _ n v Hin Hn). by intros ?? _ []%elem_of_nil.
Qed.

Lemma exposed_query c value secret : exposed_in c value = false → secret ∈ cred_query c → str_contains value secret = false.
Proof.
  unfold exposed_in. intros (Hq & _)%orb_false_iff Hin. destruct (str_contains value secret) eqn:E; [|done].
  apply not_true_iff_false in Hq as []. apply existsb_exists. exists secret. split; [by apply list_elem_of_In|].
  apply orb_true_iff. left. apply existsb_exists. exists secret. split; [by left|done].
Qed.

Lemma exposed_path c value segment :
  exposed_in c value = false → segment ∈ cred_path_segments c →
  (segment ∉ split_any url_delimiters (percent_decode_lossy value)) ∧ (segment ∉ split_any value_delimiters (percent_decode_lossy value)).
Proof.
  unfold exposed_in. intros (_ & Hp)%orb_false_iff Hin.
  assert (∀ delimiters, delimiters ∈ [url_delimiters; value_delimiters] → segment ∉ split_any delimiters (percent_decode_lossy value)) as Hall.
  { intros delimiters Hd Hs. apply not_true_iff_false in Hp as []. apply existsb_exists. exists delimiters. split; [by apply list_elem_of_In|].
    apply existsb_exists. exists segment. split; [by apply list_elem_of_In|]. by apply bool_decide_eq_true. }
  split; apply Hall; [left|right; left].
Qed.

(** What the gateway wrote into the upstream URL for a call: the key of a
    query scheme, an access token rendered into the query, and the segments of
    a rewritten path. *)
Inductive query_secret (token : result string string) : AuthConfig → string → Prop :=
  | secret_key key value_from_env secret :
      env_var value_from_env = Some secret → query_secret token (QueryParam key value_from_env) secret
  | secret_token prepare fetch inject t rendered :
      token = Ok t → target_kind (inject_target inject) = TargetQueryParam →
      render_access_token_template (inject_template inject) t = Ok rendered → rendered ≠ "" →
      query_secret token (AccessToken prepare fetch inject) rendered.
Definition rewritten_segment (routing : RoutingConfig) (segment : string) : Prop :=
  ∃ url path_rewrites auth r value, routing = Proxy url path_rewrites auth ∧ r ∈ path_rewrites ∧ env_var (rewrite_env r) = Some value ∧
    segment ∈ split_on slash value ∧ segment ≠ "".

Lemma push_path_keeps value c : cred_query (push_path value c) = cred_query c ∧
  ∀ s, s ∈ cred_path_segments c → s ∈ cred_path_segments (push_path value c).
Proof. split; [done|]. intros s Hs. cbn [push_path cred_path_segments]. apply elem_of_app. by left. Qed.

Lemma rewrite_credentials_segments routing segment : rewritten_segment routing segment → segment ∈ cred_path_segments (rewrite_credentials env_var routing).
Proof.
  intros (url & rewrites & auth & r & value & -> & Hr & Henv & Hseg & Hne). cbn [rewrite_credentials].
  assert (∀ rs c, segment ∈ cred_path_segments c →
    segment ∈ cred_path_segments (foldl (λ c r, match env_var (rewrite_env r) with Some value => push_path value c | None => c end) c rs)) as Hkeep.
  { induction rs as [|r' rs IH]; intros c Hc; [done|]. cbn [foldl]. apply IH. destruct (env_var (rewrite_env r')); [by apply push_path_keeps|done]. }
  generalize no_credentials as c. induction rewrites as [|r' rs IH]; intros c; [by apply elem_of_nil in Hr|]. cbn [foldl].
  apply elem_of_cons in Hr as [<-|Hr]; [|by apply IH]. rewrite Henv. apply Hkeep. cbn [push_path cred_path_segments].
  apply elem_of_app. right. by apply list_elem_of_filter.
Qed.

Lemma target_credentials kind name value p : prep_credentials (apply_hmac_target kind name value p) = prep_credentials p.
Proof. by destruct kind. Qed.

Lemma prepare_credentials draws body bindings : ∀ i p p',
  apply_prepare env_var draws body bindings i p = Ok p' → prep_credentials p' = prep_credentials p.
Proof.
  induction bindings as [|b bindings IH]; intros i p p'; cbn [apply_prepare]; [by intros [= <-]|].
  intros (value & _ & ->%IH)%bind_Ok. apply target_credentials.
Qed.

Lemma credential_target_credentials kind name value p :
  (∀ s, s ∈ cred_path_segments (prep_credentials p) → s ∈ cred_path_segments (prep_credentials (apply_credential_target kind name value p))) ∧
  (kind = TargetQueryParam → value ≠ "" → value ∈ cred_query (prep_credentials (apply_credential_target kind name value p))).
Proof.
  destruct kind; [by split|]. cbn [apply_credential_target apply_hmac_target prep_credentials set_credentials].
  unfold push_query. case_bool_decide; [by split|]. split; [done|]. intros _ _. cbn [cred_query]. apply elem_of_app. right. apply list_elem_of_here.
Qed.

Lemma oauth2_credentials p token headers : prep_credentials (apply_oauth2 env_var p token headers) = prep_credentials p.
Proof.
  unfold apply_oauth2. change (prep_credentials p) with (prep_credentials (set_header "authorization" ("Bearer " +:+ token) p)).
  generalize (set_header "authorization" ("Bearer " +:+ token) p) as p0. induction headers as [|[name e] headers IH]; intros p0; [done|].
  cbn [foldl]. rewrite IH. by destruct (env_var e).
Qed.

Lemma inject_auth_credentials draws token call auth p p' :
  inject_auth env_var draws token call auth p = Ok p' →
  (∀ s, s ∈ cred_path_segments (prep_credentials p) → s ∈ cred_path_segments (prep_credentials p')) ∧
  ∀ a secret, auth = Some a → query_secret token a secret → secret ∈ cred_query (prep_credentials p').
Proof.
  destruct auth as [auth|]; [|intros [= <-]; by split]. intros Hi.
  assert ((∀ s, s ∈ cred_path_segments (prep_credentials p) → s ∈ cred_path_segments (prep_credentials p')) ∧
    ∀ secret, query_secret token auth secret → secret ∈ cred_query (prep_credentials p')) as [Hpath Hquery].
  2: { split; [done|]. intros a secret [= <-]. apply Hquery. }
  destruct auth; cbn [inject_auth apply_prepared_request_auth] in Hi; try (destruct token as [token|]; [|done]); inv_ok.
  - unfold injected_secret in *. inv_ok. cbn [append_query_credential prep_credentials set_credentials]. unfold push_query.
    assert (a ≠ "") as Hne by (intros ->; done). rewrite bool_decide_eq_false_2 by done. split; [done|].
    inversion 1; subst. assert (secret = a) as -> by congruence. cbn [cred_query]. apply elem_of_app. right. apply list_elem_of_here.
  - split; [done|]. inversion 1.
  - unfold apply_hmac_auth in Hi. inv_ok. split; [|inversion 1]. intros s Hs.
    match goal with Hp : apply_prepare _ _ _ _ _ _ = Ok _ |- _ => apply prepare_credentials in Hp as E end.
    apply credential_target_credentials. by rewrite E.
  - unfold apply_access_token_auth in Hi. inv_ok.
    match goal with Hp : apply_prepare _ _ _ _ _ _ = Ok _ |- _ => apply prepare_credentials in Hp as E end.
    split; [intros s Hs; apply credential_target_credentials; by rewrite E|].
    inversion 1; subst. simplify_eq. match goal with H1 : render_access_token_template _ _ = Ok ?x, H2 : render_access_token_template _ _ = Ok ?y |- _ =>
      rewrite H1 in H2; injection H2 as -> end. by apply credential_target_credentials.
  - rewrite oauth2_credentials. split; [done|]. inversion 1.
Qed.


(** ** Signing *)

(** Documented behaviour of the URL and HMAC libraries: setting the query
    leaves the host, a pair that is appended leaves a query that is not empty,
    and a key of any length is accepted. *)
Class UpstreamLaws := {
  clear_query_host url : url_host_str (clear_query url) = url_host_str url;
  append_pair_host url k v : url_host_str (append_pair url k v) = url_host_str url;
  append_pair_query url k v : ∃ q, url_query (append_pair url k v) = Some q ∧ q ≠ "";
  hmac_total algorithm key message : ∃ bytes, hmac_bytes algorithm key message = Ok bytes
}.
Context `{!UpstreamLaws}.

Definition has_query (url : Url) : Prop := ∃ q, url_query url = Some q ∧ q ≠ "".

Lemma set_query_param_url name value p :
  has_query (prep_url (set_query_param name value p)) ∧ url_host_str (prep_url (set_query_param name value p)) = url_host_str (prep_url p).
Proof.
  cbn [set_query_param set_url prep_url]. split; [apply append_pair_query|]. rewrite append_pair_host.
  rewrite <- (clear_query_host (prep_url p)). generalize (clear_query (prep_url p)) as url. generalize (filter (λ kv, kv.1 ≠ name) (query_pairs (prep_url p))) as l.
  induction l as [|[k v] l IH]; intros url; [done|]. cbn [foldl]. by rewrite IH, append_pair_host.
Qed.

(** What a binding leaves: the host, a query if there was one or it writes
    one, and every header that was there with the one it writes. *)
Lemma apply_target_keeps kind name value p : let p' := apply_hmac_target kind name value p in
  url_host_str (prep_url p') = url_host_str (prep_url p) ∧
  (has_query (prep_url p) ∨ kind = TargetQueryParam → has_query (prep_url p')) ∧
  ∀ other, is_Some (header_value p other) ∨ (kind = TargetHeader ∧ eq_ignore_ascii_case name other = true) → is_Some (header_value p' other).
Proof.
  destruct kind; cbn [apply_hmac_target].
  - split; [done|]. split; [intros [|]; [done|discriminate]|]. intros other Ho. rewrite header_value_set.
    destruct (eq_ignore_ascii_case name other); [done|]. by destruct Ho as [|[_ ?]].
  - destruct (set_query_param_url name value p) as [Hq Hh]. split; [done|]. split; [done|]. by intros other [|[? _]].
Qed.

Lemma prepare_value_resolves draw url body value :
  (∀ name, value = PrepareEnv name → is_Some (env_var name)) → (value = UpstreamHost → is_Some (url_host_str url)) →
  ∃ v, resolve_hmac_prepare_value env_var draw url body value = Ok v.
Proof.
  intros Henv Hhost. destruct value as [|name| | | | |]; cbn [resolve_hmac_prepare_value]; try by eexists.
  - destruct (Henv name eq_refl) as [v ->]. by exists v.
  - unfold host_header_value. destruct (Hhost eq_refl) as [host ->]. by eexists.
Qed.

(** The environment, the URL and the request hold what the bindings read. *)
Definition bindings_ready (bindings : list HmacPrepareBinding) (p : PreparedUpstreamRequest) : Prop :=
  (∀ b name, b ∈ bindings → binding_value b = PrepareEnv name → is_Some (env_var name)) ∧
  (∀ b, b ∈ bindings → binding_value b = UpstreamHost → is_Some (url_host_str (prep_url p))).

Lemma prepare_applies draws body bindings : ∀ i p, bindings_ready bindings p →
  ∃ p', apply_prepare env_var draws body bindings i p = Ok p' ∧
    (has_query (prep_url p) ∨ (∃ b, b ∈ bindings ∧ target_kind (binding_target b) = TargetQueryParam) → has_query (prep_url p')) ∧
    ∀ other, is_Some (header_value p other) ∨
      (∃ b, b ∈ bindings ∧ target_kind (binding_target b) = TargetHeader ∧ eq_ignore_ascii_case (target_name (binding_target b)) other = true) →
      is_Some (header_value p' other).
Proof.
  induction bindings as [|b bindings IH]; intros i p [Henv Hhost]; cbn [apply_prepare].
  { exists p. split; [done|]. split; [intros [|(b & []%elem_of_nil & _)]; done|]. intros other [|(b & []%elem_of_nil & _)]; done. }
  destruct (prepare_value_resolves (draws i) (prep_url p) body (binding_value b)) as [v Hv].
  { intros name. apply Henv. apply list_elem_of_here. }
  { apply Hhost. apply list_elem_of_here. }
  rewrite Hv. cbn [mbind result_bind].
  destruct (apply_target_keeps (target_kind (binding_target b)) (target_name (binding_target b)) v p) as (Hh & Hq & Hkeep).
  set (p1 := apply_hmac_target _ _ v p) in *. destruct (IH (S i) p1) as (p' & -> & Hq' & Hkeep').
  { split; [intros b' name Hb'; apply Henv; by apply list_elem_of_further|]. intros b' Hb'. rewrite Hh. apply Hhost. by apply list_elem_of_further. }
  exists p'. split; [done|]. split.
  - intros [Hbefore|(b' & [->|Hb']%elem_of_cons & Hk)]; apply Hq'; [left; apply Hq; by left|left; apply Hq; by right|right; by exists b'].
  - intros other [Hbefore|(b' & [->|Hb']%elem_of_cons & Hk)]; apply Hkeep'; [left; apply Hkeep; by left|left; apply Hkeep; by right|right; by exists b'].
Qed.

(** The headers a canonical string names. *)
Definition component_headers (component : HmacCanonicalComponent) : list string :=
  match component with CanonicalHeader name => [name] | CanonicalHeaders names _ _ => names | _ => [] end.

Lemma component_renders context p method component :
  validate_hmac_canonical_component component context = [] →
  (∀ name, name ∈ component_headers component → is_Some (header_value p name)) →
  (∀ style encoding, component = CanonicalQuery style encoding → has_query (prep_url p)) →
  ∃ part, canonical_component p method component = Ok part.
Proof.
  intros Hv Hh Hq. destruct component as [| |style encoding|name|names join_with format|value]; cbn [canonical_component]; try by eexists.
  - destruct (Hq _ _ eq_refl) as (q & Hq' & Hne). unfold canonical_query_component. rewrite Hq'. cbn [mbind option_bind].
    rewrite bool_decide_eq_false_2 by done. by eexists.
  - destruct (Hh name) as [v ->]; [apply list_elem_of_here|]. by eexists.
  - cbn [validate_hmac_canonical_component] in Hv. apply app_eq_nil in Hv as [_ [_ Hv]%app_eq_nil].
    destruct (validate_template_tokens format ["name"; "value"]) as [tokens|] eqn:Ht; [|done].
    assert (∀ acc, ∃ out, try_fold (λ rendered name, value ← ok_or (header_value p name) (missing_header name);
      line ← render_named_value_template format name value; Ok (rendered ++ [line])) acc names = Ok out) as Hfold.
    { induction names as [|name names IH]; intros acc; [by eexists|]. cbn [try_fold].
      destruct (Hh name) as [value Hvalue]; [apply list_elem_of_here|]. rewrite Hvalue. cbn [ok_or mbind result_bind].
      destruct (template_renders (named_value_token name value) format ["name"; "value"] tokens Ht) as (_ & out & Hout & _).
      { intros t Hin. pose proof (allowed_tokens _ _ _ _ Ht Hin) as Ha. unfold named_value_token.
        apply elem_of_cons in Ha as [->|[->|[]%elem_of_nil]%elem_of_cons]; by eexists. }
      unfold render_named_value_template. rewrite Hout. cbn [mbind result_bind]. apply IH; [|done]. intros n Hn. apply Hh. by apply list_elem_of_further. }
    destruct (Hfold []) as [out ->]. by eexists.
Qed.

Lemma canonical_string_builds context p method canonical :
  validate_components (canonical_components canonical) context = [] →
  (∀ component name, component ∈ canonical_components canonical → name ∈ component_headers component → is_Some (header_value p name)) →
  (∀ style encoding, CanonicalQuery style encoding ∈ canonical_components canonical → has_query (prep_url p)) →
  ∃ text, build_hmac_canonical_string p method canonical = Ok text.
Proof.
  intros Hv Hh Hq. unfold build_hmac_canonical_string.
  assert (∀ component, component ∈ canonical_components canonical → ∃ part, canonical_component p method component = Ok part) as Hall.
  { intros component Hin. apply list_elem_of_lookup in Hin as [i Hi].
    assert (∃ location, validate_hmac_canonical_component component location = []) as [location Hc].
    { unfold validate_components in Hv. eexists. eapply (concat_nil_lookup _ i); [exact Hv|]. rewrite list_lookup_imap, Hi. done. }
    eapply component_renders; [exact Hc| |].
    - intros name. apply Hh. by apply list_elem_of_lookup_2 with i.
    - intros style encoding ->. apply (Hq style encoding). by apply list_elem_of_lookup_2 with i. }
  assert (∀ l acc, (∀ component, component ∈ l → ∃ part, canonical_component p method component = Ok part) →
    ∃ out, try_fold (λ parts component, part ← canonical_component p method component; Ok (parts ++ [part])) acc l = Ok out) as Hfold.
  { induction l as [|component l IH]; intros acc Hl; [by eexists|]. cbn [try_fold].
    destruct (Hl component (list_elem_of_here _ _)) as [part ->]. cbn [mbind result_bind]. apply IH. intros c Hc. apply Hl. by apply list_elem_of_further. }
  destruct (Hfold (canonical_components canonical) []) as [out ->]; [done|]. by eexists.
Qed.

(** C34. An HMAC scheme that passed the configuration checks signs every request
    that carries what it names: with the variables it reads set, a host where it
    binds one, and each signed header and query in the request or written by a
    binding, the request is signed, and what is written to the destination
    holds the encoded signature of the canonical string. *)
Theorem checked_hmac_signs context draws p method body algorithm secret_from_env secret secret_suffix key_id_from_env prepare canonical signature :
  validate_auth_config (Hmac algorithm secret_from_env secret_suffix key_id_from_env prepare canonical signature) context = [] →
  env_var secret_from_env = Some secret → (∀ name, key_id_from_env = Some name → is_Some (env_var name)) →
  bindings_ready prepare p →
  (∀ component name, component ∈ canonical_components canonical → name ∈ component_headers component →
     is_Some (header_value p name) ∨
     ∃ b, b ∈ prepare ∧ target_kind (binding_target b) = TargetHeader ∧ eq_ignore_ascii_case (target_name (binding_target b)) name = true) →
  (∀ style encoding, CanonicalQuery style encoding ∈ canonical_components canonical →
     has_query (prep_url p) ∨ ∃ b, b ∈ prepare ∧ target_kind (binding_target b) = TargetQueryParam) →
  ∃ prepared text bytes rendered before after,
    apply_prepare env_var draws body prepare 0 p = Ok prepared ∧ build_hmac_canonical_string prepared method canonical = Ok text ∧
    hmac_bytes algorithm (str_bytes (secret +:+ default "" secret_suffix)) (str_bytes text) = Ok bytes ∧
    rendered = before +:+ encode_bytes bytes (signature_encoding signature) +:+ after ∧
    apply_hmac_auth env_var draws p method body algorithm secret_from_env secret_suffix key_id_from_env prepare canonical signature =
      Ok (apply_credential_target (dest_kind (signature_destination signature)) (dest_name (signature_destination signature)) rendered prepared).
Proof.
  intros Hv Hsecret Hkey Hready Hh Hq. cbn [validate_auth_config] in Hv.
  apply app_eq_nil in Hv as [_ [Hblank [_ [_ [Hcomp Hsig]%app_eq_nil]%app_eq_nil]%app_eq_nil]%app_eq_nil].
  destruct (prepare_applies draws body prepare 0 p Hready) as (prepared & Hprep & Hquery & Hheaders).
  destruct (canonical_string_builds context prepared method canonical Hcomp) as [text Htext].
  { intros component name Hc Hn. apply Hheaders. by eapply Hh. }
  { intros style encoding Hc. apply Hquery. by eapply Hq. }
  destruct (hmac_total algorithm (str_bytes (secret +:+ default "" secret_suffix)) (str_bytes text)) as [bytes Hbytes].
  unfold validate_hmac_signature_destination in Hsig. apply app_eq_nil in Hsig as [_ Hsig].
  destruct (validate_template_tokens _ _) as [tokens|] eqn:Ht; [|done].
  apply app_eq_nil in Hsig as [Hhas%issue_if_nil Hid%issue_if_nil]. apply negb_false_iff, bool_decide_eq_true in Hhas.
  assert (∃ key_id, match key_id_from_env with Some env_name => key_id ← ok_or (env_var env_name) ("HMAC key ID env var not set: " +:+ env_name); Ok (Some key_id)
    | None => Ok None end = Ok key_id ∧ (is_Some key_id_from_env → is_Some key_id)) as (key_id & Hkid & Hsome).
  { destruct key_id_from_env as [name|]; [|exists None; split; [done|intros [? [=]]]].
    destruct (Hkey name eq_refl) as [k Hk]. exists (Some k). by rewrite Hk. }
  destruct (template_renders (hmac_token (encode_bytes bytes (signature_encoding signature)) key_id) _ _ _ Ht) as (_ & rendered & Hrend & Hin).
  { intros t Htok. pose proof (allowed_tokens _ _ _ _ Ht Htok) as Ha. unfold hmac_token.
    apply elem_of_cons in Ha as [->|[->|[]%elem_of_nil]%elem_of_cons]; [by eexists|].
    change (is_Some key_id). apply Hsome. destruct key_id_from_env; [by eexists|]. exfalso.
    apply andb_false_iff in Hid as [Hid|Hid]; [|done]. by apply bool_decide_eq_false in Hid. }
  destruct (Hin "signature" (encode_bytes bytes (signature_encoding signature)) Hhas eq_refl) as (before & after & Hr).
  exists prepared, text, bytes, rendered, before, after. repeat (split; [done|]).
  unfold apply_hmac_auth. rewrite Hsecret. cbn [ok_or mbind result_bind]. rewrite Hkid. cbn [mbind result_bind]. rewrite Hprep. cbn [mbind result_bind].
  rewrite Htext. cbn [mbind result_bind]. rewrite Hbytes. cbn [mbind result_bind]. unfold render_hmac_template. by rewrite Hrend.
Qed.
End upstream.
