(* ===== verification/UpstreamSamples.v ===== *)
(** * UpstreamSamples: upstream requests at work

    A small URL library and three upstreams of one provider, an API key in the
    query, an HMAC signature and a fetched token; the theorems of
    [UpstreamSafety] at the calls they serve, and what becomes of a repeated
    response header. *)
From S2P Require Import Prelude F64 MeteringTypes Text Affixes Decimals Accounting Pricing PushManifest UsageSettlement UpstreamAuth Routes.
From S2P Require Import ChargeTerms ApiSpecs Gate UpstreamRequest UpstreamSafety.
#[local] Open Scope string_scope.
#[local] Open Scope list_scope.
#[local] Open Scope Z_scope.

Module SampleUpstream.
(** ** URLs *)
Record SampleUrl := { su_host : string; su_path : string; su_pairs : list (string * string) }.
Definition pair_text (kv : string * string) : string := kv.1 +:+ "=" +:+ kv.2.
Definition query_text (l : list (string * string)) : option string :=
  match l with [] => None | _ => Some (join "&" (map pair_text l)) end.
Definition parse (s : string) : result string SampleUrl :=
  rest ← ok_or (strip_prefix "https://" s) "relative URL without a base";
  let '(host, rest) := default (rest, "") (split_once slash rest) in
  let '(path, query) := default (rest, "") (split_once question_mark rest) in
  Ok {| su_host := host; su_path := "/" +:+ path; su_pairs := parse_raw_query_pairs query |}.
Definition sample_append (url : SampleUrl) (k v : string) : SampleUrl :=
  {| su_host := su_host url; su_path := su_path url; su_pairs := su_pairs url ++ [(k, v)] |}.
Definition sample_digest (message : list Z) : list Z := [foldl (λ h b, (h * 31 + b) mod 256) 7 message].

#[local] Instance sample_upstream : UpstreamKit := {|
  Url := SampleUrl; url_parse := parse; url_path := su_path; url_query := λ u, query_text (su_pairs u);
  url_host_str := λ u, Some (su_host u); url_port := λ _, None; query_pairs := su_pairs;
  clear_query := λ u, {| su_host := su_host u; su_path := su_path u; su_pairs := [] |}; append_pair := sample_append;
  hmac_bytes := λ _ key message, Ok (sample_digest (key ++ message)); digest_bytes := λ _, sample_digest; base64_encode := hash_hex;
  percent_encode := λ _ s, s; percent_decode_lossy := id; byte_serialize := id; form_parse := parse_raw_query_pairs;
  value_from_str := λ _, true; value_to_str := λ _, true |}.

Lemma pair_text_nonempty kv : pair_text kv ≠ "".
Proof. unfold pair_text. destruct kv as [[|] v]; done. Qed.

Lemma query_text_app l kv : ∃ q, query_text (l ++ [kv]) = Some q ∧ q ≠ "".
Proof.
  destruct l as [|x l]; [exists (pair_text kv); split; [done|apply pair_text_nonempty]|]. cbn [query_text app map join].
  eexists. split; [done|]. pose proof (pair_text_nonempty x) as Hx. destruct (map pair_text (l ++ [kv])); [done|].
  by destruct (pair_text x).
Qed.

#[local] Instance sample_laws : UpstreamLaws.
Proof. split; [done|done| |intros; by eexists]. intros url k v. apply query_text_app. Qed.

(** ** A provider *)
Definition env_var (name : string) : option string :=
  if bool_decide (name = "MAPS_KEY") then Some "k-secret" else if bool_decide (name = "SIGNING_KEY") then Some "hush"
  else if bool_decide (name = "PROJECT") then Some "acme-7" else None.
Definition draws (_ : nat) : Draw := {| timestamp_text := λ _, "1700000000"; uuid_text := "uuid"; random_bytes := λ n, replicate (Z.to_nat n) 171 |}.
Definition api (auth : AuthConfig) : ApiSpec := {|
  api_subdomain := "maps";
  api_routing := Proxy "https://maps.example/" [{| rewrite_prefix := "projects/{id}"; rewrite_env := "PROJECT" |}] (Some auth);
  api_endpoints := []; api_operator := None; api_recipients := ∅; api_session := None; api_batch_settlement := None |}.
Definition route : UpstreamRoute := {| route_subdomain := "maps"; route_method := "GET"; route_path := "projects/mine/tiles"; route_endpoint := None |}.
Definition call : UpstreamCall := {|
  call_method := "GET"; call_path := "/projects/mine/tiles"; call_path_and_query := "/projects/mine/tiles?zoom=4";
  call_headers := [("accept", "image/png"); ("x-pay-verified-payer", "Mallory"); ("x-forwarded-host", "other.example")]; call_body := [] |}.
Definition trusted : TrustedPaymentIdentity :=
  {| id_payer := Some "PayerKey"; id_channel_id := None; id_original_host := None; id_payment_policy := None |}.
Definition keyed : AuthConfig := QueryParam "key" "MAPS_KEY".
Definition tiles : PreparedUpstreamRequest := {|
  prep_url := {| su_host := "maps.example"; su_path := "/projects/acme-7/tiles"; su_pairs := [("zoom", "4"); ("key", "k-secret")] |};
  prep_headers := [("accept", "image/png"); ("x-pay-verified-payer", "PayerKey")];
  prep_credentials := {| cred_query := ["k-secret"]; cred_path_segments := ["acme-7"] |} |}.
Lemma tiles_prepared :
  prepare_upstream_with_identity env_var (api keyed) route call (Some trusted) draws (Ok "token") = Ok (PlanForward tiles).
Proof. vm_compute. reflexivity. Qed.

Lemma upstream_headers_have_a_source_witness :
  admits route (api keyed) "GET" "/projects/mine/tiles" = true ∧
  ((("x-pay-verified-payer", "PayerKey") ∈ call_headers call ∧ is_stripped_request_header "x-pay-verified-payer" = false) ∨
   (∃ identity, Some trusted = Some identity ∧ ("x-pay-verified-payer", "PayerKey") ∈ identity_headers identity) ∨
   (∃ auth, Some keyed = Some auth ∧ "x-pay-verified-payer" ∈ auth_header_names auth)).
Proof.
  apply (upstream_headers_have_a_source env_var (api keyed) route call (Some trusted) draws (Ok "token") tiles
    "x-pay-verified-payer" "PayerKey" tiles_prepared).
  right. left.
Defined.

(** A redirect that quotes the key and the project, and one that is clean. *)
Definition upstream_answer : list (string * string) :=
  [("location", "https://maps.example/tiles?zoom=4&key=k-secret"); ("content-location", "/projects/acme-7/tiles");
   ("content-length", "12"); ("etag", "v1")].

(** ** A signature of the date and the query *)
Definition dated : HmacPrepareBinding :=
  {| binding_target := {| target_kind := TargetHeader; target_name := "X-Date" |}; binding_value := Timestamp UnixSeconds |}.
Definition nonce : HmacPrepareBinding :=
  {| binding_target := {| target_kind := TargetQueryParam; target_name := "nonce" |}; binding_value := RandomHex 2 |}.
Definition canonical : HmacCanonicalConfig := {| canonical_join_with := "+"; canonical_components :=
  [CanonicalMethod; CanonicalQuery SortedPairs NoEncoding; CanonicalHeaders ["x-date"; "accept"] ";" "{name}:{value}"] |}.
Definition signature : HmacSignatureConfig := {| signature_encoding := Hex; signature_destination :=
  {| dest_kind := TargetHeader; dest_name := "Authorization"; dest_template := "HMAC {signature}" |} |}.
Definition signing : AuthConfig := Hmac HmacSha256 "SIGNING_KEY" None None [dated; nonce] canonical signature.
Definition plain : PreparedUpstreamRequest := {|
  prep_url := {| su_host := "maps.example"; su_path := "/tiles"; su_pairs := [("zoom", "4")] |};
  prep_headers := [("accept", "image/png")]; prep_credentials := no_credentials |}.

Lemma checked_hmac_signs_witness :
  validate_auth_config signing "routing auth" = [] ∧
  match apply_prepare env_var draws [] [dated; nonce] 0 plain with
  | Ok p => build_hmac_canonical_string p "GET" canonical
  | Err e => Err e
  end = Ok "GET+nonce=abab&zoom=4+x-date:1700000000;accept:image/png" ∧
  ∃ rendered prepared, apply_hmac_auth env_var draws plain "GET" [] HmacSha256 "SIGNING_KEY" None None [dated; nonce] canonical signature
    = Ok (apply_credential_target TargetHeader "Authorization" rendered prepared).
Proof.
  split; [by vm_compute|]. split; [by vm_compute|].
  destruct (checked_hmac_signs (H := sample_upstream) env_var "routing auth" draws plain "GET" [] HmacSha256 "SIGNING_KEY" "hush" None None
    [dated; nonce] canonical signature) as (prepared & text & bytes & rendered & before & after & _ & _ & _ & _ & Hok).
  - by vm_compute.
  - by vm_compute.
  - done.
  - split; [|intros b _ _; by eexists]. intros b name [->|[->|[]%elem_of_nil]%elem_of_cons]%elem_of_cons; done.
  - intros component name [->|[->|[->|[]%elem_of_nil]%elem_of_cons]%elem_of_cons]%elem_of_cons; cbn [component_headers];
      try (by intros []%elem_of_nil). intros [->|[->|[]%elem_of_nil]%elem_of_cons]%elem_of_cons.
    + right. exists dated. split; [left|]. by vm_compute.
    + left. eexists; vm_compute; reflexivity.
  - intros _ _ _. left. exists "zoom=4". vm_compute; split; [reflexivity|done].
  - by exists rendered, prepared.
Defined.

(** ** Repeated response headers *)

(** The relay inserts each header in turn, and so keeps only the last of a
    repeated one: of two cookies the caller is sent one. *)
Theorem repeated_headers_keep_the_last :
  relayed_headers no_credentials [("set-cookie", "session=1"); ("set-cookie", "theme=dark"); ("etag", "v1")]
    = [("set-cookie", "theme=dark"); ("etag", "v1")].
Proof. vm_compute. reflexivity. Qed.
End SampleUpstream.
