(* ===== verification/SpendPolicy.v ===== *)
(** * SpendPolicy: the spending policy of hosted wallets

    [mcp/src/policy.rs], the approval hold of [mcp/src/context.rs], and the
    amounts of [keystore/src/auth.rs] it reads: a ceiling per call and a cap per
    day, checked and recorded before a signature is released, and given back
    when no signature follows. *)
From stdpp Require Import gmap.
From S2P Require Import Prelude F64 Text Affixes Decimals.
#[local] Open Scope string_scope.
#[local] Open Scope list_scope.
#[local] Open Scope Z_scope.

(** ** Approvals: [keystore/src/auth.rs] *)
Definition USD_MINOR_UNITS_PER_DOLLAR : Z := 10000.

Inductive PaymentLimit :=
  Usd00001 | Usd0001 | Usd0005 | Usd001 | Usd005 | Usd01 | Usd05 | Usd1 | Usd2 | Usd5 | Usd10 | Usd15 | Usd20 | Usd25 | Usd50 | AboveUsd50.
Definition BUCKETS : list (Z * PaymentLimit) :=
  [(1, Usd00001); (10, Usd0001); (50, Usd0005); (100, Usd001); (500, Usd005); (1000, Usd01); (5000, Usd05); (10000, Usd1);
   (20000, Usd2); (50000, Usd5); (100000, Usd10); (150000, Usd15); (200000, Usd20); (250000, Usd25); (500000, Usd50)].
Definition from_minor_units (units : Z) : PaymentLimit :=
  match find (λ b, units <=? b.1) BUCKETS with Some b => b.2 | None => AboveUsd50 end.

(** [fractional_units]: four digits, and one more unit for what they leave
    out. *)
Fixpoint fraction_value (multiplier : Z) (frac : list Z) (units : Z) : option Z :=
  match frac with
  | [] => Some units
  | b :: frac =>
      units' ← checked_add 64 units ((b - 48) * multiplier);
      fraction_value (multiplier / 10) frac units'
  end.
Definition fractional_units (frac : string) : option Z :=
  units ← fraction_value 1000 (take 4 (str_bytes frac)) 0;
  if existsb (λ b, negb (b =? 48)) (drop 4 (str_bytes frac)) then checked_add 64 units 1 else Some units.
Definition parse_usd_minor_units (amount : string) : option Z :=
  let amount := default (trim amount) (strip_prefix "$" (trim amount)) in
  if bool_decide (amount = "") then None
  else
    match split_on dot amount with
    | whole :: parts =>
        let frac := default "" (head parts) in
        if (1 <? length parts)%nat || bool_decide (whole = "") || negb (forallb is_ascii_digit (str_bytes whole)) ||
           negb (forallb is_ascii_digit (str_bytes frac)) then None
        else
          whole_value ← parse_u64_digits whole;
          whole_units ← checked_mul 64 whole_value 10000;
          frac_units ← fractional_units frac;
          checked_add 64 whole_units frac_units
    | [] => None
    end.
Definition from_amount (amount : string) : option PaymentLimit := from_minor_units <$> parse_usd_minor_units amount.

Inductive AuthIntent :=
  | AuthorizePayment (message : string) (limit : option PaymentLimit) (amount_minor_units : option Z) (recurring : bool)
  | CreateAccount (message : string)
  | ImportAccount (message : string)
  | ExportAccount (message : string)
  | DeleteAccount (message : string)
  | OpenSession (message : string)
  | UseGatewayFeePayer (message : string)
  | UseAccount (message : string)
  | SignIn (message : string)
  | AuthorizeBatch (message : string) (limit : option PaymentLimit) (amount_minor_units : option Z).
Definition intent_amount (i : AuthIntent) : option Z :=
  match i with AuthorizePayment _ _ a _ | AuthorizeBatch _ _ a => a | _ => None end.
Definition moves_money (i : AuthIntent) : bool := match i with AuthorizePayment _ _ _ _ | AuthorizeBatch _ _ _ => true | _ => false end.
Definition is_recurring (i : AuthIntent) : bool := match i with AuthorizePayment _ _ _ true => true | _ => false end.
Definition signs_raw_proof (i : AuthIntent) : bool := match i with SignIn _ => true | _ => false end.

(** [dollars]. *)
Definition dollars (minor : Z) : string :=
  let whole := minor / USD_MINOR_UNITS_PER_DOLLAR in
  let frac := minor mod USD_MINOR_UNITS_PER_DOLLAR in
  if frac =? 0 then "$" +:+ show whole
  else trim_end_matches zero_char ("$" +:+ show whole +:+ "." +:+ string_of_digits (pad_digits 4 (digits frac))).

(** ** The policy and its ledger *)
Record Policy := { per_call_ceiling : option Z; daily_cap : option Z }.
Definition FROZEN : Policy := {| per_call_ceiling := Some 0; daily_cap := Some 0 |}.
Definition to_minor (d : f64) : Z := f64_as_u64 (f64_max (f64_round (f64_mul d (f64_of_Z USD_MINOR_UNITS_PER_DOLLAR))) f64_zero).
Definition policy_dollars (per_call daily : f64) : Policy :=
  {| per_call_ceiling := Some (to_minor per_call); daily_cap := Some (to_minor daily) |}.

Record Recorded := { rec_day : Z; rec_total : Z }.
Inductive Refused := OverCap (total : Z) | Held.

(** The trait; the day a call charges is the one its caller read. *)
Class SpendLedger (L : Type) := {
  spent_today : L → Z → string → Z;
  check_and_record : L → Z → string → Z → option Z → L * result Refused Recorded;
  release : L → string → Z → Z → L;
  hold : L → string → L;
  count : L → Z → string → Z → L
}.

(** What a ledger promises, over the subjects it holds; totals stay amounts. *)
Definition sound {L} `{SpendLedger L} (l : L) : Prop := ∀ d s, 0 ≤ spent_today l d s.
Class SpendLedgerLaws (L : Type) `{SpendLedger L} := {
  held : L → string → Prop;
  sound_record l d s a cap : sound l → 0 ≤ a → sound (check_and_record l d s a cap).1;
  sound_release l s d a : sound l → sound (release l s d a);
  sound_hold l s : sound l → sound (hold l s);
  sound_count l d s n : sound l → 0 ≤ n → sound (count l d s n);
  record_ok l d s a cap l' r : check_and_record l d s a cap = (l', Ok r) →
    ¬ held l s ∧ rec_day r = d ∧ rec_total r = saturating_add 64 (spent_today l d s) a ∧ (∀ c, cap = Some c → rec_total r ≤ c) ∧
    ∀ s', spent_today l' d s' = if decide (s' = s) then rec_total r else spent_today l d s';
  record_err l d s a cap l' e : check_and_record l d s a cap = (l', Err e) → ∀ s', spent_today l' d s' = spent_today l d s';
  release_spent l s day a d s' : 0 ≤ a → spent_today (release l s day a) d s' =
    if decide (s' = s ∧ day = d) then saturating_sub (spent_today l d s) a else spent_today l d s';
  hold_spent l s d s' : spent_today (hold l s) d s' = spent_today l d s';
  count_spent l d s n s' : spent_today (count l d s n) d s' =
    if decide (s' = s) then saturating_add 64 (spent_today l d s) n else spent_today l d s';
  held_record l d s a cap s' : held (check_and_record l d s a cap).1 s' ↔ held l s';
  held_release l s d a s' : held (release l s d a) s' ↔ held l s';
  held_hold l s s' : held (hold l s) s' ↔ s' = s ∨ held l s';
  held_count l d s n s' : held (count l d s n) s' ↔ s' ≠ s ∧ held l s'
}.

(** [MemoryLedger]: one running total per subject, for one day. *)
Record Book := { totals : gmap string (Z * Z); held_set : gset string }.
Definition entry (b : Book) (today : Z) (subject : string) : Z * Z :=
  match totals b !! subject with
  | Some (day, total) => if day =? today then (day, total) else (today, 0)
  | None => (today, 0)
  end.
Definition mem_spent_today (b : Book) (today : Z) (subject : string) : Z :=
  match totals b !! subject with Some (day, total) => if day =? today then total else 0 | None => 0 end.
Definition set_entry (b : Book) (subject : string) (e : Z * Z) : Book :=
  {| totals := <[subject := e]> (totals b); held_set := held_set b |}.
Definition mem_check_and_record (b : Book) (today : Z) (subject : string) (amount : Z) (cap : option Z) :
    Book * result Refused Recorded :=
  if bool_decide (subject ∈ held_set b) then (b, Err Held)
  else
    let e := entry b today subject in
    let next := saturating_add 64 e.2 amount in
    if match cap with Some cap => cap <? next | None => false end then (set_entry b subject e, Err (OverCap next))
    else (set_entry b subject (e.1, next), Ok {| rec_day := today; rec_total := next |}).
Definition mem_release (b : Book) (subject : string) (day amount : Z) : Book :=
  match totals b !! subject with
  | Some (current, total) => if current =? day then set_entry b subject (current, saturating_sub total amount) else b
  | None => b
  end.
Definition mem_hold (b : Book) (subject : string) : Book :=
  {| totals := totals b; held_set := {[subject]} ∪ held_set b |}.
Definition mem_count (b : Book) (today : Z) (subject : string) (spent : Z) : Book :=
  let e := entry b today subject in
  {| totals := <[subject := (e.1, saturating_add 64 e.2 spent)]> (totals b); held_set := held_set b ∖ {[subject]} |}.
#[global] Instance memory_ledger : SpendLedger Book := {|
  spent_today := mem_spent_today; check_and_record := mem_check_and_record; release := mem_release; hold := mem_hold; count := mem_count |}.

(** ** The gates *)
Record Reserved := { res_day : Z; res_amount : Z }.

Section gates.
Context {L : Type} `{SpendLedger L}.

(** [PolicyGate::reserve]: the amount an intent may move, then its record. *)
Definition payable_amount (policy : Policy) (intent : AuthIntent) : result string (option Z) :=
  if negb (moves_money intent) then Ok None
  else if is_recurring intent then
    Err "recurring subscriptions are not supported by the hosted spending policy because future merchant pulls cannot be recorded per request"
  else
    match intent_amount intent with
    | None => Err "this payment does not state an amount, and the account is under a spending policy that needs one"
    | Some amount =>
        match per_call_ceiling policy with
        | Some ceiling =>
            if ceiling <? amount then Err (dollars amount +:+ " exceeds the per-call ceiling of " +:+ dollars ceiling) else Ok (Some amount)
        | None => Ok (Some amount)
        end
    end.
Definition refusal (policy : Policy) (amount : Z) (r : Refused) : string :=
  match r with
  | OverCap total =>
      dollars amount +:+ " would take today's spend to " +:+ dollars total +:+ " against a daily cap of " +:+
      match daily_cap policy with Some cap => dollars cap | None => "" end
  | Held => "this wallet's spending history could not be read, so nothing can be spent until it is; sign in again to retry"
  end.
Definition reserve (subject : string) (policy : Policy) (l : L) (today : Z) (intent : AuthIntent) : L * result string (option Reserved) :=
  match payable_amount policy intent with
  | Err e => (l, Err e)
  | Ok None => (l, Ok None)
  | Ok (Some amount) =>
      match check_and_record l today subject amount (daily_cap policy) with
      | (l, Ok recorded) => (l, Ok (Some {| res_day := rec_day recorded; res_amount := amount |}))
      | (l, Err r) => (l, Err (refusal policy amount r))
      end
  end.

(** The gates of a chain: the policy, the client's own prompt with what the
    user answers, and the refusal of raw proofs without a prompt. *)
Inductive Gate :=
  | PolicyGate (subject : string) (policy : Policy)
  | ElicitationAuth (answer : AuthIntent → result string unit)
  | RequireInteractiveProofApproval.
Definition authenticate (g : Gate) (l : L) (holds : list Reserved) (today : Z) (intent : AuthIntent) : L * list Reserved * result string unit :=
  match g with
  | PolicyGate subject policy =>
      match reserve subject policy l today intent with
      | (l, Ok (Some reserved)) => (l, holds ++ [reserved], Ok tt)
      | (l, Ok None) => (l, holds, Ok tt)
      | (l, Err e) => (l, holds, Err e)
      end
  | ElicitationAuth answer => (l, holds, answer intent)
  | RequireInteractiveProofApproval =>
      (l, holds, if signs_raw_proof intent
                 then Err "wallet sign-in needs approval from an MCP client that supports prompts; this client cannot show one" else Ok tt)
  end.
Fixpoint chained (gates : list Gate) (l : L) (holds : list Reserved) (today : Z) (intent : AuthIntent) :
    L * list Reserved * result string unit :=
  match gates with
  | [] => (l, holds, Ok tt)
  | g :: gates =>
      match authenticate g l holds today intent with
      | (l, holds, Ok _) => chained gates l holds today intent
      | (l, holds, Err e) => (l, holds, Err e)
      end
  end.
(** [PolicyApproval::chain]. *)
Definition approval_chain (subject : string) (policy : Policy) (prompt : option (AuthIntent → result string unit)) : list Gate :=
  [PolicyGate subject policy; match prompt with Some answer => ElicitationAuth answer | None => RequireInteractiveProofApproval end].

(** The hold of [gate_with_hold], dropped without a commit. *)
Definition drop_hold (l : L) (subject : string) (holds : list Reserved) : L :=
  foldl (λ l r, release l subject (res_day r) (res_amount r)) l holds.
End gates.

(** ** Signing operations

    Any number of them run at once, each under [gate_with_hold] (its holds are
    dropped when nothing is signed) or under [gate]; every ledger call is one
    critical section, and charges the day its caller read from the clock. *)
Record Operation := {
  op_subject : string;
  op_has_hold : bool;
  op_reserved : list Reserved;
  op_approved : list (AuthIntent * Z)
}.
Record SpendWorld (L : Type) := { ledger : L; clock : Z; running : list Operation; signed : list Operation; abandoned : list Operation }.
Arguments ledger {L} _.
Arguments clock {L} _.
Arguments running {L} _.
Arguments signed {L} _.
Arguments abandoned {L} _.
Inductive action :=
  | NextDay (day : Z)
  | Start (subject : string) (has_hold : bool)
  | Authorize (i : nat) (intent : AuthIntent) (prompt : option (AuthIntent → result string unit)) (day : Z)
  | Sign (i : nat)
  | Abandon (i : nat)
  | HoldSubject (subject : string)
  | CountSpent (subject : string) (spent day : Z).

Section world.
Context {L : Type} `{SpendLedger L} (policies : string → Policy).

Definition act (w : SpendWorld L) (a : action) : option (SpendWorld L) :=
  match a with
  | NextDay day =>
      if clock w <? day then Some {| ledger := ledger w; clock := day; running := running w; signed := signed w; abandoned := abandoned w |}
      else None
  | Start subject has_hold =>
      Some {| ledger := ledger w; clock := clock w; signed := signed w; abandoned := abandoned w;
              running := running w ++ [{| op_subject := subject; op_has_hold := has_hold; op_reserved := []; op_approved := [] |}] |}
  | Authorize i intent prompt day =>
      op ← running w !! i;
      let '(l, reserved, answer) :=
        chained (approval_chain (op_subject op) (policies (op_subject op)) prompt) (ledger w) (op_reserved op) day intent in
      Some {| ledger := l; clock := clock w; signed := signed w; abandoned := abandoned w;
              running := <[i := {| op_subject := op_subject op; op_has_hold := op_has_hold op; op_reserved := reserved;
                                   op_approved := op_approved op ++ match answer with Ok _ => [(intent, day)] | Err _ => [] end |}]> (running w) |}
  | Sign i =>
      op ← running w !! i;
      Some {| ledger := ledger w; clock := clock w; running := delete i (running w); signed := signed w ++ [op]; abandoned := abandoned w |}
  | Abandon i =>
      op ← running w !! i;
      Some (if op_has_hold op
            then {| ledger := drop_hold (ledger w) (op_subject op) (op_reserved op); clock := clock w; running := delete i (running w);
                    signed := signed w; abandoned := abandoned w |}
            else {| ledger := ledger w; clock := clock w; running := delete i (running w); signed := signed w;
                    abandoned := abandoned w ++ [op] |})
  | HoldSubject subject =>
      Some {| ledger := hold (ledger w) subject; clock := clock w; running := running w; signed := signed w; abandoned := abandoned w |}
  | CountSpent subject spent day =>
      Some {| ledger := count (ledger w) day subject spent; clock := clock w; running := running w; signed := signed w;
              abandoned := abandoned w |}
  end.

(** A ledger call that does not straddle midnight: it charges the day it runs
    in. *)
Definition u64b (n : Z) : bool := (0 <=? n) && (n <=? u64_max).
Definition prompt_call (w : SpendWorld L) (a : action) : bool :=
  match a with
  | Authorize _ intent _ day => (day =? clock w) && match intent_amount intent with Some n => u64b n | None => true end
  | CountSpent _ spent day => (day =? clock w) && u64b spent
  | _ => true
  end.
Fixpoint run_actions (w : SpendWorld L) (l : list action) : option (SpendWorld L) :=
  match l with [] => Some w | a :: l => w' ← act w a; run_actions w' l end.
Fixpoint all_prompt (w : SpendWorld L) (l : list action) : bool :=
  match l with
  | [] => true
  | a :: l => prompt_call w a && match act w a with Some w' => all_prompt w' l | None => true end
  end.
Definition initial (l : L) (day : Z) : SpendWorld L := {| ledger := l; clock := day; running := []; signed := []; abandoned := [] |}.

(** The money approved for the signed operations of a subject on a day. *)
Definition approved_on (op : Operation) (d : Z) : Z :=
  zsum (map (λ p, if p.2 =? d then default 0 (intent_amount p.1) else 0) (op_approved op)).
Definition signed_on (w : SpendWorld L) (s : string) (d : Z) : Z :=
  zsum (map (λ op, if bool_decide (op_subject op = s) then approved_on op d else 0) (signed w)).
End world.

(** ** The ledger in memory keeps the promises *)
Lemma mem_spent_entry b d s : mem_spent_today b d s = (entry b d s).2.
Proof. unfold mem_spent_today, entry. destruct (totals b !! s) as [[day total]|]; [|done]. by destruct (day =? d). Qed.

Lemma entry_day b d s : (entry b d s).1 = d.
Proof. unfold entry. destruct (totals b !! s) as [[day total]|]; [|done]. by destruct (Z.eqb_spec day d). Qed.

Lemma spent_insert b s e d s' held : mem_spent_today {| totals := <[s := e]> (totals b); held_set := held |} d s' =
  if decide (s' = s) then if e.1 =? d then e.2 else 0 else mem_spent_today b d s'.
Proof.
  unfold mem_spent_today. cbn [totals]. destruct (decide (s' = s)) as [->|Hne].
  - rewrite lookup_insert. destruct (decide (s = s)); [|done]. by destruct e.
  - by rewrite lookup_insert_ne by congruence.
Qed.


Lemma entry_nonneg b d s : sound b → 0 ≤ (entry b d s).2.
Proof. rewrite <-mem_spent_entry. intros Hs. apply Hs. Qed.

Lemma insert_sound b s e held : sound b → 0 ≤ e.2 → sound ({| totals := <[s := e]> (totals b); held_set := held |} : Book).
Proof. intros Hb He d s'. cbn [spent_today memory_ledger]. rewrite spent_insert. destruct (decide _); [by destruct (_ =? _)|apply Hb]. Qed.

#[global] Program Instance memory_ledger_laws : SpendLedgerLaws Book := {| held := λ b s, s ∈ held_set b |}.
Next Obligation.
  intros b d s a cap Hb Ha. cbn. unfold mem_check_and_record. case_bool_decide; [done|]. pose proof (entry_nonneg b d s Hb).
  destruct (match cap with Some _ => _ | None => _ end); apply insert_sound; try done. cbn. unfold saturating_add. lia.
Qed.
Next Obligation.
  intros b s d a Hb. cbn. unfold mem_release. destruct (totals b !! s) as [[day total]|]; [|done]. destruct (day =? d); [|done].
  apply insert_sound; [done|]. cbn. unfold saturating_sub. lia.
Qed.
Next Obligation. intros b s Hb d s'. exact (Hb d s'). Qed.
Next Obligation.
  intros b d s n Hb Hn. pose proof (entry_nonneg b d s Hb). apply insert_sound; [done|]. cbn. unfold saturating_add. lia.
Qed.
Next Obligation.
  intros b d s a cap b' r. cbn. unfold mem_check_and_record. rewrite mem_spent_entry.
  case_bool_decide as Hheld; [done|]. destruct (match cap with Some _ => _ | None => _ end) eqn:Hcap; [done|].
  intros [= <- <-]. cbn [rec_day rec_total]. split_and!; [done|done|done|by intros c ->; apply Z.ltb_ge in Hcap|].
  intros s'. unfold set_entry. rewrite spent_insert. cbn [fst snd]. by rewrite entry_day, Z.eqb_refl.
Qed.
Next Obligation.
  intros b d s a cap b' e. cbn. unfold mem_check_and_record. case_bool_decide; [by intros [= <- _]|].
  destruct (match cap with Some _ => _ | None => _ end); [|done]. intros [= <- _] s'. unfold set_entry. rewrite spent_insert.
  destruct (decide (s' = s)) as [->|]; [|done]. by rewrite entry_day, Z.eqb_refl, mem_spent_entry.
Qed.
Next Obligation.
  intros b s day a d s' Ha. cbn. unfold mem_release, mem_spent_today. destruct (totals b !! s) as [[current total]|] eqn:Hs.
  - destruct (Z.eqb_spec current day) as [->|Hne].
    + unfold set_entry. cbn [totals]. destruct (decide (s' = s)) as [->|Hs'].
      * rewrite lookup_insert, Hs. destruct (decide (s = s)); [|done]. destruct (Z.eqb_spec day d); [by rewrite decide_True|].
        by rewrite decide_False by tauto.
      * rewrite lookup_insert_ne by congruence. by rewrite decide_False by tauto.
    + destruct (decide (s' = s ∧ day = d)) as [[-> ->]|]; [|done]. rewrite Hs. apply Z.eqb_neq in Hne. rewrite Hne.
      unfold saturating_sub. lia.
  - destruct (decide (s' = s ∧ day = d)) as [[-> _]|]; [|done]. rewrite Hs. unfold saturating_sub. lia.
Qed.
Next Obligation. done. Qed.
Next Obligation.
  intros b d s n s'. cbn. unfold mem_count. rewrite spent_insert. cbn [fst snd].
  destruct (decide (s' = s)) as [->|]; [|done]. by rewrite entry_day, Z.eqb_refl, mem_spent_entry.
Qed.
Next Obligation.
  intros b d s a cap s'. cbn. unfold mem_check_and_record. case_bool_decide; [done|].
  by destruct (match cap with Some _ => _ | None => _ end).
Qed.
Next Obligation. intros b s d a s'. cbn. unfold mem_release. destruct (totals b !! s) as [[? ?]|]; [|done]. by destruct (_ =? _). Qed.
Next Obligation. intros b s s'. cbn. set_solver. Qed.
Next Obligation. intros b d s n s'. cbn. set_solver. Qed.

(** ** The daily cap *)

(** Sums over operations. *)
Definition reserved_on (op : Operation) (d : Z) : Z :=
  zsum (map (λ r, if res_day r =? d then res_amount r else 0) (op_reserved op)).
Definition of_subject (s : string) (f : Operation → Z) (op : Operation) : Z := if bool_decide (op_subject op = s) then f op else 0.
Definition live {L} (w : SpendWorld L) (s : string) (d : Z) : Z :=
  zsum (map (of_subject s (λ op, reserved_on op d)) (running w)) + zsum (map (of_subject s (λ op, reserved_on op d)) (signed w)) +
  zsum (map (of_subject s (λ op, reserved_on op d)) (abandoned w)).

Section caps.
Context {L : Type} `{SpendLedgerLaws L} (policies : string → Policy).

(** What an approval of an intent that moves money has passed. *)
Definition within_ceiling (policy : Policy) (intent : AuthIntent) : Prop :=
  moves_money intent = true → is_recurring intent = false ∧ ∃ n, intent_amount intent = Some n ∧ ∀ c, per_call_ceiling policy = Some c → n ≤ c.

Lemma intent_amount_moves intent : moves_money intent = false → intent_amount intent = None.
Proof. by destruct intent. Qed.

Lemma payable_amount_spec policy intent a : payable_amount policy intent = Ok a →
  within_ceiling policy intent ∧ match a with Some n => moves_money intent = true ∧ intent_amount intent = Some n | None => moves_money intent = false end.
Proof.
  unfold payable_amount, within_ceiling. destruct (moves_money intent); cbn [negb]; [|by intros [= <-]].
  destruct (is_recurring intent); [done|]. destruct (intent_amount intent) as [n|]; [|done].
  destruct (per_call_ceiling policy) as [c|].
  - destruct (Z.ltb_spec c n); [done|]. intros [= <-]. split; [|done]. intros _. split; [done|]. exists n. split; [done|]. by intros c' [= <-].
  - intros [= <-]. split; [|done]. intros _. split; [done|]. by exists n.
Qed.

(** One authorization: nothing but the subject's total moves, and an approval
    of an intent that moves money has been recorded within the cap. *)
Lemma chain_spec subject policy prompt l reserved day intent l' reserved' answer :
  chained (approval_chain subject policy prompt) l reserved day intent = (l', reserved', answer) →
  (∀ s, s ≠ subject → spent_today l' day s = spent_today l day s) ∧
  ((reserved' = reserved ∧ spent_today l' day subject = spent_today l day subject ∧ (is_ok answer = true → moves_money intent = false)) ∨
   (∃ n, intent_amount intent = Some n ∧ within_ceiling policy intent ∧ reserved' = reserved ++ [{| res_day := day; res_amount := n |}] ∧
      spent_today l' day subject = saturating_add 64 (spent_today l day subject) n ∧
      ∀ c, daily_cap policy = Some c → saturating_add 64 (spent_today l day subject) n ≤ c)).
Proof.
  unfold approval_chain. cbn [chained authenticate]. unfold reserve.
  destruct (payable_amount policy intent) as [[n|]|e] eqn:Hp; [| |by intros [= <- <- <-]; split; [done|left]].
  - apply payable_amount_spec in Hp as (Hw & Hm & Ha).
    destruct (check_and_record l day subject n (daily_cap policy)) as [l1 [rec|r]] eqn:Hc.
    + apply record_ok in Hc as (_ & Hday & Htotal & Hcap & Hspent). rewrite Hday. intros Hchain.
      assert (l1 = l' ∧ reserved ++ [{| res_day := day; res_amount := n |}] = reserved') as [-> <-].
      { destruct prompt as [p|]; cbn [authenticate] in Hchain; [destruct (p intent)|destruct (signs_raw_proof intent)]; by injection Hchain as -> -> _. }
      split; [intros s Hs; by rewrite Hspent, decide_False|]. right. exists n. rewrite Hspent, decide_True by done.
      rewrite Htotal in *. done.
    + intros [= <- <- <-]. pose proof (record_err _ _ _ _ _ _ _ Hc) as Hs. split; [by intros|]. left. by rewrite Hs.
  - apply payable_amount_spec in Hp as [_ Hm]. intros Hchain.
    assert (l = l' ∧ reserved = reserved') as [-> ->].
    { destruct prompt as [p|]; cbn [authenticate] in Hchain; [destruct (p intent)|destruct (signs_raw_proof intent)]; by injection Hchain as -> -> _. }
    split; [done|]. by left.
Qed.

Lemma chain_sound subject policy prompt l reserved day intent :
  sound l → (∀ n, intent_amount intent = Some n → 0 ≤ n) →
  sound (chained (approval_chain subject policy prompt) l reserved day intent).1.1.
Proof.
  intros Hl Hn. unfold approval_chain. cbn [chained authenticate]. unfold reserve.
  destruct (payable_amount policy intent) as [[n|]|e] eqn:Hp; [| |done].
  - apply payable_amount_spec in Hp as (_ & _ & Ha). pose proof (sound_record l day subject n (daily_cap policy) Hl (Hn n Ha)) as Hs.
    destruct (check_and_record l day subject n (daily_cap policy)) as [l1 [rec|r]]; [|done].
    destruct prompt as [p|]; cbn; [by destruct (p intent)|by destruct (signs_raw_proof intent)].
  - destruct prompt as [p|]; cbn; [by destruct (p intent)|by destruct (signs_raw_proof intent)].
Qed.

(** Dropping a hold gives back at most what it had reserved. *)
Lemma drop_hold_spec subject d s reserved : ∀ l,
  sound l → Forall (λ r, 0 ≤ res_amount r) reserved →
  sound (drop_hold l subject reserved) ∧
  spent_today l d s - (if bool_decide (subject = s) then zsum (map (λ r, if res_day r =? d then res_amount r else 0) reserved) else 0) ≤
    spent_today (drop_hold l subject reserved) d s.
Proof.
  induction reserved as [|r reserved IH]; intros l Hl Hr; [split; [done|]; cbn [map drop_hold foldl]; change (zsum []) with 0; case_bool_decide; lia|].
  apply Forall_cons in Hr as [Hr0 Hr]. cbn [drop_hold foldl map]. rewrite zsum_cons.
  destruct (IH (release l subject (res_day r) (res_amount r))) as [Hs Hle]; [by apply sound_release|done|]. split; [exact Hs|].
  etrans; [|exact Hle]. rewrite release_spent by done. unfold saturating_sub.
  case_bool_decide as Hsub; [|rewrite decide_False by naive_solver; lia]. subst s.
  destruct (Z.eqb_spec (res_day r) d); [rewrite decide_True by done|rewrite decide_False by tauto]; lia.
Qed.

(** Every operation has reserved what was approved for it. *)
Record op_ok (today : Z) (op : Operation) : Prop := {
  ok_reserved : Forall (λ r, res_day r ≤ today ∧ 0 ≤ res_amount r) (op_reserved op);
  ok_covered d : approved_on op d ≤ reserved_on op d;
  ok_ceiling : Forall (λ p, within_ceiling (policies (op_subject op)) p.1) (op_approved op)
}.

Lemma reserved_on_nonneg today op d : op_ok today op → 0 ≤ reserved_on op d.
Proof.
  intros [Hr _ _]. apply zsum_nonneg. rewrite Forall_map. eapply Forall_impl; [exact Hr|]. intros r [_ ?]. cbn. by destruct (_ =? _).
Qed.

Lemma reserved_on_later today op d : op_ok today op → today < d → reserved_on op d = 0.
Proof.
  intros [Hr _ _] Hd. unfold reserved_on. induction Hr as [|r l [Hday _] _ IH]; [done|]. cbn [map]. rewrite zsum_cons, IH.
  destruct (Z.eqb_spec (res_day r) d); [lia|done].
Qed.

Lemma op_ok_later today today' op : op_ok today op → today ≤ today' → op_ok today' op.
Proof. intros [Hr Hc Hw] Hle. split; [|done|done]. eapply Forall_impl; [exact Hr|]. intros r [? ?]. split; [lia|done]. Qed.

Lemma sum_zero {A} (f : A → Z) l : Forall (λ x, f x = 0) l → zsum (map f l) = 0.
Proof. induction 1 as [|x l Hx _ IH]; [done|]. cbn [map]. rewrite zsum_cons, Hx, IH. done. Qed.

Lemma sum_of_subject_nonneg today s d l : Forall (op_ok today) l → 0 ≤ zsum (map (of_subject s (λ op, reserved_on op d)) l).
Proof.
  intros Hl. apply zsum_nonneg. rewrite Forall_map. eapply Forall_impl; [exact Hl|]. intros op Hop. cbn. unfold of_subject.
  case_bool_decide; [by eapply reserved_on_nonneg|done].
Qed.

(** ** What holds of every world *)
Record world_ok (w : SpendWorld L) (s : string) (c : Z) : Prop := {
  wk_ops : Forall (op_ok (clock w)) (running w ++ signed w ++ abandoned w);
  wk_sound : sound (ledger w);
  wk_today : live w s (clock w) ≤ spent_today (ledger w) (clock w) s;
  wk_cap d : live w s d ≤ c
}.

Lemma approve_ok day op intent n reserved' answer :
  op_ok day op → (∀ m, intent_amount intent = Some m → 0 ≤ m) →
  (reserved' = op_reserved op ∧ n = 0 ∧ (is_ok answer = true → moves_money intent = false) ∨
   (intent_amount intent = Some n ∧ within_ceiling (policies (op_subject op)) intent ∧
    reserved' = op_reserved op ++ [{| res_day := day; res_amount := n |}])) →
  let op' := {| op_subject := op_subject op; op_has_hold := op_has_hold op; op_reserved := reserved';
                op_approved := op_approved op ++ match answer : result string unit with Ok _ => [(intent, day)] | Err _ => [] end |} in
  op_ok day op' ∧ 0 ≤ n ∧ ∀ d, reserved_on op' d = reserved_on op d + (if day =? d then n else 0).
Proof.
  intros [Hr Hc Hw] Hamount Hcase op'. destruct Hcase as [(-> & -> & Hno)|(Ha & Hceil & ->)].
  - split; [|split; [done|intros d; unfold reserved_on; cbn [op_reserved op']; destruct (day =? d); lia]].
    destruct answer as [u|e]; [|unfold op'; rewrite app_nil_r; by split].
    assert (moves_money intent = false) as Hm by by apply Hno. split; [done| |].
    + intros d. unfold approved_on, op'. cbn [op_approved]. rewrite map_app, zsum_app. cbn [map snd fst].
      rewrite (intent_amount_moves _ Hm), zsum_cons. change (zsum []) with 0. change (default 0 None) with 0. specialize (Hc d). unfold approved_on in Hc.
      unfold reserved_on in *. cbn [op_reserved]. destruct (day =? d); lia.
    + apply Forall_app. split; [done|]. constructor; [|constructor]. intros ?. cbn [fst] in *. congruence.
  - pose proof (Hamount _ Ha) as Hn.
    assert (∀ d, reserved_on op' d = reserved_on op d + (if day =? d then n else 0)) as Hres.
    { intros d. unfold reserved_on, op'. cbn [op_reserved]. rewrite map_app, zsum_app. cbn [map res_day res_amount].
      rewrite zsum_cons. change (zsum []) with 0. lia. }
    split; [|by split]. split.
    + cbn [op_reserved op']. apply Forall_app. split; [done|]. constructor; [by cbn|constructor].
    + intros d. rewrite Hres. unfold approved_on, op'. cbn [op_approved]. rewrite map_app, zsum_app. specialize (Hc d). unfold approved_on in Hc.
      destruct answer as [u|e]; cbn [map snd fst]; change (zsum []) with 0; [|destruct (day =? d); lia].
      rewrite zsum_cons, Ha. change (zsum []) with 0. change (default 0 (Some n)) with n. destruct (day =? d); lia.
    + apply Forall_app. split; [done|]. destruct answer; [constructor; [done|]|]; constructor.
Qed.

Lemma delete_forall {A} (P : A → Prop) i (l : list A) : Forall P l → Forall P (delete i l).
Proof. intros Hl. rewrite delete_take_drop. apply Forall_app. split; [by apply Forall_take|by apply Forall_drop]. Qed.

Section step.
Context (s : string) (c : Z) (Hcap : daily_cap (policies s) = Some c) (Hmax : c < u64_max).

(** A step that keeps the day and gives back no more than it drops. *)
Lemma world_ok_settles w w' :
  world_ok w s c → clock w' = clock w → Forall (op_ok (clock w)) (running w' ++ signed w' ++ abandoned w') → sound (ledger w') →
  (∀ d, live w' s d ≤ live w s d) →
  live w' s (clock w) - live w s (clock w) ≤ spent_today (ledger w') (clock w) s - spent_today (ledger w) (clock w) s → world_ok w' s c.
Proof.
  intros [_ _ Htoday Hle] Hclock Hops Hs Hlive Hspent. split; rewrite ?Hclock; [done|done|lia|]. intros d. specialize (Hlive d). specialize (Hle d). lia.
Qed.

Lemma next_day_preserves w day : clock w < day → world_ok w s c →
  world_ok {| ledger := ledger w; clock := day; running := running w; signed := signed w; abandoned := abandoned w |} s c.
Proof.
  intros Hlt [Hops Hsound Htoday Hle]. pose proof Hops as [Hrun [Hsig Hab]%Forall_app]%Forall_app. split; [|done| |exact Hle].
  - eapply Forall_impl; [exact Hops|]. intros op Hop. cbn. eapply op_ok_later; [done|lia].
  - cbn. etrans; [|apply Hsound]. unfold live. cbn [running signed abandoned].
    rewrite !sum_zero; [lia|..]; (eapply Forall_impl; [eassumption|]; intros op Hop; cbn; unfold of_subject; case_bool_decide; [|done];
      eapply reserved_on_later; [done|lia]).
Qed.

Lemma start_preserves w op : op_reserved op = [] → op_approved op = [] → world_ok w s c →
  world_ok {| ledger := ledger w; clock := clock w; running := running w ++ [op]; signed := signed w; abandoned := abandoned w |} s c.
Proof.
  intros Hr Ha Hw. pose proof Hw as [Hops Hsound _ _]. pose proof Hops as [Hrun Hrest]%Forall_app.
  assert (op_ok (clock w) op) as Hop.
  { split; [by rewrite Hr|intros d; unfold approved_on, reserved_on; by rewrite Hr, Ha|by rewrite Ha]. }
  assert (∀ d, live {| ledger := ledger w; clock := clock w; running := running w ++ [op]; signed := signed w; abandoned := abandoned w |} s d =
    live w s d) as Hlive.
  { intros d. unfold live. cbn [running signed abandoned]. rewrite map_app, zsum_app. cbn [map]. rewrite zsum_cons. unfold of_subject at 2.
    replace (reserved_on op d) with 0 by (unfold reserved_on; by rewrite Hr). change (zsum []) with 0. case_bool_decide; lia. }
  apply (world_ok_settles w); try done; [|intros d; by rewrite Hlive|rewrite Hlive; cbn; lia].
  cbn. rewrite <-app_assoc. apply Forall_app. split; [done|]. constructor; [exact Hop|exact Hrest].
Qed.

(** A running operation leaves; where it goes it keeps what it reserved. *)
Lemma leave_preserves w i op l signed' abandoned' dropped :
  running w !! i = Some op → world_ok w s c → sound l →
  Forall (op_ok (clock w)) (signed' ++ abandoned') →
  (∀ d, 0 ≤ dropped d ∧ zsum (map (of_subject s (λ op, reserved_on op d)) signed') + zsum (map (of_subject s (λ op, reserved_on op d)) abandoned') =
    zsum (map (of_subject s (λ op, reserved_on op d)) (signed w)) + zsum (map (of_subject s (λ op, reserved_on op d)) (abandoned w)) +
    of_subject s (λ op, reserved_on op d) op - dropped d) →
  spent_today (ledger w) (clock w) s - dropped (clock w) ≤ spent_today l (clock w) s →
  world_ok {| ledger := l; clock := clock w; running := delete i (running w); signed := signed'; abandoned := abandoned' |} s c.
Proof.
  intros Hop Hw Hl Hops' Hsum Hspent. pose proof Hw as [[Hrun _]%Forall_app _ _ _].
  assert (∀ d, live {| ledger := l; clock := clock w; running := delete i (running w); signed := signed'; abandoned := abandoned' |} s d =
    live w s d - dropped d) as Hlive.
  { intros d. unfold live. cbn [running signed abandoned]. rewrite (zsum_map_delete _ _ _ _ Hop). destruct (Hsum d) as [_ ?]. lia. }
  apply (world_ok_settles w); try done; [cbn; apply Forall_app; split; [by apply delete_forall|done]| |].
  - intros d. rewrite Hlive. destruct (Hsum d). lia.
  - rewrite Hlive. cbn [ledger]. lia.
Qed.

Lemma sum_snoc {A} (f : A → Z) l x : zsum (map f (l ++ [x])) = zsum (map f l) + f x.
Proof. rewrite map_app, zsum_app. cbn [map]. rewrite zsum_cons. change (zsum []) with 0. lia. Qed.

Lemma signing_preserves w i op : running w !! i = Some op → world_ok w s c →
  world_ok {| ledger := ledger w; clock := clock w; running := delete i (running w); signed := signed w ++ [op]; abandoned := abandoned w |} s c.
Proof.
  intros Hop Hw. pose proof Hw as [Hops Hsound _ _]. pose proof Hops as [Hrun [Hsig Hab]%Forall_app]%Forall_app.
  apply (leave_preserves w i op _ _ _ (λ _, 0)); try done; [|intros d; rewrite sum_snoc; lia|lia].
  rewrite <-app_assoc. apply Forall_app. split; [done|]. constructor; [|done]. eapply Forall_lookup_1; [exact Hrun|exact Hop].
Qed.

Lemma abandon_preserves w i op : running w !! i = Some op → world_ok w s c →
  world_ok (if op_has_hold op
            then {| ledger := drop_hold (ledger w) (op_subject op) (op_reserved op); clock := clock w; running := delete i (running w);
                    signed := signed w; abandoned := abandoned w |}
            else {| ledger := ledger w; clock := clock w; running := delete i (running w); signed := signed w;
                    abandoned := abandoned w ++ [op] |}) s c.
Proof.
  intros Hop Hw. pose proof Hw as [Hops Hsound _ _]. pose proof Hops as [Hrun [Hsig Hab]%Forall_app]%Forall_app.
  assert (op_ok (clock w) op) as Hopok by (eapply Forall_lookup_1; [exact Hrun|exact Hop]). destruct (op_has_hold op).
  - destruct (drop_hold_spec (op_subject op) (clock w) s (op_reserved op) (ledger w) Hsound) as [Hs Hd].
    { destruct Hopok as [Hr _ _]. eapply Forall_impl; [exact Hr|]. by intros r [_ ?]. }
    apply (leave_preserves w i op _ _ _ (λ d, of_subject s (λ op, reserved_on op d) op)); try done; [by apply Forall_app|].
    intros d. split; [|lia]. unfold of_subject. case_bool_decide; [by eapply reserved_on_nonneg|done].
  - apply (leave_preserves w i op _ _ _ (λ _, 0)); try done; [|intros d; rewrite sum_snoc; lia|lia].
    apply Forall_app. split; [done|]. apply Forall_app. split; [done|]. constructor; [done|constructor].
Qed.

Lemma authorize_preserves w i op intent prompt l reserved answer :
  running w !! i = Some op → (∀ m, intent_amount intent = Some m → 0 ≤ m) →
  chained (approval_chain (op_subject op) (policies (op_subject op)) prompt) (ledger w) (op_reserved op) (clock w) intent = (l, reserved, answer) →
  world_ok w s c →
  world_ok {| ledger := l; clock := clock w; signed := signed w; abandoned := abandoned w;
    running := <[i := {| op_subject := op_subject op; op_has_hold := op_has_hold op; op_reserved := reserved;
      op_approved := op_approved op ++ match answer with Ok _ => [(intent, clock w)] | Err _ => [] end |}]> (running w) |} s c.
Proof.
  intros Hop Hamount Hchain [Hops Hsound Htoday Hle]. pose proof Hops as [Hrun [Hsig Hab]%Forall_app]%Forall_app.
  assert (op_ok (clock w) op) as Hopok by (eapply Forall_lookup_1; [exact Hrun|exact Hop]).
  pose proof (chain_sound (op_subject op) (policies (op_subject op)) prompt (ledger w) (op_reserved op) (clock w) intent Hsound Hamount) as Hl.
  rewrite Hchain in Hl. cbn [fst] in Hl.
  apply chain_spec in Hchain as [Hother Hcase].
  set (op' := {| op_subject := op_subject op; op_has_hold := _; op_reserved := reserved; op_approved := _ |}).
  assert (∃ n, op_ok (clock w) op' ∧ 0 ≤ n ∧ (∀ d, reserved_on op' d = reserved_on op d + (if clock w =? d then n else 0)) ∧
    (n = 0 ∧ spent_today l (clock w) (op_subject op) = spent_today (ledger w) (clock w) (op_subject op) ∨
     spent_today l (clock w) (op_subject op) = saturating_add 64 (spent_today (ledger w) (clock w) (op_subject op)) n ∧
     ∀ c, daily_cap (policies (op_subject op)) = Some c → saturating_add 64 (spent_today (ledger w) (clock w) (op_subject op)) n ≤ c))
    as (n & Hok' & Hn & Hres & Hspent).
  { destruct Hcase as [(Hr & Hs & Ha)|(n & Ha & Hw & Hr & Hs & Hc)].
    - exists 0. destruct (approve_ok (clock w) op intent 0 reserved answer Hopok Hamount) as (? & ? & ?); [by left|]. eauto 10.
    - exists n. destruct (approve_ok (clock w) op intent n reserved answer Hopok Hamount) as (? & ? & ?); [by right|]. eauto 10. }
  assert (∀ d, live {| ledger := l; clock := clock w; running := <[i:=op']> (running w); signed := signed w; abandoned := abandoned w |} s d =
    live w s d + (if bool_decide (op_subject op = s) then if clock w =? d then n else 0 else 0)) as Hlive.
  { intros d. unfold live. cbn [running signed abandoned]. rewrite (zsum_map_insert _ _ _ _ _ Hop). unfold of_subject at 2 3.
    cbn [op_subject op']. rewrite Hres. case_bool_decide; lia. }
  assert (∀ d, live w s d ≤ c) as Hle' by exact Hle.
  split; [|exact Hl| |].
  - cbn. apply Forall_app. split; [by apply Forall_insert|by apply Forall_app].
  - rewrite Hlive. cbn [ledger clock]. rewrite Z.eqb_refl. case_bool_decide as Hsub; [|rewrite Hother by congruence; lia].
    subst s. destruct Hspent as [[-> ->]|[-> Hc]]; [lia|]. specialize (Hc c Hcap). unfold saturating_add, u64_max in *. lia.
  - intros d. rewrite Hlive. specialize (Hle' d). case_bool_decide as Hsub; [|lia]. destruct (Z.eqb_spec (clock w) d) as [<-|]; [|lia].
    subst s. destruct Hspent as [[-> _]|[_ Hc]]; [lia|]. specialize (Hc c Hcap). unfold saturating_add, u64_max in *. lia.
Qed.

Lemma act_preserves w a w' : prompt_call w a = true → act policies w a = Some w' → world_ok w s c → world_ok w' s c.
Proof.
  intros Hprompt Hact Hw. destruct a as [day|subject held|i intent prompt day|i|i|subject|subject spent day]; cbn [act] in Hact.
  - destruct (Z.ltb_spec (clock w) day) as [Hlt|]; [|done]. injection Hact as <-. by apply next_day_preserves.
  - injection Hact as <-. by apply start_preserves.
  - apply bind_Some in Hact as (op & Hop & Hact). destruct (chained _ _ _ _ _) as [[l reserved] answer] eqn:Hchain. injection Hact as <-.
    cbn in Hprompt. apply andb_true_iff in Hprompt as [->%Z.eqb_eq Hamt]. eapply authorize_preserves; [done| |exact Hchain|done].
    intros m Hm. rewrite Hm in Hamt. unfold u64b in Hamt. by apply andb_true_iff in Hamt as [?%Z.leb_le _].
  - apply bind_Some in Hact as (op & Hop & [= <-]). by apply signing_preserves.
  - apply bind_Some in Hact as (op & Hop & [= <-]). by apply abandon_preserves.
  - injection Hact as <-. pose proof Hw as [Hops Hsound _ _]. apply (world_ok_settles w); try done; [by apply sound_hold|].
    cbn. rewrite hold_spent. change (live _ s (clock w)) with (live w s (clock w)). lia.
  - injection Hact as <-. cbn in Hprompt. apply andb_true_iff in Hprompt as [->%Z.eqb_eq Hamt].
    unfold u64b in Hamt. apply andb_true_iff in Hamt as [Hn%Z.leb_le _]. destruct Hw as [Hops Hsound Htoday Hle].
    split; [done|by apply sound_count| |exact Hle]. cbn. rewrite count_spent. specialize (Hle (clock w)).
    change (live _ s (clock w)) with (live w s (clock w)). destruct (decide (s = subject)); [|done]. subst. unfold saturating_add, u64_max in *. lia.
Qed.

Lemma run_preserves l : ∀ w w', all_prompt policies w l = true → run_actions policies w l = Some w' → world_ok w s c → world_ok w' s c.
Proof.
  induction l as [|a l IH]; intros w w' Hp Hrun Hw; [by injection Hrun as <-|]. cbn [all_prompt run_actions] in *.
  apply andb_true_iff in Hp as [Ha Hp]. apply bind_Some in Hrun as (w1 & Hact & Hrun). rewrite Hact in Hp.
  eapply IH; [exact Hp|exact Hrun|]. by eapply act_preserves.
Qed.
End step.

(** C6. Over any interleaving of any number of signing operations, approved,
    refused, signed or abandoned, what is signed for a wallet on one day never
    exceeds its daily cap, no single approval exceeds the ceiling, and none
    creates a recurring authority; provided no ledger call straddles
    midnight. *)
Theorem signed_within_daily_cap ledger0 day0 l w s c :
  daily_cap (policies s) = Some c → 0 ≤ c < u64_max → sound ledger0 →
  all_prompt policies (initial ledger0 day0) l = true → run_actions policies (initial ledger0 day0) l = Some w →
  (∀ d, signed_on w s d ≤ c) ∧
  (∀ op p, op ∈ signed w → p ∈ op_approved op → within_ceiling (policies (op_subject op)) p.1).
Proof.
  intros Hcap [Hc Hmax] Hsound Hp Hrun.
  assert (world_ok (initial ledger0 day0) s c) as Hw0.
  { split; [constructor|done|apply Hsound|done]. }
  destruct (run_preserves s c Hcap Hmax l _ _ Hp Hrun Hw0) as [Hops _ _ Hle]. apply Forall_app in Hops as [Hr [Hs Ha]%Forall_app]. split.
  - intros d. etrans; [|apply (Hle d)]. unfold live. pose proof (sum_of_subject_nonneg _ s d _ Hr). pose proof (sum_of_subject_nonneg _ s d _ Ha).
    assert (signed_on w s d ≤ zsum (map (of_subject s (λ op, reserved_on op d)) (signed w))); [|lia].
    unfold signed_on. induction Hs as [|op ops Hop _ IH]; [done|]. cbn [map]. rewrite !zsum_cons. unfold of_subject at 1.
    pose proof (ok_covered _ _ Hop d). case_bool_decide; lia.
  - intros op p Hop Hp'. rewrite Forall_forall in Hs. destruct (Hs op Hop) as [_ _ Hw]. rewrite Forall_forall in Hw. by apply Hw.
Qed.
End caps.

(** ** Amounts *)
Lemma fraction_value_spec k : ∀ fs acc u, (length fs ≤ k)%nat →
  fraction_value (10 ^ (Z.of_nat k - 1)) (map (λ d, 48 + d) fs) acc = Some u → u = acc + digits_val fs * 10 ^ (Z.of_nat k - zlen fs).
Proof.
  induction k as [|k IH]; intros [|f fs] acc u Hlen; cbn [length] in Hlen; try lia; cbn [map fraction_value]; try (intros [= <-]; cbn; lia).
  intros (acc' & Hacc & Hrest)%bind_Some. apply try_from_Some in Hacc as [-> _]. replace (48 + f - 48) with f in Hrest by lia.
  replace (Z.of_nat (S k) - 1) with (Z.of_nat k) in Hrest by lia.
  rewrite digits_val_cons. unfold zlen. cbn [length]. replace (Z.of_nat (S k) - Z.of_nat (S (length fs))) with (Z.of_nat k - zlen fs) by (unfold zlen; lia).
  destruct k as [|k].
  { destruct fs; [|cbn in Hlen; lia]. injection Hrest as <-. unfold zlen. cbn. lia. }
  replace (10 ^ Z.of_nat (S k) / 10) with (10 ^ (Z.of_nat (S k) - 1)) in Hrest.
  2:{ replace (Z.of_nat (S k)) with (Z.of_nat k + 1) by lia. rewrite Z.pow_add_r by lia. rewrite Z.div_mul by done. f_equal. lia. }
  apply IH in Hrest as ->; [|lia]. fold (zlen fs).
  replace (10 ^ Z.of_nat (S k)) with (10 ^ zlen fs * 10 ^ (Z.of_nat (S k) - zlen fs)) at 1; [lia|].
  rewrite <-Z.pow_add_r by (unfold zlen; lia). f_equal. lia.
Qed.

Lemma nonzero_digit fs : Forall is_digit fs → existsb (λ b, negb (b =? 48)) (map (λ d, 48 + d) fs) = negb (digits_val fs =? 0).
Proof.
  induction 1 as [|d fs Hd Hfs IH]; [done|]. cbn [map existsb]. rewrite IH, digits_val_cons. pose proof (digits_val_bound fs Hfs). unfold is_digit in Hd.
  assert (0 < 10 ^ zlen fs) by (apply Z.pow_pos_nonneg; [lia|apply zlen_nonneg]).
  destruct (Z.eqb_spec (48 + d) 48), (Z.eqb_spec (digits_val fs) 0), (Z.eqb_spec (d * 10 ^ zlen fs + digits_val fs) 0); cbn; try done; nia.
Qed.

(** What the digits after the point are worth: four digits, rounded up. *)
Lemma fractional_units_spec fs u : Forall is_digit fs → fractional_units (string_of_digits fs) = Some u →
  (u - 1) * 10 ^ zlen fs < digits_val fs * 10 ^ 4 ≤ u * 10 ^ zlen fs.
Proof.
  intros Hfs. unfold fractional_units. rewrite str_bytes_digits by done. 
  rewrite firstn_map, skipn_map. intros (u0 & Hu0 & Hu)%bind_Some.
  apply (fraction_value_spec 4) in Hu0 as ->; [|rewrite length_take; lia].
  rewrite <-(take_drop 4 fs) in Hfs. apply Forall_app in Hfs as [Hhead Htail]. rewrite nonzero_digit in Hu by done.
  assert (zlen (take 4 fs) ≤ 4) as Hhd by (unfold zlen; rewrite length_take; lia).
  assert (drop 4 fs = [] ∨ zlen (take 4 fs) = 4) as Hshape.
  { unfold zlen. destruct (decide (length fs ≤ 4)%nat); [left; by apply drop_ge|right; rewrite length_take; lia]. }
  pose proof (take_drop 4 fs) as Hsplit. remember (take 4 fs) as hd eqn:E1. remember (drop 4 fs) as tl eqn:E2. clear E1 E2. subst fs.
  assert (zlen (hd ++ tl) = zlen hd + zlen tl) as -> by (unfold zlen; rewrite length_app; lia).
  rewrite digits_val_app.
  pose proof (digits_val_bound hd Hhead). pose proof (digits_val_bound tl Htail).
  rewrite Z.pow_add_r by apply zlen_nonneg. set (h := digits_val hd) in *. set (t := digits_val tl) in *.
  destruct Hshape as [Htl|Hfour].
  - assert (t = 0) as Ht by (unfold t; by rewrite Htl). rewrite Ht in *. cbn [Z.eqb negb] in Hu. injection Hu as <-.
    assert (zlen tl = 0) as Hz by (by rewrite Htl). rewrite Hz. change (10 ^ 0) with 1.
    replace (10 ^ 4) with (10 ^ zlen hd * 10 ^ (Z.of_nat 4 - zlen hd)).
    2:{ rewrite <-Z.pow_add_r by (pose proof (zlen_nonneg hd); lia). f_equal. lia. }
    pose proof (zlen_nonneg hd). assert (0 < 10 ^ zlen hd) by (apply Z.pow_pos_nonneg; lia). lia.
  - clearbody t h. rewrite Hfour. change (10 ^ (Z.of_nat 4 - 4)) with 1. assert (0 < 10 ^ zlen tl) by (apply Z.pow_pos_nonneg; [lia|apply zlen_nonneg]).
    rewrite Hfour in Hu. change (Z.of_nat 4 - 4) with 0 in Hu. change (10 ^ 0) with 1 in Hu.
    destruct (t =? 0) eqn:Ht; cbn [negb] in Hu; [apply Z.eqb_eq in Ht; injection Hu as <-; lia|apply Z.eqb_neq in Ht]. apply try_from_Some in Hu as [-> _]. nia.
Qed.

(** The amount a policy judges is never below the amount that was stated:
    it is the stated amount rounded up to a ten-thousandth of a dollar. *)
Theorem stated_amount_rounds_up dollar ds fs n :
  dollar ∈ [""; "$"] → Forall is_digit ds → ds ≠ [] → Forall is_digit fs →
  parse_usd_minor_units (dollar +:+ string_of_digits ds +:+ "." +:+ string_of_digits fs) = Some n →
  (n - 1) * 10 ^ zlen fs < (digits_val ds * 10 ^ zlen fs + digits_val fs) * 10 ^ 4 ≤ n * 10 ^ zlen fs.
Proof.
  intros Hdollar Hds Hne Hfs. set (body := string_of_digits ds +:+ "." +:+ string_of_digits fs).
  assert (Forall is_plain (str_bytes body)) as Hplain.
  { unfold body. rewrite !str_bytes_app, !Forall_app. split_and!; [by apply digits_plain|repeat constructor|by apply digits_plain]. }
  assert (body ≠ "" ∧ strip_prefix "$" body = None) as [Hbody Hstrip].
  { unfold body. destruct ds as [|d ds]; [done|]. apply Forall_cons in Hds as [Hd _]. split; [done|].
    destruct (strip_prefix "$" _) as [t|] eqn:E; [|done]. apply strip_prefix_Some in E. apply (f_equal str_bytes) in E.
    rewrite !str_bytes_app in E. cbn [string_of_digits foldr map fmap list_fmap str_bytes app] in E.
    apply (f_equal head) in E. cbn in E. rewrite byte_of_digit_char in E by done. vm_compute (byte_of _) in E. injection E as E. unfold is_digit in Hd. lia. }
  assert (parse_usd_minor_units (dollar +:+ body) = parse_usd_minor_units body) as ->.
  { apply elem_of_cons in Hdollar as [->|Hd]; [done|]. apply list_elem_of_singleton in Hd as ->. unfold parse_usd_minor_units.
    rewrite (trim_plain body) by done. rewrite (trim_plain ("$" +:+ body)) by (rewrite str_bytes_app, Forall_app; split; [repeat constructor|done]).
    rewrite Hstrip. by rewrite (proj2 (strip_prefix_Some "$" ("$" +:+ body) body)). }
  unfold parse_usd_minor_units. rewrite trim_plain by done. rewrite Hstrip. cbn [default]. rewrite bool_decide_eq_false_2 by done.
  unfold body at 1. change ("." +:+ string_of_digits fs) with (String dot (string_of_digits fs)).
  rewrite split_on_app by (intros b; by apply digits_no_dot). rewrite split_on_none by (intros b; by apply digits_no_dot).
  cbn [length Nat.ltb Nat.leb orb head default]. destruct (_ || _); [done|].
  intros (whole & Hwhole & Hrest)%bind_Some. apply bind_Some in Hrest as (w & Hw & Hrest).
  apply bind_Some in Hrest as (u & Hu & Hn). apply try_from_Some in Hn as [-> _]. apply try_from_Some in Hw as [-> _].
  apply fractional_units_spec in Hu; [|done].
  assert (whole = digits_val ds) as ->.
  { unfold parse_u64_digits in Hwhole. destruct (string_of_digits ds) eqn:E; [done|]. rewrite <-E, str_bytes_digits_val in Hwhole by done.
    by apply try_from_Some in Hwhole as [-> _]. }
  lia.
Qed.

(** ** A wallet with a cap of ten dollars *)
Module SampleSpend.
Definition capped : Policy := {| per_call_ceiling := Some 100000; daily_cap := Some 100000 |}.
Definition payment (n : Z) : AuthIntent := AuthorizePayment "pay" None (Some n) false.
Definition empty_book : Book := {| totals := ∅; held_set := ∅ |}.
Definition policies (_ : string) : Policy := capped.
Definition refuse (_ : AuthIntent) : result string unit := Err "declined".
Lemma empty_sound : sound empty_book.
Proof. intros d s. cbn. unfold mem_spent_today. cbn. by rewrite lookup_empty. Qed.

(** Six dollars are approved and signed, six more refused, five approved by the
    policy, declined by the user and given back, four approved; a new day. *)
Definition day_of_spending : list action :=
  [Start "w" true; Start "w" true; Start "w" true; Authorize 0 (payment 60000) None 0; Authorize 1 (payment 60000) None 0; Sign 0; Abandon 0;
   Authorize 0 (payment 40000) (Some refuse) 0; Abandon 0; Start "w" false; Authorize 0 (payment 40000) None 0; NextDay 1;
   Authorize 0 (payment 100000) None 1; Sign 0].
Example spent_by_day :
  (λ w, (signed_on w "w" 0, signed_on w "w" 1)) <$> run_actions policies (initial empty_book 0) day_of_spending = Some (100000, 100000).
Proof. vm_compute. reflexivity. Qed.

Lemma signed_within_daily_cap_witness :
  ∃ w, run_actions policies (initial empty_book 0) day_of_spending = Some w ∧ ∀ d, signed_on w "w" d ≤ 100000.
Proof.
  eexists. split; [vm_compute; reflexivity|].
  eapply (signed_within_daily_cap policies empty_book 0 day_of_spending _ "w" 100000);
    [reflexivity|done|exact empty_sound|vm_compute; reflexivity|vm_compute; reflexivity].
Defined.

(** The clock is read before the ledger is locked: an approval that reads
    it just before midnight and takes the lock after another approval of the
    new day opens the old day again, and a whole cap more is spent on both
    days. *)
Theorem stale_day_breaks_the_cap :
  let midnight := [Start "w" true; Start "w" true; Start "w" true; Start "w" true; Authorize 0 (payment 100000) None 0; NextDay 1;
                   Authorize 1 (payment 100000) None 1; Authorize 2 (payment 100000) None 0; Authorize 3 (payment 100000) None 1;
                   Sign 0; Sign 0; Sign 0; Sign 0] in
  (λ w, (signed_on w "w" 0, signed_on w "w" 1)) <$> run_actions policies (initial empty_book 0) midnight = Some (200000, 200000).
Proof. vm_compute. reflexivity. Qed.

Lemma stated_amount_rounds_up_witness : (12346 - 1) * 10 ^ 5 < (1 * 10 ^ 5 + 23451) * 10 ^ 4 ≤ 12346 * 10 ^ 5.
Proof.
  apply (stated_amount_rounds_up "$" [1] [2; 3; 4; 5; 1] 12346); [apply list_elem_of_further, list_elem_of_here| |done| |vm_compute; reflexivity];
    repeat (constructor; [unfold is_digit; lia|]); constructor.
Defined.
End SampleSpend.
