(* ===== verification/ChannelAccount.v ===== *)
(** * ChannelAccount: payment channels as the settlement worker reads them

    [pay-worker/src/channel.rs]: which accounts are channels of this worker,
    when one is provably gone or finished, who a channel pays out to, and the
    instructions that pay it out.  Account formats, addresses, hashes and
    instruction encodings are PayKit's and Solana's: the class [ChannelKit]. *)
From S2P Require Import Prelude Text PushManifest PushPlanner TransferBatch.
#[local] Open Scope string_scope.
#[local] Open Scope list_scope.
#[local] Open Scope Z_scope.

Inductive JobError :=
  | Config (message : string)
  | InvalidAddress (address : string)
  | Rpc (message : string)
  | OpenTxNotFound
  | OpenIxDecode (message : string)
  | DistributionHashMismatch
  | TxBuild (message : string).
Abbreviation job := (result JobError).

(** ** Accounts *)
Definition STATUS_OPEN : Z := 0.
Definition STATUS_SEALED : Z := 1.
Definition STATUS_CLOSING : Z := 2.
Definition STATUS_DISTRIBUTED : Z := 3.
Definition CHANNEL_ACCOUNT_SIZE : Z := 256.
Definition CLOSED_CHANNEL_DISCRIMINATOR : Z := 2.

(** The generated account of the payment-channels program. *)
Record Channel := {
  ch_version : Z; ch_status : Z; ch_deposit : Z; ch_settled : Z; ch_payout_watermark : Z; ch_closure_started_at : Z; ch_payer_withdrawn_at : Z;
  ch_grace_period : Z; ch_distribution_hash : list Z; ch_payer : Pubkey; ch_payee : Pubkey; ch_authorized_signer : Pubkey; ch_mint : Pubkey;
  ch_rent_payer : Pubkey; ch_open_slot : Z }.
Record DecodedChannel := { address : Pubkey; channel : Channel }.
Definition payer (c : DecodedChannel) : Pubkey := ch_payer (channel c).
Definition payee (c : DecodedChannel) : Pubkey := ch_payee (channel c).
Definition rent_payer (c : DecodedChannel) : Pubkey := ch_rent_payer (channel c).
Definition mint (c : DecodedChannel) : Pubkey := ch_mint (channel c).
Definition channel_open_slot (c : DecodedChannel) : Z := ch_open_slot (channel c).
Definition i64_max : Z := 2 ^ 63 - 1.
(** A start in an [i64], a grace period in a [u32]. *)
Definition close_deadline (c : DecodedChannel) : Z := Z.min i64_max (ch_closure_started_at (channel c) + ch_grace_period (channel c)).

(** An account as the node returns it. *)
Record OwnedAccount := { acc_owner : string; acc_data : list Z }.
Record DistributionEntry := { de_recipient : Pubkey; de_bps : Z }.
Record DistributionPreimage := { preimage_bytes : list Z; recipients : list DistributionEntry }.
Record SignatureInfo := { si_signature : string; si_slot : Z; si_failed : bool }.

(** What [distribute] is built from; the builder's event authority is derived
    from the program. *)
Record DistributeParams := {
  dp_channel : Pubkey; dp_payer : Pubkey; dp_rent_payer : Pubkey; dp_channel_ata : Pubkey; dp_payer_ata : Pubkey; dp_payee_ata : Pubkey;
  dp_treasury_ata : Pubkey; dp_mint : Pubkey; dp_token_program : Pubkey; dp_self_program : Pubkey; dp_recipients : list DistributionEntry;
  dp_remaining : list AccountMeta }.
Record SealedRefundTerms := {
  rt_channel : Pubkey; rt_payer : Pubkey; rt_mint : Pubkey; rt_token_program : Pubkey; rt_deposit : Z; rt_settled : Z; rt_payer_withdrawn_at : Z }.
Inductive PayerRefund := Clear | Deferred (reason : string) | Forfeit (reason : string).

Class ChannelKit := {
  default_program_id : Pubkey;
  v2_program_id : Pubkey;
  v2_account_size : Z;
  OPEN_SLOT_WINDOW : Z;
  max_static_accounts : Z;
  pubkey_from_str : string → option Pubkey;
  pubkey_text : Pubkey → string;
  channel_from_bytes : list Z → option Channel;
  sha256 : list Z → list Z;
  base64_decode : string → result string (list Z);
  (** The recipients of the open of a channel in a serialized transaction, if
      it is one. *)
  decode_open_for_channel : list Z → Pubkey → Pubkey → option (list DistributionEntry);
  DISTRIBUTE_DISCRIMINATOR : Z;
  distribute_builder : DistributeParams → Instruction;
  seal_builder : Pubkey → Instruction;
  reclaim_builder : Pubkey → Pubkey → Instruction;
  (** The kit's check of a refund, given the account it goes to, and the
      refund's terms. *)
  payer_refund : SealedRefundTerms → option OwnedAccount → Z → Z → PayerRefund;
  (** Whether a transaction of these instructions can be built. *)
  fits : Pubkey → list Instruction → bool
}.

Section accounts.
Context `{Kit} `{ChannelKit}.

Definition DISTRIBUTE_FIXED_ACCOUNTS : Z := 11.
Definition REFUND_ACCOUNT_CREATE_KEYS : Z := 2.
Definition MAX_DISTRIBUTION_RECIPIENTS : Z := max_static_accounts - DISTRIBUTE_FIXED_ACCOUNTS - REFUND_ACCOUNT_CREATE_KEYS - 1.

(** ** Whose channel it is

    [binding] is what the record says of a deployment; an error when it cannot
    be read. *)
Definition is_recorded_legacy {A} (binding : option (result string (option A))) : job bool :=
  match binding with
  | None => Ok false
  | Some (Ok b) => Ok (match b with None => true | Some _ => false end)
  | Some (Err e) => Err (Config ("channel ownership: " +:+ e))
  end.
Definition decode_v1_channel (a : Pubkey) (data : list Z) : job (option DecodedChannel) :=
  if bool_decide (data !! 1%nat = Some 2) || (zlen data =? v2_account_size) then
    Err (Config "V2 channel requires a persisted session deployment and hooks; V1 recovery is unsupported")
  else Ok ((λ c, {| address := a; channel := c |}) <$> channel_from_bytes data).
Definition decode_v1_account (a : Pubkey) (owner : string) (data : list Z) : job (option DecodedChannel) :=
  if bool_decide (owner = pubkey_text v2_program_id) then Err (Config "V2 channel is unsupported by the V1/batch worker path")
  else if bool_decide (owner ≠ pubkey_text default_program_id) then
    Err (Config ("channel " +:+ pubkey_text a +:+ " is owned by " +:+ owner +:+ ", not the worker's payment-channels program"))
  else decode_v1_channel a data.
Definition fetch_channel_for_program (a : Pubkey) (program : Pubkey) (account : option OwnedAccount) : job (option DecodedChannel) :=
  match account with
  | None => Ok None
  | Some x =>
      if bool_decide (acc_owner x ≠ pubkey_text program) then Err (Config "session channel program mismatch")
      else decode_v1_channel a (acc_data x)
  end.
(** Up to a hundred channels in one request, each decoded on its own. *)
Definition fetch_channels_each_at (addresses : list Pubkey) (answer : job (Z * list (option OwnedAccount))) :
    job (Z * list (job (option DecodedChannel))) :=
  if 100 <? zlen addresses then Err (TxBuild ("channel account batch has " +:+ show (zlen addresses) +:+ " addresses; maximum is 100"))
  else
    '(slot, accounts) ← answer;
    _ ← reject_if (negb (zlen accounts =? zlen addresses)) (Rpc "malformed response");
    Ok (slot, zip_with (λ a account, match account with None => Ok None | Some x => decode_v1_account a (acc_owner x) (acc_data x) end)
                addresses accounts).

(** The answers below are at finalized commitment. *)
Definition channel_absence_proven (program : Pubkey) (open_slot : Z) (answer : job (Z * option OwnedAccount)) : job bool :=
  '(slot, account) ← answer;
  Ok (match account with
      | None => saturating_add 64 open_slot OPEN_SLOT_WINDOW <? slot
      | Some x =>
          bool_decide (acc_owner x = pubkey_text program) && (zlen (acc_data x) <? CHANNEL_ACCOUNT_SIZE) &&
          bool_decide (head (acc_data x) = Some CLOSED_CHANNEL_DISCRIMINATOR)
      end).
Definition finalized_distributed (a : Pubkey) (program : Pubkey) (answer : job (option OwnedAccount)) : job bool :=
  account ← answer;
  match account with
  | None => Ok false
  | Some x =>
      if bool_decide (acc_owner x ≠ pubkey_text program) then
        Err (Config ("channel " +:+ pubkey_text a +:+ " is owned by " +:+ acc_owner x +:+ ", not its program"))
      else
        Ok (match head (acc_data x) with
            | Some d =>
                if d =? 1 then bool_decide (acc_data x !! 3%nat = Some STATUS_DISTRIBUTED)
                else (d =? CLOSED_CHANNEL_DISCRIMINATOR) && (zlen (acc_data x) <? CHANNEL_ACCOUNT_SIZE)
            | None => false
            end)
  end.
Definition require_token_program (expected : Pubkey) (answer : job (option OwnedAccount)) : job unit :=
  account ← answer;
  reject_if (negb (bool_decide (expected = token_program_id) || bool_decide (expected = token_2022_program_id)) ||
             match account with Some x => bool_decide (acc_owner x ≠ pubkey_text expected) | None => true end)
    (Config "bound mint token-program ownership mismatch").
Definition resolve_token_program (answer : job (option OwnedAccount)) : job Pubkey :=
  account ← answer;
  let owner := match account with Some x => acc_owner x | None => "" end in
  Ok (if bool_decide (owner = pubkey_text token_2022_program_id) then token_2022_program_id else token_program_id).

(** ** Who is paid *)
Definition encode_entry (e : DistributionEntry) : list Z := de_recipient e ++ le_bytes 2 (de_bps e).
Definition encode_recipients (l : list DistributionEntry) : list Z := le_bytes 4 (zlen l) ++ flat_map encode_entry l.
(** The loop reads as many entries as the count says. *)
Fixpoint decode_entries (count : nat) (payload : list Z) : list DistributionEntry :=
  match count with
  | O => []
  | S count => {| de_recipient := take 32 payload; de_bps := from_le_bytes (take 2 (drop 32 payload)) |} :: decode_entries count (drop 34 payload)
  end.
Definition decode_recipients (preimage : list Z) : job (list DistributionEntry) :=
  if zlen preimage <? 4 then Err (OpenIxDecode "preimage shorter than count")
  else
    let count := from_le_bytes (take 4 preimage) in
    let payload := drop 4 preimage in
    if MAX_DISTRIBUTION_RECIPIENTS <? count then
      Err (OpenIxDecode ("distribution has " +:+ show count +:+ " recipients; maximum is " +:+ show MAX_DISTRIBUTION_RECIPIENTS))
    else if zlen payload <? count * 34 then Err (OpenIxDecode "preimage truncated mid-entry")
    else if count * 34 <? zlen payload then Err (OpenIxDecode "preimage has trailing recipient data")
    else Ok (decode_entries (Z.to_nat count) payload).
(** The kit's [distribution_hash] is the hash of the same encoding. *)
Definition distribution_preimage_from_snapshot (distribution_hash : list DistributionEntry → list Z) (l : list DistributionEntry) (hash : list Z) :
    job DistributionPreimage :=
  if (MAX_DISTRIBUTION_RECIPIENTS <? zlen l) || bool_decide (distribution_hash l ≠ hash) then Err DistributionHashMismatch
  else
    let bytes := encode_recipients l in
    decoded ← decode_recipients bytes;
    Ok {| preimage_bytes := bytes; recipients := decoded |}.
Definition open_preimage_in (tx_b64 : string) (a program : Pubkey) : job (option (list Z)) :=
  raw ← map_err (λ e, OpenIxDecode ("base64 decode: " +:+ e)) (base64_decode (trim tx_b64));
  match decode_open_for_channel raw a program with
  | None => Ok None
  | Some l =>
      if MAX_DISTRIBUTION_RECIPIENTS <? zlen l then
        Err (OpenIxDecode ("distribution has " +:+ show (zlen l) +:+ " recipients; maximum is " +:+ show MAX_DISTRIBUTION_RECIPIENTS))
      else Ok (Some (encode_recipients l))
  end.

(** The history of an address, newest first; each page is the answer to the
    signature it starts before. *)
Definition PAGE : Z := 1000.
Fixpoint open_candidates (first_slot last_slot : Z) (pages : list (job (list SignatureInfo))) : job (list SignatureInfo) :=
  match pages with
  | [] => Ok []
  | page :: pages =>
      page ← page;
      match last page with
      | None => Ok []
      | Some oldest =>
          let found := filter (λ i, si_failed i = false ∧ first_slot ≤ si_slot i ∧ si_slot i ≤ last_slot) page in
          if (zlen page <? PAGE) || (si_slot oldest <? first_slot) then Ok found
          else rest ← open_candidates first_slot last_slot pages; Ok (found ++ rest)
      end
  end.
Fixpoint first_open (transaction : string → job (option string)) (a program : Pubkey) (l : list SignatureInfo) : job (list Z) :=
  match l with
  | [] => Err OpenTxNotFound
  | i :: l =>
      tx ← transaction (si_signature i);
      match tx with
      | None => first_open transaction a program l
      | Some tx =>
          preimage ← open_preimage_in tx a program;
          match preimage with Some p => Ok p | None => first_open transaction a program l end
      end
  end.
Definition find_open_preimage (pages : list (job (list SignatureInfo))) (transaction : string → job (option string)) (c : DecodedChannel) : job (list Z) :=
  let first_slot := channel_open_slot c in
  candidates ← open_candidates first_slot (saturating_add 64 first_slot OPEN_SLOT_WINDOW) pages;
  first_open transaction (address c) default_program_id (reverse candidates).
Definition recover_distribution_preimage (pages : list (job (list SignatureInfo))) (transaction : string → job (option string)) (c : DecodedChannel) :
    job DistributionPreimage :=
  if negb (ch_version (channel c) =? 1) then Err (Config "native distribution recovery is V1-only; V2 requires its persisted snapshot")
  else if bool_decide (sha256 [0; 0; 0; 0] = ch_distribution_hash (channel c)) then Ok {| preimage_bytes := [0; 0; 0; 0]; recipients := [] |}
  else
    bytes ← find_open_preimage pages transaction c;
    _ ← reject_if (bool_decide (sha256 bytes ≠ ch_distribution_hash (channel c))) DistributionHashMismatch;
    decoded ← decode_recipients bytes;
    Ok {| preimage_bytes := bytes; recipients := decoded |}.

(** ** Paying out *)
Inductive DistributeStage := Open | Sealed (settled : Z).
Definition distribute_refunds_payer (c : DecodedChannel) (program : Pubkey) (stage : DistributeStage) : bool :=
  if bool_decide (program ≠ default_program_id) then true
  else match stage with
       | Open => false
       | Sealed settled => (ch_payer_withdrawn_at (channel c) =? 0) && (settled <? ch_deposit (channel c))
       end.
Inductive RefundAccount := Payable | Unpayable (reason : string) (missing : bool).
(** [read] is the account of the payer, asked for only when it is written. *)
Definition payer_refund_account (c : DecodedChannel) (token_program program : Pubkey) (stage : DistributeStage) (read : job (option OwnedAccount)) (now : Z) :
    job RefundAccount :=
  let reads := distribute_refunds_payer c program stage in
  let settled := match stage with Open => ch_settled (channel c) | Sealed settled => settled end in
  account ← (if reads then read else Ok None);
  let terms := {|
    rt_channel := address c; rt_payer := payer c; rt_mint := mint c; rt_token_program := token_program; rt_deposit := ch_deposit (channel c);
    rt_settled := if reads then settled else ch_deposit (channel c); rt_payer_withdrawn_at := ch_payer_withdrawn_at (channel c) |} in
  Ok (match payer_refund terms account (ch_grace_period (channel c)) now with
      | Clear => Payable
      | Deferred reason | Forfeit reason => Unpayable reason (reads && match account with None => true | Some _ => false end)
      end).
Definition build_distribute_ix_for_program (c : DecodedChannel) (treasury_owner token_program : Pubkey) (preimage : DistributionPreimage)
    (program : Pubkey) : Instruction :=
  let ata owner := associated_token_address owner (mint c) token_program in
  let ix := distribute_builder {|
    dp_channel := address c; dp_payer := payer c; dp_rent_payer := rent_payer c; dp_channel_ata := ata (address c); dp_payer_ata := ata (payer c);
    dp_payee_ata := ata (payee c); dp_treasury_ata := ata treasury_owner; dp_mint := mint c; dp_token_program := token_program;
    dp_self_program := program; dp_recipients := recipients preimage;
    dp_remaining := map (λ e, {| meta_pubkey := ata (de_recipient e); meta_signer := false; meta_writable := true |}) (recipients preimage) |} in
  {| ix_program := program; ix_accounts := ix_accounts ix; ix_data := ix_data ix |}.
Definition build_distribute_ix (c : DecodedChannel) (treasury_owner token_program : Pubkey) (preimage : DistributionPreimage) : Instruction :=
  build_distribute_ix_for_program c treasury_owner token_program preimage default_program_id.
Definition build_seal_ix (c : Pubkey) : Instruction := seal_builder c.
Definition build_seal_ix_for_program (c program : Pubkey) : Instruction :=
  let ix := build_seal_ix c in {| ix_program := program; ix_accounts := ix_accounts ix; ix_data := ix_data ix |}.
Definition build_reclaim_ix (c rent_payer : Pubkey) : Instruction := reclaim_builder c rent_payer.

Definition is_distribute (ix : Instruction) : bool :=
  bool_decide (ix_program ix ≠ associated_token_program_id) && bool_decide (head (ix_data ix) = Some DISTRIBUTE_DISCRIMINATOR) &&
  (DISTRIBUTE_FIXED_ACCOUNTS <=? zlen (ix_accounts ix)).
(** [rposition]. *)
Fixpoint last_index {A} (f : A → bool) (l : list A) : option nat :=
  match l with
  | [] => None
  | x :: l => match last_index f l with Some i => Some (S i) | None => if f x then Some 0%nat else None end
  end.
(** The instructions, and whether the distribution was left to the next pass. *)
Definition defer_oversized_distribution (l : list Instruction) (fee_payer : Pubkey) : list Instruction * bool :=
  match last_index is_distribute l with
  | None => (l, false)
  | Some i =>
      let split := match l !! pred i with
                   | Some ix => if (0 <? i)%nat && bool_decide (ix_program ix = associated_token_program_id) && bool_decide (ix_data ix = [1]) then pred i else i
                   | None => i
                   end in
      if (split =? 0)%nat || fits fee_payer l then (l, false) else (take split l, true)
  end.
End accounts.

(** ** Plans round trip *)

(** A recipient is a [Pubkey], a share a [u16]. *)
Definition entry_typed (e : DistributionEntry) : Prop := length (de_recipient e) = 32%nat ∧ Forall is_u8 (de_recipient e) ∧ is_u16 (de_bps e).
(** The account limit is a count on the wire; the kit's decoder returns typed
    entries. *)
Class ChannelKitLaws `{ChannelKit} : Prop := {
  static_accounts_fit : max_static_accounts < 2 ^ 32;
  static_accounts_enough : DISTRIBUTE_FIXED_ACCOUNTS + REFUND_ACCOUNT_CREATE_KEYS + 1 ≤ max_static_accounts;
  open_recipients_typed raw a p l : decode_open_for_channel raw a p = Some l → Forall entry_typed l
}.

Lemma le_bytes_from_le_bytes n l : length l = n → Forall is_u8 l → le_bytes n (from_le_bytes l) = l.
Proof.
  intros <-. induction 1 as [|b l Hb Hl IH]; [done|]. cbn [length le_bytes from_le_bytes].
  unfold in_range in Hb. change (2 ^ 8) with 256 in Hb.
  rewrite (Z.mul_comm 256), Z_mod_plus_full, Z.mod_small, Z.div_add, Z.div_small, Z.add_0_l, IH by lia. done.
Qed.
Lemma from_le_bytes_bound l : Forall is_u8 l → 0 ≤ from_le_bytes l < 256 ^ zlen l.
Proof.
  unfold zlen. induction 1 as [|b l Hb Hl IH]; cbn [from_le_bytes length]; [done|].
  unfold in_range in Hb. change (2 ^ 8) with 256 in Hb. rewrite Nat2Z.inj_succ, Z.pow_succ_r by lia. nia.
Qed.

Section plans.
Context `{Kit} `{ChannelKit}.

Lemma length_encode_entry e : entry_typed e → length (encode_entry e) = 34%nat.
Proof. intros (Hl & _). unfold encode_entry. by rewrite length_app, Hl, length_le_bytes. Qed.
Lemma length_entries l : Forall entry_typed l → zlen (flat_map encode_entry l) = zlen l * 34.
Proof.
  unfold zlen. induction 1 as [|e l He Hl IH]; [done|]. cbn [flat_map length].
  rewrite length_app, length_encode_entry by done. lia.
Qed.
Lemma decode_encode_entries l : Forall entry_typed l → decode_entries (length l) (flat_map encode_entry l) = l.
Proof.
  induction 1 as [|e l He Hl IH]; [done|]. cbn [flat_map length decode_entries].
  pose proof (length_encode_entry e He) as Hlen. destruct He as (Hr & _ & Hb). unfold in_range in Hb.
  rewrite (drop_app_length' _ _ 34) by done. rewrite IH. f_equal. destruct e as [r b]; cbn [de_recipient de_bps] in *.
  unfold encode_entry in *; cbn [de_recipient de_bps] in *. rewrite <- !app_assoc, (drop_app_length' r _ 32), (take_app_length' r _ 32) by done.
  rewrite (take_app_length' (le_bytes 2 b) _ 2) by by rewrite length_le_bytes. f_equal. by apply from_le_bytes_le_bytes.
Qed.
Lemma encode_decode_entries n payload :
  Forall is_u8 payload → length payload = (n * 34)%nat →
  flat_map encode_entry (decode_entries n payload) = payload ∧ Forall entry_typed (decode_entries n payload) ∧ length (decode_entries n payload) = n.
Proof.
  revert payload. induction n as [|n IH]; intros payload Hb Hlen; cbn [decode_entries flat_map].
  { destruct payload; [done|]. simpl in Hlen. lia. }
  destruct (IH (drop 34 payload)) as (E & Ht & Hn); [by apply Forall_drop|rewrite length_drop; lia|].
  assert (H2 : Forall is_u8 (take 2 (drop 32 payload))) by by apply Forall_take, Forall_drop.
  assert (L2 : length (take 2 (drop 32 payload)) = 2%nat) by (rewrite length_take, length_drop; lia).
  pose proof (from_le_bytes_bound _ H2) as Hbound. unfold zlen in Hbound. rewrite L2 in Hbound.
  split; [|split].
  - rewrite E. unfold encode_entry; cbn [de_recipient de_bps].
    rewrite (le_bytes_from_le_bytes 2) by done.
    rewrite <- app_assoc. transitivity (take 32 payload ++ drop 32 payload); [f_equal|apply take_drop].
    replace (drop 34 payload) with (drop 2 (drop 32 payload)) by by rewrite drop_drop. apply take_drop.
  - constructor; [|done]. split; [|split]; cbn [de_recipient de_bps].
    + rewrite length_take. lia.
    + by apply Forall_take.
    + unfold in_range. change (2 ^ 16) with (256 ^ Z.of_nat 2). lia.
  - simpl. lia.
Qed.

Context `{!ChannelKitLaws}.
Lemma max_recipients_bound : 0 ≤ MAX_DISTRIBUTION_RECIPIENTS < 2 ^ 32.
Proof.
  pose proof static_accounts_fit. pose proof static_accounts_enough.
  unfold MAX_DISTRIBUTION_RECIPIENTS, DISTRIBUTE_FIXED_ACCOUNTS, REFUND_ACCOUNT_CREATE_KEYS in *. lia.
Qed.
Lemma decode_encoded l : Forall entry_typed l → zlen l ≤ MAX_DISTRIBUTION_RECIPIENTS → decode_recipients (encode_recipients l) = Ok l.
Proof.
  intros Ht Hl. pose proof max_recipients_bound. pose proof (zlen_nonneg l). unfold decode_recipients, encode_recipients.
  rewrite (drop_app_length' _ _ 4), (take_app_length' _ _ 4) by by rewrite length_le_bytes.
  rewrite from_le_bytes_le_bytes by (change (256 ^ Z.of_nat 4) with (2 ^ 32); lia).
  replace (zlen (le_bytes 4 (zlen l) ++ _)) with (4 + zlen l * 34)
    by (rewrite <- (length_entries l) by done; unfold zlen; rewrite length_app, length_le_bytes; lia).
  rewrite length_entries by done.
  destruct (Z.ltb_spec (4 + zlen l * 34) 4); [lia|]. destruct (Z.ltb_spec MAX_DISTRIBUTION_RECIPIENTS (zlen l)); [lia|].
  rewrite Z.ltb_irrefl. f_equal. unfold zlen. rewrite Nat2Z.id. by apply decode_encode_entries.
Qed.
Lemma decoded_encodes bytes l :
  Forall is_u8 bytes → decode_recipients bytes = Ok l → encode_recipients l = bytes ∧ Forall entry_typed l ∧ zlen l ≤ MAX_DISTRIBUTION_RECIPIENTS.
Proof.
  intros Hb. unfold decode_recipients. destruct (Z.ltb_spec (zlen bytes) 4) as [|H4]; [done|].
  assert (Hc : Forall is_u8 (take 4 bytes)) by by apply Forall_take.
  assert (L4 : length (take 4 bytes) = 4%nat) by (rewrite length_take; unfold zlen in H4; lia).
  pose proof (from_le_bytes_bound _ Hc) as Hcount. set (count := from_le_bytes (take 4 bytes)) in *.
  destruct (Z.ltb_spec MAX_DISTRIBUTION_RECIPIENTS count); [done|].
  destruct (Z.ltb_spec (zlen (drop 4 bytes)) (count * 34)); [done|]. destruct (Z.ltb_spec (count * 34) (zlen (drop 4 bytes))); [done|].
  intros [= <-]. destruct (encode_decode_entries (Z.to_nat count) (drop 4 bytes)) as (E & Ht & Hn);
    [by apply Forall_drop|unfold zlen in *; lia|].
  unfold encode_recipients, zlen. rewrite E, Hn, Z2Nat.id by lia. split_and!; [|done|lia].
  unfold count. rewrite (le_bytes_from_le_bytes 4) by done. apply take_drop.
Qed.

(** The bytes a payout commits to and the plan read from them determine
    each other: of byte strings, exactly the encodings of well-formed plans of
    at most the allowed recipients are accepted, each read back as the plan it
    encodes; a short count, a truncated entry, trailing data and an oversized
    count are refused. *)
Theorem recipient_plans_roundtrip bytes l :
  Forall is_u8 bytes →
  decode_recipients bytes = Ok l ↔ Forall entry_typed l ∧ zlen l ≤ MAX_DISTRIBUTION_RECIPIENTS ∧ bytes = encode_recipients l.
Proof.
  intros Hb. split.
  - intros (E & Ht & Hl)%decoded_encodes; auto.
  - intros (Ht & Hl & ->). by apply decode_encoded.
Qed.

(** The recipients of the open: every candidate transaction is decoded, and an
    oversized plan is refused. *)
Lemma opened_preimage tx a program bytes :
  open_preimage_in tx a program = Ok (Some bytes) →
  ∃ l, bytes = encode_recipients l ∧ Forall entry_typed l ∧ zlen l ≤ MAX_DISTRIBUTION_RECIPIENTS.
Proof.
  unfold open_preimage_in. intros (raw & _ & Hr)%bind_Ok. destruct (decode_open_for_channel raw a program) as [l|] eqn:E; [|done].
  destruct (Z.ltb_spec MAX_DISTRIBUTION_RECIPIENTS (zlen l)); [done|]. injection Hr as <-. exists l.
  split_and!; [done|by eapply open_recipients_typed|lia].
Qed.
Lemma first_open_preimage transaction a program l bytes :
  first_open transaction a program l = Ok bytes →
  ∃ plan, bytes = encode_recipients plan ∧ Forall entry_typed plan ∧ zlen plan ≤ MAX_DISTRIBUTION_RECIPIENTS.
Proof.
  induction l as [|i l IH]; cbn [first_open]; [done|]. intros ([tx|] & _ & Hr)%bind_Ok; [|by apply IH].
  apply bind_Ok in Hr as ([p|] & Hp & Hr); [|by apply IH]. injection Hr as ->. by eapply opened_preimage.
Qed.
(** A recovered plan is one that hashes to the channel's commitment. *)
Lemma recovered_plan_is_committed pages transaction c p :
  recover_distribution_preimage pages transaction c = Ok p →
  preimage_bytes p = encode_recipients (recipients p) ∧ zlen (recipients p) ≤ MAX_DISTRIBUTION_RECIPIENTS ∧
  sha256 (encode_recipients (recipients p)) = ch_distribution_hash (channel c).
Proof.
  unfold recover_distribution_preimage. pose proof max_recipients_bound. destruct (negb _); [done|].
  case_bool_decide as Hempty; [intros [= <-]; cbn; split_and!; [done|unfold zlen; simpl; lia|done]|].
  intros (bytes & Hb & Hr)%bind_Ok. unfold find_open_preimage in Hb. apply bind_Ok in Hb as (cands & _ & Hb).
  apply first_open_preimage in Hb as (plan & -> & Ht & Hl).
  apply bind_Ok in Hr as ([] & Hh & Hr). apply reject_if_Ok, bool_decide_eq_false in Hh.
  rewrite decode_encoded in Hr by done. rewrite bind_ok_simpl in Hr. injection Hr as <-. cbn.
  split_and!; [done|done|]. destruct (decide (sha256 (encode_recipients plan) = ch_distribution_hash (channel c))); tauto.
Qed.
(** So is one rebuilt from a snapshot, and it is the snapshot's own. *)
Lemma snapshot_plan_is_committed dh l hash p :
  Forall entry_typed l → distribution_preimage_from_snapshot dh l hash = Ok p →
  recipients p = l ∧ preimage_bytes p = encode_recipients l ∧ dh l = hash ∧ zlen l ≤ MAX_DISTRIBUTION_RECIPIENTS.
Proof.
  intros Ht. unfold distribution_preimage_from_snapshot. destruct (Z.ltb_spec MAX_DISTRIBUTION_RECIPIENTS (zlen l)) as [|Hl]; [done|].
  cbn [orb]. case_bool_decide as Hh; [done|]. rewrite decode_encoded by (done || lia). rewrite bind_ok_simpl. intros [= <-]. cbn.
  split_and!; [done..|]. by destruct (decide (dh l = hash)).
Qed.
End plans.

(** ** A sample of the kit *)
Module SampleChannels.
Import PushPlanner.SampleKit.
Definition payment_channels : Pubkey := key 60.
(** An address is written as that many strokes. *)
Fixpoint strokes (n : nat) : string := match n with O => "" | S n => "x" +:+ strokes n end.
Definition text_of (k : Pubkey) : string := strokes (Z.to_nat (default 0 (head k))).
Definition metas (n : nat) (k : Pubkey) : list AccountMeta := replicate n {| meta_pubkey := k; meta_signer := false; meta_writable := true |}.
(** A channel its payer asked to close at 1000, with a grace period of 100. *)
Definition sample_channel (status settled : Z) : Channel := {|
  ch_version := 1; ch_status := status; ch_deposit := 1000; ch_settled := settled; ch_payout_watermark := 0; ch_closure_started_at := 1000;
  ch_payer_withdrawn_at := 0; ch_grace_period := 100; ch_distribution_hash := [0; 0; 0; 0]; ch_payer := key 21; ch_payee := key 20;
  ch_authorized_signer := key 21; ch_mint := key 44; ch_rent_payer := key 20; ch_open_slot := 50 |}.
#[global] Instance channel_kit : ChannelKit := {|
  default_program_id := payment_channels; v2_program_id := key 61; v2_account_size := 300; OPEN_SLOT_WINDOW := 150; max_static_accounts := 64;
  pubkey_from_str := λ s, Some (key (Z.of_nat (String.length s))); pubkey_text := text_of; 
  channel_from_bytes := λ l, match l with [1; 1; status; settled] => Some (sample_channel status settled) | _ => None end; sha256 := λ l, l;
  base64_decode := λ s, Ok (str_bytes s); decode_open_for_channel := λ _ _ _, None; DISTRIBUTE_DISCRIMINATOR := 6;
  distribute_builder := λ p, {| ix_program := payment_channels; ix_accounts := metas 11 (dp_channel p) ++ dp_remaining p; ix_data := [6] |};
  seal_builder := λ c, {| ix_program := payment_channels; ix_accounts := metas 1 c; ix_data := [5] |};
  reclaim_builder := λ c r, {| ix_program := payment_channels; ix_accounts := metas 1 c ++ metas 1 r; ix_data := [7] |};
  payer_refund := λ t account _ _,
    if (rt_settled t <? rt_deposit t) && (rt_payer_withdrawn_at t =? 0) then match account with Some _ => Clear | None => Deferred "missing" end else Clear;
  fits := λ p l, 8 + zsum (map (λ ix, zlen (ix_accounts ix)) l) <=? default 0 (head p)
|}.
#[global] Instance channel_kit_laws : ChannelKitLaws.
Proof. split; [done|vm_compute; discriminate|done]. Qed.

(** Two recipients in seventy-two bytes. *)
Definition sample_plan : list DistributionEntry := [{| de_recipient := key 7; de_bps := 2500 |}; {| de_recipient := key 8; de_bps := 300 |}].
Lemma sample_bytes : Forall is_u8 (encode_recipients sample_plan).
Proof. unfold is_u8, in_range. vm_compute. repeat constructor; done. Qed.
Example recipient_plans_roundtrip_witness :
  Forall is_u8 (encode_recipients sample_plan) ∧ zlen (encode_recipients sample_plan) = 72 ∧
  (decode_recipients (encode_recipients sample_plan) = Ok sample_plan ↔
   Forall entry_typed sample_plan ∧ zlen sample_plan ≤ MAX_DISTRIBUTION_RECIPIENTS ∧ encode_recipients sample_plan = encode_recipients sample_plan).
Proof. split; [exact sample_bytes|]. split; [reflexivity|]. apply recipient_plans_roundtrip, sample_bytes. Defined.
Example truncated_plan : ∃ e, decode_recipients (take 71 (encode_recipients sample_plan)) = Err e.
Proof. eexists. vm_compute. reflexivity. Qed.
End SampleChannels.
