(* ===== verification/SettlementStore.v ===== *)
(** * SettlementStore: what both settlement schemes of the worker share

    [pay-worker/src/bin/settle_sessions.rs]: the record of a channel with the
    fields the worker reads, the inventory of a pass, the voucher a close
    redeems and the deletion of a record whose channel is gone.  The record's
    own methods and the settlement instructions are PayKit's: the class
    [StoreKit], with what the worker relies on in [StoreKitLaws]. *)
From S2P Require Import Prelude Text Landing PushManifest PushPlanner ChannelState ChannelAccount.
#[local] Open Scope string_scope.
#[local] Open Scope list_scope.
#[local] Open Scope Z_scope.

(** ** The record *)
Record PendingDelivery := {
  delivery_id : string; delivery_amount : Z; delivery_sequence : Z; delivery_expires_at : Z; delivery_fingerprint : option string;
  handler_succeeded : bool }.
(** The channel's record, with the fields of [ChannelState] the server's model
    leaves out. *)
Record WorkerState := {
  ws_channel :> ChannelState; ws_payer : string; authorized_signer : string; final_cumulative : option Z; settled_on_chain : Z;
  distributed_on_chain : Z; highest_voucher_signature : option string; highest_voucher_expires_at : option Z; last_activity_at : Z;
  onchain_checked_at : Z; pending_deliveries : list PendingDelivery }.
Definition with_channel (s : WorkerState) (c : ChannelState) : WorkerState := {|
  ws_channel := c; ws_payer := ws_payer s; authorized_signer := authorized_signer s; final_cumulative := final_cumulative s;
  settled_on_chain := settled_on_chain s; distributed_on_chain := distributed_on_chain s;
  highest_voucher_signature := highest_voucher_signature s; highest_voucher_expires_at := highest_voucher_expires_at s;
  last_activity_at := last_activity_at s; onchain_checked_at := onchain_checked_at s; pending_deliveries := pending_deliveries s |}.
Definition with_settled_on_chain (s : WorkerState) (settled : Z) : WorkerState := {|
  ws_channel := ws_channel s; ws_payer := ws_payer s; authorized_signer := authorized_signer s; final_cumulative := final_cumulative s;
  settled_on_chain := settled; distributed_on_chain := distributed_on_chain s;
  highest_voucher_signature := highest_voucher_signature s; highest_voucher_expires_at := highest_voucher_expires_at s;
  last_activity_at := last_activity_at s; onchain_checked_at := onchain_checked_at s; pending_deliveries := pending_deliveries s |}.
Definition with_sealed (c : ChannelState) : ChannelState := {|
  state_channel_id := state_channel_id c; deposit := deposit c; cumulative := cumulative c; sealed := true;
  close_requested_at := close_requested_at c; open_slot := open_slot c; idle_timeout_seconds := idle_timeout_seconds c;
  processed_uses := processed_uses c; pending_setup := pending_setup c; lifecycle := lifecycle c; extra := extra c |}.
(** [close_requested_at.get_or_insert]. *)
Definition request_close_at (s : WorkerState) (t : Z) : WorkerState :=
  with_channel s (with_close_requested s (Some (default t (close_requested_at s)))).

Inductive ObservedLifecycle := ObservedOpen | ObservedClosing (started_at : Z) | ObservedTerminal (started_at : option Z).
Inductive ObservationOutcome := Fresh | Behind (recorded : Z).
Record ChannelBinding := { bound_scheme : string; bound_pay_to : option string; bound_network : option string; bound_program : option string }.

Class StoreKit := {
  has_blocking_authorization : WorkerState → Z → bool;
  has_in_flight_authorization : WorkerState → bool;
  freeze_watermark_at : WorkerState → Z → WorkerState;
  record_onchain_observation : WorkerState → option Z → ObservedLifecycle → Z → WorkerState * ObservationOutcome;
  channel_binding : ChannelState → result string (option json);
  check_binding : WorkerState → ChannelBinding → result string unit;
  session_open_is_terminal : WorkerState → bool;
  BATCH_SETTLEMENT_SCHEME : string;
  (** Base 58 of a signature. *)
  decode_64 : string → result string (list Z);
  (** Channel, signer, signature, cumulative, expiry, program. *)
  build_settle_instructions : Pubkey → Pubkey → list Z → Z → Z → Pubkey → result string (list Instruction);
  (** Payee, channel, signer, signature, cumulative, expiry, program. *)
  build_settle_and_seal_instructions : Pubkey → Pubkey → Pubkey → option (list Z) → Z → Z → Pubkey → result string (list Instruction)
}.

(** Freezing chooses the final amount and nothing else of what the worker
    plans from; an observation only raises fences. *)
Class StoreKitLaws `{StoreKit} : Prop := {
  freeze_sets s c : final_cumulative (freeze_watermark_at s c) = Some c;
  freeze_cumulative s c : cumulative (freeze_watermark_at s c) = cumulative s;
  freeze_extra s c : extra (freeze_watermark_at s c) = extra s;
  freeze_close_requested (s : WorkerState) c : is_Some (close_requested_at s) → is_Some (close_requested_at (freeze_watermark_at s c));
  freeze_voucher s c :
    let s' := freeze_watermark_at s c in
    state_channel_id s' = state_channel_id s ∧ authorized_signer s' = authorized_signer s ∧
    highest_voucher_signature s' = highest_voucher_signature s ∧ highest_voucher_expires_at s' = highest_voucher_expires_at s;
  observation_keeps s slot l now :
    let s' := (record_onchain_observation s slot l now).1 in
    cumulative s' = cumulative s ∧ final_cumulative s' = final_cumulative s ∧ settled_on_chain s' = settled_on_chain s
}.

(** What the chain answers while one channel is reconciled. *)
Record ChainAnswers := {
  an_finalized : job (Z * option OwnedAccount); an_refund : job (option OwnedAccount); an_history : list (job (list SignatureInfo));
  an_transaction : string → job (option string); an_clock : Z }.

(** ** The inventory of a pass *)
Record ChannelInventorySnapshot := {
  snap_opened_zero_settlements : bool; snap_unsealed : bool; snap_rent_unclaimed : bool; snap_settled : Z; snap_undistributed : Z;
  snap_distributed : Z; snap_unsettled : Z; snap_mismatch : bool }.
Definition snapshot_default : ChannelInventorySnapshot := {|
  snap_opened_zero_settlements := false; snap_unsealed := false; snap_rent_unclaimed := false; snap_settled := 0; snap_undistributed := 0;
  snap_distributed := 0; snap_unsettled := 0; snap_mismatch := false |}.
Record LifecycleInventory := {
  inv_opened_zero_settlements : Z; inv_unsealed : Z; inv_rent_unclaimed : Z; inv_settled : Z; inv_undistributed : Z; inv_distributed : Z;
  inv_unsettled : Z; inv_mismatches : Z }.
Definition inventory_default : LifecycleInventory := {|
  inv_opened_zero_settlements := 0; inv_unsealed := 0; inv_rent_unclaimed := 0; inv_settled := 0; inv_undistributed := 0;
  inv_distributed := 0; inv_unsettled := 0; inv_mismatches := 0 |}.
(** The counts are a [usize] of the scanned channels; the amounts saturate. *)
Definition inventory_record (i : LifecycleInventory) (s : ChannelInventorySnapshot) : LifecycleInventory := {|
  inv_opened_zero_settlements := inv_opened_zero_settlements i + Z.b2z (snap_opened_zero_settlements s);
  inv_unsealed := inv_unsealed i + Z.b2z (snap_unsealed s);
  inv_rent_unclaimed := inv_rent_unclaimed i + Z.b2z (snap_rent_unclaimed s);
  inv_settled := saturating_add 64 (inv_settled i) (snap_settled s);
  inv_undistributed := saturating_add 64 (inv_undistributed i) (snap_undistributed s);
  inv_distributed := saturating_add 64 (inv_distributed i) (snap_distributed s);
  inv_unsettled := saturating_add 64 (inv_unsettled i) (snap_unsettled s);
  inv_mismatches := inv_mismatches i + Z.b2z (snap_mismatch s) |}.
Definition inventory_replace (i : LifecycleInventory) (before after : ChannelInventorySnapshot) : LifecycleInventory :=
  inventory_record {|
    inv_opened_zero_settlements := saturating_sub (inv_opened_zero_settlements i) (Z.b2z (snap_opened_zero_settlements before));
    inv_unsealed := saturating_sub (inv_unsealed i) (Z.b2z (snap_unsealed before));
    inv_rent_unclaimed := saturating_sub (inv_rent_unclaimed i) (Z.b2z (snap_rent_unclaimed before));
    inv_settled := saturating_sub (inv_settled i) (snap_settled before);
    inv_undistributed := saturating_sub (inv_undistributed i) (snap_undistributed before);
    inv_distributed := saturating_sub (inv_distributed i) (snap_distributed before);
    inv_unsettled := saturating_sub (inv_unsettled i) (snap_unsettled before);
    inv_mismatches := saturating_sub (inv_mismatches i) (Z.b2z (snap_mismatch before)) |} after.

Section snapshots.
Context `{ChannelKit}.
Definition MAINNET_STABLECOIN_MINT : string := "EPjFWdd5AufqSSqeM2qN1xzybapC8G4wEGGkZwyTDt1v".
Definition DEVNET_STABLECOIN_MINT : string := "4zMMC9srt5Ri5X14GAgXhaHii3GnPAEERYPJgZJDncDU".
Definition DEVNET_USDTEST_MINT : string := "6MJyWHwFpPsaTEuYarEz49ngtsSKPYn6yHqtJUW2a9St".
Definition stablecoin_base_units_option (mint : Pubkey) (amount : Z) : option Z :=
  if bool_decide (pubkey_from_str MAINNET_STABLECOIN_MINT = Some mint) || bool_decide (pubkey_from_str DEVNET_STABLECOIN_MINT = Some mint) ||
     bool_decide (pubkey_from_str DEVNET_USDTEST_MINT = Some mint)
  then Some amount else None.
Definition stablecoin_base_units (mint : Pubkey) (amount : Z) : Z := default 0 (stablecoin_base_units_option mint amount).
Definition settled_stablecoin_base_units (mint : Pubkey) (settled : Z) : Z := stablecoin_base_units mint settled.
Definition unsettled_stablecoin_base_units (mint : Pubkey) (cumulative settled : Z) : Z :=
  stablecoin_base_units mint (saturating_sub cumulative settled).
Definition effective_distributed_amount (status settled payout_watermark : Z) : Z :=
  if status =? STATUS_DISTRIBUTED then settled else payout_watermark.
Definition is_unsealed (status : Z) : bool := (status =? STATUS_OPEN) || (status =? STATUS_CLOSING).
Definition inventory_snapshot (redis_sealed : bool) (onchain_status onchain_settled onchain_payout_watermark redis_cumulative : Z) (mint : Pubkey) :
    ChannelInventorySnapshot :=
  let unsealed := is_unsealed onchain_status in
  let onchain_distributed := effective_distributed_amount onchain_status onchain_settled onchain_payout_watermark in {|
  snap_opened_zero_settlements := (onchain_status =? STATUS_OPEN) && (onchain_settled =? 0);
  snap_unsealed := unsealed;
  snap_rent_unclaimed := onchain_status =? STATUS_DISTRIBUTED;
  snap_settled := settled_stablecoin_base_units mint onchain_settled;
  snap_undistributed := stablecoin_base_units mint (saturating_sub onchain_settled onchain_distributed);
  snap_distributed := stablecoin_base_units mint onchain_distributed;
  snap_unsettled := unsettled_stablecoin_base_units mint redis_cumulative onchain_settled;
  snap_mismatch := redis_sealed && unsealed |}.
(** Of the record and the account a pass read. *)
Definition snapshot_of (state : WorkerState) (onchain : DecodedChannel) : ChannelInventorySnapshot :=
  inventory_snapshot (sealed state) (ch_status (channel onchain)) (ch_settled (channel onchain)) (ch_payout_watermark (channel onchain))
    (cumulative state) (mint onchain).
End snapshots.

(** ** Vouchers and records *)
Section store.
Context `{Kit} `{ChannelKit} `{StoreKit}.

Definition decode_voucher_signature (signature : string) : job (list Z) :=
  map_err (λ e, TxBuild ("voucher signature: " +:+ e)) (decode_64 signature).
Definition parse_pubkey (text : string) : job Pubkey := ok_or (pubkey_from_str text) (InvalidAddress text).
(** The voucher a close redeems, if any is above the settled amount, the
    amount the sealed channel carries and the voucher's expiry. *)
Definition close_voucher (state : WorkerState) (onchain_settled : Z) (onchain_signer : Pubkey) (now : Z) : job (option (list Z) * Z * Z) :=
  if cumulative state <=? onchain_settled then Ok (None, onchain_settled, 0)
  else
    authorized_signer ← parse_pubkey (authorized_signer state);
    _ ← reject_if (bool_decide (authorized_signer ≠ onchain_signer))
          (Config ("channel " +:+ state_channel_id state +:+ " authorized signer differs from Redis"));
    signature ← ok_or (highest_voucher_signature state) (TxBuild "latest unsettled voucher has no signature");
    expires_at ← ok_or (highest_voucher_expires_at state) (TxBuild "latest unsettled voucher has no expiry");
    _ ← reject_if (negb (expires_at =? 0) && (expires_at <=? now))
          (TxBuild ("latest unsettled voucher for " +:+ state_channel_id state +:+ " expired at " +:+ show expires_at));
    signature ← decode_voucher_signature signature;
    Ok (Some signature, cumulative state, expires_at).

Inductive FencedDelete := Deleted | InFlight.
(** [delete_channel_if] removes the record it checks, unless another writer
    was faster ([raced]); [later] is the record the second read finds. *)
Definition delete_channel_if (approve : WorkerState → bool) (raced : bool) (current : option WorkerState) : option WorkerState * bool :=
  match current with
  | Some s => if approve s && negb raced then (None, true) else (Some s, false)
  | None => (None, false)
  end.
Definition delete_fenced_channel (raced : bool) (current later : option WorkerState) : option WorkerState * FencedDelete :=
  match delete_channel_if (λ s, negb (has_in_flight_authorization s)) raced current with
  | (current, true) => (current, Deleted)
  | (current, false) => (current, match later with None => Deleted | Some _ => InFlight end)
  end.
Definition retain_sealed_record (current : option WorkerState) : result string WorkerState :=
  state ← ok_or current "Channel not found"; Ok (with_channel state (with_sealed state)).
Definition resource_cleanup_terminal (state : WorkerState) (onchain_status : option Z) : bool :=
  sealed state || match onchain_status with Some st => (st =? STATUS_SEALED) || (st =? STATUS_DISTRIBUTED) | None => false end.
End store.
