(* ===== verification/BatchSettlement.v ===== *)
(** * BatchSettlement: the worker's passes over x402 batch channels

    [run_batch] and [reconcile_batch_channel] of
    [pay-worker/src/bin/settle_sessions.rs]: which records a pass takes up,
    the fence a payer's close puts on a record before anything terminal is
    planned from it, the one transaction planned for each channel, and what
    the record becomes when the transaction lands.  The answers of the chain
    are arguments. *)
From S2P Require Import Prelude Text Landing PushManifest PushPlanner ChannelState ChannelAccount SettlementStore.
#[local] Open Scope string_scope.
#[local] Open Scope list_scope.
#[local] Open Scope Z_scope.

(** ** Plans *)
Inductive BatchCandidateKind := Claim | ClaimAndPayout | Payout | FinalizeClose | Reclaim.
#[global] Instance BatchCandidateKind_eq_dec : EqDecision BatchCandidateKind.
Proof. solve_decision. Defined.
Inductive BatchStoreAction := Keep | MarkFinalized | Delete.
Record ChainObservation := { obs_settled : Z; obs_lifecycle : option ObservedLifecycle }.
Record BatchCandidate := {
  bc_channel_id : string; bc_instructions : list Instruction; bc_kind : BatchCandidateKind; bc_store_action : BatchStoreAction;
  bc_before : ChannelInventorySnapshot; bc_after : ChannelInventorySnapshot; bc_settled_on_chain : Z; bc_forfeited_accepted : Z }.
Record BatchReconcileResult := {
  br_channel_id : string; br_candidate : option BatchCandidate; br_delete_absent : bool; br_snapshot : ChannelInventorySnapshot;
  br_settled : option Z; br_distributed : option Z; br_escrow_active : option bool; br_observed : option ChainObservation }.
(** [BatchRuntime], less its connections. *)
Record BatchRuntime := {
  settlement_max_idle : Z; snapshot_max_age : Z; settle_active_channels : bool; distribution_threshold_base_units : option Z }.

Definition distribution_threshold_reached (target_settled distributed threshold : Z) : bool :=
  threshold <=? saturating_sub target_settled distributed.
(** [u64::try_from(now).unwrap_or_default()]. *)
Definition seconds_of (now : Z) : Z := default 0 (try_from 64 now).
Definition batch_reconciliation_due (state : WorkerState) (now : Z) (rt : BatchRuntime) : bool :=
  if sealed state || bool_decide (is_Some (close_requested_at state)) then true
  else if match distribution_threshold_base_units rt with
          | Some threshold => distribution_threshold_reached (settled_on_chain state) (distributed_on_chain state) threshold
          | None => false
          end then true
  else
    let now_seconds := seconds_of now in
    if snapshot_max_age rt <=? saturating_sub now_seconds (onchain_checked_at state) then true
    else
      (settled_on_chain state <? cumulative state) &&
      (settle_active_channels rt || (settlement_max_idle rt <=? saturating_sub now_seconds (last_activity_at state))).

(** [ChainObservation::of]. *)
Definition observation_of (onchain : DecodedChannel) (now : Z) : ChainObservation :=
  let status := ch_status (channel onchain) in
  let start := ch_closure_started_at (channel onchain) in
  let started_at :=
    if negb (start =? 0) || negb (status =? STATUS_OPEN) then Some (if 0 <? start then start else Z.max now 1) else None in
  {| obs_settled := ch_settled (channel onchain);
     obs_lifecycle := Some (if is_unsealed status then match started_at with Some t => ObservedClosing t | None => ObservedOpen end
                            else ObservedTerminal started_at) |}.

Section batch.
Context `{Kit} `{ChannelKit} `{StoreKit}.

(** The closure of [update_batch_settled_watermark]. *)
Definition update_batch_settled_watermark (current : option WorkerState) (observed : ChainObservation) (slot : option Z) (now : Z) :
    result string (WorkerState * ObservationOutcome) :=
  state ← ok_or current "batch channel not found";
  let state := with_settled_on_chain state (Z.max (settled_on_chain state) (obs_settled observed)) in
  Ok (match obs_lifecycle observed with
      | Some lifecycle => record_onchain_observation state slot lifecycle now
      | None => (state, Fresh)
      end).

Definition batch_worker_binding : ChannelBinding := {|
  bound_scheme := BATCH_SETTLEMENT_SCHEME; bound_pay_to := None; bound_network := None; bound_program := Some (pubkey_text default_program_id) |}.

(** ** The fence of a payer's close *)
Definition batch_close_transition (current : option WorkerState) (closed_at onchain_settled : Z) (past_deadline : bool) (now : Z) :
    result string WorkerState :=
  state ← ok_or current "batch channel not found";
  let state := request_close_at state closed_at in
  Ok (if negb (bool_decide (is_Some (final_cumulative state))) && negb (has_blocking_authorization state now) then
        if negb past_deadline then freeze_watermark_at state (Z.max (cumulative state) onchain_settled)
        else if cumulative state <=? onchain_settled then freeze_watermark_at state onchain_settled
        else state
      else state).
(** [current] is the record at the moment of the update, [snapshot] the one
    scanned: a dry run plans from the snapshot and stores nothing. *)
Definition fence_batch_close (snapshot : WorkerState) (current : option WorkerState) (onchain : DecodedChannel) (now : Z) (dry_run : bool) :
    job WorkerState :=
  let start := ch_closure_started_at (channel onchain) in
  let closed_at := if 0 <? start then start else Z.max now 0 in
  let settled := ch_settled (channel onchain) in
  let past_deadline := close_deadline onchain <=? now in
  if dry_run then map_err Config (batch_close_transition (Some snapshot) closed_at settled past_deadline now)
  else map_err (λ e, Config ("record batch close: " +:+ e)) (batch_close_transition current closed_at settled past_deadline now).

(** ** One channel *)
Definition require_settled_covers_accepted (state : WorkerState) (onchain : DecodedChannel) (action : string) : job unit :=
  let settled := ch_settled (channel onchain) in
  reject_if (settled <? cumulative state)
    (Config ("batch channel " +:+ state_channel_id state +:+ " closed with " +:+ show (cumulative state - settled) +:+
             " accepted above the settled " +:+ show settled +:+ "; refusing to " +:+ action +:+ " below it")).
Definition batch_distribution (answers : ChainAnswers) (onchain : DecodedChannel) (treasury_owner : Pubkey) (token_programs : gmap Pubkey Pubkey)
    (stage : DistributeStage) : job (option Instruction) :=
  token_program ← ok_or (token_programs !! mint onchain) (TxBuild ("token program unavailable for batch channel mint " +:+ pubkey_text (mint onchain)));
  refund ← payer_refund_account onchain token_program default_program_id stage (an_refund answers) (an_clock answers);
  match refund with
  | Unpayable _ _ => Ok None
  | Payable =>
      preimage ← recover_distribution_preimage (an_history answers) (an_transaction answers) onchain;
      Ok (Some (build_distribute_ix onchain treasury_owner token_program preimage))
  end.
(** The instructions, kind, action, snapshot and settled amount of a close
    that seals [settled]. *)
Definition sealed_close (instructions : list Instruction) (distribution : option Instruction) (settled payout_watermark cumulative : Z) (mint : Pubkey) :
    list Instruction * BatchCandidateKind * BatchStoreAction * ChannelInventorySnapshot * Z :=
  match distribution with
  | Some d => (instructions ++ [d], FinalizeClose, MarkFinalized, inventory_snapshot true STATUS_DISTRIBUTED settled settled cumulative mint, settled)
  | None => (instructions, FinalizeClose, Keep, inventory_snapshot true STATUS_SEALED settled payout_watermark cumulative mint, settled)
  end.

(** The candidate of each arm of the match on the channel's status. *)
Section candidate.
Context (answers : ChainAnswers) (state : WorkerState) (onchain : DecodedChannel) (now current_slot : Z) (operator treasury_owner : Pubkey)
  (token_programs : gmap Pubkey Pubkey) (threshold : option Z).
#[local] Abbreviation settled := (ch_settled (channel onchain)).
#[local] Abbreviation watermark := (ch_payout_watermark (channel onchain)).
Definition reaches (target : Z) : bool :=
  match threshold with Some t => distribution_threshold_reached target watermark t | None => false end.
Definition candidate (instructions : list Instruction) (kind : BatchCandidateKind) (action : BatchStoreAction) (after : ChannelInventorySnapshot)
    (confirmed forfeited : Z) : BatchCandidate := {|
  bc_channel_id := state_channel_id state; bc_instructions := instructions; bc_kind := kind; bc_store_action := action;
  bc_before := snapshot_of state onchain; bc_after := after; bc_settled_on_chain := confirmed; bc_forfeited_accepted := forfeited |}.

(** The settlement of the latest voucher of an open channel: instructions and
    target. *)
Definition open_claim : job (option (list Instruction * Z)) :=
  if settled <? cumulative state then
    authorized_signer ← parse_pubkey (authorized_signer state);
    _ ← reject_if (bool_decide (authorized_signer ≠ ch_authorized_signer (channel onchain)))
          (Config ("batch channel " +:+ state_channel_id state +:+ " authorized signer differs from Redis"));
    signature ← ok_or (highest_voucher_signature state) (TxBuild "latest batch voucher has no signature");
    expires_at ← ok_or (highest_voucher_expires_at state) (TxBuild "latest batch voucher has no expiry");
    _ ← reject_if (negb (expires_at =? 0) && (expires_at <=? now))
          (TxBuild ("latest batch voucher for " +:+ state_channel_id state +:+ " expired at " +:+ show expires_at));
    signature ← decode_voucher_signature signature;
    instructions ← map_err (λ e, TxBuild ("settle instruction: " +:+ e))
      (build_settle_instructions (address onchain) authorized_signer signature (cumulative state) expires_at default_program_id);
    Ok (Some (instructions, cumulative state))
  else Ok None.
Definition open_candidate : job (option BatchCandidate) :=
  claim ← open_claim;
  let '(instructions, target_settled) := default ([], settled) claim in
  let kind := match claim with Some _ => if reaches target_settled then ClaimAndPayout else Claim | None => Payout end in
  distribution ← (if reaches target_settled && (watermark <? target_settled)
                  then batch_distribution answers onchain treasury_owner token_programs Open else Ok None);
  Ok (match distribution with
      | None =>
          if bool_decide (kind = Payout) then None
          else Some (candidate instructions Claim Keep
                       (inventory_snapshot (sealed state) STATUS_OPEN target_settled watermark (cumulative state) (mint onchain)) target_settled 0)
      | Some d =>
          Some (candidate (instructions ++ [d]) kind Keep
                  (inventory_snapshot (sealed state) STATUS_OPEN target_settled target_settled (cumulative state) (mint onchain)) target_settled 0)
      end).
Definition close_candidate (instructions : list Instruction) (target_settled : Z) : job (option BatchCandidate) :=
  distribution ← batch_distribution answers onchain treasury_owner token_programs (Sealed target_settled);
  let '(instructions, kind, action, after, confirmed) :=
    sealed_close instructions distribution target_settled watermark (cumulative state) (mint onchain) in
  Ok (Some (candidate instructions kind action after confirmed 0)).
Definition closing_candidate : job (option BatchCandidate) :=
  if negb (bool_decide (is_Some (final_cumulative state))) then
    _ ← (if close_deadline onchain <=? now then require_settled_covers_accepted state onchain "seal" else Ok tt);
    Ok None
  else if now <? close_deadline onchain then
    let onchain_signer := ch_authorized_signer (channel onchain) in
    '(signature, target_settled, expires_at) ← close_voucher state settled onchain_signer now;
    instructions ← map_err (λ e, TxBuild ("settle-and-seal instruction: " +:+ e))
      (build_settle_and_seal_instructions operator (address onchain) onchain_signer signature target_settled expires_at default_program_id);
    close_candidate instructions target_settled
  else
    _ ← require_settled_covers_accepted state onchain "seal";
    close_candidate [build_seal_ix (address onchain)] settled.
Definition sealed_candidate : job (option BatchCandidate) :=
  let forfeited_accepted := saturating_sub (cumulative state) settled in
  distribution ← batch_distribution answers onchain treasury_owner token_programs (Sealed settled);
  Ok (match distribution with
      | None => None
      | Some d =>
          Some (candidate [d] Payout MarkFinalized
                  (inventory_snapshot true STATUS_DISTRIBUTED settled settled (cumulative state) (mint onchain)) settled forfeited_accepted)
      end).
Definition batch_candidate : job (option BatchCandidate) :=
  let status := ch_status (channel onchain) in
  if status =? STATUS_OPEN then open_candidate
  else if status =? STATUS_CLOSING then closing_candidate
  else if status =? STATUS_SEALED then sealed_candidate
  else if status =? STATUS_DISTRIBUTED then
    Ok (if saturating_add 64 (channel_open_slot onchain) OPEN_SLOT_WINDOW <? current_slot
        then Some (candidate [build_reclaim_ix (address onchain) operator] Reclaim Delete snapshot_default settled 0)
        else None)
  else Err (TxBuild ("batch channel " +:+ state_channel_id state +:+ " has unknown status " +:+ show status)).
End candidate.

Definition reconcile_batch_channel (answers : ChainAnswers) (state : WorkerState) (onchain : option DecodedChannel) (now current_slot : Z)
    (operator treasury_owner : Pubkey) (token_programs : gmap Pubkey Pubkey) (threshold : option Z) : job BatchReconcileResult :=
  match onchain with
  | None =>
      delete_absent ← match open_slot state with
                      | Some slot =>
                          if has_in_flight_authorization state then Ok false
                          else _ ← parse_pubkey (state_channel_id state); channel_absence_proven default_program_id slot (an_finalized answers)
                      | None => Ok false
                      end;
      Ok {| br_channel_id := state_channel_id state; br_candidate := None; br_delete_absent := delete_absent; br_snapshot := snapshot_default;
            br_settled := None; br_distributed := None; br_escrow_active := Some false; br_observed := None |}
  | Some onchain =>
      _ ← reject_if (bool_decide (payee onchain ≠ operator) || bool_decide (rent_payer onchain ≠ operator))
            (Config ("batch channel " +:+ state_channel_id state +:+ " lifecycle authority differs from worker " +:+ pubkey_text operator));
      let c := channel onchain in
      let distributed := effective_distributed_amount (ch_status c) (ch_settled c) (ch_payout_watermark c) in
      candidate ← batch_candidate answers state onchain now current_slot operator treasury_owner token_programs threshold;
      Ok {| br_channel_id := state_channel_id state; br_candidate := candidate; br_delete_absent := false; br_snapshot := snapshot_of state onchain;
            br_settled := stablecoin_base_units_option (mint onchain) (ch_settled c);
            br_distributed := stablecoin_base_units_option (mint onchain) distributed;
            br_escrow_active := Some (negb (ch_status c =? STATUS_DISTRIBUTED)); br_observed := Some (observation_of onchain now) |}
  end.

(** ** A pass *)
Record BatchMetrics := { bm_scanned : Z; bm_skipped : Z; bm_failures : Z }.
Definition count_skipped (m : BatchMetrics) : BatchMetrics := {| bm_scanned := bm_scanned m; bm_skipped := bm_skipped m + 1; bm_failures := bm_failures m |}.
Definition count_failed (m : BatchMetrics) : BatchMetrics := {| bm_scanned := bm_scanned m; bm_skipped := bm_skipped m; bm_failures := bm_failures m + 1 |}.
(** The loop over the scanned records. *)
Fixpoint batch_due_channels (rt : BatchRuntime) (now : Z) (m : BatchMetrics) (channels : list WorkerState) : BatchMetrics * list WorkerState :=
  match channels with
  | [] => (m, [])
  | state :: channels =>
      if negb (match is_recorded_legacy (Some (channel_binding state)) with Ok b => b | Err _ => false end) then
        batch_due_channels rt now (count_failed (count_skipped m)) channels
      else if negb (is_ok (check_binding state batch_worker_binding)) then batch_due_channels rt now (count_failed (count_skipped m)) channels
      else if negb (batch_reconciliation_due state now rt) then batch_due_channels rt now (count_skipped m) channels
      else let '(m, due) := batch_due_channels rt now m channels in (m, state :: due)
  end.
(** One request of up to a hundred records. *)
Definition fetch_chunk (answer : list Pubkey → job (Z * list (option OwnedAccount))) (states : list WorkerState) :
    job (list (job (option DecodedChannel))) :=
  addresses ← mapM (λ s : WorkerState, parse_pubkey (state_channel_id s)) states;
  '(_, channels) ← fetch_channels_each_at addresses (answer addresses);
  Ok channels.
(** What the reads of one request add. *)
Definition absorb_fetch (acc : BatchMetrics * list (WorkerState * option DecodedChannel))
    (chunk : list WorkerState * job (list (job (option DecodedChannel)))) : BatchMetrics * list (WorkerState * option DecodedChannel) :=
  match chunk.2 with
  | Err _ => ({| bm_scanned := bm_scanned acc.1; bm_skipped := bm_skipped acc.1 + zlen chunk.1; bm_failures := bm_failures acc.1 + zlen chunk.1 |}, acc.2)
  | Ok channels =>
      foldl (λ '(m, fetched) '(state, onchain), match onchain with
                                               | Ok onchain => (m, fetched ++ [(state, onchain)])
                                               | Err _ => (count_failed (count_skipped m), fetched)
                                               end) acc (zip chunk.1 channels)
  end.
(** [fence] is [fence_batch_close] on the record of the moment. *)
Definition absorb_fence (fence : WorkerState → DecodedChannel → job WorkerState) (acc : BatchMetrics * list (WorkerState * option DecodedChannel))
    (x : WorkerState * option DecodedChannel) : BatchMetrics * list (WorkerState * option DecodedChannel) :=
  match x.2 with
  | Some onchain =>
      if ch_status (channel onchain) =? STATUS_CLOSING then
        match fence x.1 onchain with
        | Ok state => (acc.1, acc.2 ++ [(state, Some onchain)])
        | Err _ => (count_failed (count_skipped acc.1), acc.2)
        end
      else (acc.1, acc.2 ++ [x])
  | None => (acc.1, acc.2 ++ [x])
  end.
(** [written] and [removed] are what the store answers the write of the
    observation and the deletion of an absent record. *)
Definition absorb_reconciliation (written removed : string → bool) (dry_run : bool) (acc : BatchMetrics * LifecycleInventory * list BatchCandidate)
    (r : job BatchReconcileResult) : BatchMetrics * LifecycleInventory * list BatchCandidate :=
  let '(m, inventory, candidates) := acc in
  match r with
  | Err _ => (count_failed (count_skipped m), inventory, candidates)
  | Ok result =>
      let m := if bool_decide (is_Some (br_observed result)) && negb (written (br_channel_id result)) then count_failed m else m in
      let inventory := inventory_record inventory (br_snapshot result) in
      let '(m, candidates) := match br_candidate result with Some c => (m, candidates ++ [c]) | None => (count_skipped m, candidates) end in
      let m := if br_delete_absent result && negb dry_run && negb (removed (br_channel_id result)) then count_failed m else m in
      (m, inventory, candidates)
  end.

(** From the scan to the plans.  The requests run concurrently and their
    answers are absorbed in the order they come in; here in the order they were
    made. *)
Definition plan_pass (rt : BatchRuntime) (now : Z) (answer : list Pubkey → job (Z * list (option OwnedAccount)))
    (fence : WorkerState → DecodedChannel → job WorkerState) (reconcile : WorkerState → option DecodedChannel → job BatchReconcileResult)
    (written removed : string → bool) (dry_run : bool) (channels : list WorkerState) : BatchMetrics * LifecycleInventory * list BatchCandidate :=
  let m := {| bm_scanned := zlen channels; bm_skipped := 0; bm_failures := 0 |} in
  let '(m, due) := batch_due_channels rt now m channels in
  let '(m, fetched) := foldl absorb_fetch (m, []) (map (λ chunk, (chunk, fetch_chunk answer chunk)) (slice_chunks 100 due)) in
  let '(m, reconcilable) := foldl (absorb_fence fence) (m, []) fetched in
  foldl (absorb_reconciliation written removed dry_run) (m, inventory_default, []) (map (λ x, reconcile x.1 x.2) reconcilable).

(** What is submitted of a candidate. *)
Definition submitted (c : BatchCandidate) (operator : Pubkey) : BatchCandidate :=
  let '(instructions, deferred) := defer_oversized_distribution (bc_instructions c) operator in {|
  bc_channel_id := bc_channel_id c; bc_instructions := instructions; bc_kind := bc_kind c;
  bc_store_action := if deferred then Keep else bc_store_action c; bc_before := bc_before c; bc_after := bc_after c;
  bc_settled_on_chain := bc_settled_on_chain c; bc_forfeited_accepted := bc_forfeited_accepted c |}.
(** What a confirmed transaction proves. *)
Definition confirmed_observation (c : BatchCandidate) : ChainObservation := {|
  obs_settled := bc_settled_on_chain c;
  obs_lifecycle := if negb (snap_unsealed (bc_after c)) then Some (ObservedTerminal None) else None |}.
(** A terminal action waits for the transaction to be finalized. *)
Definition confirmed_action (c : BatchCandidate) (finalized : bool) : BatchStoreAction :=
  match bc_store_action c with Keep => Keep | terminal => if finalized then terminal else Keep end.
(** The record after a confirmed transaction: the observation, if its write
    went through, then the action.  [mark_finalized] is the store's. *)
Definition finish_candidate (mark_finalized : WorkerState → WorkerState) (c : BatchCandidate) (finalized raced : bool) (now : Z)
    (current : option WorkerState) : option WorkerState :=
  let current := match update_batch_settled_watermark current (confirmed_observation c) None (Z.max now 0) with
                 | Ok (state, _) => Some state
                 | Err _ => current
                 end in
  match confirmed_action c finalized with
  | Keep => current
  | MarkFinalized => mark_finalized <$> current
  | Delete => (delete_channel_if (λ s, negb (has_in_flight_authorization s)) raced current).1
  end.
(** The inventory after the confirmations. *)
Definition confirm_inventory (i : LifecycleInventory) (confirmed : list BatchCandidate) : LifecycleInventory :=
  foldl (λ i c, inventory_replace i (bc_before c) (bc_after c)) i confirmed.
(** What the logs say was forfeited. *)
Definition reported_forfeits (confirmed : list BatchCandidate) : Z :=
  zsum (map bc_forfeited_accepted (List.filter (λ c, 0 <? bc_forfeited_accepted c) confirmed)).
End batch.
