(* ===== verification/BatchSafety.v ===== *)
(** * BatchSafety: what the batch passes guarantee

    The worker shares a channel with the gateway, which keeps accepting
    vouchers until the record is frozen, with the payer, who may close at any
    time, and with anyone who seals past the deadline.  [batch_step] lets
    their steps and the steps of any number of worker passes interleave. *)
From S2P Require Import Prelude Text Landing PushManifest PushPlanner ChannelState ChannelAccount SettlementStore BatchSettlement.
#[local] Open Scope string_scope.
#[local] Open Scope list_scope.
#[local] Open Scope Z_scope.

(** ** The other parties

    What other writers of the record do, what a transaction of the worker and
    what anything else does to the channel's account, and the least amount at
    which an instruction can seal a channel. *)
Class Parties := {
  gateway : WorkerState → WorkerState → Prop;
  lands : Channel → list Instruction → Channel → Prop;
  others : Channel → Channel → Prop;
  seals_at : Instruction → option Z
}.
Class PartiesLaws `{Kit} `{ChannelKit} `{StoreKit} `{Parties} : Prop := {
  (** Accepting never lowers the accepted amount, and stops at the freeze. *)
  gateway_accepts s s' : gateway s s' → cumulative s ≤ cumulative s';
  gateway_fenced s s' : gateway s s' → is_Some (final_cumulative s) →
    is_Some (final_cumulative s') ∧ cumulative s' = cumulative s;
  (** Settlement is a watermark. *)
  lands_settles c l c' : lands c l c' → ch_settled c ≤ ch_settled c';
  others_settle c c' : others c c' → ch_settled c ≤ ch_settled c';
  (** An open channel is sealed by an instruction that seals, not below the
      voucher it redeems. *)
  lands_seals c l c' : lands c l c' → is_unsealed (ch_status c) = true → is_unsealed (ch_status c') = false →
    ∃ ix t, ix ∈ l ∧ seals_at ix = Some t ∧ t ≤ ch_settled c';
  settle_never_seals a signer signature cumulative expires program l ix :
    build_settle_instructions a signer signature cumulative expires program = Ok l → ix ∈ l → seals_at ix = None;
  seals_at_voucher operator a signer signature cumulative expires program l ix t :
    build_settle_and_seal_instructions operator a signer (Some signature) cumulative expires program = Ok l →
    ix ∈ l → seals_at ix = Some t → t = cumulative;
  distribute_never_seals params program :
    seals_at {| ix_program := program; ix_accounts := ix_accounts (distribute_builder params); ix_data := ix_data (distribute_builder params) |} = None;
  reclaim_never_seals c r : seals_at (reclaim_builder c r) = None
}.

(** ** The world of one channel *)
Record ChannelWorld := {
  w_record : WorkerState;
  w_chain : Channel;
  (** Every state the account was in: a node may answer with an old one. *)
  w_past : list Channel;
  w_scans : list WorkerState;
  w_reads : list (WorkerState * DecodedChannel);
  w_ready : list (WorkerState * DecodedChannel);
  w_flight : list BatchCandidate;
  (** Someone other than the worker sealed the channel. *)
  w_foreign : bool
}.
Definition set_record (w : ChannelWorld) (s : WorkerState) : ChannelWorld := {|
  w_record := s; w_chain := w_chain w; w_past := w_past w; w_scans := w_scans w; w_reads := w_reads w; w_ready := w_ready w;
  w_flight := w_flight w; w_foreign := w_foreign w |}.
Definition set_chain (w : ChannelWorld) (c : Channel) (foreign : bool) : ChannelWorld := {|
  w_record := w_record w; w_chain := c; w_past := c :: w_past w; w_scans := w_scans w; w_reads := w_reads w; w_ready := w_ready w;
  w_flight := w_flight w; w_foreign := foreign |}.
Definition add_scan (w : ChannelWorld) : ChannelWorld := {|
  w_record := w_record w; w_chain := w_chain w; w_past := w_past w; w_scans := w_record w :: w_scans w; w_reads := w_reads w; w_ready := w_ready w;
  w_flight := w_flight w; w_foreign := w_foreign w |}.
Definition add_read (w : ChannelWorld) (x : WorkerState * DecodedChannel) : ChannelWorld := {|
  w_record := w_record w; w_chain := w_chain w; w_past := w_past w; w_scans := w_scans w; w_reads := x :: w_reads w; w_ready := w_ready w;
  w_flight := w_flight w; w_foreign := w_foreign w |}.
Definition add_ready (w : ChannelWorld) (x : WorkerState * DecodedChannel) : ChannelWorld := {|
  w_record := w_record w; w_chain := w_chain w; w_past := w_past w; w_scans := w_scans w; w_reads := w_reads w; w_ready := x :: w_ready w;
  w_flight := w_flight w; w_foreign := w_foreign w |}.
Definition add_flight (w : ChannelWorld) (c : BatchCandidate) : ChannelWorld := {|
  w_record := w_record w; w_chain := w_chain w; w_past := w_past w; w_scans := w_scans w; w_reads := w_reads w; w_ready := w_ready w;
  w_flight := c :: w_flight w; w_foreign := w_foreign w |}.
Definition is_sealed_status (c : Channel) : bool := negb (is_unsealed (ch_status c)).
Definition initially (s : WorkerState) (c : Channel) : ChannelWorld := {|
  w_record := s; w_chain := c; w_past := [c]; w_scans := []; w_reads := []; w_ready := []; w_flight := []; w_foreign := is_sealed_status c |}.

Section steps.
Context `{Kit} `{ChannelKit} `{StoreKit} `{Parties}.

Inductive batch_step : ChannelWorld → ChannelWorld → Prop :=
  | GatewayWrites w s' : gateway (w_record w) s' → batch_step w (set_record w s')
  | OthersAct w c' : others (w_chain w) c' →
      batch_step w (set_chain w c' (w_foreign w || (is_unsealed (ch_status (w_chain w)) && is_sealed_status c')))
  | Scans w : batch_step w (add_scan w)
  | Reads w s d : s ∈ w_scans w → channel d ∈ w_past w → batch_step w (add_read w (s, d))
  (** Only a closing channel is fenced before it is planned. *)
  | Fences w s d now s' : (s, d) ∈ w_reads w → ch_status (channel d) = STATUS_CLOSING →
      fence_batch_close s (Some (w_record w)) d now false = Ok s' → batch_step w (add_ready (set_record w s') (s', d))
  | Passes w s d : (s, d) ∈ w_reads w → ch_status (channel d) ≠ STATUS_CLOSING → batch_step w (add_ready w (s, d))
  | Plans w s d answers now slot operator treasury programs threshold r c : (s, d) ∈ w_ready w →
      reconcile_batch_channel answers s (Some d) now slot operator treasury programs threshold = Ok r →
      br_candidate r = Some c → batch_step w (add_flight w c)
  | Observes w observed slot now s' outcome : update_batch_settled_watermark (Some (w_record w)) observed slot now = Ok (s', outcome) →
      batch_step w (set_record w s')
  | Lands w c operator c' : c ∈ w_flight w → lands (w_chain w) (bc_instructions (submitted c operator)) c' →
      batch_step w (set_chain w c' (w_foreign w)).
End steps.

(** ** What a plan may contain *)
Section plans.
Context `{Kit} `{ChannelKit} `{StoreKit}.

Lemma reconciled_candidate answers s d now slot operator treasury programs threshold r c :
  reconcile_batch_channel answers s (Some d) now slot operator treasury programs threshold = Ok r → br_candidate r = Some c →
  batch_candidate answers s d now slot operator treasury programs threshold = Ok (Some c) ∧ payee d = operator ∧ rent_payer d = operator.
Proof.
  unfold reconcile_batch_channel. intros ([] & Ha & Hr)%bind_Ok Hc. apply bind_Ok in Hr as (o & Ho & Hr). injection Hr as <-.
  cbn in Hc. subst o. split; [done|]. apply reject_if_Ok, orb_false_iff in Ha as [Hp Hq]. apply bool_decide_eq_false in Hp, Hq.
  split; by apply dec_stable.
Qed.
(** A distribution pays the committed plan, and a refund it owes can be paid. *)
Lemma batch_distribution_Some answers d treasury programs stage ix :
  batch_distribution answers d treasury programs stage = Ok (Some ix) →
  ∃ token_program p, programs !! mint d = Some token_program ∧
    payer_refund_account d token_program default_program_id stage (an_refund answers) (an_clock answers) = Ok Payable ∧
    recover_distribution_preimage (an_history answers) (an_transaction answers) d = Ok p ∧ ix = build_distribute_ix d treasury token_program p.
Proof.
  unfold batch_distribution. intros (tp & Htp & Hr)%bind_Ok. apply ok_or_Ok in Htp.
  apply bind_Ok in Hr as ([|reason missing] & Href & Hr); [|done].
  apply bind_Ok in Hr as (p & Hp & Hr). injection Hr as <-. eauto 10.
Qed.
Lemma close_voucher_amount s settled signer now signature target expires :
  close_voucher s settled signer now = Ok (signature, target, expires) →
  target = Z.max (cumulative s) settled ∧ (is_Some signature ↔ settled < cumulative s).
Proof.
  unfold close_voucher. destruct (Z.leb_spec (cumulative s) settled).
  - intros [= <- <- <-]. split; [lia|]. split; [intros [? [=]]|lia].
  - intros Hr. inv_ok. split; [lia|]. split; eauto.
Qed.
Lemma covers_accepted s d action u : require_settled_covers_accepted s d action = Ok u → cumulative s ≤ ch_settled (channel d).
Proof. unfold require_settled_covers_accepted. intros Hr%reject_if_Ok. lia. Qed.

(** The terminal plans of a closing channel: the seal's instructions, the
    amount the seal carries, and the distribution if one is due. *)
Lemma closing_candidate_Some answers s d now operator treasury programs c :
  closing_candidate answers s d now operator treasury programs = Ok (Some c) →
  is_Some (final_cumulative s) ∧ ∃ seal target,
    close_candidate answers s d treasury programs seal target = Ok (Some c) ∧ cumulative s ≤ target ∧
    ((close_deadline d ≤ now ∧ seal = [build_seal_ix (address d)] ∧ target = ch_settled (channel d)) ∨
     (now < close_deadline d ∧ ∃ signature expires, target = Z.max (cumulative s) (ch_settled (channel d)) ∧
        (is_Some signature ↔ ch_settled (channel d) < cumulative s) ∧
        build_settle_and_seal_instructions operator (address d) (ch_authorized_signer (channel d)) signature target expires default_program_id = Ok seal)).
Proof.
  unfold closing_candidate. case_bool_decide as Hf; cbn [negb]; [|intros (? & ? & ?)%bind_Ok; done].
  intros Hr. split; [done|]. destruct (Z.ltb_spec now (close_deadline d)) as [Hn|Hn].
  - apply bind_Ok in Hr as ([[signature target] expires] & Hv & Hr). apply bind_Ok in Hr as (seal & Hs & Hr).
    apply map_err_Ok in Hs. apply close_voucher_amount in Hv as [Ht Hsig].
    exists seal, target. split; [done|]. split; [lia|]. right. eauto 10.
  - apply bind_Ok in Hr as (u & Hc & Hr). apply covers_accepted in Hc. eauto 10.
Qed.
Lemma close_candidate_Some answers s d treasury programs seal target c :
  close_candidate answers s d treasury programs seal target = Ok (Some c) →
  ∃ distribution, batch_distribution answers d treasury programs (Sealed target) = Ok distribution ∧
    bc_instructions c = seal ++ option_list distribution ∧ bc_kind c = FinalizeClose ∧
    bc_store_action c = (match distribution with Some _ => MarkFinalized | None => Keep end) ∧
    bc_settled_on_chain c = target ∧ bc_forfeited_accepted c = 0 ∧ snap_unsealed (bc_after c) = false.
Proof.
  unfold close_candidate. intros (distribution & Hd & Hr)%bind_Ok. exists distribution. split; [done|].
  destruct distribution as [ix|]; cbn in Hr |- *; injection Hr as <-; cbn; by rewrite ?app_nil_r.
Qed.
Lemma open_candidate_Some answers s d now treasury programs threshold c :
  open_candidate answers s d now treasury programs threshold = Ok (Some c) →
  ∃ claim distribution, open_claim s d now = Ok claim ∧
    (distribution = None ∨ batch_distribution answers d treasury programs Open = Ok distribution) ∧
    bc_instructions c = default [] (fst <$> claim) ++ option_list distribution ∧ bc_store_action c = Keep ∧
    bc_kind c = (match claim, distribution with Some _, Some _ => ClaimAndPayout | Some _, None => Claim | None, _ => Payout end) ∧
    (is_Some distribution ∨ is_Some claim) ∧
    bc_settled_on_chain c = Z.max (cumulative s) (ch_settled (channel d)) ∧ bc_forfeited_accepted c = 0.
Proof.
  unfold open_candidate. intros (claim & Hclaim & Hr)%bind_Ok.
  assert (Ht : (default ([], ch_settled (channel d)) claim).2 = Z.max (cumulative s) (ch_settled (channel d))).
  { unfold open_claim in Hclaim. destruct (Z.ltb_spec (ch_settled (channel d)) (cumulative s)); [inv_ok; cbn; lia|injection Hclaim as <-; cbn; lia]. }
  exists claim. destruct (default _ claim) as [instructions target] eqn:Ed. cbn in Ht. subst target.
  apply bind_Ok in Hr as (distribution & Hd & Hr). exists distribution. split; [done|].
  assert (Hi : default [] (fst <$> claim) = instructions) by (destruct claim as [[? ?]|]; simpl in *; congruence).
  rewrite Hi. clear Ed Hclaim. destruct distribution as [ix|].
  - destruct (reaches d threshold _) eqn:Er; [|done]. cbn [andb] in Hd. destruct (_ <? _); [|done].
    injection Hr as <-. cbn. split_and!; eauto.
  - destruct claim as [x|]; cbn in Hi; [|by case_bool_decide].
    split; [by left|]. case_bool_decide as Hk; [by destruct (reaches _ _ _)|]. injection Hr as <-. cbn. rewrite app_nil_r. split_and!; eauto.
Qed.
Lemma sealed_candidate_Some answers s d treasury programs c :
  sealed_candidate answers s d treasury programs = Ok (Some c) →
  ∃ ix, batch_distribution answers d treasury programs (Sealed (ch_settled (channel d))) = Ok (Some ix) ∧ bc_instructions c = [ix] ∧
    bc_kind c = Payout ∧ bc_store_action c = MarkFinalized ∧ bc_settled_on_chain c = ch_settled (channel d) ∧
    bc_forfeited_accepted c = saturating_sub (cumulative s) (ch_settled (channel d)).
Proof.
  unfold sealed_candidate. intros ([ix|] & Hd & Hr)%bind_Ok; [|done]. injection Hr as <-. eauto 10.
Qed.
Lemma batch_candidate_cases answers s d now slot operator treasury programs threshold c :
  batch_candidate answers s d now slot operator treasury programs threshold = Ok (Some c) →
  (ch_status (channel d) = STATUS_OPEN ∧ open_candidate answers s d now treasury programs threshold = Ok (Some c)) ∨
  (ch_status (channel d) = STATUS_CLOSING ∧ closing_candidate answers s d now operator treasury programs = Ok (Some c)) ∨
  (ch_status (channel d) = STATUS_SEALED ∧ sealed_candidate answers s d treasury programs = Ok (Some c)) ∨
  (ch_status (channel d) = STATUS_DISTRIBUTED ∧ saturating_add 64 (channel_open_slot d) OPEN_SLOT_WINDOW < slot ∧
   bc_instructions c = [build_reclaim_ix (address d) operator] ∧ bc_kind c = Reclaim ∧ bc_store_action c = Delete ∧ bc_forfeited_accepted c = 0).
Proof.
  unfold batch_candidate. destruct (Z.eqb_spec (ch_status (channel d)) STATUS_OPEN); [auto|].
  destruct (Z.eqb_spec (ch_status (channel d)) STATUS_CLOSING); [auto|]. destruct (Z.eqb_spec (ch_status (channel d)) STATUS_SEALED); [auto|].
  destruct (Z.eqb_spec (ch_status (channel d)) STATUS_DISTRIBUTED); [|done].
  destruct (Z.ltb_spec (saturating_add 64 (channel_open_slot d) OPEN_SLOT_WINDOW) slot) as [Hs|]; intros [= <-].
  do 3 right. split_and!; done.
Qed.
End plans.

(** ** The invariant *)
Section safety.
Context `{Kit} `{ChannelKit} `{StoreKit} `{!StoreKitLaws} `{Parties} `{!PartiesLaws}.

Lemma distribution_never_seals answers d treasury programs stage ix :
  batch_distribution answers d treasury programs stage = Ok (Some ix) → seals_at ix = None.
Proof. intros (tp & p & _ & _ & _ & ->)%batch_distribution_Some. apply distribute_never_seals. Qed.
Lemma optional_distribution_seals answers d treasury programs stage distribution ix :
  batch_distribution answers d treasury programs stage = Ok distribution → ix ∈ option_list distribution → seals_at ix = None.
Proof. destruct distribution; intros Hd Hix; [|by apply elem_of_nil in Hix]. apply list_elem_of_singleton in Hix as ->. by eapply distribution_never_seals. Qed.

(** A plan seals only what was frozen, at no less than was accepted or
    settled. *)
Lemma planned_seal answers s d now slot operator treasury programs threshold c ix t :
  batch_candidate answers s d now slot operator treasury programs threshold = Ok (Some c) →
  ix ∈ bc_instructions c → seals_at ix = Some t → is_Some (final_cumulative s) ∧ cumulative s ≤ Z.max t (ch_settled (channel d)).
Proof.
  intros [[_ Hc]|[[_ Hc]|[[_ Hc]|(_ & _ & Hi & _)]]]%batch_candidate_cases Hix Ht.
  - apply open_candidate_Some in Hc as (claim & dist & Hcl & Hd & Hi & _). exfalso. rewrite Hi, elem_of_app in Hix.
    destruct Hix as [Hix|Hix].
    + unfold open_claim in Hcl. destruct (_ <? _) in Hcl; inv_ok; [|by apply elem_of_nil in Hix].
      cbn in Hix. match goal with Hb : build_settle_instructions _ _ _ _ _ _ = _ |- _ => rewrite (settle_never_seals _ _ _ _ _ _ _ _ Hb Hix) in Ht end. done.
    + destruct Hd as [->|Hd]; [by apply elem_of_nil in Hix|]. by rewrite (optional_distribution_seals _ _ _ _ _ _ _ Hd Hix) in Ht.
  - apply closing_candidate_Some in Hc as (Hf & seal & target & Hc & Hcov & Hs). split; [done|].
    apply close_candidate_Some in Hc as (dist & Hd & Hi & _). rewrite Hi, elem_of_app in Hix.
    destruct Hix as [Hix|Hix]; [|by rewrite (optional_distribution_seals _ _ _ _ _ _ _ Hd Hix) in Ht].
    destruct Hs as [(_ & _ & ->)|(_ & signature & expires & -> & Hsig & Hb)]; [lia|].
    destruct signature as [signature|]; [apply (seals_at_voucher _ _ _ _ _ _ _ _ _ _ Hb Hix) in Ht; lia|].
    destruct (Z.ltb_spec (ch_settled (channel d)) (cumulative s)) as [Hlt|]; [|lia]. by apply Hsig in Hlt as [? ?].
  - apply sealed_candidate_Some in Hc as (i & Hd & Hi & _). rewrite Hi in Hix. apply list_elem_of_singleton in Hix as ->.
    by rewrite (distribution_never_seals _ _ _ _ _ _ Hd) in Ht.
  - rewrite Hi in Hix. apply list_elem_of_singleton in Hix as ->. unfold build_reclaim_ix in Ht. by rewrite reclaim_never_seals in Ht.
Qed.
Lemma planned_forfeit answers s d now slot operator treasury programs threshold c :
  batch_candidate answers s d now slot operator treasury programs threshold = Ok (Some c) →
  bc_forfeited_accepted c = 0 ∨
  (ch_status (channel d) = STATUS_SEALED ∧ bc_forfeited_accepted c = saturating_sub (cumulative s) (ch_settled (channel d))).
Proof.
  intros [[_ Hc]|[[_ Hc]|[[Hs Hc]|(_ & _ & _ & _ & _ & Hf)]]]%batch_candidate_cases; [left|left|right|by left].
  - apply open_candidate_Some in Hc. naive_solver.
  - apply closing_candidate_Some in Hc as (_ & seal & target & Hc & _). apply close_candidate_Some in Hc. naive_solver.
  - apply sealed_candidate_Some in Hc. naive_solver.
Qed.
(** What is submitted is the plan, or the plan less its distribution. *)
Lemma submitted_subset c operator ix : ix ∈ bc_instructions (submitted c operator) → ix ∈ bc_instructions c.
Proof.
  unfold submitted, defer_oversized_distribution. destruct (last_index _ _) as [i|]; [|done].
  destruct (orb _ _); cbn [bc_instructions]; [done|]. intros Hix. eapply elem_of_take in Hix as (k & Hk & _). by eapply list_elem_of_lookup_2.
Qed.

(** The worker's copies of the record are never ahead of it, and one that is
    frozen agrees with it. *)
Definition held (r s : WorkerState) : Prop :=
  cumulative s ≤ cumulative r ∧ (is_Some (final_cumulative s) → is_Some (final_cumulative r) ∧ cumulative r = cumulative s).
Definition settled_for (r : WorkerState) (c : Channel) : Prop := is_Some (final_cumulative r) ∧ cumulative r ≤ ch_settled c.
Record sound (w : ChannelWorld) : Prop := {
  sound_now : w_chain w ∈ w_past w;
  sound_past : ∀ x, x ∈ w_past w → ch_settled x ≤ ch_settled (w_chain w);
  sound_sealed : ∀ x, x ∈ w_past w → is_sealed_status x = true → w_foreign w = true ∨ settled_for (w_record w) x;
  sound_scans : ∀ s, s ∈ w_scans w → held (w_record w) s;
  sound_reads : ∀ x, x ∈ w_reads w ++ w_ready w → held (w_record w) x.1 ∧ channel x.2 ∈ w_past w;
  sound_seals : ∀ c ix t, c ∈ w_flight w → ix ∈ bc_instructions c → seals_at ix = Some t →
    is_Some (final_cumulative (w_record w)) ∧ cumulative (w_record w) ≤ Z.max t (ch_settled (w_chain w));
  sound_forfeits : ∀ c, c ∈ w_flight w → w_foreign w = true ∨ bc_forfeited_accepted c = 0
}.
(** A write of the record that keeps a frozen amount. *)
Definition fenced_write (r r' : WorkerState) : Prop :=
  cumulative r ≤ cumulative r' ∧ (is_Some (final_cumulative r) → is_Some (final_cumulative r') ∧ cumulative r' = cumulative r).
Lemma held_write r r' s : fenced_write r r' → held r s → held r' s.
Proof. intros [Hle Hf] [Hs Hg]. split; [lia|]. intros (? & ?)%Hg. destruct Hf as [? ?]; [done|]. split; [done|lia]. Qed.
Lemma record_write w r' : sound w → fenced_write (w_record w) r' → sound (set_record w r').
Proof.
  intros [Hnow Hpast Hsealed Hscans Hreads Hseals Hforf] Hw. constructor; cbn; try done.
  - intros x Hx Hs. destruct (Hsealed x Hx Hs) as [|[Hf Hc]]; [by left|right]. apply Hw in Hf as [? ?]. split; [done|lia].
  - intros s Hs. eapply held_write; eauto.
  - intros x Hx. destruct (Hreads x Hx). split; [|done]. eapply held_write; eauto.
  - intros c ix t Hc Hix Ht. destruct (Hseals c ix t Hc Hix Ht) as [Hf Hle]. apply Hw in Hf as [? ?]. split; [done|lia].
Qed.

Lemma fence_writes r s d now s' : fence_batch_close s (Some r) d now false = Ok s' → fenced_write r s'.
Proof.
  unfold fence_batch_close, batch_close_transition. intros Hf%map_err_Ok. cbn in Hf. injection Hf as <-.
  case_bool_decide as Hfin; cbn [negb andb]; [by split|].
  split; [|done]. repeat case_match; rewrite ?freeze_cumulative; done.
Qed.
Lemma observation_writes r observed slot now s' outcome :
  update_batch_settled_watermark (Some r) observed slot now = Ok (s', outcome) → fenced_write r s'.
Proof.
  unfold update_batch_settled_watermark. cbn. intros [= Hr]. destruct (obs_lifecycle observed) as [l|]; [|by injection Hr as <- <-].
  pose proof (observation_keeps (with_settled_on_chain r (Z.max (settled_on_chain r) (obs_settled observed))) slot l now) as Hk.
  rewrite Hr in Hk. cbn in Hk. destruct Hk as (Hc & Hf & _). split; [lia|]. by rewrite Hf.
Qed.
Lemma gateway_writes r r' : gateway r r' → fenced_write r r'.
Proof. intros Hg. split; [by apply gateway_accepts|by apply gateway_fenced]. Qed.

(** The account moves on: settled amounts grow, and a channel it finds sealed
    is covered or someone else's doing. *)
Lemma chain_moves w c' foreign :
  sound w → ch_settled (w_chain w) ≤ ch_settled c' → (w_foreign w = true → foreign = true) →
  (is_unsealed (ch_status (w_chain w)) = true → is_sealed_status c' = true → foreign = true ∨ settled_for (w_record w) c') →
  sound (set_chain w c' foreign).
Proof.
  intros [Hnow Hpast Hsealed Hscans Hreads Hseals Hforf] Hle Hforeign Hnew. constructor; cbn.
  - by left.
  - intros x [->|Hx]%elem_of_cons; [done|]. specialize (Hpast x Hx). lia.
  - intros x [->|Hx]%elem_of_cons Hs; [|destruct (Hsealed x Hx Hs); auto].
    destruct (is_unsealed (ch_status (w_chain w))) eqn:Hu; [by apply Hnew|].
    destruct (Hsealed _ Hnow) as [|[? ?]]; [by unfold is_sealed_status; rewrite Hu|by auto|right]. split; [done|lia].
  - done.
  - intros x Hx. destruct (Hreads x Hx). split; [done|]. by right.
  - intros c ix t Hc Hix Ht. destruct (Hseals c ix t Hc Hix Ht). split; [done|lia].
  - intros c Hc. destruct (Hforf c Hc); auto.
Qed.

Lemma plan_sound w s d answers now slot operator treasury programs threshold c :
  sound w → (s, d) ∈ w_ready w → batch_candidate answers s d now slot operator treasury programs threshold = Ok (Some c) →
  sound (add_flight w c).
Proof.
  intros [Hnow Hpast Hsealed Hscans Hreads Hseals Hforf] Hr Hc.
  destruct (Hreads (s, d)) as [[Hle Hheld] Hd]; [apply elem_of_app; by right|]. cbn in Hle, Hheld, Hd. specialize (Hpast _ Hd) as Hset.
  constructor; cbn; try done.
  - intros k ix t [->|Hk]%elem_of_cons Hix Ht; [|by eapply Hseals].
    destruct (planned_seal _ _ _ _ _ _ _ _ _ _ _ _ Hc Hix Ht) as [Hf Hcov]. destruct (Hheld Hf) as [? ?]. split; [done|lia].
  - intros k [->|Hk]%elem_of_cons; [|by apply Hforf].
    destruct (planned_forfeit _ _ _ _ _ _ _ _ _ _ Hc) as [|[Hst ->]]; [by right|].
    destruct (Hsealed _ Hd) as [|[_ Hcov]]; [unfold is_sealed_status; by rewrite Hst|by left|right]. unfold saturating_sub. lia.
Qed.

Lemma step_sound w w' : batch_step w w' → sound w → sound w'.
Proof.
  intros [v s' Hg|v c' Ho|v|v s d Hsc Hp|v s d now s' Hr Hcl Hf|v s d Hr Hcl|v s d answers now slot operator treasury programs threshold r c Hr Hrec Hc
    |v observed slot now s' o Hu|v c operator c' Hfl Hl] Hs.
  - apply record_write; [done|by apply gateway_writes].
  - apply chain_moves; [done|by apply others_settle|by intros ->|]. intros Hu Hc. left. by rewrite Hu, Hc, orb_true_r.
  - destruct Hs. constructor; cbn; try done. intros s [->|Hx]%elem_of_cons; [by split|auto].
  - destruct Hs as [Hnow Hpast Hsealed Hscans Hreads Hseals Hforf]. constructor; cbn; try done.
    intros x [->|Hx]%elem_of_cons; [|destruct (Hreads x Hx); auto]. split; [by apply Hscans|done].
  - apply fence_writes in Hf. eapply record_write in Hf; [|done]. destruct Hf as [Hnow Hpast Hsealed Hscans Hreads Hseals Hforf].
    constructor; cbn in *; try done. destruct (Hreads (s, d)) as [_ Hd]; [apply elem_of_app; auto|].
    intros x. rewrite elem_of_app, elem_of_cons. intros [Hx|[->|Hx]]; [apply Hreads, elem_of_app; auto| |apply Hreads, elem_of_app; auto].
    split; [by split|done].
  - destruct Hs as [Hnow Hpast Hsealed Hscans Hreads Hseals Hforf]. constructor; cbn in *; try done.
    intros x. rewrite elem_of_app, elem_of_cons. intros [Hx|[->|Hx]]; apply Hreads, elem_of_app; auto.
  - eapply reconciled_candidate in Hrec as [Hb _]; [|done]. by eapply plan_sound.
  - apply record_write; [done|by eapply observation_writes].
  - apply chain_moves; [done|by eapply lands_settles|done|]. intros Hu Hc'. right.
    edestruct lands_seals as (ix & t & Hix & Ht & Hle); [done|done|by apply negb_true_iff in Hc'|].
    apply submitted_subset in Hix. destruct (sound_seals _ Hs _ _ _ Hfl Hix Ht) as [Hf Hcov].
    split; [done|]. apply lands_settles in Hl. lia.
Qed.
Lemma initially_sound s c : sound (initially s c).
Proof.
  constructor; cbn; try (intros; by match goal with Hx : _ ∈ [] |- _ => apply elem_of_nil in Hx end).
  - by left.
  - by intros x ->%list_elem_of_singleton.
  - intros x ->%list_elem_of_singleton. auto.
Qed.
Lemma reachable_sound s c w : rtc batch_step (initially s c) w → sound w.
Proof. intros Hr. pose proof (initially_sound s c) as Hs. induction Hr as [|? ? ? Hstep _ IH]; [done|]. by eapply IH, step_sound. Qed.

(** C3. However the gateway's acceptances, the payer's close and the steps of
    any number of worker passes interleave, with reads as old as a node may
    serve: a channel no one else sealed is never found sealed below everything
    the service accepted, not even by vouchers accepted after the plan, and no
    plan reports a forfeited amount. *)
Theorem worker_never_seals_below_accepted s c w :
  rtc batch_step (initially s c) w → w_foreign w = false →
  (∀ x, x ∈ w_past w → is_sealed_status x = true → cumulative (w_record w) ≤ ch_settled x) ∧
  (∀ k, k ∈ w_flight w → bc_forfeited_accepted k = 0).
Proof.
  intros Hr%reachable_sound Hf. split.
  - intros x Hx Hs. destruct (sound_sealed _ Hr x Hx Hs) as [?|[? ?]]; [congruence|done].
  - intros k Hk. destruct (sound_forfeits _ Hr k Hk); [congruence|done].
Qed.
End safety.

(** ** Payouts *)
Section payouts.
Context `{Kit} `{ChannelKit} `{!ChannelKitLaws} `{StoreKit}.
(** A distribution of the plan the channel commits to, which its refund
    account can take. *)
Definition committed_distribution (d : DecodedChannel) (treasury : Pubkey) (programs : gmap Pubkey Pubkey) (ix : Instruction) : Prop :=
  ∃ token_program p, programs !! mint d = Some token_program ∧ ix = build_distribute_ix d treasury token_program p ∧
    sha256 (encode_recipients (recipients p)) = ch_distribution_hash (channel d) ∧ zlen (recipients p) ≤ MAX_DISTRIBUTION_RECIPIENTS.
Lemma distribution_is_committed answers d treasury programs stage ix :
  batch_distribution answers d treasury programs stage = Ok (Some ix) → committed_distribution d treasury programs ix.
Proof.
  intros (tp & p & Hp & _ & Hr & ->)%batch_distribution_Some. apply recovered_plan_is_committed in Hr as (_ & Hl & Hh).
  exists tp, p. done.
Qed.
Lemma submitted_terminal c operator a :
  bc_store_action (submitted c operator) = a → a ≠ Keep → bc_instructions (submitted c operator) = bc_instructions c ∧ bc_store_action c = a.
Proof.
  unfold submitted. destruct (defer_oversized_distribution _ _) as [l [|]] eqn:E; cbn; [by intros <-|]. intros <- _. split; [|done].
  unfold defer_oversized_distribution in E. destruct (last_index _ _); [|by injection E as <-]. destruct (orb _ _); by injection E as <-.
Qed.
Lemma payout_ends_committed answers s d now slot operator treasury programs threshold c :
  batch_candidate answers s d now slot operator treasury programs threshold = Ok (Some c) →
  bc_kind c = Payout ∨ bc_kind c = ClaimAndPayout ∨ bc_store_action c = MarkFinalized →
  ∃ claim ix, bc_instructions c = claim ++ [ix] ∧ committed_distribution d treasury programs ix.
Proof.
  intros [[_ Hc]|[[_ Hc]|[[_ Hc]|(_ & _ & _ & Hk & Ha & _)]]]%batch_candidate_cases Hpay.
  - apply open_candidate_Some in Hc as (claim & dist & _ & Hd & Hi & Ha & Hk & Hsome & _).
    destruct dist as [ix|]; [|destruct claim; [rewrite Hk, Ha in Hpay; naive_solver|destruct Hsome as [[? [=]]|[? [=]]]]].
    destruct Hd as [|Hd]; [done|]. eexists _, ix. split; [exact Hi|by eapply distribution_is_committed].
  - apply closing_candidate_Some in Hc as (_ & seal & target & Hc & _). apply close_candidate_Some in Hc as (dist & Hd & Hi & Hk & Ha & _).
    destruct dist as [ix|]; [|rewrite Hk, Ha in Hpay; naive_solver]. eexists _, ix. split; [exact Hi|by eapply distribution_is_committed].
  - apply sealed_candidate_Some in Hc as (ix & Hd & Hi & _). exists [], ix. split; [done|by eapply distribution_is_committed].
  - rewrite Hk, Ha in Hpay. naive_solver.
Qed.

(** C19. A plan that says it pays out ends with the distribution of the very
    recipients the channel committed to when it opened, is made only for the
    worker's own channels, and finishes the record only if that distribution
    was submitted whole. *)
Theorem batch_payout_is_committed answers s d now slot operator treasury programs threshold r c :
  reconcile_batch_channel answers s (Some d) now slot operator treasury programs threshold = Ok r → br_candidate r = Some c →
  payee d = operator ∧ rent_payer d = operator ∧
  (bc_kind c = Payout ∨ bc_kind c = ClaimAndPayout ∨ bc_store_action c = MarkFinalized →
   ∃ claim ix, bc_instructions c = claim ++ [ix] ∧ committed_distribution d treasury programs ix) ∧
  (bc_store_action (submitted c operator) = MarkFinalized →
   ∃ claim ix, bc_instructions (submitted c operator) = claim ++ [ix] ∧ committed_distribution d treasury programs ix).
Proof.
  intros Hr Hc. eapply reconciled_candidate in Hr as (Hb & Hp & Hq); [|done]. split_and!; [done..|by eapply payout_ends_committed|].
  intros Hm. destruct (submitted_terminal c operator _ Hm) as [-> Ha]; [done|]. eapply payout_ends_committed; eauto.
Qed.
End payouts.

(** ** The fence *)
Section fence.
Context `{Kit} `{ChannelKit} `{StoreKit} `{!StoreKitLaws}.

(** Recording a payer's close never changes what was accepted; the amount
    to seal is frozen at most once, never under a live reservation, in the grace period at no less than
    everything accepted and settled, and past the deadline only when the chain
    already settled all of it. *)
Theorem close_fence_freezes_covered r closed_at settled past_deadline now s' :
  batch_close_transition (Some r) closed_at settled past_deadline now = Ok s' →
  cumulative s' = cumulative r ∧ (final_cumulative r ≠ None → final_cumulative s' = final_cumulative r) ∧
  (final_cumulative r = None →
   match final_cumulative s' with
   | None => has_blocking_authorization (request_close_at r closed_at) now = true ∨ (past_deadline = true ∧ settled < cumulative r)
   | Some amount =>
       has_blocking_authorization (request_close_at r closed_at) now = false ∧ amount = Z.max (cumulative r) settled ∧
       (past_deadline = true → amount = settled)
   end).
Proof.
  unfold batch_close_transition. cbn. intros [= <-]. set (q := request_close_at r closed_at). change (final_cumulative r) with (final_cumulative q).
  change (cumulative r) with (cumulative q). case_bool_decide as Hf; cbn [negb andb].
  { split_and!; [done..|]. intros E. rewrite E in Hf. by destruct Hf. }
  destruct (has_blocking_authorization q now) eqn:Hb; cbn [negb].
  { split_and!; [done..|]. intros E. rewrite E. auto. }
  destruct past_deadline; cbn [negb]; [destruct (Z.leb_spec (cumulative q) settled)|]; rewrite ?freeze_cumulative, ?freeze_sets.
  - split_and!; [done| |intros _; split_and!; [done|lia|done]]. intros Hn. destruct Hf. by destruct (final_cumulative q).
  - split_and!; [done..|]. intros ->. auto.
  - split_and!; [done| |intros _; done]. intros Hn. destruct Hf. by destruct (final_cumulative q).
Qed.

(** A voucher the chain would redeem now for everything accepted. *)
Definition redeemable (s : WorkerState) (d : DecodedChannel) (now : Z) (operator : Pubkey) : Prop :=
  ∃ text signature expires, pubkey_from_str (authorized_signer s) = Some (ch_authorized_signer (channel d)) ∧
    highest_voucher_signature s = Some text ∧ decode_64 text = Ok signature ∧ highest_voucher_expires_at s = Some expires ∧
    (expires = 0 ∨ now < expires) ∧
    is_ok (build_settle_and_seal_instructions operator (address d) (ch_authorized_signer (channel d)) (Some signature) (cumulative s) expires
             default_program_id) = true.
Lemma redeemable_voucher s d now operator :
  redeemable s d now operator → ch_settled (channel d) < cumulative s →
  ∃ signature expires seal, close_voucher s (ch_settled (channel d)) (ch_authorized_signer (channel d)) now = Ok (Some signature, cumulative s, expires) ∧
    build_settle_and_seal_instructions operator (address d) (ch_authorized_signer (channel d)) (Some signature) (cumulative s) expires
      default_program_id = Ok seal.
Proof.
  intros (text & signature & expires & Hk & Ht & Hd & He & Hn & Hb) Hlt.
  destruct (build_settle_and_seal_instructions _ _ _ _ _ _ _) as [seal|] eqn:Hs; [|done]. exists signature, expires, seal. split; [|done].
  unfold close_voucher, parse_pubkey, decode_voucher_signature. destruct (Z.leb_spec (cumulative s) (ch_settled (channel d))); [lia|].
  rewrite Hk. cbn. rewrite bool_decide_eq_false_2 by (intros Hc; by apply Hc). cbn. rewrite Ht, He. cbn.
  destruct (Z.eqb_spec expires 0); cbn; [by rewrite Hd|]. destruct (Z.leb_spec expires now); [lia|]. cbn. by rewrite Hd.
Qed.
(** The fence keeps the voucher. *)
Lemma fence_frozen r closed_at settled now :
  has_blocking_authorization (request_close_at r closed_at) now = false →
  ∃ s', batch_close_transition (Some r) closed_at settled false now = Ok s' ∧ is_Some (final_cumulative s') ∧ cumulative s' = cumulative r ∧
    authorized_signer s' = authorized_signer r ∧ highest_voucher_signature s' = highest_voucher_signature r ∧
    highest_voucher_expires_at s' = highest_voucher_expires_at r.
Proof.
  intros Hb. unfold batch_close_transition. cbn. eexists. split; [reflexivity|]. rewrite Hb. case_bool_decide as Hf; cbn [negb andb].
  - split_and!; done.
  - rewrite freeze_sets, freeze_cumulative. split_and!; [eauto|done|..].
    all: pose proof (freeze_voucher (request_close_at r closed_at) (Z.max (cumulative (request_close_at r closed_at)) settled)) as (_ & ? & ? & ?); done.
Qed.

End fence.

(** ** Passes *)
Section passes.
Context `{Kit} `{ChannelKit} `{StoreKit}.

(** What a pass leaves alone is settled or fresh: a record not taken up is
    open, was checked against the chain within the snapshot age, owes the
    chain nothing that reached the distribution threshold, and if something
    accepted is not settled yet, active channels are not to be settled and
    there was activity within the idle limit. *)
Theorem skipped_record_is_fresh s now rt :
  batch_reconciliation_due s now rt = false ↔
  sealed s = false ∧ close_requested_at s = None ∧
  (∀ t, distribution_threshold_base_units rt = Some t → saturating_sub (settled_on_chain s) (distributed_on_chain s) < t) ∧
  saturating_sub (seconds_of now) (onchain_checked_at s) < snapshot_max_age rt ∧
  (settled_on_chain s < cumulative s →
   settle_active_channels rt = false ∧ saturating_sub (seconds_of now) (last_activity_at s) < settlement_max_idle rt).
Proof.
  unfold batch_reconciliation_due, distribution_threshold_reached.
  destruct (sealed s); cbn [orb]; [naive_solver|].
  destruct (close_requested_at s); cbn; [naive_solver|].
  assert (Ht : match distribution_threshold_base_units rt with
               | Some t => t <=? saturating_sub (settled_on_chain s) (distributed_on_chain s) | None => false end = false ↔
               (∀ t, distribution_threshold_base_units rt = Some t → saturating_sub (settled_on_chain s) (distributed_on_chain s) < t)).
  { destruct (distribution_threshold_base_units rt) as [t|]; [|naive_solver]. rewrite Z.leb_gt. naive_solver. }
  destruct (match distribution_threshold_base_units rt with Some _ => _ | None => _ end); [naive_solver|].
  destruct (Z.leb_spec (snapshot_max_age rt) (saturating_sub (seconds_of now) (onchain_checked_at s))); [split; [done|lia]|].
  rewrite andb_false_iff, orb_false_iff, Z.ltb_ge, Z.leb_gt. split.
  - intros Hd. split_and!; [done..|by apply Ht|done|]. intros ?. destruct Hd; [lia|done].
  - intros (_ & _ & _ & _ & Hd). destruct (Z.le_gt_cases (cumulative s) (settled_on_chain s)); [by left|right]. apply Hd. lia.
Qed.

(** *** Every scanned channel is accounted for *)
Lemma due_accounts rt now m channels :
  let '(m', due) := batch_due_channels rt now m channels in
  bm_scanned m' = bm_scanned m ∧ bm_skipped m' + zlen due = bm_skipped m + zlen channels.
Proof.
  revert m. induction channels as [|s channels IH]; intros m; cbn [batch_due_channels]; [done|].
  unfold zlen in *. cbn [length]. rewrite Nat2Z.inj_succ.
  destruct (negb _); [|destruct (negb _); [|destruct (negb _)]].
  all: match goal with |- context [batch_due_channels _ _ ?k _] => specialize (IH k); destruct (batch_due_channels _ _ k _) as [m' due] end.
  all: cbn in IH |- *; lia.
Qed.
Lemma fetch_chunk_length answer states l : fetch_chunk answer states = Ok l → length l = length states.
Proof.
  unfold fetch_chunk. intros (addresses & Ha & Hr)%bind_Ok. apply bind_Ok in Hr as ([slot channels] & Hf & Hr). injection Hr as <-.
  assert (Hlen : length addresses = length states).
  { clear Hf. revert addresses Ha. induction states as [|s states IH]; intros addresses Ha; cbn in Ha; [by injection Ha as <-|].
    apply bind_Ok in Ha as (a & _ & Ha). apply bind_Ok in Ha as (rest & Hrest & Ha). injection Ha as <-. cbn. f_equal. by apply IH. }
  unfold fetch_channels_each_at in Hf. destruct (_ <? _); [done|]. apply bind_Ok in Hf as ([slot' accounts] & _ & Hf).
  apply bind_Ok in Hf as ([] & Hl & Hf). apply reject_if_Ok, negb_false_iff, Z.eqb_eq in Hl. injection Hf as _ <-.
  rewrite length_zip_with. unfold zlen in Hl. lia.
Qed.
Lemma absorb_chunk_accounts l acc :
  let acc' := foldl (λ '(m, fetched) '(state, onchain), match onchain with
                     | Ok onchain => (m, fetched ++ [(state, onchain)])
                     | Err _ => (count_failed (count_skipped m), fetched) end) acc (l : list (WorkerState * job (option DecodedChannel))) in
  bm_scanned acc'.1 = bm_scanned acc.1 ∧ bm_skipped acc'.1 + zlen acc'.2 = bm_skipped acc.1 + zlen acc.2 + zlen l.
Proof.
  revert acc. induction l as [|[s [o|e]] l IH]; intros [m fetched]; cbn [foldl]; [unfold zlen; cbn; lia|..].
  - destruct (IH (m, fetched ++ [(s, o)])) as [? ?]. split; [done|]. unfold zlen in *. cbn in *. rewrite length_app in *. cbn in *. lia.
  - destruct (IH (count_failed (count_skipped m), fetched)) as [? ?]. split; [done|]. unfold zlen in *. cbn in *. lia.
Qed.
Lemma fetches_account answer chunks acc :
  let acc' := foldl absorb_fetch acc (map (λ chunk, (chunk, fetch_chunk answer chunk)) chunks) in
  bm_scanned acc'.1 = bm_scanned acc.1 ∧ bm_skipped acc'.1 + zlen acc'.2 = bm_skipped acc.1 + zlen acc.2 + zsum (map zlen chunks).
Proof.
  revert acc. induction chunks as [|chunk chunks IH]; intros acc; cbn [map foldl]; [unfold zsum; cbn; lia|].
  rewrite zsum_cons. destruct (IH (absorb_fetch acc (chunk, fetch_chunk answer chunk))) as [-> ->].
  unfold absorb_fetch. cbn [fst snd]. destruct (fetch_chunk answer chunk) as [l|e] eqn:Hf; [|cbn; lia].
  destruct (absorb_chunk_accounts (zip chunk l) acc) as [-> ->]. apply fetch_chunk_length in Hf.
  unfold zlen. rewrite length_zip_with, Hf. lia.
Qed.
Lemma fences_account fence l acc :
  let acc' := foldl (absorb_fence fence) acc l in
  bm_scanned acc'.1 = bm_scanned acc.1 ∧ bm_skipped acc'.1 + zlen acc'.2 = bm_skipped acc.1 + zlen acc.2 + zlen l.
Proof.
  revert acc. induction l as [|x l IH]; intros acc; cbn [foldl]; [unfold zlen; cbn; lia|].
  destruct (IH (absorb_fence fence acc x)) as [-> ->]. unfold absorb_fence, zlen. cbn [length].
  repeat case_match; cbn [fst snd]; rewrite ?length_app; cbn; lia.
Qed.
Lemma reconciliations_account written removed dry l acc :
  let acc' := foldl (absorb_reconciliation written removed dry) acc l in
  bm_scanned acc'.1.1 = bm_scanned acc.1.1 ∧ bm_skipped acc'.1.1 + zlen acc'.2 = bm_skipped acc.1.1 + zlen acc.2 + zlen l.
Proof.
  revert acc. induction l as [|x l IH]; intros acc; cbn [foldl]; [unfold zlen; cbn; lia|].
  destruct (IH (absorb_reconciliation written removed dry acc x)) as [-> ->]. destruct acc as [[m i] cs].
  unfold absorb_reconciliation, zlen. cbn [length fst snd].
  destruct x as [r|e]; [|cbn; lia]. destruct (br_candidate r); repeat case_match; cbn; rewrite ?length_app; cbn; lia.
Qed.

(** Every channel a pass scans is accounted for: it is counted skipped, or
    a plan is made for it, and never both or twice. *)
Theorem pass_accounts_for_every_channel rt now answer fence reconcile written removed dry_run channels :
  let '(m, _, plans) := plan_pass rt now answer fence reconcile written removed dry_run channels in
  bm_scanned m = zlen channels ∧ bm_skipped m + zlen plans = bm_scanned m.
Proof.
  unfold plan_pass. set (m := {| bm_scanned := zlen channels; bm_skipped := 0; bm_failures := 0 |}).
  pose proof (due_accounts rt now m channels) as Hpass1. destruct (batch_due_channels rt now m channels) as [m1 due].
  pose proof (fetches_account answer (slice_chunks 100 due) (m1, [])) as Hpass2.
  destruct (foldl absorb_fetch _ _) as [m2 fetched]. rewrite zsum_zlen_concat, slice_chunks_concat in Hpass2 by lia.
  pose proof (fences_account fence fetched (m2, [])) as Hpass3. destruct (foldl (absorb_fence fence) _ _) as [m3 ready].
  pose proof (reconciliations_account written removed dry_run (map (λ x, reconcile x.1 x.2) ready) (m3, inventory_default, [])) as Hpass4.
  destruct (foldl _ (m3, inventory_default, []) _) as [[m4 i] plans]. cbn in *. unfold zlen in *. rewrite length_map in Hpass4. cbn in *. lia.
Qed.
End passes.

(** ** The inventory *)
Definition recount (l : list ChannelInventorySnapshot) : LifecycleInventory := foldl inventory_record inventory_default l.
Definition total (f : ChannelInventorySnapshot → Z) (l : list ChannelInventorySnapshot) : Z := zsum (map f l).
Definition amount_fields : list (ChannelInventorySnapshot → Z) := [snap_settled; snap_undistributed; snap_distributed; snap_unsettled].
(** The amounts of a pass fit in a [u64]. *)
Definition countable (l : list ChannelInventorySnapshot) : Prop :=
  Forall (λ f, Forall (λ s, 0 ≤ f s) l ∧ total f l < 2 ^ 64) amount_fields.

#[global] Instance countable_dec l : Decision (countable l).
Proof. unfold countable. apply _. Defined.

Lemma total_app f l k : total f (l ++ k) = total f l + total f k.
Proof. unfold total. by rewrite map_app, zsum_app. Qed.
Lemma total_cons f s l : total f (s :: l) = f s + total f l.
Proof. reflexivity. Qed.
Lemma total_snoc f l s : total f (l ++ [s]) = total f l + f s.
Proof. rewrite total_app, total_cons. change (total f []) with 0. lia. Qed.
Lemma total_nonneg f l : Forall (λ s, 0 ≤ f s) l → 0 ≤ total f l.
Proof. intros Hl. apply zsum_nonneg, Forall_map. exact Hl. Qed.
Lemma total_flag (f : ChannelInventorySnapshot → bool) l : 0 ≤ total (λ s, Z.b2z (f s)) l.
Proof. apply total_nonneg, Forall_forall. intros s _. by destruct (f s). Qed.
Lemma countable_fields l :
  countable l → Forall (λ s, 0 ≤ snap_settled s) l ∧ Forall (λ s, 0 ≤ snap_undistributed s) l ∧ Forall (λ s, 0 ≤ snap_distributed s) l ∧
    Forall (λ s, 0 ≤ snap_unsettled s) l ∧ total snap_settled l < 2 ^ 64 ∧ total snap_undistributed l < 2 ^ 64 ∧
    total snap_distributed l < 2 ^ 64 ∧ total snap_unsettled l < 2 ^ 64.
Proof. unfold countable, amount_fields. rewrite !Forall_cons. tauto. Qed.
Lemma countable_app l k : countable (l ++ k) → countable l.
Proof.
  unfold countable. intros Hl. eapply Forall_impl; [exact Hl|]. intros f [[Hn Hk]%Forall_app Ht]. split; [done|].
  rewrite total_app in Ht. pose proof (total_nonneg f k Hk). lia.
Qed.
(** Unless an amount saturates, the inventory is the sum of its snapshots. *)
Lemma recount_totals l :
  countable l → recount l = {|
    inv_opened_zero_settlements := total (λ s, Z.b2z (snap_opened_zero_settlements s)) l; inv_unsealed := total (λ s, Z.b2z (snap_unsealed s)) l;
    inv_rent_unclaimed := total (λ s, Z.b2z (snap_rent_unclaimed s)) l; inv_settled := total snap_settled l;
    inv_undistributed := total snap_undistributed l; inv_distributed := total snap_distributed l; inv_unsettled := total snap_unsettled l;
    inv_mismatches := total (λ s, Z.b2z (snap_mismatch s)) l |}.
Proof.
  induction l as [|s l IH] using rev_ind; [done|]. intros Hl. unfold recount in *. rewrite foldl_app, IH by by eapply countable_app.
  apply countable_fields in Hl. cbn [foldl]. rewrite !total_snoc in Hl |- *. destruct Hl as (_ & _ & _ & _ & ? & ? & ? & ?).
  unfold inventory_record, saturating_add. cbn. f_equal; rewrite ?total_snoc; lia.
Qed.

(** When transactions land, the inventory is corrected to what a fresh
    count would give: replacing the snapshot a channel was recorded with by
    the one after its transaction equals recording the new one in its
    place. *)
Theorem replaced_inventory_is_recounted pre before after post :
  countable (pre ++ before :: post) → countable (pre ++ after :: post) →
  inventory_replace (recount (pre ++ before :: post)) before after = recount (pre ++ after :: post).
Proof.
  intros Hb Ha. rewrite (recount_totals _ Hb), (recount_totals _ Ha). apply countable_fields in Hb, Ha.
  destruct Hb as (Hb1 & Hb2 & Hb3 & Hb4 & Hbs), Ha as (Ha1 & Ha2 & Ha3 & Ha4 & Has).
  pose proof (total_nonneg _ _ Hb1). pose proof (total_nonneg _ _ Hb2). pose proof (total_nonneg _ _ Hb3). pose proof (total_nonneg _ _ Hb4).
  repeat match goal with Hf : Forall _ (_ ++ _ :: _) |- _ => apply Forall_app in Hf as [?%total_nonneg [? ?%total_nonneg]%Forall_cons] end.
  unfold inventory_replace, inventory_record, saturating_add, saturating_sub. cbn. rewrite !total_app, !total_cons in Hbs, Has.
  f_equal; rewrite ?total_app, ?total_cons; try lia.
  all: match goal with |- context [total (λ s, Z.b2z (?f s)) ?l + (_ + total _ ?k)] => pose proof (total_flag f l); pose proof (total_flag f k) end; lia.
Qed.

(** ** Deletion *)
Section deletion.
Context `{Kit} `{ChannelKit} `{StoreKit}.

(** Proof at finalized commitment that the account is not coming back: gone
    after the open window, or the program's tombstone. *)
Definition account_gone (open_slot : Z) (answer : job (Z * option OwnedAccount)) : Prop :=
  ∃ slot account, answer = Ok (slot, account) ∧
    match account with
    | None => saturating_add 64 open_slot OPEN_SLOT_WINDOW < slot
    | Some x => acc_owner x = pubkey_text default_program_id ∧ zlen (acc_data x) < CHANNEL_ACCOUNT_SIZE ∧
                head (acc_data x) = Some CLOSED_CHANNEL_DISCRIMINATOR
    end.
Lemma absence_proven open_slot answer :
  channel_absence_proven default_program_id open_slot answer = Ok true → account_gone open_slot answer.
Proof.
  unfold channel_absence_proven. intros ([slot account] & -> & Hr)%bind_Ok. injection Hr as Hr. exists slot, account. split; [done|].
  destruct account as [x|]; [|lia]. apply andb_true_iff in Hr as [[Hr1%bool_decide_eq_true ?]%andb_true_iff Hr2%bool_decide_eq_true]. split_and!; [done|lia|done].
Qed.

(** C23. A record is given up only after its channel: one whose account is not
    found is deleted only on finalized proof that the account is gone, with no
    work in flight at the scan; one whose account is reclaimed only once the
    reclaim of a distributed channel past its window is finalized; and either
    way the deletion itself refuses a record that has work in flight by
    then. *)
Theorem records_outlive_their_channel answers s onchain now slot operator treasury programs threshold r :
  reconcile_batch_channel answers s onchain now slot operator treasury programs threshold = Ok r →
  (br_delete_absent r = true →
   onchain = None ∧ has_in_flight_authorization s = false ∧ ∃ opened, open_slot s = Some opened ∧ account_gone opened (an_finalized answers)) ∧
  (∀ c finalized, br_candidate r = Some c → confirmed_action (submitted c operator) finalized = Delete →
   finalized = true ∧ bc_kind c = Reclaim ∧
   ∃ d, onchain = Some d ∧ ch_status (channel d) = STATUS_DISTRIBUTED ∧ saturating_add 64 (channel_open_slot d) OPEN_SLOT_WINDOW < slot) ∧
  (∀ raced current later, has_in_flight_authorization current = true → later ≠ None →
   delete_fenced_channel raced (Some current) later = (Some current, InFlight)).
Proof.
  intros Hr. split_and!.
  - destruct onchain as [d|]; cbn in Hr; [by inv_ok|]. apply bind_Ok in Hr as (absent & Ha & Hr). injection Hr as <-. cbn. intros ->.
    destruct (open_slot s) as [opened|]; [|done]. destruct (has_in_flight_authorization s); [done|].
    apply bind_Ok in Ha as (a & _ & Ha%absence_proven). eauto.
  - intros c finalized Hc Ha. assert (Hd : bc_store_action (submitted c operator) = Delete ∧ finalized = true).
    { unfold confirmed_action in Ha. destruct (bc_store_action (submitted c operator)), finalized; done. }
    destruct Hd as [[_ Hd]%submitted_terminal ->]; [|done]. split; [done|].
    destruct onchain as [d|]; [|cbn in Hr; inv_ok; done]. eapply reconciled_candidate in Hr as [Hb _]; [|done].
    apply batch_candidate_cases in Hb as [[_ Hb]|[[_ Hb]|[[_ Hb]|(Hs & Hw & _ & Hk & _)]]]; [| | |eauto].
    + apply open_candidate_Some in Hb as (? & ? & _ & _ & _ & Hk & _). congruence.
    + apply closing_candidate_Some in Hb as (_ & ? & ? & Hb & _). apply close_candidate_Some in Hb as (dist & _ & _ & _ & Hk & _).
      destruct dist; congruence.
    + apply sealed_candidate_Some in Hb as (? & _ & _ & _ & Hk & _). congruence.
  - intros raced current [later|] Hf Hl; [|done]. unfold delete_fenced_channel, delete_channel_if. by rewrite Hf.
Qed.
End deletion.
