(* ===== verification/BatchSamples.v ===== *)
(** * BatchSamples: a batch channel in concrete runs

    A sample of the record's methods, the settlement instructions and the
    program, at which the theorems of [BatchSafety] are applied, and runs that
    show what the worker leaves open. *)
From S2P Require Import Prelude Text Landing PushManifest PushPlanner ChannelState ChannelAccount SettlementStore BatchSettlement BatchSafety.
Import PushPlanner.SampleKit ChannelAccount.SampleChannels.
#[local] Open Scope string_scope.
#[local] Open Scope list_scope.
#[local] Open Scope Z_scope.

(** ** The parties *)
Definition frozen_at (s : WorkerState) (amount : Z) : WorkerState := {|
  ws_channel := ws_channel s; ws_payer := ws_payer s; authorized_signer := authorized_signer s; final_cumulative := Some amount;
  settled_on_chain := settled_on_chain s; distributed_on_chain := distributed_on_chain s;
  highest_voucher_signature := highest_voucher_signature s; highest_voucher_expires_at := highest_voucher_expires_at s;
  last_activity_at := last_activity_at s; onchain_checked_at := onchain_checked_at s; pending_deliveries := pending_deliveries s |}.
Definition sample_ix (program a : Pubkey) (data : list Z) : Instruction := {| ix_program := program; ix_accounts := metas 1 a; ix_data := data |}.
#[global] Instance store_kit : StoreKit := {|
  has_blocking_authorization := λ s now, existsb (λ p, now <? delivery_expires_at p) (pending_deliveries s);
  has_in_flight_authorization := λ s, match pending_deliveries s with [] => false | _ => true end;
  freeze_watermark_at := frozen_at;
  record_onchain_observation := λ s _ l _,
    (match l with ObservedOpen => s | ObservedClosing t => request_close_at s t | ObservedTerminal _ => with_channel s (with_sealed s) end, Fresh);
  channel_binding := λ c, Ok (extra c !! "binding"); check_binding := λ _ _, Ok tt; session_open_is_terminal := λ _, false;
  BATCH_SETTLEMENT_SCHEME := "batch-settlement"; decode_64 := λ s, Ok (str_bytes s);
  build_settle_instructions := λ a _ _ cumulative _ program, Ok [sample_ix program a [3; cumulative]];
  build_settle_and_seal_instructions := λ _ a _ signature cumulative _ program,
    Ok [sample_ix program a [4; match signature with Some _ => cumulative | None => 0 end]]
|}.
#[global] Instance store_kit_laws : StoreKitLaws.
Proof. split; try done. by intros s slot [] now. Qed.

Definition moved (c : Channel) (settled status : Z) : Channel := {|
  ch_version := ch_version c; ch_status := status; ch_deposit := ch_deposit c; ch_settled := settled; ch_payout_watermark := ch_payout_watermark c;
  ch_closure_started_at := ch_closure_started_at c; ch_payer_withdrawn_at := ch_payer_withdrawn_at c; ch_grace_period := ch_grace_period c;
  ch_distribution_hash := ch_distribution_hash c; ch_payer := ch_payer c; ch_payee := ch_payee c; ch_authorized_signer := ch_authorized_signer c;
  ch_mint := ch_mint c; ch_rent_payer := ch_rent_payer c; ch_open_slot := ch_open_slot c |}.
Definition seals_sample (ix : Instruction) : option Z := match ix_data ix with [4; t] => Some t | [5] => Some 0 | _ => None end.
Definition exec (c : Channel) (ix : Instruction) : Channel :=
  match seals_sample ix with
  | Some t => if is_unsealed (ch_status c) then moved c (Z.max t (ch_settled c)) STATUS_SEALED else c
  | None =>
      match ix_data ix with
      | [3; t] => if ch_status c =? STATUS_OPEN then moved c (Z.max t (ch_settled c)) STATUS_OPEN else c
      | [6] => if ch_status c =? STATUS_SEALED then moved c (ch_settled c) STATUS_DISTRIBUTED else c
      | _ => c
      end
  end.
#[global] Instance parties : Parties := {|
  gateway := λ s s', cumulative s ≤ cumulative s' ∧ (is_Some (final_cumulative s) → is_Some (final_cumulative s') ∧ cumulative s' = cumulative s);
  lands := λ c l c', c' = foldl exec c l;
  others := λ c c', ch_settled c ≤ ch_settled c';
  seals_at := seals_sample
|}.
Lemma exec_settles c ix : ch_settled c ≤ ch_settled (exec c ix).
Proof. unfold exec. repeat case_match; cbn; lia. Qed.
Lemma run_settles l c : ch_settled c ≤ ch_settled (foldl exec c l).
Proof. revert c. induction l as [|ix l IH]; intros c; cbn; [done|]. pose proof (exec_settles c ix). specialize (IH (exec c ix)). lia. Qed.
Lemma run_seals l c :
  is_unsealed (ch_status c) = true → is_unsealed (ch_status (foldl exec c l)) = false →
  ∃ ix t, ix ∈ l ∧ seals_sample ix = Some t ∧ t ≤ ch_settled (foldl exec c l).
Proof.
  revert c. induction l as [|ix l IH]; intros c Hu Hs; cbn in *; [congruence|].
  destruct (seals_sample ix) as [t|] eqn:Ht.
  - exists ix, t. split; [by left|]. split; [done|]. pose proof (run_settles l (exec c ix)) as Hr.
    assert (t ≤ ch_settled (exec c ix)); [|lia]. unfold exec. rewrite Ht, Hu. cbn. lia.
  - destruct (IH (exec c ix)) as (k & t & Hk & ?); [|done|exists k, t; split; [by right|done]].
    unfold exec. rewrite Ht. repeat case_match; try done.
    match goal with He : (ch_status c =? STATUS_SEALED) = true |- _ => apply Z.eqb_eq in He; rewrite He in Hu; done end.
Qed.
#[global] Instance parties_laws : PartiesLaws.
Proof.
  split; try done.
  - by intros s s' [? _].
  - by intros s s' [_ ?].
  - intros c l c' Hl. cbn in Hl. rewrite Hl. apply run_settles.
  - intros c l c' Hl. cbn in Hl. rewrite Hl. apply run_seals.
  - by intros ? ? ? ? ? ? ? ix [= <-] ->%list_elem_of_singleton.
  - intros ? ? ? ? ? ? ? ? ix t [= <-] ->%list_elem_of_singleton. by intros [= <-].
Qed.

(** ** A channel *)
Definition operator : Pubkey := key 20.
Definition payer_key : Pubkey := key 21.
Definition usdc : Pubkey := key 44.
Definition record : ChannelState := {|
  state_channel_id := strokes 30; deposit := 1000; cumulative := 300; sealed := false; close_requested_at := None; open_slot := Some 50;
  idle_timeout_seconds := None; processed_uses := []; pending_setup := None; lifecycle := None; extra := ∅ |}.
Definition with_accepted (s : ChannelState) (c : Z) : ChannelState := with_cumulative s c.
Definition scanned : WorkerState := {|
  ws_channel := record; ws_payer := text_of payer_key; authorized_signer := strokes 21; final_cumulative := None; settled_on_chain := 0;
  distributed_on_chain := 0; highest_voucher_signature := Some "signature"; highest_voucher_expires_at := Some 10000; last_activity_at := 0;
  onchain_checked_at := 0; pending_deliveries := [] |}.
Definition closing : Channel := sample_channel STATUS_CLOSING 100.
Definition read_of (c : Channel) : DecodedChannel := {| address := key 30; channel := c |}.
Definition refund_account : OwnedAccount := {| acc_owner := text_of token_program_id; acc_data := [] |}.
Definition answers : ChainAnswers := {|
  an_finalized := Ok (100, None); an_refund := Ok (Some refund_account); an_history := []; an_transaction := λ _, Ok None; an_clock := 1010 |}.
Definition programs : gmap Pubkey Pubkey := {[usdc := token_program_id]}.
Definition treasury : Pubkey := key 22.
Definition reconcile (s : WorkerState) (c : Channel) (now : Z) : job BatchReconcileResult :=
  reconcile_batch_channel answers s (Some (read_of c)) now 0 operator treasury programs (Some 1).
Definition planned (r : job BatchReconcileResult) : option BatchCandidate := match r with Ok x => br_candidate x | Err _ => None end.

(** ** A close that is claimed

    The gateway accepts up to 350 after the scan; the fence freezes that. *)
Definition accepted : WorkerState := with_channel scanned (with_accepted record 350).
Definition fenced : WorkerState := frozen_at (request_close_at accepted 1000) 350.
Definition claimed : Channel := moved closing 350 STATUS_DISTRIBUTED.
Definition plan_of (r : job BatchReconcileResult) (other : BatchCandidate) : BatchCandidate := default other (planned r).
Definition nothing : BatchCandidate := {|
  bc_channel_id := ""; bc_instructions := []; bc_kind := Claim; bc_store_action := Keep; bc_before := snapshot_default; bc_after := snapshot_default;
  bc_settled_on_chain := 0; bc_forfeited_accepted := 0 |}.
Definition result_of (r : job BatchReconcileResult) : BatchReconcileResult :=
  match r with Ok x => x | Err _ => {| br_channel_id := ""; br_candidate := None; br_delete_absent := false; br_snapshot := snapshot_default;
    br_settled := None; br_distributed := None; br_escrow_active := None; br_observed := None |} end.
Definition closing_plan : BatchCandidate := plan_of (reconcile fenced closing 1010) nothing.
Definition after_scan : ChannelWorld := add_read (add_scan (initially scanned closing)) (scanned, read_of closing).
Definition after_fence : ChannelWorld := add_ready (set_record (set_record after_scan accepted) fenced) (fenced, read_of closing).
Definition after_claim : ChannelWorld := set_chain (add_flight after_fence closing_plan) claimed false.
Lemma claimed_run : rtc batch_step (initially scanned closing) after_claim.
Proof.
  eapply rtc_l; [apply Scans|]. eapply rtc_l; [apply (Reads _ scanned (read_of closing)); by left|].
  eapply rtc_l; [apply (GatewayWrites _ accepted); split; [vm_compute; discriminate|by intros [? [=]]]|].
  eapply rtc_l; [apply (Fences _ scanned (read_of closing) 1010 fenced); [by left|done|vm_compute; reflexivity]|].
  eapply rtc_l; [eapply (Plans _ fenced (read_of closing) answers 1010 0 operator treasury programs (Some 1) (result_of (reconcile fenced closing 1010)) closing_plan);
    [by left|vm_compute; reflexivity|vm_compute; reflexivity]|].
  eapply rtc_l; [eapply (Lands _ closing_plan operator claimed); [by left|vm_compute; reflexivity]|]. apply rtc_refl.
Qed.
Example worker_never_seals_below_accepted_witness :
  is_sealed_status (w_chain after_claim) = true ∧ cumulative (w_record after_claim) = 350 ∧ ch_settled (w_chain after_claim) = 350 ∧
  (∀ x, x ∈ w_past after_claim → is_sealed_status x = true → cumulative (w_record after_claim) ≤ ch_settled x) ∧
  (∀ k, k ∈ w_flight after_claim → bc_forfeited_accepted k = 0).
Proof. do 3 (split; [reflexivity|]). apply (worker_never_seals_below_accepted scanned closing after_claim claimed_run). reflexivity. Defined.
Example batch_payout_is_committed_witness :
  bc_store_action (submitted closing_plan operator) = MarkFinalized ∧
  ∃ claim ix, bc_instructions (submitted closing_plan operator) = claim ++ [ix] ∧ committed_distribution (read_of closing) treasury programs ix.
Proof.
  split; [vm_compute; reflexivity|].
  eapply (batch_payout_is_committed answers fenced (read_of closing) 1010 0 operator treasury programs (Some 1)
            (result_of (reconcile fenced closing 1010)) closing_plan); vm_compute; reflexivity.
Defined.
Example close_fence_freezes_covered_witness :
  batch_close_transition (Some accepted) 1000 100 false 1010 = Ok fenced ∧ final_cumulative fenced = Some 350 ∧ cumulative fenced = cumulative accepted.
Proof.
  assert (Hf : batch_close_transition (Some accepted) 1000 100 false 1010 = Ok fenced) by (vm_compute; reflexivity).
  destruct (close_fence_freezes_covered accepted 1000 100 false 1010 fenced Hf) as [Hc _]. done.
Defined.
(** A live reservation holds the freeze back. *)
Definition busy : WorkerState := {|
  ws_channel := ws_channel accepted; ws_payer := ws_payer accepted; authorized_signer := authorized_signer accepted; final_cumulative := None;
  settled_on_chain := 0; distributed_on_chain := 0; highest_voucher_signature := None; highest_voucher_expires_at := None; last_activity_at := 0;
  onchain_checked_at := 0;
  pending_deliveries := [{| delivery_id := "d"; delivery_amount := 50; delivery_sequence := 0; delivery_expires_at := 1050;
                            delivery_fingerprint := None; handler_succeeded := false |}] |}.
Example live_reservation_defers_the_seal : ∃ s, fence_batch_close busy (Some busy) (read_of closing) 1010 false = Ok s ∧ final_cumulative s = None ∧
  planned (reconcile s closing 1010) = None.
Proof. eexists. vm_compute. done. Qed.

(** ** An account that is gone *)
Definition opened_at : ChainAnswers := {|
  an_finalized := Ok (201, None); an_refund := Err OpenTxNotFound; an_history := []; an_transaction := λ _, Ok None; an_clock := 0 |}.
Example records_outlive_their_channel_witness :
  br_delete_absent (result_of (reconcile_batch_channel opened_at scanned None 0 0 operator treasury programs None)) = true ∧
  has_in_flight_authorization scanned = false ∧ account_gone 50 (an_finalized opened_at).
Proof.
  set (r := result_of (reconcile_batch_channel opened_at scanned None 0 0 operator treasury programs None)).
  assert (Hr : reconcile_batch_channel opened_at scanned None 0 0 operator treasury programs None = Ok r) by (vm_compute; reflexivity).
  assert (Ha : br_delete_absent r = true) by (vm_compute; reflexivity). split; [exact Ha|].
  destruct (records_outlive_their_channel opened_at scanned None 0 0 operator treasury programs None r Hr) as [Hd _].
  destruct (Hd Ha) as (_ & Hf & opened & Ho & Hg). split; [exact Hf|]. injection Ho as <-. exact Hg.
Defined.
(** One slot earlier nothing is proven. *)
Example lagging_node_proves_nothing :
  br_delete_absent (result_of (reconcile_batch_channel
    {| an_finalized := Ok (200, None); an_refund := Err OpenTxNotFound; an_history := []; an_transaction := λ _, Ok None; an_clock := 0 |}
    scanned None 0 0 operator treasury programs None)) = false.
Proof. vm_compute. reflexivity. Qed.
Example replaced_inventory_is_recounted_witness :
  countable ([snapshot_of scanned (read_of closing)] ++ bc_before closing_plan :: []) ∧
  inventory_replace (recount ([snapshot_of scanned (read_of closing)] ++ bc_before closing_plan :: [])) (bc_before closing_plan) (bc_after closing_plan) =
  recount ([snapshot_of scanned (read_of closing)] ++ bc_after closing_plan :: []).
Proof.
  assert (Hb : countable ([snapshot_of scanned (read_of closing)] ++ bc_before closing_plan :: [])) by (refine (bool_decide_unpack _ _); vm_compute; exact I).
  assert (Ha : countable ([snapshot_of scanned (read_of closing)] ++ bc_after closing_plan :: [])) by (refine (bool_decide_unpack _ _); vm_compute; exact I).
  split; [exact Hb|]. apply (replaced_inventory_is_recounted [snapshot_of scanned (read_of closing)] _ _ [] Hb Ha).
Defined.

(** ** What is left open

    A distribution left to the next pass is reported as paid: the counts of
    the pass still take the plan's own snapshot. *)
Definition small : Channel := {|
  ch_version := 1; ch_status := STATUS_CLOSING; ch_deposit := 1000; ch_settled := 100; ch_payout_watermark := 0; ch_closure_started_at := 1000;
  ch_payer_withdrawn_at := 0; ch_grace_period := 100; ch_distribution_hash := [0; 0; 0; 0]; ch_payer := payer_key; ch_payee := key 19;
  ch_authorized_signer := key 21; ch_mint := usdc; ch_rent_payer := key 19; ch_open_slot := 50 |}.
Definition small_plan : BatchCandidate :=
  plan_of (reconcile_batch_channel answers fenced (Some (read_of small)) 1010 0 (key 19) treasury programs (Some 1)) nothing.
Example deferred_payout_is_reported_paid :
  let c := submitted small_plan (key 19) in
  let landed := foldl exec small (bc_instructions c) in
  bc_store_action c = Keep ∧ ch_status landed = STATUS_SEALED ∧ snap_distributed (snapshot_of fenced (read_of landed)) = 0 ∧
  snap_undistributed (snapshot_of fenced (read_of landed)) = 350 ∧
  snap_distributed (bc_after c) = 350 ∧ inv_distributed (confirm_inventory (recount [bc_before c]) [c]) = 350 ∧
  inv_undistributed (confirm_inventory (recount [bc_before c]) [c]) = 0.
Proof. vm_compute. done. Qed.
(** A channel sealed and paid out below the accepted amount by others is
    reclaimed and forgotten without a report. *)
Example foreign_payout_hides_the_forfeit :
  let c := plan_of (reconcile_batch_channel answers accepted (Some (read_of (moved closing 100 STATUS_DISTRIBUTED))) 2000 201 operator treasury programs
                      (Some 1)) nothing in
  confirmed_action (submitted c operator) true = Delete ∧ reported_forfeits [submitted c operator] = 0 ∧ cumulative accepted - 100 = 250 ∧
  delete_fenced_channel false (Some accepted) None = (None, Deleted).
Proof. vm_compute. done. Qed.
