(* ===== verification/SessionSettlement.v ===== *)
(** * SessionSettlement: the worker's passes over session channels

    [run_session] and [reconcile_channel] of
    [pay-worker/src/bin/settle_sessions.rs]: the binding a deployment's session
    keeps through its close, the claim that fences a close, the plan of a
    channel, the release of the resources it funded, and what becomes of its
    record.  PayKit's session configuration is an argument: the class
    [ConfigKit]. *)
From S2P Require Import Prelude Text Landing PushManifest PushPlanner TransferBatch ChannelState DeploymentPolicy ChannelAccount SettlementStore.
#[local] Open Scope string_scope.
#[local] Open Scope list_scope.
#[local] Open Scope Z_scope.

(** ** Configuration *)

(** The fields of [SessionConfig] the worker reads; the channel's version,
    hooks and the rest are [cfg_profile]. *)
Record SessionConfig := {
  cfg_network : string; cfg_operator : string; cfg_recipient : string; cfg_currency : string; cfg_amount : Z; cfg_decimals : Z;
  cfg_splits : list DistributionEntry; cfg_token_program : option Pubkey; cfg_profile : json }.
Record Deployment := { dep_version : Z; dep_program : Pubkey }.
(** What a bound distribution is built from. *)
Record SealParams := {
  sp_channel : Pubkey; sp_payer : Pubkey; sp_rent_payer : Pubkey; sp_mint : Pubkey; sp_program : Pubkey; sp_profile : json; sp_settled : Z;
  sp_recipient : Pubkey; sp_splits : list DistributionEntry; sp_distribution_hash : list Z }.
Class ConfigKit := {
  SessionConfigSnapshot : Type;
  #[global] snapshot_eq_dec :: EqDecision SessionConfigSnapshot;
  capture : SessionConfig → SessionConfigSnapshot;
  snapshot_from_channel : ChannelState → result string (option SessionConfigSnapshot);
  snapshot_config : SessionConfigSnapshot → result string SessionConfig;
  (** Equality of JSON values, which ignores the order of fields. *)
  value_eqb : json → json → bool;
  channel_deployment : SessionConfig → result string Deployment;
  (** The account of a bound channel, if its owner, format and hooks are the
      configuration's. *)
  decode_account : SessionConfig → Pubkey → list Z → result string Channel;
  distribution_hash : list DistributionEntry → list Z;
  distribute_instruction : SealParams → Pubkey → Pubkey → result string Instruction;
  binding_from_json : json → option DeploymentSessionBinding;
  opens_channel : json → bool;
  require_channel_binding : json → SessionConfig → WorkerState → result string unit
}.
#[global] Instance AccountMeta_eq_dec : EqDecision AccountMeta.
Proof. solve_decision. Defined.
#[global] Instance Instruction_eq_dec : EqDecision Instruction.
Proof. solve_decision. Defined.
#[global] Instance Deployment_eq_dec : EqDecision Deployment.
Proof. solve_decision. Defined.

Inductive StoreDisposition := DispositionKeep | DispositionSeal | DispositionExpire (newly_finalized : bool) | DispositionDelete.
Inductive CandidateKind := Watermark | IdleClose.
Record SettlementCandidate := {
  sc_channel_id : string; sc_instructions : list Instruction; sc_kind : CandidateKind; sc_before : ChannelInventorySnapshot;
  sc_after : ChannelInventorySnapshot }.
Record ReconcileResult := {
  rr_onchain_status : option Z; rr_channel_id : string; rr_candidate : option SettlementCandidate; rr_disposition : StoreDisposition;
  rr_snapshot : ChannelInventorySnapshot; rr_settled : option Z; rr_distributed : option Z; rr_escrow_active : option bool }.
(** What the chain answers a reconciliation besides [ChainAnswers]. *)
Record SessionAnswers := {
  sa_account : job (option OwnedAccount); sa_finalized : job (option OwnedAccount); sa_mint : job (option OwnedAccount); sa_chain : ChainAnswers }.

Definition binding_error (e : string) : JobError := Config ("session binding: " +:+ e).
Definition binding_error_text (e : BindingError) : string :=
  match e with
  | Invalid what => "invalid deployment session binding: " +:+ what
  | BindingJson => "malformed deployment session binding"
  end.

Section sessions.
Context `{Kit} `{ChannelKit} `{StoreKit} `{ConfigKit} `{ClaimsCodec}.

(** ** Bindings *)
Definition key_of (text : string) : result string Pubkey := ok_or (pubkey_from_str text) "invalid address".
Definition session_deployment (config : SessionConfig) : job Deployment :=
  map_err (λ e, Config ("session deployment: " +:+ e)) (channel_deployment config).
Definition decode_session_channel (a owner : Pubkey) (data : list Z) (config : SessionConfig) : job DecodedChannel :=
  _ ← session_deployment config;
  c ← map_err (λ e, Config ("session channel: " +:+ e)) (decode_account config owner data);
  Ok {| address := a; channel := c |}.
Definition fetch_session_channel (a : Pubkey) (config : SessionConfig) (answer : job (option OwnedAccount)) : job (option DecodedChannel) :=
  deployment ← session_deployment config;
  if dep_version deployment =? 1 then account ← answer; fetch_channel_for_program a (dep_program deployment) account
  else
    account ← answer;
    match account with
    | None => Ok None
    | Some x =>
        owner ← parse_pubkey (acc_owner x);
        c ← decode_session_channel a owner (acc_data x) config;
        Ok (Some c)
    end.

(** The payout of a policy against the configuration's. *)
Definition same_splits (splits : list DistributionEntry) (payout : list PayoutSplit) : bool :=
  (length splits =? length payout)%nat &&
  forallb (λ '(a, b), bool_decide (pubkey_text (de_recipient a) = ps_recipient b) && (de_bps a =? ps_bps b)) (zip splits payout).
Definition validate_bound_config (binding : DeploymentSessionBinding) (config : SessionConfig) (network : string) (operator : Pubkey) : job unit :=
  _ ← session_deployment config;
  payout ← map_err (λ e, binding_error (binding_error_text e)) (effective_payout key_of pubkey_text binding (cfg_operator config));
  reject_if (bool_decide (cfg_network config ≠ network) || bool_decide (cfg_operator config ≠ pubkey_text operator) ||
             bool_decide (cfg_recipient config ≠ ep_recipient payout) || negb (cfg_amount config =? price_micro_usd (policy binding)) ||
             negb (cfg_decimals config =? 6) || negb (same_splits (cfg_splits config) (ep_splits payout)))
    (binding_error "snapshot differs from immutable payout or worker network").
(** [DeploymentSessionBinding::from_value]. *)
Definition binding_from_value (value : json) : bres DeploymentSessionBinding :=
  b ← ok_or (binding_from_json value) BindingJson;
  _ ← validate key_of pubkey_text b;
  Ok b.
Definition validate_session_binding (policy : json) (config : SessionConfig) (network : string) (operator : Pubkey) : job unit :=
  match policy with
  | JNull =>
      deployment ← session_deployment config;
      reject_if (negb (dep_version deployment =? 2) || bool_decide (cfg_network config ≠ network) ||
                 bool_decide (cfg_operator config ≠ pubkey_text operator))
        (binding_error "ordinary snapshot differs from V2 deployment or worker identity")
  | _ =>
      binding ← map_err (λ e, binding_error (binding_error_text e)) (binding_from_value policy);
      validate_bound_config binding config network operator
  end.
Definition restore_session_config (state : ChannelState) (network : string) (operator : Pubkey) : job (option (json * SessionConfig)) :=
  policy ← map_err binding_error (channel_binding state);
  match policy with
  | None => Ok None
  | Some policy =>
      snapshot ← map_err binding_error (snapshot_from_channel state);
      snapshot ← ok_or snapshot (binding_error "missing configuration snapshot");
      config ← map_err binding_error (snapshot_config snapshot);
      _ ← validate_session_binding policy config network operator;
      Ok (Some (policy, config))
  end.
(** [resume] is PayKit's recovery of a pending open. *)
Definition resume_scanned_pending_open (state : ChannelState) (dry_run : bool) (resume : job unit) : job bool :=
  if negb (match pending_setup state with Some setup => opens_channel setup | None => false end) then Ok false
  else if dry_run then Err (binding_error "pending open requires recovery; dry run leaves it untouched")
  else _ ← resume; Ok true.
(** [recovered] is the record read back after a recovery. *)
Definition restore_bound_session (state : WorkerState) (network : string) (operator : Pubkey) (dry_run : bool) (resume : job unit)
    (recovered : job (option WorkerState)) : job (WorkerState * option SessionConfig) :=
  restored ← restore_session_config state network operator;
  match restored with
  | None => Ok (state, None)
  | Some (value, config) =>
      resumed ← resume_scanned_pending_open state dry_run resume;
      state ← (if resumed : bool then s ← recovered; ok_or s (binding_error "recovered channel disappeared") else Ok state);
      _ ← map_err binding_error (require_channel_binding value config state);
      Ok (state, Some config)
  end.

Record CloseBinding := { cb_policy : json; cb_snapshot : SessionConfigSnapshot }.
Definition close_binding_require (b : CloseBinding) (state : ChannelState) : job unit :=
  policy ← map_err binding_error (channel_binding state);
  same ← (if match policy with Some p => value_eqb p (cb_policy b) | None => false end then
            snapshot ← map_err binding_error (snapshot_from_channel state); Ok (bool_decide (snapshot = Some (cb_snapshot b)))
          else Ok false);
  reject_if (negb same) (binding_error "session binding changed during close").
Definition close_binding_new (state : ChannelState) (config : SessionConfig) : job CloseBinding :=
  policy ← map_err binding_error (channel_binding state);
  policy ← ok_or policy (binding_error "missing session binding");
  operator ← map_err binding_error (key_of (cfg_operator config));
  _ ← validate_session_binding policy config (cfg_network config) operator;
  let binding := {| cb_policy := policy; cb_snapshot := capture config |} in
  _ ← close_binding_require binding state;
  Ok binding.

Definition bound_preimage (config : SessionConfig) (onchain : DecodedChannel) : job DistributionPreimage :=
  distribution_preimage_from_snapshot distribution_hash (cfg_splits config) (ch_distribution_hash (channel onchain)).
Definition bound_distribution_instruction (config : SessionConfig) (onchain : DecodedChannel) (treasury_owner token_program : Pubkey) : job Instruction :=
  deployment ← session_deployment config;
  _ ← reject_if (negb (ch_version (channel onchain) =? dep_version deployment)) (binding_error "channel ABI differs from snapshot");
  _ ← bound_preimage config onchain;
  map_err binding_error (distribute_instruction {|
    sp_channel := address onchain; sp_payer := payer onchain; sp_rent_payer := rent_payer onchain; sp_mint := mint onchain;
    sp_program := dep_program deployment; sp_profile := cfg_profile config; sp_settled := ch_settled (channel onchain);
    sp_recipient := payee onchain; sp_splits := cfg_splits config; sp_distribution_hash := ch_distribution_hash (channel onchain) |}
    treasury_owner token_program).
Definition verify_bound_channel (config : SessionConfig) (state : WorkerState) (onchain : DecodedChannel) : job unit :=
  _ ← reject_if (session_open_is_terminal state || bool_decide (pubkey_text (address onchain) ≠ state_channel_id state) ||
                 bool_decide (pubkey_text (payee onchain) ≠ cfg_recipient config) || bool_decide (pubkey_text (payer onchain) ≠ ws_payer state) ||
                 bool_decide (pubkey_text (mint onchain) ≠ cfg_currency config) ||
                 negb (channel_open_slot onchain =? default 0 (open_slot state)) ||
                 bool_decide (pubkey_text (ch_authorized_signer (channel onchain)) ≠ authorized_signer state))
        (binding_error "on-chain channel differs from durable snapshot");
  _ ← bound_preimage config onchain;
  Ok tt.

(** ** Closing *)
Definition channel_close_due (state : WorkerState) (now_ms : Z) : bool :=
  negb (sealed state) && bool_decide (is_Some (open_slot state)) &&
  (bool_decide (is_Some (close_requested_at state)) ||
   match lifecycle state with Some l => close_after l <=? now_ms | None => false end).
Definition freeze_accepted (state : WorkerState) : WorkerState :=
  if bool_decide (is_Some (final_cumulative state)) then state else freeze_watermark_at state (cumulative state).
Definition claim_channel_close (current : option WorkerState) (now_ms now_seconds : Z) : result string WorkerState :=
  state ← ok_or current "Channel not found";
  if channel_close_due state now_ms then
    _ ← reject_if (negb (bool_decide (is_Some (final_cumulative state))) && has_blocking_authorization state now_seconds)
          "live reservation defers session close";
    Ok (request_close_at (freeze_accepted state) now_seconds)
  else Ok state.
Definition job_text (e : JobError) : string := match e with Config m => m | _ => "" end.
Definition transition_due_close (current : option WorkerState) (now_ms now_seconds : Z) (owner : string) (ttl_ms : Z) (binding : option CloseBinding) :
    result string WorkerState :=
  state ← ok_or current "Channel not found";
  _ ← reject_if (session_open_is_terminal state) "session open is terminal";
  policy ← channel_binding state;
  match binding with
  | Some binding =>
      _ ← map_err job_text (close_binding_require binding state);
      '(claimed, won) ← map_err binding_error_text
        (claim_close (λ _, has_blocking_authorization state) state owner now_ms (saturating_add 64 now_ms ttl_ms));
      _ ← reject_if (negb won) "bound close lease or reservation contended";
      Ok (freeze_accepted (with_channel state claimed))
  | None =>
      _ ← reject_if (bool_decide (is_Some policy)) "bound close requires restored configuration";
      claim_channel_close (Some state) now_ms now_seconds
  end.
(** Up to three attempts, each on the record of the moment; [Some] of a write
    that was lost to another writer. *)
Fixpoint claim_due_close (attempts : list (option WorkerState * bool)) (now_ms now_seconds : Z) (owner : string) (ttl_ms : Z)
    (binding : option CloseBinding) (last_error : string) : job WorkerState :=
  match attempts with
  | [] => Err (Config ("claim session close after 3 attempts: " +:+ last_error))
  | (current, lost) :: attempts =>
      match transition_due_close current now_ms now_seconds owner ttl_ms binding with
      | Ok state => if lost then claim_due_close attempts now_ms now_seconds owner ttl_ms binding "conflict" else Ok state
      | Err e => claim_due_close attempts now_ms now_seconds owner ttl_ms binding e
      end
  end.
(** The closure of [record_bound_close]. *)
Definition record_bound_close (current : option WorkerState) (config : SessionConfig) (onchain : DecodedChannel) (now_seconds : Z) : job WorkerState :=
  map_err (λ e, Config ("record on-chain close: " +:+ e))
    (state ← ok_or current "Channel not found";
     _ ← map_err job_text (verify_bound_channel config state onchain);
     Ok (request_close_at state now_seconds)).
Definition observe_bound_close (state : WorkerState) (current : option WorkerState) (config : SessionConfig) (answer : job (option OwnedAccount))
    (now_seconds : Z) (dry_run : bool) : job WorkerState :=
  a ← parse_pubkey (state_channel_id state);
  onchain ← fetch_session_channel a config answer;
  match onchain with
  | None => Ok state
  | Some onchain =>
      _ ← verify_bound_channel config state onchain;
      let status := ch_status (channel onchain) in
      if negb ((status =? STATUS_CLOSING) || (status =? STATUS_SEALED)) then Ok state
      else if dry_run then Ok (request_close_at state now_seconds)
      else record_bound_close current config onchain now_seconds
  end.

(** The instructions that seal a channel, and the amount it then carries. *)
Definition close_settlement_instructions (state : WorkerState) (onchain : DecodedChannel) (now : Z) (operator program : Pubkey) :
    job (option (list Instruction * Z)) :=
  let settled := ch_settled (channel onchain) in
  let status := ch_status (channel onchain) in
  if (status =? STATUS_OPEN) || ((status =? STATUS_CLOSING) && (now <? close_deadline onchain)) then
    let onchain_signer := ch_authorized_signer (channel onchain) in
    '(signature, cumulative, expires_at) ← close_voucher state settled onchain_signer now;
    instructions ← map_err (λ e, TxBuild ("settle-and-seal instruction: " +:+ e))
      (build_settle_and_seal_instructions operator (address onchain) onchain_signer signature cumulative expires_at program);
    Ok (Some (instructions, cumulative))
  else if status =? STATUS_SEALED then Ok (Some ([], settled))
  else if status =? STATUS_CLOSING then Ok (Some ([build_seal_ix_for_program (address onchain) program], settled))
  else if status =? STATUS_DISTRIBUTED then Ok None
  else Err (TxBuild ("channel " +:+ state_channel_id state +:+ " has unknown status " +:+ show status)).
Definition build_idle_close_candidate (answers : SessionAnswers) (state : WorkerState) (onchain : DecodedChannel) (now : Z)
    (operator treasury_owner : Pubkey) (bound_config : option SessionConfig) : job (option SettlementCandidate) :=
  program ← match bound_config with
            | Some config => deployment ← session_deployment config; Ok (dep_program deployment)
            | None => Ok default_program_id
            end;
  _ ← reject_if (bool_decide (payee onchain ≠ operator))
        (Config ("channel " +:+ state_channel_id state +:+ " payee " +:+ pubkey_text (payee onchain) +:+ " differs from lifecycle operator " +:+
                 pubkey_text operator));
  close ← close_settlement_instructions state onchain now operator program;
  match close with
  | None => Ok None
  | Some (instructions, close_settled) =>
      token_program ← match bound_config with
                      | Some config =>
                          token_program ← ok_or (cfg_token_program config) (binding_error "missing token program");
                          _ ← require_token_program token_program (sa_mint answers);
                          Ok token_program
                      | None => resolve_token_program (sa_mint answers)
                      end;
      refund ← payer_refund_account onchain token_program program (Sealed close_settled) (an_refund (sa_chain answers)) (an_clock (sa_chain answers));
      let reported := Z.max (ch_settled (channel onchain)) (cumulative state) in
      let plan instructions kind after := {|
        sc_channel_id := state_channel_id state; sc_instructions := instructions; sc_kind := kind; sc_before := snapshot_of state onchain;
        sc_after := after |} in
      match refund with
      | Unpayable _ _ =>
          Ok (match instructions with
              | [] => None
              | _ => Some (plan instructions Watermark
                             (inventory_snapshot true STATUS_SEALED reported (ch_payout_watermark (channel onchain)) (cumulative state) (mint onchain)))
              end)
      | Payable =>
          distribution ← match bound_config with
                         | Some config => bound_distribution_instruction config onchain treasury_owner token_program
                         | None =>
                             preimage ← recover_distribution_preimage (an_history (sa_chain answers)) (an_transaction (sa_chain answers)) onchain;
                             Ok (build_distribute_ix_for_program onchain treasury_owner token_program preimage program)
                         end;
          Ok (Some (plan (instructions ++ [distribution]) IdleClose
                      (inventory_snapshot true STATUS_DISTRIBUTED reported reported (cumulative state) (mint onchain))))
      end
  end.

(** ** One channel *)
Definition absent_onchain_store_disposition (state : ChannelState) : StoreDisposition :=
  match open_slot state with Some _ => DispositionDelete | None => DispositionKeep end.
(** The settlement of the latest voucher of a channel that stays open. *)
Definition watermark_candidate (state : WorkerState) (onchain : DecodedChannel) (now : Z) (channel_id program : Pubkey) : job (option SettlementCandidate) :=
  let c := channel onchain in
  match highest_voucher_signature state, highest_voucher_expires_at state with
  | Some signature, Some expires_at =>
      if (cumulative state =? 0) || (negb (expires_at =? 0) && (expires_at <=? now)) || negb (ch_status c =? STATUS_OPEN) ||
         (cumulative state <=? ch_settled c)
      then Ok None
      else
        authorized_signer ← parse_pubkey (authorized_signer state);
        _ ← reject_if (bool_decide (ch_authorized_signer c ≠ authorized_signer))
              (Config ("channel " +:+ state_channel_id state +:+ " authorized signer differs from Redis"));
        signature ← decode_voucher_signature signature;
        instructions ← map_err (λ e, TxBuild ("settle instruction: " +:+ e))
          (build_settle_instructions channel_id authorized_signer signature (cumulative state) expires_at program);
        Ok (Some {| sc_channel_id := state_channel_id state; sc_instructions := instructions; sc_kind := Watermark;
                    sc_before := snapshot_of state onchain;
                    sc_after := inventory_snapshot (sealed state) (ch_status c) (cumulative state) (ch_payout_watermark c) (cumulative state)
                                  (mint onchain) |})
  | _, _ => Ok None
  end.
Definition reconcile_channel (answers : SessionAnswers) (state : WorkerState) (now now_ms : Z) (operator treasury_owner : Pubkey)
    (bound_config : option SessionConfig) : job ReconcileResult :=
  match open_slot state with
  | None =>
      Ok {| rr_onchain_status := None; rr_channel_id := state_channel_id state; rr_candidate := None; rr_disposition := DispositionKeep;
            rr_snapshot := snapshot_default; rr_settled := None; rr_distributed := None; rr_escrow_active := None |}
  | Some opened =>
      channel_id ← parse_pubkey (state_channel_id state);
      program ← match bound_config with
                | Some config => deployment ← session_deployment config; Ok (dep_program deployment)
                | None => Ok default_program_id
                end;
      fetched ← match bound_config with
                | Some config => fetch_session_channel channel_id config (sa_account answers)
                | None => account ← sa_account answers; fetch_channel_for_program channel_id program account
                end;
      match fetched with
      | None =>
          disposition ← match bound_config with
                        | Some _ => Ok DispositionKeep
                        | None =>
                            proven ← channel_absence_proven program opened (an_finalized (sa_chain answers));
                            Ok (if proven : bool then absent_onchain_store_disposition state else DispositionKeep)
                        end;
          Ok {| rr_onchain_status := None; rr_channel_id := state_channel_id state; rr_candidate := None; rr_disposition := disposition;
                rr_snapshot := snapshot_default; rr_settled := None; rr_distributed := None; rr_escrow_active := Some false |}
      | Some onchain =>
          _ ← match bound_config with Some config => verify_bound_channel config state onchain | None => Ok tt end;
          let c := channel onchain in
          let status := ch_status c in
          let result candidate disposition := {|
            rr_onchain_status := Some status; rr_channel_id := state_channel_id state; rr_candidate := candidate; rr_disposition := disposition;
            rr_snapshot := snapshot_of state onchain; rr_settled := stablecoin_base_units_option (mint onchain) (ch_settled c);
            rr_distributed := stablecoin_base_units_option (mint onchain)
                                (effective_distributed_amount status (ch_settled c) (ch_payout_watermark c));
            rr_escrow_active := Some (negb (status =? STATUS_DISTRIBUTED)) |} in
          if status =? STATUS_DISTRIBUTED then
            finished ← (if sealed state then Ok true else finalized_distributed channel_id program (sa_finalized answers));
            Ok (result None (if negb (finished : bool) then DispositionKeep
                             else match bound_config with
                                  | Some _ => if sealed state then DispositionKeep else DispositionSeal
                                  | None => DispositionExpire (negb (sealed state))
                                  end))
          else if sealed state then Ok (result None DispositionKeep)
          else if channel_close_due state now_ms || (status =? STATUS_CLOSING) || (status =? STATUS_SEALED) then
            _ ← reject_if (bool_decide (is_Some bound_config) && negb (bool_decide (is_Some (close_requested_at state))))
                  (binding_error "bound close requires the durable close claim");
            candidate ← build_idle_close_candidate answers state onchain now operator treasury_owner bound_config;
            Ok (result candidate DispositionKeep)
          else
            candidate ← watermark_candidate state onchain now channel_id program;
            Ok (result candidate DispositionKeep)
      end
  end.

(** ** Resources the channel funded *)
Definition RESOURCE_CLEANUP_COMPLETED_AT : string := "pay_resource_cleanup_completed_at".
Definition RESOURCE_CLEANUP_LAST_AT : string := "pay_resource_cleanup_last_at".
Definition RESOURCE_CLEANUP_EMPTY_SINCE : string := "pay_resource_cleanup_empty_since".
Definition cleanup_timestamp (state : ChannelState) (key : string) : option Z :=
  match extra state !! key with Some (JNum n) => try_from 64 n | _ => None end.
Definition record_resource_cleanup (state : ChannelState) (now_ms quiet_ms resources : Z) : ChannelState * bool :=
  let x := <[RESOURCE_CLEANUP_LAST_AT := JNum now_ms]> (extra state) in
  let x :=
    if resources =? 0 then
      let empty_since := default now_ms (cleanup_timestamp (with_extra state x) RESOURCE_CLEANUP_EMPTY_SINCE) in
      let x := <[RESOURCE_CLEANUP_EMPTY_SINCE := JNum empty_since]> x in
      if quiet_ms <=? saturating_sub now_ms empty_since then <[RESOURCE_CLEANUP_COMPLETED_AT := JNum now_ms]> x else x
    else delete RESOURCE_CLEANUP_COMPLETED_AT (delete RESOURCE_CLEANUP_EMPTY_SINCE x) in
  (with_extra state x, bool_decide (is_Some (x !! RESOURCE_CLEANUP_COMPLETED_AT))).
(** [cleaned] is how many resources the cleaner found; the record after it, and
    whether the record may be dropped. *)
Definition ensure_resource_cleanup (enabled dry_run : bool) (interval_ms quiet_ms now_ms : Z) (cleaned : job Z) (state : WorkerState)
    (current : option WorkerState) : option WorkerState * job bool :=
  match is_recorded_legacy (Some (channel_binding state)) with
  | Err e => (current, Err e)
  | Ok false => (current, Ok false)
  | Ok true =>
      if negb enabled then (current, Ok true)
      else if dry_run then (current, Ok false)
      else if match cleanup_timestamp state RESOURCE_CLEANUP_LAST_AT with Some last => saturating_sub now_ms last <? interval_ms | None => false end
      then (current, Ok false)
      else
        match cleaned with
        | Err e => (current, Err e)
        | Ok resources =>
            match current with
            | None => (None, Err (Config "mark resource cleanup complete: channel disappeared during resource cleanup"))
            | Some now_state =>
                let '(c, completed) := record_resource_cleanup now_state now_ms quiet_ms resources in
                (Some (with_channel now_state c), Ok completed)
            end
        end
  end.

(** ** What becomes of the record

    [mark_finalized] is the store's; [ready] is whether the resources are
    released. *)
Definition apply_disposition (mark_finalized : WorkerState → WorkerState) (dry_run ready raced : bool) (disposition : StoreDisposition)
    (current : option WorkerState) : option WorkerState :=
  if dry_run then current
  else match disposition with
       | DispositionKeep => current
       | DispositionSeal => match retain_sealed_record current with Ok s => Some s | Err _ => current end
       | DispositionExpire _ => mark_finalized <$> current
       | DispositionDelete =>
           if ready then (delete_channel_if (λ s, negb (has_in_flight_authorization s)) raced current).1 else current
       end.
(** After a confirmed transaction. *)
Definition finish_session_close (mark_finalized : WorkerState → WorkerState) (bound finalized : bool) (kind : CandidateKind) (current : option WorkerState) :
    option WorkerState :=
  match kind with
  | IdleClose =>
      if negb finalized then current
      else if bound then match retain_sealed_record current with Ok s => Some s | Err _ => current end
      else mark_finalized <$> current
  | Watermark => current
  end.
(** What is submitted of a candidate that needs no guard. *)
Definition submitted_session (c : SettlementCandidate) (operator : Pubkey) : SettlementCandidate :=
  match sc_kind c with
  | IdleClose =>
      let '(instructions, deferred) := defer_oversized_distribution (sc_instructions c) operator in {|
      sc_channel_id := sc_channel_id c; sc_instructions := instructions; sc_kind := if deferred then Watermark else IdleClose;
      sc_before := sc_before c; sc_after := sc_after c |}
  | Watermark => c
  end.
(** Which candidates are sent under the guard of the close lease. *)
Definition guarded (bound : bool) (c : SettlementCandidate) : bool := bound && match sc_kind c with IdleClose => true | Watermark => false end.
(** The guard, run before every attempt to send: [lost] at its start and its
    end, the two claims, and the restored record and fresh plan between
    them. *)
Definition close_guard (lost lost_later : bool) (claimed : job WorkerState) (restore : WorkerState → job (WorkerState * option SessionConfig))
    (reconcile : WorkerState → SessionConfig → job ReconcileResult) (latest : job WorkerState) (c : SettlementCandidate) : bool :=
  negb lost &&
  match claimed with
  | Err _ => false
  | Ok state =>
      match restore state with
      | Ok (state, Some config) =>
          match reconcile state config with
          | Ok fresh =>
              negb lost_later &&
              match rr_candidate fresh with Some f => bool_decide (sc_instructions f = sc_instructions c) | None => false end &&
              match latest with
              | Ok s => match channel_binding s with Ok (Some _) => true | _ => false end
              | Err _ => false
              end
          | Err _ => false
          end
      | _ => false
      end
  end.
End sessions.
