(* ===== verification/SessionSafety.v ===== *)
(** * SessionSafety: what the session passes guarantee

    A bound close keeps its binding and its lease, pays the recipients the
    session was opened with and never gives up the record; resources are
    released after a quiet window.  The runs at the end show what the worker
    leaves open. *)
From S2P Require Import Prelude Text Landing PushManifest PushPlanner TransferBatch ChannelState DeploymentPolicy SessionCharge.
From S2P Require Import ChannelAccount SettlementStore BatchSettlement BatchSafety SessionSettlement.
#[local] Open Scope string_scope.
#[local] Open Scope list_scope.
#[local] Open Scope Z_scope.

(** ** Claiming a close *)
Section claiming.
Context `{Kit} `{ChannelKit} `{StoreKit} `{!StoreKitLaws} `{ConfigKit} `{ClaimsCodec} `{!ClaimsCodecLaws}.

Lemma bound_to b s u :
  close_binding_require b s = Ok u →
  (∃ policy, channel_binding s = Ok (Some policy) ∧ value_eqb policy (cb_policy b) = true) ∧ snapshot_from_channel s = Ok (Some (cb_snapshot b)).
Proof.
  unfold close_binding_require. intros ([policy|] & Hp & Hr)%bind_Ok; apply map_err_Ok in Hp; [|by inv_ok].
  apply bind_Ok in Hr as (same & Hs & Hr). apply reject_if_Ok, negb_false_iff in Hr. subst same.
  destruct (value_eqb policy (cb_policy b)) eqn:E; [|by injection Hs]. apply bind_Ok in Hs as (snapshot & Hsn & Hs). apply map_err_Ok in Hsn.
  injection Hs as Hs. apply bool_decide_eq_true in Hs. subst snapshot. eauto.
Qed.
(** A claim is won only on a quiet channel that no one else is closing. *)
Lemma claim_won blocking s owner now expires s' :
  claim_close blocking s owner now expires = Ok (s', true) →
  blocking s (now / 1000) = false ∧ sealed s = false ∧ pending_setup s = None ∧ is_Some (close_requested_at s') ∧ cumulative s' = cumulative s ∧
  claims s' = Ok {| claims_version := 1; reservation := None; close := Some {| cc_owner := owner; cc_expires_at_ms := expires |} |} ∧
  ∃ c, claims s = Ok c ∧ (∀ r, reservation c = Some r → res_expires_at_ms r ≤ now) ∧
       (∀ k, close c = Some k → cc_owner k = owner ∨ cc_expires_at_ms k ≤ now).
Proof.
  intros Hr. pose proof Hr as Hc. apply claim_close_Ok in Hc as (c & Hc & Hres & Hclosing & Hcum & _ & _ & Hc'). unfold claim_close in Hr. rewrite Hc in Hr.
  rewrite bind_ok_simpl in Hr. apply bind_Ok in Hr as ([] & _ & Hr). destruct (_ || _) eqn:E in Hr; [done|]. prop_bools.
  split_and!; try done; [by apply is_some_false|]. exists c. split_and!; [done..|]. intros k Hk.
  match goal with Hf : is_some_and (close c) _ = false |- _ => rewrite Hk in Hf; cbn in Hf; apply andb_false_iff in Hf as [Hf|Hf] end; prop_bools; [by left|right; lia].
Qed.

(** C20. A bound close is claimed only for the binding it was started with and
    by one closer at a time: if the transition succeeds, the record still
    carries the pinned policy and configuration snapshot, no reservation is
    live, no other owner holds a live close lease, and the new record holds
    this owner's lease, a recorded close request and a frozen amount that
    covers everything accepted. *)
Theorem bound_close_is_exclusive s now_ms now_seconds owner ttl binding s' :
  transition_due_close (Some s) now_ms now_seconds owner ttl (Some binding) = Ok s' →
  session_open_is_terminal s = false ∧
  (∃ policy, channel_binding s = Ok (Some policy) ∧ value_eqb policy (cb_policy binding) = true) ∧
  snapshot_from_channel s = Ok (Some (cb_snapshot binding)) ∧
  sealed s = false ∧ pending_setup s = None ∧ has_blocking_authorization s (now_ms / 1000) = false ∧
  (∃ c, claims s = Ok c ∧ (∀ r, reservation c = Some r → res_expires_at_ms r ≤ now_ms) ∧
        (∀ k, close c = Some k → cc_owner k = owner ∨ cc_expires_at_ms k ≤ now_ms)) ∧
  claims s' = Ok {| claims_version := 1; reservation := None;
                    close := Some {| cc_owner := owner; cc_expires_at_ms := saturating_add 64 now_ms ttl |} |} ∧
  is_Some (close_requested_at s') ∧ is_Some (final_cumulative s') ∧ cumulative s' = cumulative s ∧
  (final_cumulative s = None → final_cumulative s' = Some (cumulative s)).
Proof.
  unfold transition_due_close. cbn [ok_or mbind result_bind]. intros ([] & Ht & Hr)%bind_Ok. apply reject_if_Ok in Ht.
  apply bind_Ok in Hr as (policy & _ & Hr). apply bind_Ok in Hr as ([] & Hb & Hr). apply map_err_Ok, bound_to in Hb as [Hb Hs].
  apply bind_Ok in Hr as ([claimed [|]] & Hc & Hr); apply map_err_Ok in Hc; [|by inv_ok]. cbn in Hr. injection Hr as <-.
  apply claim_won in Hc as (Hbl & Hse & Hpe & Hreq & Hcum & Hcl & Hold). split_and!; try done; unfold freeze_accepted; case_bool_decide as Hf; try done.
  - rewrite <- Hcl. apply claims_extra. by rewrite freeze_extra.
  - by apply freeze_close_requested.
  - rewrite freeze_sets. eauto.
  - by rewrite freeze_cumulative.
  - cbn in Hf. intros E. rewrite E in Hf. by destruct Hf.
  - intros _. rewrite freeze_sets. by rewrite <- Hcum.
Qed.
End claiming.

(** ** Plans and records *)
Section planning.
Context `{Kit} `{ChannelKit} `{!ChannelKitLaws} `{StoreKit} `{ConfigKit} `{ClaimsCodec}.

Lemma fetched_address a config answer d : fetch_session_channel a config answer = Ok (Some d) → address d = a.
Proof.
  unfold fetch_session_channel, fetch_channel_for_program, decode_session_channel, decode_v1_channel. intros (dep & _ & Hr)%bind_Ok.
  destruct (_ =? 1); apply bind_Ok in Hr as ([x|] & _ & Hr); try done.
  - destruct (bool_decide _); [done|]. destruct (orb _ _); [done|]. injection Hr as Hr. by destruct (channel_from_bytes _); [injection Hr as <-|].
  - apply bind_Ok in Hr as (owner & _ & Hr). apply bind_Ok in Hr as (c & Hc & Hr). injection Hr as <-.
    apply bind_Ok in Hc as (? & _ & Hc). apply bind_Ok in Hc as (? & _ & Hc). by injection Hc as <-.
Qed.
(** The account a bound session is settled against is the one it opened. *)
Definition same_channel (config : SessionConfig) (s : WorkerState) (d : DecodedChannel) : Prop :=
  session_open_is_terminal s = false ∧ pubkey_text (address d) = state_channel_id s ∧ pubkey_text (payee d) = cfg_recipient config ∧
  pubkey_text (payer d) = ws_payer s ∧ pubkey_text (mint d) = cfg_currency config ∧ channel_open_slot d = default 0 (open_slot s) ∧
  pubkey_text (ch_authorized_signer (channel d)) = authorized_signer s ∧ distribution_hash (cfg_splits config) = ch_distribution_hash (channel d).
Lemma bound_preimage_hash config d p : bound_preimage config d = Ok p → distribution_hash (cfg_splits config) = ch_distribution_hash (channel d).
Proof.
  unfold bound_preimage, distribution_preimage_from_snapshot. destruct (_ <? _); [done|]. cbn [orb]. case_bool_decide as Hh; [done|].
  intros _. done.
Qed.
Lemma verified_channel config s d u : verify_bound_channel config s d = Ok u → same_channel config s d.
Proof.
  unfold verify_bound_channel. intros ([] & Hr & Hp)%bind_Ok. apply reject_if_Ok in Hr. apply bind_Ok in Hp as (p & Hp%bound_preimage_hash & _).
  prop_bools. repeat match goal with Hn : ¬ (_ ≠ _) |- _ => apply dec_stable in Hn end.
  split_and!; try done. match goal with He : (_ =? _) = true |- _ => by apply Z.eqb_eq in He end.
Qed.
(** The parts of a close's plan. *)
Lemma idle_close_Some answers s d now operator treasury config c :
  build_idle_close_candidate answers s d now operator treasury config = Ok (Some c) →
  payee d = operator ∧ ∃ program seal settled token_program,
    match config with
    | Some config => ∃ dep, session_deployment config = Ok dep ∧ program = dep_program dep ∧ cfg_token_program config = Some token_program
    | None => program = default_program_id
    end ∧
    close_settlement_instructions s d now operator program = Ok (Some (seal, settled)) ∧
    ((sc_kind c = Watermark ∧ sc_instructions c = seal ∧ seal ≠ []) ∨
     (sc_kind c = IdleClose ∧
      payer_refund_account d token_program program (Sealed settled) (an_refund (sa_chain answers)) (an_clock (sa_chain answers)) = Ok Payable ∧
      ∃ distribution, sc_instructions c = seal ++ [distribution] ∧
        match config with
        | Some config => bound_distribution_instruction config d treasury token_program = Ok distribution
        | None => ∃ p, recover_distribution_preimage (an_history (sa_chain answers)) (an_transaction (sa_chain answers)) d = Ok p ∧
                       distribution = build_distribute_ix_for_program d treasury token_program p program
        end)).
Proof.
  unfold build_idle_close_candidate. intros (program & Hprog & Hr)%bind_Ok. apply bind_Ok in Hr as ([] & Hp & Hr).
  apply reject_if_Ok, bool_decide_eq_false, dec_stable in Hp. split; [done|].
  apply bind_Ok in Hr as ([[seal settled]|] & Hs & Hr); [|done]. apply bind_Ok in Hr as (tp & Htp & Hr).
  apply bind_Ok in Hr as (refund & Href & Hr). exists program, seal, settled, tp. split; [|split; [done|]].
  { destruct config as [config|]; [|by injection Hprog]. apply bind_Ok in Hprog as (dep & Hd & Hprog). injection Hprog as <-.
    apply bind_Ok in Htp as (tp' & Htp & Hr'). apply ok_or_Ok in Htp. apply bind_Ok in Hr' as (? & _ & Hr'). injection Hr' as <-. eauto. }
  destruct refund as [|reason missing]; [right|left].
  - apply bind_Ok in Hr as (dist & Hd & Hr). injection Hr as <-. cbn. split_and!; [done..|]. exists dist. split; [done|].
    destruct config; [done|]. apply bind_Ok in Hd as (p & Hp' & Hd). injection Hd as <-. eauto.
  - destruct seal as [|ix seal]; [done|]. by injection Hr as <-.
Qed.

(** C21. A bound session's channel is settled only as it was opened: whatever is
    planned for it, the account read has the address, payee, payer, mint, open
    slot and signer of the record and its configuration and commits to the
    configuration's splits; and a payout of its close is the distribution of
    exactly those splits under the session's own program, planned only after
    the close was claimed on the record. *)
Theorem bound_close_pays_its_session answers s now now_ms operator treasury config r c :
  reconcile_channel answers s now now_ms operator treasury (Some config) = Ok r → rr_candidate r = Some c →
  ∃ d, same_channel config s d ∧
    (sc_kind c = IdleClose →
     is_Some (close_requested_at s) ∧ payee d = operator ∧
     ∃ dep token_program seal distribution, session_deployment config = Ok dep ∧ ch_version (channel d) = dep_version dep ∧
       cfg_token_program config = Some token_program ∧ sc_instructions c = seal ++ [distribution] ∧
       distribute_instruction {|
         sp_channel := address d; sp_payer := payer d; sp_rent_payer := rent_payer d; sp_mint := mint d; sp_program := dep_program dep;
         sp_profile := cfg_profile config; sp_settled := ch_settled (channel d); sp_recipient := payee d; sp_splits := cfg_splits config;
         sp_distribution_hash := ch_distribution_hash (channel d) |} treasury token_program = Ok distribution).
Proof.
  unfold reconcile_channel. destruct (open_slot s) as [opened|] eqn:Hslot; [|by intros [= <-]].
  intros (id & _ & Hr)%bind_Ok Hc. apply bind_Ok in Hr as (program & _ & Hr). apply bind_Ok in Hr as ([d|] & _ & Hr); [|cbn in Hr; injection Hr as <-; done].
  apply bind_Ok in Hr as (u & Hv%verified_channel & Hr). exists d. split; [done|]. intros Hk.
  destruct (_ =? STATUS_DISTRIBUTED); [apply bind_Ok in Hr as (fin & _ & Hr); injection Hr as <-; done|].
  destruct (sealed s); [injection Hr as <-; done|].
  destruct (orb _ _).
  - apply bind_Ok in Hr as ([] & Hreq & Hr). apply reject_if_Ok in Hreq. apply bind_Ok in Hr as (o & Ho & Hr). injection Hr as <-. cbn in Hc. subst o.
    cbn [andb] in Hreq. rewrite bool_decide_eq_true_2 in Hreq by done. cbn in Hreq. apply negb_false_iff, bool_decide_eq_true in Hreq. split; [done|].
    apply idle_close_Some in Ho as (Hp & program' & seal & settled & tp & (dep & Hdep & _ & Htp) & _ & [[Hkind _]|(_ & _ & dist & Hi & Hd)]); [congruence|].
    split; [done|]. unfold bound_distribution_instruction in Hd. rewrite Hdep, bind_ok_simpl in Hd. apply bind_Ok in Hd as ([] & Hver & Hd).
    apply reject_if_Ok, negb_false_iff, Z.eqb_eq in Hver. apply bind_Ok in Hd as (p & _ & Hd). apply map_err_Ok in Hd. eauto 12.
  - apply bind_Ok in Hr as (o & Ho & Hr). injection Hr as <-. cbn in Hc. subst o. unfold watermark_candidate in Ho.
    destruct (highest_voucher_signature s), (highest_voucher_expires_at s); try done. destruct (orb _ _); [done|].
    repeat apply bind_Ok in Ho as (? & _ & Ho). injection Ho as <-. done.
Qed.

(** Read as distributed at finalized commitment. *)
Definition finally_distributed (program : Pubkey) (answer : job (option OwnedAccount)) : Prop :=
  ∃ x, answer = Ok (Some x) ∧ acc_owner x = pubkey_text program ∧
    ((head (acc_data x) = Some 1 ∧ acc_data x !! 3%nat = Some STATUS_DISTRIBUTED) ∨
     (head (acc_data x) = Some CLOSED_CHANNEL_DISCRIMINATOR ∧ zlen (acc_data x) < CHANNEL_ACCOUNT_SIZE)).
Lemma finalized_proof a program answer : finalized_distributed a program answer = Ok true → finally_distributed program answer.
Proof.
  unfold finalized_distributed. intros ([x|] & -> & Hr)%bind_Ok; [|done]. destruct (bool_decide _) eqn:Ho; [done|].
  apply bool_decide_eq_false, dec_stable in Ho. injection Hr as Hr. exists x. split_and!; [done..|]. destruct (head (acc_data x)) as [tag|]; [|done].
  destruct (Z.eqb_spec tag 1) as [Htag|_]; [left; apply bool_decide_eq_true in Hr; by rewrite Htag|right].
  apply andb_true_iff in Hr as [Ht Hl]. apply Z.eqb_eq in Ht. split; [congruence|lia].
Qed.

(** C22. The record of a session is given up only on final evidence, and a bound
    one never: reconciliation lets a record expire, or marks it sealed, only
    when it already was sealed or the channel reads as distributed at
    finalized commitment; it deletes one only on finalized proof that the
    account is gone; and neither expires nor deletes a record bound to a
    deployment. *)
Theorem session_record_is_given_up_on_proof answers s now now_ms operator treasury config r :
  reconcile_channel answers s now now_ms operator treasury config = Ok r →
  match rr_disposition r with
  | DispositionKeep => True
  | DispositionSeal => is_Some config ∧ sealed s = false ∧ ∃ program, finally_distributed program (sa_finalized answers)
  | DispositionExpire newly => config = None ∧ newly = negb (sealed s) ∧
      (sealed s = true ∨ finally_distributed default_program_id (sa_finalized answers))
  | DispositionDelete => config = None ∧ ∃ opened, open_slot s = Some opened ∧ account_gone opened (an_finalized (sa_chain answers))
  end.
Proof.
  unfold reconcile_channel. destruct (open_slot s) as [opened|] eqn:Hslot; [|by intros [= <-]].
  intros (id & _ & Hr)%bind_Ok. apply bind_Ok in Hr as (program & Hprog & Hr). apply bind_Ok in Hr as ([d|] & _ & Hr).
  2:{ apply bind_Ok in Hr as (disp & Hd & Hr). injection Hr as <-. cbn. destruct config; [by injection Hd as <-|]. injection Hprog as <-.
      apply bind_Ok in Hd as ([|] & Ha & Hd); [|by injection Hd as <-]. unfold absent_onchain_store_disposition in Hd. rewrite Hslot in Hd.
      injection Hd as <-. split; [done|]. apply absence_proven in Ha. eauto. }
  apply bind_Ok in Hr as (u & _ & Hr). destruct (_ =? STATUS_DISTRIBUTED).
  - apply bind_Ok in Hr as (fin & Hf & Hr). injection Hr as <-. cbn. destruct fin; cbn; [|done]. destruct config as [config|].
    + destruct (sealed s); [done|]. apply finalized_proof in Hf. eauto.
    + injection Hprog as <-. split_and!; [done..|]. destruct (sealed s); [by left|right]. by apply finalized_proof in Hf.
  - destruct (sealed s); [by injection Hr as <-|]. destruct (orb _ _); repeat apply bind_Ok in Hr as (? & _ & Hr); by injection Hr as <-.
Qed.
End planning.

(** ** Releasing resources *)

(** Scans of the resources a channel funded: when, and how many were found. *)
Definition scanned_resources (quiet_ms : Z) (s : ChannelState) (scans : list (Z * Z)) : ChannelState :=
  foldl (λ s x, (record_resource_cleanup s x.1 quiet_ms x.2).1) s scans.
(** The times of the empty scans since the last that found something. *)
Definition empty_run (scans : list (Z * Z)) : list Z := foldl (λ run x, if x.2 =? 0 then run ++ [x.1] else []) [] scans.
Definition quiet_window (quiet_ms : Z) (run : list Z) : Prop := ∃ t0 t, head run = Some t0 ∧ t ∈ run ∧ quiet_ms ≤ saturating_sub t t0.
Definition cleanup_keys : list string := [RESOURCE_CLEANUP_LAST_AT; RESOURCE_CLEANUP_EMPTY_SINCE; RESOURCE_CLEANUP_COMPLETED_AT].
Definition never_scanned (s : ChannelState) : Prop := ∀ k, k ∈ cleanup_keys → extra s !! k = None.
(** What the record says of a run of empty scans. *)
Definition cleanup_state (quiet_ms : Z) (run : list Z) (s : ChannelState) : Prop :=
  extra s !! RESOURCE_CLEANUP_EMPTY_SINCE = JNum <$> head run ∧
  (is_Some (extra s !! RESOURCE_CLEANUP_COMPLETED_AT) ↔ quiet_window quiet_ms run).

Lemma quiet_window_snoc quiet_ms run t :
  quiet_window quiet_ms (run ++ [t]) ↔ quiet_window quiet_ms run ∨ quiet_ms ≤ saturating_sub t (default t (head run)).
Proof.
  unfold quiet_window. destruct run as [|t0 run]; cbn.
  - split.
    + intros (t1 & t2 & [= <-] & ->%list_elem_of_singleton & Hq). by right.
    + intros [(? & ? & [=] & _)|Hq]. exists t, t. split_and!; [done|by left|done].
  - split.
    + intros (t1 & t2 & [= <-] & Ht & Hq). change (t0 :: run ++ [t]) with ((t0 :: run) ++ [t]) in Ht.
      apply elem_of_app in Ht as [Ht| ->%list_elem_of_singleton]; [left; eauto|by right].
    + intros [(t1 & t2 & [= <-] & Ht & Hq)|Hq].
      * exists t0, t2. split_and!; [done| |done]. change (t2 ∈ (t0 :: run) ++ [t]). apply elem_of_app. by left.
      * exists t0, t. split_and!; [done| |done]. change (t ∈ (t0 :: run) ++ [t]). apply elem_of_app. right. by left.
Qed.
Lemma cleanup_step quiet_ms run s t n :
  Forall is_u64 run → cleanup_state quiet_ms run s →
  cleanup_state quiet_ms (if n =? 0 then run ++ [t] else []) (record_resource_cleanup s t quiet_ms n).1.
Proof.
  intros Hrun [He Hc]. unfold record_resource_cleanup, cleanup_state. cbn [fst]. destruct (n =? 0).
  - assert (Hsince : default t (cleanup_timestamp (with_extra s (<[RESOURCE_CLEANUP_LAST_AT:=JNum t]> (extra s))) RESOURCE_CLEANUP_EMPTY_SINCE) =
                     default t (head run)).
    { unfold cleanup_timestamp. cbn [with_extra extra]. rewrite lookup_insert_ne, He by done. destruct run as [|t0 run]; [done|]. cbn.
      apply Forall_cons in Hrun as [Hu _]. by rewrite try_from_in. }
    rewrite Hsince, quiet_window_snoc. split.
    + replace (head (run ++ [t])) with (Some (default t (head run))) by by destruct run.
      destruct (_ <=? _); cbn; [rewrite lookup_insert_ne by done|]; by rewrite lookup_insert_eq.
    + destruct (Z.leb_spec quiet_ms (saturating_sub t (default t (head run)))); cbn.
      * rewrite lookup_insert_eq. split; eauto.
      * rewrite !lookup_insert_ne, Hc by done. split; [by left|]. intros [|]; [done|lia].
  - cbn. rewrite lookup_delete_ne, !lookup_delete_eq by done. split; [done|]. split; [by intros [? [=]]|by intros (? & ? & [=] & _)].
Qed.
Lemma empty_run_u64 scans : Forall (λ x, is_u64 x.1) scans → Forall is_u64 (empty_run scans).
Proof.
  induction scans as [|x scans IH] using rev_ind; [done|]. unfold empty_run in *. rewrite foldl_app.
  intros [Hs [Hx _]%Forall_cons]%Forall_app. cbn. destruct (_ =? 0); [|done]. apply Forall_app. split; [by apply IH|by constructor].
Qed.
Lemma cleanup_keeps quiet_ms s t n k : k ∉ cleanup_keys → extra (record_resource_cleanup s t quiet_ms n).1 !! k = extra s !! k.
Proof.
  unfold cleanup_keys. rewrite !not_elem_of_cons. intros (? & ? & ? & _). unfold record_resource_cleanup. cbn.
  destruct (n =? 0); [destruct (_ <=? _)|]; repeat first [rewrite lookup_insert_ne by done|rewrite lookup_delete_ne by done]; done.
Qed.

(** The resources of a channel are reported released exactly when no scan
    since some empty one found anything and the run of empty scans spans the
    quiet window; one late resource reopens it, and nothing else the record
    carries is touched. *)
Theorem cleanup_completes_after_quiet quiet_ms s scans :
  never_scanned s → Forall (λ x, is_u64 x.1) scans →
  let s' := scanned_resources quiet_ms s scans in
  (is_Some (extra s' !! RESOURCE_CLEANUP_COMPLETED_AT) ↔ quiet_window quiet_ms (empty_run scans)) ∧
  (∀ k, k ∉ cleanup_keys → extra s' !! k = extra s !! k).
Proof.
  intros Hn Hu. cbn zeta.
  enough (cleanup_state quiet_ms (empty_run scans) (scanned_resources quiet_ms s scans) ∧
          ∀ k, k ∉ cleanup_keys → extra (scanned_resources quiet_ms s scans) !! k = extra s !! k) as [[_ Hc] Hk] by done.
  induction scans as [|x scans IH] using rev_ind.
  - split; [|done]. split; cbn; [apply Hn; right; by left|]. rewrite Hn by (do 2 right; by left).
    split; [by intros [? [=]]|by intros (? & ? & [=] & _)].
  - apply Forall_app in Hu as [Hu [Hx _]%Forall_cons]. destruct (IH Hu) as [Hc Hk].
    unfold scanned_resources, empty_run in *. rewrite !foldl_app. cbn [foldl]. split.
    + apply cleanup_step; [by apply empty_run_u64|done].
    + intros k Hkk. rewrite cleanup_keeps by done. by apply Hk.
Qed.
