(* ===== verification/SessionSamples.v ===== *)
(** * SessionSamples: a session channel in concrete runs

    The theorems of [SessionSafety] at a sample configuration, and runs that
    show what the session passes leave open. *)
From S2P Require Import Prelude Text Landing PushManifest PushPlanner TransferBatch ChannelState DeploymentPolicy SessionCharge.
From S2P Require Import ChannelAccount SettlementStore BatchSettlement BatchSafety BatchSamples SessionSettlement SessionSafety.
Import PushPlanner.SampleKit ChannelAccount.SampleChannels.
#[local] Existing Instance SampleCharge.claims_codec.
#[local] Existing Instance SampleCharge.claims_codec_laws.
#[local] Open Scope string_scope.
#[local] Open Scope list_scope.
#[local] Open Scope Z_scope.

Definition config : SessionConfig := {|
  cfg_network := "mainnet"; cfg_operator := strokes 20; cfg_recipient := strokes 20; cfg_currency := strokes 44; cfg_amount := 5; cfg_decimals := 6;
  cfg_splits := []; cfg_token_program := Some token_program_id; cfg_profile := JNull |}.
Definition config_distribution (p : SealParams) (treasury token_program : Pubkey) : Instruction :=
  {| ix_program := sp_program p; ix_accounts := metas 11 (sp_channel p); ix_data := [6] |}.
#[global] Instance config_kit : ConfigKit := {|
  SessionConfigSnapshot := string; capture := λ c, cfg_network c; snapshot_from_channel := λ _, Ok (Some "mainnet"); snapshot_config := λ _, Ok config;
  value_eqb := λ v w, match v, w with JStr a, JStr b => bool_decide (a = b) | JNull, JNull => true | _, _ => false end;
  channel_deployment := λ _, Ok {| dep_version := 1; dep_program := payment_channels |}; decode_account := λ _ _ _, Err "account";
  distribution_hash := encode_recipients; distribute_instruction := λ p treasury token_program, Ok (config_distribution p treasury token_program);
  binding_from_json := λ _, None; opens_channel := λ _, false; require_channel_binding := λ _ _ _, Ok tt
|}.
Definition account (status settled : Z) : OwnedAccount := {| acc_owner := text_of payment_channels; acc_data := [1; 1; status; settled] |}.
Definition mint_account : OwnedAccount := {| acc_owner := text_of token_program_id; acc_data := [] |}.
Definition reading (status settled : Z) (refund : option OwnedAccount) : SessionAnswers := {|
  sa_account := Ok (Some (account status settled)); sa_finalized := Ok (Some (account status settled)); sa_mint := Ok (Some mint_account);
  sa_chain := {| an_finalized := Ok (201, None); an_refund := Ok refund; an_history := []; an_transaction := λ _, Ok None; an_clock := 0 |} |}.
Definition session_plan (answers : SessionAnswers) (s : WorkerState) (now : Z) (bound : option SessionConfig) : option SettlementCandidate :=
  match reconcile_channel answers s now (now * 1000) operator treasury bound with Ok r => rr_candidate r | Err _ => None end.
Definition no_plan : SettlementCandidate := {|
  sc_channel_id := ""; sc_instructions := []; sc_kind := Watermark; sc_before := snapshot_default; sc_after := snapshot_default |}.
Definition result_or (r : job ReconcileResult) : ReconcileResult :=
  match r with Ok x => x | Err _ => {| rr_onchain_status := None; rr_channel_id := ""; rr_candidate := None; rr_disposition := DispositionKeep;
    rr_snapshot := snapshot_default; rr_settled := None; rr_distributed := None; rr_escrow_active := None |} end.

(** ** A bound close *)
Definition bound_record : ChannelState := with_extra (with_cumulative record 300) {["binding" := JStr "policy"]}.
Definition bound_state : WorkerState := request_close_at (with_channel scanned bound_record) 1000.
Definition pinned : CloseBinding := {| cb_policy := JStr "policy"; cb_snapshot := "mainnet" |}.
Definition claimed_state : WorkerState :=
  match transition_due_close (Some bound_state) 1010000 1010 "worker" 60000 (Some pinned) with Ok s => s | Err _ => bound_state end.
Example bound_close_is_exclusive_witness :
  transition_due_close (Some bound_state) 1010000 1010 "worker" 60000 (Some pinned) = Ok claimed_state ∧
  claims claimed_state = Ok {| claims_version := 1; reservation := None;
                               close := Some {| cc_owner := "worker"; cc_expires_at_ms := saturating_add 64 1010000 60000 |} |} ∧
  final_cumulative claimed_state = Some 300.
Proof.
  assert (Hc : transition_due_close (Some bound_state) 1010000 1010 "worker" 60000 (Some pinned) = Ok claimed_state) by (vm_compute; reflexivity).
  split; [exact Hc|].
  destruct (bound_close_is_exclusive bound_state 1010000 1010 "worker" 60000 pinned claimed_state Hc) as (_ & _ & _ & _ & _ & _ & _ & Hk & _ & _ & _ & Hf).
  split; [exact Hk|]. apply Hf. reflexivity.
Defined.
(** A second closer is refused while the lease is live, a changed binding
    always. *)
Example second_closer_is_refused : is_ok (transition_due_close (Some claimed_state) 1020000 1020 "other" 60000 (Some pinned)) = false.
Proof. vm_compute. reflexivity. Qed.
Example changed_binding_is_refused :
  is_ok (transition_due_close (Some bound_state) 1010000 1010 "worker" 60000 (Some {| cb_policy := JStr "other"; cb_snapshot := "mainnet" |})) = false.
Proof. vm_compute. reflexivity. Qed.

Definition bound_result : ReconcileResult :=
  result_or (reconcile_channel (reading STATUS_CLOSING 100 (Some refund_account)) claimed_state 1010 1010000 operator treasury (Some config)).
Definition bound_plan : SettlementCandidate := default no_plan (rr_candidate bound_result).
Example bound_close_pays_its_session_witness :
  sc_kind bound_plan = IdleClose ∧ ∃ d, same_channel config claimed_state d ∧ payee d = operator.
Proof.
  assert (Hr : reconcile_channel (reading STATUS_CLOSING 100 (Some refund_account)) claimed_state 1010 1010000 operator treasury (Some config) =
               Ok bound_result) by (vm_compute; reflexivity).
  assert (Hc : rr_candidate bound_result = Some bound_plan) by (vm_compute; reflexivity).
  assert (Hk : sc_kind bound_plan = IdleClose) by (vm_compute; reflexivity). split; [exact Hk|].
  destruct (bound_close_pays_its_session _ _ _ _ _ _ _ _ _ Hr Hc) as (d & Hd & Hp). destruct (Hp Hk) as (_ & Hpayee & _). eauto.
Defined.
Definition distributed_result : ReconcileResult :=
  result_or (reconcile_channel (reading STATUS_DISTRIBUTED 300 None) claimed_state 1010 1010000 operator treasury (Some config)).
Example session_record_is_given_up_on_proof_witness :
  rr_disposition (result_or (reconcile_channel {| sa_account := Ok None; sa_finalized := Ok None; sa_mint := Ok None; sa_chain := opened_at |} scanned 0 0
                    operator treasury None)) = DispositionDelete ∧
  ∃ opened, open_slot scanned = Some opened ∧ account_gone opened (an_finalized opened_at).
Proof.
  set (answers := {| sa_account := Ok None; sa_finalized := Ok None; sa_mint := Ok None; sa_chain := opened_at |}).
  set (r := result_or (reconcile_channel answers scanned 0 0 operator treasury None)).
  assert (Hr : reconcile_channel answers scanned 0 0 operator treasury None = Ok r) by (vm_compute; reflexivity).
  assert (Hd : rr_disposition r = DispositionDelete) by (vm_compute; reflexivity). split; [exact Hd|].
  pose proof (session_record_is_given_up_on_proof answers scanned 0 0 operator treasury None r Hr) as Hp. rewrite Hd in Hp. destruct Hp as [_ Hp]. exact Hp.
Defined.

(** ** Resources *)
Example cleanup_completes_after_quiet_witness :
  never_scanned record ∧ quiet_window 100 (empty_run [(10, 0); (50, 2); (60, 0); (100, 0); (160, 0)]) ∧
  is_Some (extra (scanned_resources 100 record [(10, 0); (50, 2); (60, 0); (100, 0); (160, 0)]) !! RESOURCE_CLEANUP_COMPLETED_AT).
Proof.
  assert (Hn : never_scanned record) by (intros k _; reflexivity).
  assert (Hq : quiet_window 100 (empty_run [(10, 0); (50, 2); (60, 0); (100, 0); (160, 0)]))
    by (exists 60, 160; split; [reflexivity|split; [vm_compute; right; right; left|vm_compute; discriminate]]).
  split; [exact Hn|]. split; [exact Hq|].
  apply (cleanup_completes_after_quiet 100 record [(10, 0); (50, 2); (60, 0); (100, 0); (160, 0)]); [exact Hn|repeat constructor; vm_compute; discriminate|exact Hq].
Defined.
Example cleanup_waits : ¬ quiet_window 100 (empty_run [(10, 0); (50, 2); (60, 0); (100, 0)]).
Proof.
  intros (t0 & t & [= <-] & Ht & Hq). vm_compute in Ht. unfold saturating_sub in Hq.
  apply elem_of_cons in Ht as [->|[->|Ht%elem_of_nil]%elem_of_cons]; [lia|lia|done].
Qed.

(** ** What is left open

    Past the grace period a session is sealed at what is settled, however much
    more was accepted; the batch path refuses.  The pass then counts everything
    accepted as settled and paid out. *)
Definition late : WorkerState := with_channel scanned (with_cumulative record 350).
Definition late_plan : SettlementCandidate := default no_plan (session_plan (reading STATUS_CLOSING 100 (Some refund_account)) late 1100 None).
Example late_close_reports_everything_settled :
  map ix_data (sc_instructions (submitted_session late_plan operator)) = [[5]; [6]] ∧
  ch_settled (foldl exec (sample_channel STATUS_CLOSING 100) (sc_instructions (submitted_session late_plan operator))) = 100 ∧
  snap_settled (sc_after late_plan) = 350 ∧ snap_distributed (sc_after late_plan) = 350 ∧ snap_unsettled (sc_after late_plan) = 0 ∧
  planned (reconcile (frozen_at late 350) closing 1100) = None.
Proof. vm_compute. done. Qed.
(** A session without a binding whose payer closes on chain is planned from the
    scanned record: nothing is frozen, a live reservation is not waited for,
    and a voucher it commits afterwards is lost. *)
Definition busy_session : WorkerState := {|
  ws_channel := record; ws_payer := ws_payer scanned; authorized_signer := authorized_signer scanned; final_cumulative := None;
  settled_on_chain := 0; distributed_on_chain := 0; highest_voucher_signature := Some "signature"; highest_voucher_expires_at := Some 10000;
  last_activity_at := 0; onchain_checked_at := 0; pending_deliveries := pending_deliveries busy |}.
Definition unfenced_plan : SettlementCandidate :=
  default no_plan (session_plan (reading STATUS_CLOSING 100 (Some refund_account)) busy_session 1010 None).
Example payer_close_is_not_fenced :
  has_blocking_authorization busy_session 1010 = true ∧ final_cumulative busy_session = None ∧ channel_close_due busy_session 1010000 = false ∧
  sc_kind unfenced_plan = IdleClose ∧
  gateway busy_session (with_channel busy_session (with_cumulative record 350)) ∧
  ch_settled (foldl exec (sample_channel STATUS_CLOSING 100) (sc_instructions unfenced_plan)) = 300.
Proof.
  split_and!; try (vm_compute; reflexivity). split; [vm_compute; discriminate|by intros [? [=]]].
Qed.
(** A bound close that cannot pay its payer back seals the channel alone, as a
    watermark, and is sent without the guard. *)
Definition seal_only : SettlementCandidate := default no_plan (session_plan (reading STATUS_CLOSING 100 None) claimed_state 1010 (Some config)).
Example bound_seal_is_not_guarded :
  sc_instructions seal_only ≠ [] ∧ ch_status (foldl exec (sample_channel STATUS_CLOSING 100) (sc_instructions seal_only)) = STATUS_SEALED ∧
  guarded true seal_only = false ∧ guarded true bound_plan = true.
Proof. split_and!; [vm_compute; discriminate|vm_compute; reflexivity..]. Qed.
