(* ===== verification/StreamDecode.v ===== *)
(** * StreamDecode: records of a streamed response

    The decoders of [core/src/server/session_stream.rs] that find the usage in
    a streamed body, and the hold that keeps back the bytes of a record until
    it is complete.  Buffers are bytes; a chunk may end anywhere, inside a
    character or between the two bytes of a line ending. *)
From S2P Require Import Prelude F64 Text Affixes MeteringTypes SessionMetering Landing UsageSettlement.
#[local] Open Scope string_scope.
#[local] Open Scope list_scope.
#[local] Open Scope Z_scope.

Definition MAX_NDJSON_RECORD_BYTES : Z := 1024 * 1024.
Definition MAX_SSE_EVENT_BYTES : Z := 16 * 1024 * 1024.

(** ** UTF-8 of a prefix

    [std::str::from_utf8]: valid, cut inside its last character, or not
    UTF-8; [valid_up_to] bytes are whole characters. *)
Inductive Utf8 := Valid | Truncated (valid_up_to : nat) | Invalid.

(** The bytes of the first character: how many, none if the input ends in it. *)
Inductive char_len := Chars (n : nat) | CutShort | NotUtf8.
Definition second_byte_ok (a b : Z) : bool :=
  if a =? 224 then (160 <=? b) && (b <=? 191) else if a =? 237 then (128 <=? b) && (b <=? 159)
  else if a =? 240 then (144 <=? b) && (b <=? 191) else if a =? 244 then (128 <=? b) && (b <=? 143) else cont b.
Definition first_char (l : list Z) : char_len :=
  match l with
  | [] => CutShort
  | a :: l1 =>
      if a <=? 127 then Chars 1
      else
        let width := if (194 <=? a) && (a <=? 223) then 2%nat else if (224 <=? a) && (a <=? 239) then 3%nat
                     else if (240 <=? a) && (a <=? 244) then 4%nat else 0%nat in
        if (width =? 0)%nat then NotUtf8
        else
          match take (width - 1) l1 with
          | [] => CutShort
          | b :: rest =>
              if second_byte_ok a b && forallb cont rest then if (length rest <? width - 2)%nat then CutShort else Chars width
              else NotUtf8
          end
  end.
Fixpoint from_utf8_go (fuel : nat) (valid : nat) (l : list Z) : Utf8 :=
  match fuel with
  | O => Valid
  | S fuel =>
      match l with
      | [] => Valid
      | _ => match first_char l with
             | Chars n => from_utf8_go fuel (valid + n) (drop n l)
             | CutShort => Truncated valid
             | NotUtf8 => Invalid
             end
      end
  end.
Definition from_utf8 (l : list Z) : Utf8 := from_utf8_go (length l) 0 l.

(** ** The record hold *)

(** [sse_record_end]: past the last blank line. *)
Fixpoint record_end_go (l : list Z) (line_empty : bool) (index end_ : nat) : nat :=
  match l with
  | [] => end_
  | a :: l1 =>
      if a =? CR then
        match l1 with
        | [] => end_
        | b :: l2 =>
            if b =? LF then record_end_go l2 true (S (S index)) (if line_empty then (S (S index)) else end_)
            else record_end_go l1 true (S index) (if line_empty then S index else end_)
        end
      else if a =? LF then record_end_go l1 true (S index) (if line_empty then S index else end_)
      else record_end_go l1 false (S index) end_
  end.
Definition sse_record_end (bytes : list Z) : nat := record_end_go bytes true 0 0.
(** Past the last newline. *)
Fixpoint last_newline (l : list Z) (index end_ : nat) : nat :=
  match l with [] => end_ | a :: l => last_newline l (S index) (if a =? LF then S index else end_) end.

Record RecordHold := { held : list Z; sse_contents_metered : bool; ndjson_contents_metered : bool }.
Definition metered_units (units : list BillingUnit) (spec : SessionMeterSpec) : bool :=
  existsb (λ d, bool_decide (sd_unit d ∈ units)) (spec_dimensions spec).
Definition hold_for_spec (spec : SessionMeterSpec) : RecordHold := {|
  held := []; sse_contents_metered := metered_units [Tokens; QuotaUnits; Characters] spec;
  ndjson_contents_metered := metered_units [Tokens; QuotaUnits] spec |}.
Definition with_held (h : RecordHold) (l : list Z) : RecordHold :=
  {| held := l; sse_contents_metered := sse_contents_metered h; ndjson_contents_metered := ndjson_contents_metered h |}.
Definition record_too_large (kind : string) (limit : Z) : SessionMeteringError :=
  InvalidStream (kind +:+ " exceeds " +:+ show limit +:+ " bytes").
(** Nothing to release is [None] in the source, the empty list here. *)
Definition hold_push (h : RecordHold) (chunk : list Z) (is_sse : bool) : result SessionMeteringError (RecordHold * list Z) :=
  let contents_metered := if is_sse then sse_contents_metered h else ndjson_contents_metered h in
  if negb contents_metered then Ok (with_held h [], held h ++ chunk)
  else
    let bytes := held h ++ chunk in
    let '(end_, limit, kind) := if is_sse then (sse_record_end bytes, MAX_SSE_EVENT_BYTES, "SSE event")
                                else (last_newline bytes 0 0, MAX_NDJSON_RECORD_BYTES, "NDJSON record") in
    if limit <? zlen bytes - Z.of_nat end_ then Err (record_too_large kind limit)
    else Ok (with_held h (drop end_ bytes), take end_ bytes).
Definition hold_finish (h : RecordHold) : RecordHold * list Z := (with_held h [], held h).

(** ** The event decoder *)
Record SseUsageDecoder := { sse_pending : list Z; sse_buffer : list Z }.
Definition sse_default : SseUsageDecoder := {| sse_pending := []; sse_buffer := [] |}.

Section decoders.
Context (utf8_error_text : list Z → string) (parse_json : list Z → result string json).

(** How much of the pending bytes is decoded: whole characters, less a
    carriage return at their end. *)
Definition decodable (pending : list Z) : option nat :=
  let valid := match from_utf8 pending with Valid => Some (length pending) | Truncated n => Some n | Invalid => None end in
  n ← valid;
  Some (match pending !! Nat.pred n with
        | Some b => if (0 <? n)%nat && (b =? CR) then Nat.pred n else n
        | None => n
        end).
Definition sse_push_chunk (d : SseUsageDecoder) (chunk : list Z) :
    result SessionMeteringError (SseUsageDecoder * list (list Z)) :=
  let pending := sse_pending d ++ chunk in
  match decodable pending with
  | None => Err (InvalidStream (utf8_error_text pending))
  | Some valid =>
      let '(blocks, buffer) := take_blocks [] (sse_buffer d ++ normalize (take valid pending)) in
      let pending := drop valid pending in
      if MAX_SSE_EVENT_BYTES <? zlen buffer + zlen pending then Err (record_too_large "SSE event" MAX_SSE_EVENT_BYTES)
      else Ok ({| sse_pending := pending; sse_buffer := buffer |}, blocks)
  end.
Fixpoint drop_newlines (l : list Z) : list Z :=
  match l with a :: l' => if a =? LF then drop_newlines l' else l | [] => [] end.
Definition trim_newlines (l : list Z) : list Z := reverse (drop_newlines (reverse (drop_newlines l))).
Definition sse_finish (d : SseUsageDecoder) : result SessionMeteringError (SseUsageDecoder * list (list Z)) :=
  match from_utf8 (sse_pending d) with
  | Valid =>
      let block := trim_newlines (sse_buffer d ++ normalize (sse_pending d)) in
      Ok (sse_default, if bool_decide (block = []) then [] else [block])
  | _ => Err (InvalidStream "SSE stream ended inside a UTF-8 character")
  end.
(** The JSON document of an event. *)
Definition event_document (block : list Z) : option json :=
  data ← parse_sse_event (string_of_bytes block);
  if bool_decide (trim data = "[DONE]") then None
  else match parse_json (str_bytes data) with Ok v => Some v | Err _ => None end.

(** ** The record decoder *)
Record NdjsonUsageDecoder := { ndjson_buffer : list Z; records_carry_usage : bool }.
Definition ndjson_for_spec (spec : SessionMeterSpec) : NdjsonUsageDecoder :=
  {| ndjson_buffer := []; records_carry_usage := metered_units [Tokens; QuotaUnits] spec |}.
Definition parse_ndjson_record (line : list Z) (carry : bool) : result SessionMeteringError (option json) :=
  match from_utf8 line with
  | Valid =>
      let text := trim (string_of_bytes line) in
      if bool_decide (text = "") then Ok None
      else match parse_json (str_bytes text) with
           | Ok v => Ok (Some v)
           | Err e => if carry then Err (InvalidStream ("malformed NDJSON record: " +:+ e)) else Ok None
           end
  | _ => Err (InvalidStream (utf8_error_text line))
  end.
Fixpoint take_lines (line : list Z) (l : list Z) : list (list Z) * list Z :=
  match l with
  | [] => ([], line)
  | a :: l => if a =? LF then let '(ls, rest) := take_lines [] l in (line :: ls, rest) else take_lines (line ++ [a]) l
  end.
Fixpoint parse_lines (lines : list (list Z)) (carry : bool) : result SessionMeteringError (list json) :=
  match lines with
  | [] => Ok []
  | line :: lines =>
      v ← parse_ndjson_record line carry;
      vs ← parse_lines lines carry;
      Ok (match v with Some v => v :: vs | None => vs end)
  end.
Definition ndjson_push_chunk (d : NdjsonUsageDecoder) (chunk : list Z) : result SessionMeteringError (NdjsonUsageDecoder * list json) :=
  let '(lines, buffer) := take_lines [] (ndjson_buffer d ++ chunk) in
  values ← parse_lines lines (records_carry_usage d);
  if MAX_NDJSON_RECORD_BYTES <? zlen buffer then Err (record_too_large "NDJSON record" MAX_NDJSON_RECORD_BYTES)
  else Ok ({| ndjson_buffer := buffer; records_carry_usage := records_carry_usage d |}, values).
Definition ndjson_finish (d : NdjsonUsageDecoder) : result SessionMeteringError (NdjsonUsageDecoder * list json) :=
  value ← parse_ndjson_record (ndjson_buffer d) (records_carry_usage d);
  Ok ({| ndjson_buffer := []; records_carry_usage := records_carry_usage d |}, match value with Some v => [v] | None => [] end).

(** [count_stream_utf8_chars]: the whole characters, and the start of the
    next. *)
Definition char_count (l : list Z) : Z := zlen (List.filter (λ b, negb (cont b)) l).
Definition count_stream_utf8_chars (tail chunk : list Z) : result SessionMeteringError (list Z * Z) :=
  let bytes := tail ++ chunk in
  match from_utf8 bytes with
  | Valid => Ok ([], char_count bytes)
  | Truncated valid => Ok (drop valid bytes, char_count (take valid bytes))
  | Invalid => Err (InvalidStream (utf8_error_text bytes))
  end.
End decoders.

(** ** Characters *)
Definition high (b : Z) : Prop := 128 ≤ b.
Lemma second_byte_high a b : second_byte_ok a b = true → high b.
Proof. unfold second_byte_ok, high, cont. repeat case_match; rewrite andb_true_iff, !Z.leb_le; lia. Qed.
Lemma cont_high b : cont b = true → high b.
Proof. unfold cont, high. rewrite andb_true_iff, !Z.leb_le. lia. Qed.

(** A character cut short is all high bytes; a whole one is UTF-8. *)
Lemma first_char_cut l : l ≠ [] → first_char l = CutShort → Forall high l.
Proof.
  destruct l as [|a l1]; [done|]. intros _. unfold first_char. destruct (Z.leb_spec a 127); [done|]. set (w := if _ && _ then 2%nat else _).
  destruct (Nat.eqb_spec w 0) as [|Hw0]; [done|].
  assert (2 ≤ w)%nat as Hw by (unfold w in *; repeat case_match; lia). destruct (take (w - 1) l1) as [|b rest] eqn:Ht.
  - intros _. constructor; [unfold high; lia|].
    destruct l1; [constructor|]. destruct (w - 1)%nat eqn:E; [lia|discriminate Ht].
  - destruct (second_byte_ok a b && forallb cont rest) eqn:Hok; [|done]. destruct (Nat.ltb_spec (length rest) (w - 2)); [|done]. intros _.
    assert (l1 = b :: rest) as ->.
    { rewrite <-Ht. symmetry. apply take_ge. pose proof (f_equal length Ht) as Hl. rewrite length_take in Hl. cbn in Hl. lia. }
    apply andb_true_iff in Hok as [Hb%second_byte_high Hr]. constructor; [unfold high; lia|]. constructor; [done|].
    apply Forall_forall. intros x Hx. apply cont_high. rewrite forallb_forall in Hr. apply Hr. by apply list_elem_of_In.
Qed.

Lemma first_char_whole l n : first_char l = Chars n → (0 < n ≤ length l)%nat.
Proof.
  unfold first_char. destruct l as [|a l1]; [done|]. destruct (a <=? 127); [intros [= <-]; cbn; lia|]. set (w := if _ && _ then 2%nat else _).
  destruct (Nat.eqb_spec w 0); [done|]. destruct (take (w - 1) l1) as [|b rest] eqn:Ht; [done|].
  destruct (second_byte_ok a b && _); [|done]. destruct (Nat.ltb_spec (length rest) (w - 2)) as [|Hle]; [done|]. intros [= <-].
  pose proof (f_equal length Ht) as Hl. rewrite length_take in Hl. cbn [length] in *. lia.
Qed.

Lemma from_utf8_cut fuel : ∀ valid l n, (length l ≤ fuel)%nat → from_utf8_go fuel valid l = Truncated n →
  ∃ m, n = (valid + m)%nat ∧ (m < length l)%nat ∧ first_char (drop m l) = CutShort.
Proof.
  induction fuel as [|fuel IH]; intros valid l n Hlen; [done|]. cbn [from_utf8_go]. destruct l as [|a l]; [done|].
  destruct (first_char (a :: l)) as [k| |] eqn:Hc; [|intros [= <-]; exists 0%nat; rewrite drop_0; split_and!; [lia|cbn; lia|done]|done].
  apply first_char_whole in Hc. intros (m & -> & Hm & Hcut)%IH; [|rewrite length_drop; cbn in *; lia].
  exists (k + m)%nat. rewrite length_drop in Hm. split_and!; [lia|lia|]. by rewrite <-drop_drop.
Qed.

(** ** What one chunk leaves undecoded *)

(** The start of a character, of which more is to come. *)
Definition char_start (t : list Z) : bool := match t, first_char t with _ :: _, CutShort => true | _, _ => false end.
(** Undecoded bytes: a carriage return, the start of a character, or both. *)
Inductive undecoded : list Z → Prop :=
  | und_none : undecoded []
  | und_cr : undecoded [CR]
  | und_char t : char_start t = true → undecoded t
  | und_split t : char_start t = true → undecoded (CR :: t).
Definition plain (b : Z) : Prop := b ≠ LF ∧ b ≠ CR.

Lemma char_start_spec t : char_start t = true ↔ t ≠ [] ∧ first_char t = CutShort.
Proof. unfold char_start. destruct t; [naive_solver|]. destruct (first_char _); naive_solver. Qed.
Lemma char_start_plain t : char_start t = true → Forall plain t.
Proof.
  intros [Ht Hc]%char_start_spec. eapply Forall_impl; [by apply first_char_cut|]. intros b Hb. unfold high, plain, LF, CR in *. lia.
Qed.
Lemma char_start_invalid t : char_start t = true → from_utf8 t ≠ Valid ∧ from_utf8 (CR :: t) ≠ Valid.
Proof.
  intros [Ht Hc]%char_start_spec. unfold from_utf8. split.
  - destruct t; [done|]. cbn [length from_utf8_go]. by rewrite Hc.
  - destruct t; [done|]. cbn [length from_utf8_go]. change (first_char (CR :: z :: t)) with (Chars 1). cbn [drop]. by rewrite Hc.
Qed.

(** Where the decoder stops: between a whole character and an undecoded rest,
    never past a carriage return it reads the bytes after. *)
Lemma decodable_rest b n :
  decodable b = Some n →
  undecoded (drop n b) ∧ ((∃ r, drop n b = CR :: r) ∨ (n = 0%nat ∨ last (take n b) ≠ Some CR)).
Proof.
  unfold decodable. intros (v & Hv & [= <-])%bind_Some.
  assert (v = length b ∨ char_start (drop v b) = true) as Hcase.
  { destruct (from_utf8 b) as [|m0|] eqn:Hu; [by left; injection Hv as <-| |done]. injection Hv as <-. right. unfold from_utf8 in Hu.
    apply from_utf8_cut in Hu as (m & -> & Hm & Hc); [|lia]. apply char_start_spec. split; [|done].
    intros E%(f_equal length). rewrite length_drop in E. cbn in E. lia. }
  assert (undecoded (drop v b)) as Hrest by (destruct Hcase as [->|]; [rewrite drop_all|]; by constructor).
  destruct (b !! Nat.pred v) as [c|] eqn:Hc.
  - destruct (Nat.ltb_spec 0 v); cbn [andb]; [|split; [done|right; left; lia]]. destruct (Z.eqb_spec c CR) as [->|Hcr].
    + rewrite (drop_S _ _ _ Hc). replace (S (Nat.pred v)) with v in * by lia.
      split; [|left; by eexists]. destruct Hcase as [->|]; [rewrite drop_all|]; by constructor.
    + split; [done|]. right. right. rewrite last_lookup, length_take.
      assert (v ≤ length b)%nat by (apply lookup_lt_Some in Hc; lia). replace (v `min` length b)%nat with v by lia. rewrite lookup_take_lt by lia. rewrite Hc. congruence.
  - split; [done|]. right. left. apply lookup_ge_None in Hc. destruct Hcase as [->|Hs]; [lia|]. destruct v; [done|].
    rewrite drop_ge in Hs by lia. done.
Qed.

(** What the decoder reads and what it has not read meet at no line ending. *)
Definition meets (p rest : list Z) : Prop := last p ≠ Some CR ∨ ∃ a r, rest = a :: r ∧ a ≠ LF.
Inductive cut (p : list Z) : list Z → Prop :=
  | cut_none : last p ≠ Some CR → cut p []
  | cut_cr : cut p [CR]
  | cut_char t : t ≠ [] → Forall plain t → cut p t.

Lemma last_app_not {A} (p q : list A) (a : A) : last (p ++ q) = Some a → last q = Some a ∨ q = [] ∧ last p = Some a.
Proof. rewrite last_app. destruct (last q) eqn:E; [intros [= <-]; by left|]. apply last_None in E. by right. Qed.

Lemma decodable_meets p b n :
  meets p b → decodable b = Some n → meets (p ++ take n b) (drop n b) ∧ (last p ≠ Some CR ∨ head (take n b) ≠ Some LF).
Proof.
  intros Hmeets Hn. split.
  - apply decodable_rest in Hn as [_ [[r ->]|[->|Hlast]]]; [right; by eexists _, _| |].
    + rewrite take_0, drop_0, app_nil_r. done.
    + destruct Hmeets as [Hp|(a & r & -> & Ha)].
      * left. intros [?|[_ ?]]%last_app_not; done.
      * destruct n as [|n]; [right; exists a, r; by rewrite drop_0|]. left. intros [?|[? ?]]%last_app_not; done.
  - destruct Hmeets as [Hp|(a & r & -> & Ha)]; [by left|]. right. destruct n; [done|]. cbn. congruence.
Qed.

Lemma undecoded_cut p pending : meets p pending → undecoded pending → (∀ t, char_start t = true → pending ≠ CR :: t) → cut p pending.
Proof.
  intros Hm Hu Hno. destruct Hu as [| |t Ht|t Ht]; [| | |by destruct (Hno t)].
  - apply cut_none. by destruct Hm as [|(a & r & ? & _)].
  - apply cut_cr.
  - apply cut_char; [by apply char_start_spec in Ht as [? _]|by apply char_start_plain].
Qed.

(** ** Line endings *)
Lemma normalize_cons_other a l : a ≠ CR → normalize (a :: l) = a :: normalize l.
Proof. intros Ha%Z.eqb_neq. cbn. by rewrite Ha. Qed.

(** Line endings are read alike in the parts of a text that is not cut between
    a carriage return and its newline. *)
Lemma normalize_app p q : last p ≠ Some CR ∨ head q ≠ Some LF → normalize (p ++ q) = normalize p ++ normalize q.
Proof.
  induction p as [p IH] using (induction_ltof1 _ length). unfold ltof in IH. intros Hcut. destruct p as [|a p]; [done|].
  assert (∀ r, (length r < length (a :: p))%nat → last (a :: p) = last r ∨ r = [] → normalize (r ++ q) = normalize r ++ normalize q) as IH'.
  { intros r Hlen [Hr| ->]; [|done]. apply IH; [done|]. rewrite <-Hr. done. }
  cbn [app normalize]. destruct (a =? CR) eqn:Ea.
  - apply Z.eqb_eq in Ea as ->. destruct p as [|b p].
    + cbn [app]. destruct q as [|c q]; [done|]. destruct (Z.eqb_spec c LF) as [->|]; [|done]. by destruct Hcut as [[]|[]].
    + cbn [app]. destruct (b =? LF).
      * rewrite IH'; [done|cbn; lia|]. destruct p; [by right|by left].
      * change (b :: p ++ q) with ((b :: p) ++ q). rewrite IH'; [done|cbn; lia|by left].
  - rewrite IH'; [done|cbn; lia|]. destruct p; [by right|by left].
Qed.

(** Blank lines of a decoded text: none in it, given whether its first line
    has started empty; or one at its very end. *)
Fixpoint blank_free (line_empty : bool) (v : list Z) : Prop :=
  match v with
  | [] => True
  | a :: v => if a =? LF then line_empty = false ∧ blank_free true v else blank_free false v
  end.
Fixpoint ends_blank (line_empty : bool) (x : list Z) : Prop :=
  match x with
  | [] => False
  | a :: x => (a = LF ∧ line_empty = true ∧ x = []) ∨ ends_blank (a =? LF) x
  end.

Lemma blank_free_weaken v : blank_free true v → blank_free false v.
Proof. destruct v as [|a v]; [done|]. cbn. destruct (a =? LF); naive_solver. Qed.

(** What the hold finds in the decoded part [p] of its bytes. *)
Definition scanned (p : list Z) (le : bool) (i e0 e : nat) : Prop :=
  (e = e0 ∧ blank_free le (normalize p)) ∨
  (∃ p1 p2, p = p1 ++ p2 ∧ e = (i + length p1)%nat ∧ p1 ≠ [] ∧ normalize p = normalize p1 ++ normalize p2 ∧
     ends_blank le (normalize p1) ∧ blank_free true (normalize p2)).

Lemma scanned_terminator t rest (le : bool) i e0 e :
  t ≠ [] → (∀ r, r `prefix_of` rest → normalize (t ++ r) = LF :: normalize r) →
  scanned rest true (i + length t) (if le then (i + length t)%nat else e0) e → scanned (t ++ rest) le i e0 e.
Proof.
  intros Ht Hn. assert (normalize (t ++ rest) = LF :: normalize rest) as Hrest by by apply Hn. assert (normalize (t ++ []) = LF :: normalize []) as Hnil by (apply Hn, prefix_nil). rewrite app_nil_r in Hnil.
  intros [[-> Hfree]|(p1 & p2 & -> & -> & Hp1 & Hp & Hends & Hfree)].
  - destruct le.
    + right. exists t, rest. rewrite Hrest, Hnil. split_and!; [done|done|done|done|by left|done].
    + left. rewrite Hrest. by split.
  - right. exists (t ++ p1), p2. rewrite length_app, Hrest, Hp, (Hn p1) by by exists p2.
    split_and!; [by rewrite app_assoc|lia|by destruct t|done| |done]. cbn. by right.
Qed.

Lemma scanned_other a rest le i e0 e :
  a ≠ CR → a ≠ LF → scanned rest false (S i) e0 e → scanned (a :: rest) le i e0 e.
Proof.
  intros Hcr Hlf. pose proof (proj2 (Z.eqb_neq a LF) Hlf) as Elf.
  intros [[-> Hfree]|(p1 & p2 & -> & -> & Hp1 & Hp & Hends & Hfree)].
  - left. rewrite normalize_cons_other by done. cbn. by rewrite Elf.
  - right. exists (a :: p1), p2. rewrite !normalize_cons_other, Hp by done.
    split_and!; [done|cbn; lia|done|done| |done]. cbn [ends_blank]. rewrite Elf. by right.
Qed.

(** The hold and the decoder find the same blank lines: what the hold releases
    ends in one, and what it keeps has none. *)
Lemma record_end_spec p pend le i e0 : cut p pend → scanned p le i e0 (record_end_go (p ++ pend) le i e0).
Proof.
  revert le i e0. induction p as [p IH] using (induction_ltof1 _ length). unfold ltof in IH. intros le i e0 Hcut.
  destruct p as [|a p].
  { left. split; [|done]. cbn [app]. clear IH. inversion Hcut as [| |t Hne Ht]; subst; [done|done|]. clear Hcut Hne.
    revert le i. induction Ht as [|b t [Hlf Hcr] _ IHt]; intros le i; [done|]. cbn [record_end_go].
    apply Z.eqb_neq in Hlf as ->, Hcr as ->. apply IHt. }
  assert (∀ r, r `suffix_of` p → r ≠ [] ∨ pend ≠ [] ∨ last (a :: p) ≠ Some CR → cut r pend) as Hcut'.
  { intros r [q ->] Hr. inversion Hcut as [Hlast| |]; subst; [|constructor|by constructor]. constructor. destruct r as [|c r]; [done|].
    rewrite app_comm_cons, last_app, last_cons in Hlast. rewrite last_cons. by destruct (last r). }
  cbn [app record_end_go]. destruct (a =? CR) eqn:Ea.
  - apply Z.eqb_eq in Ea as ->. destruct p as [|b p].
    + (* the carriage return is the last decoded byte *)
      cbn [app]. destruct pend as [|b pend]; [by inversion Hcut|].
      assert ((b =? LF) = false) as -> by (apply Z.eqb_neq; inversion Hcut as [| |t Hne Ht]; subst; [done|by apply Forall_cons in Ht as [[] _]]).
      apply (scanned_terminator [CR] []); [done|by intros r ->%prefix_nil_inv|]. cbn [length]. rewrite Nat.add_1_r.
      apply (IH []); [cbn; lia|]. inversion Hcut; subst; [constructor|by constructor].
    + cbn [app]. destruct (b =? LF) eqn:Eb.
      * apply Z.eqb_eq in Eb as ->. apply (scanned_terminator [CR; LF] p); [done|done|]. cbn [length]. replace (i + 2)%nat with (S (S i)) by lia.
        apply IH; [cbn; lia|]. destruct p as [|c p]; [|apply Hcut'; [by exists [LF]|by left]].
        inversion Hcut; subst; [by constructor|constructor|by constructor].
      * apply (scanned_terminator [CR] (b :: p)); [done| |].
        { intros [|c r] [k E]; [done|]. injection E as <- ->. cbn. rewrite Eb. done. }
        cbn [length]. rewrite Nat.add_1_r. change (b :: p ++ pend) with ((b :: p) ++ pend). apply IH; [cbn; lia|]. apply Hcut'; [done|by left].
  - assert (cut p pend) as Hp.
    { destruct p; [|apply Hcut'; [done|by left]]. inversion Hcut; subst; [by constructor|constructor|by constructor]. }
    destruct (a =? LF) eqn:El.
    + apply Z.eqb_eq in El as ->. apply (scanned_terminator [LF] p); [done|done|]. cbn [length]. rewrite Nat.add_1_r. apply IH; [cbn; lia|done].
    + apply Z.eqb_neq in Ea, El. apply scanned_other; [done|done|]. apply IH; [cbn; lia|done].
Qed.

(** ** Blocks *)
Definition joined (blocks : list (list Z)) : list Z := flat_map (λ b, b ++ [LF; LF]) blocks.

Lemma take_blocks_cons block a l :
  (a = LF ∧ ∃ l', l = LF :: l' ∧ take_blocks block (a :: l) = (block :: (take_blocks [] l').1, (take_blocks [] l').2)) ∨
  ((a ≠ LF ∨ head l ≠ Some LF) ∧ take_blocks block (a :: l) = take_blocks (block ++ [a]) l).
Proof.
  cbn [take_blocks]. destruct l as [|b l]; [right; split; [by right|done]|]. destruct (Z.eqb_spec a LF) as [->|], (Z.eqb_spec b LF) as [->|]; cbn [andb].
  - left. split; [done|]. exists l. split; [done|]. by destruct (take_blocks [] l).
  - right. split; [right; by intros [=]|done].
  - right. split; [by left|done].
  - right. split; [by left|done].
Qed.

Lemma take_blocks_free v : ∀ block, blank_free false v → take_blocks block v = ([], block ++ v).
Proof.
  induction v as [|a v IH]; intros block Hv; [cbn; by rewrite app_nil_r|].
  destruct (take_blocks_cons block a v) as [(-> & l' & -> & _)|[_ ->]].
  - cbn in Hv. destruct Hv as [_ [Hv _]]. done.
  - rewrite IH; [by rewrite <-app_assoc|]. cbn in Hv. destruct (a =? LF); [destruct Hv; by apply blank_free_weaken|done].
Qed.

(** Everything up to a blank line is taken, less at most a newline after it. *)
Lemma take_blocks_ends z v : ∀ block,
  (∃ y, z = y ++ [LF; LF]) → blank_free true v →
  ∃ bs k, (k ≤ 1)%nat ∧ take_blocks block (z ++ v) = (bs, replicate k LF ++ v) ∧ block ++ z = joined bs ++ replicate k LF.
Proof.
  induction z as [z IH] using (induction_ltof1 _ length). unfold ltof in IH. intros block [y Hz] Hv. destruct z as [|a z]; [by destruct y|].
  cbn [app]. destruct (take_blocks_cons block a (z ++ v)) as [(-> & l' & Hl & ->)|[Hno ->]].
  - destruct z as [|b z]; [destruct y as [|? [|]]; discriminate Hz|]. cbn [app] in Hl. injection Hl as -> <-.
    destruct z as [|c z].
    { exists [block], 0%nat. cbn [app]. rewrite (take_blocks_free v) by by apply blank_free_weaken. split; [lia|]. split; [done|]. cbn. by rewrite !app_nil_r. }
    assert (y = [LF] ∧ c = LF ∧ z = [] ∨ ∃ y', c :: z = y' ++ [LF; LF]) as [(-> & -> & ->)|Hy].
    { destruct y as [|y0 [|y1 y]]; [discriminate Hz|injection Hz as <- -> ->; by left|]. injection Hz as _ _ Hz. right. by exists y. }
    + exists [block], 1%nat. cbn [app]. rewrite (take_blocks_free (LF :: v)) by by split. split; [lia|]. split; [done|]. cbn. by rewrite app_nil_r, <-app_assoc.
    + destruct (IH (c :: z)) with (block := @nil Z) as (bs & k & Hk & Ht & Hj); [cbn; lia|done|done|]. exists (block :: bs), k.
      rewrite Ht. split; [done|]. split; [done|]. cbn [joined flat_map]. rewrite <-!app_assoc. cbn [app] in Hj |- *. by rewrite Hj.
  - assert (∃ y', z = y' ++ [LF; LF]) as Hy.
    { destruct y as [|y0 y]; [|injection Hz as _ ->; by exists y]. injection Hz as -> ->. by destruct Hno. }
    destruct (IH z) with (block := block ++ [a]) as (bs & k & Hk & Ht & Hj); [cbn; lia|done|done|]. exists bs, k.
    split; [done|]. split; [done|]. by rewrite <-Hj, <-app_assoc.
Qed.

Lemma ends_blank_spec x : ∀ le, ends_blank le x → (le = true ∧ x = [LF]) ∨ (∃ y, x = y ++ [LF; LF]).
Proof.
  induction x as [|a x IH]; intros le; [done|]. cbn. intros [(-> & -> & ->)|Hx]; [by left|]. right.
  apply IH in Hx as [[Ha%Z.eqb_eq ->]|[y ->]]; [subst; by exists []|by exists (a :: y)].
Qed.

(** Taking blocks after a text that is released. *)
Lemma take_released k x v :
  (k ≤ 1)%nat → ends_blank true x → blank_free true v →
  ∃ bs k', (k' ≤ 1)%nat ∧ take_blocks [] (replicate k LF ++ x ++ v) = (bs, replicate k' LF ++ v) ∧
    replicate k LF ++ x = joined bs ++ replicate k' LF.
Proof.
  intros Hk Hx Hv. apply ends_blank_spec in Hx as [[_ ->]|[y ->]].
  - destruct k as [|[|k]]; [| |lia].
    + exists [], 1%nat. cbn [replicate app]. rewrite (take_blocks_free (LF :: v)) by by split. split; [lia|]. by split.
    + exists [[]], 0%nat. change (replicate 1 LF ++ [LF] ++ v) with (LF :: LF :: v). cbn [take_blocks]. cbn [Z.eqb andb].
      change (LF =? LF) with true. cbn [andb]. rewrite take_blocks_free by by apply blank_free_weaken. split; [lia|]. by split.
  - destruct (take_blocks_ends (replicate k LF ++ y ++ [LF; LF]) v []) as (bs & k' & Hk' & Ht & Hj); [exists (replicate k LF ++ y); by rewrite app_assoc|done|].
    exists bs, k'. split; [done|]. by rewrite app_assoc.
Qed.

(** A text without blank lines only moves into the block. *)
Lemma take_blocks_shift r y : ∀ block,
  blank_free false r → last r ≠ Some LF ∨ head y ≠ Some LF → take_blocks block (r ++ y) = take_blocks (block ++ r) y.
Proof.
  induction r as [|a r IH]; intros block Hr Hy; [by rewrite app_nil_r|]. cbn [app]. destruct (take_blocks_cons block a (r ++ y)) as [(-> & l' & Hl & _)|[_ ->]].
  - exfalso. destruct r as [|b r]; cbn [app] in Hl; [subst y; cbn in Hy; tauto|]. injection Hl as -> _. cbn in Hr. naive_solver.
  - rewrite IH; [by rewrite <-app_assoc| |].
    + cbn in Hr. destruct (a =? LF); [destruct Hr; by apply blank_free_weaken|done].
    + destruct r; [|done]. destruct Hy as [Hy|]; [by left|by right].
Qed.

Lemma blank_free_snoc r a : ∀ le, blank_free le r → last r ≠ Some LF ∨ a ≠ LF → (le = false ∨ r ≠ [] ∨ a ≠ LF) → blank_free le (r ++ [a]).
Proof.
  induction r as [|b r IH]; intros le Hr Ha Hle.
  - cbn. destruct (Z.eqb_spec a LF); [|done]. subst. naive_solver.
  - cbn in Hr |- *. assert (last r ≠ Some LF ∨ a ≠ LF) as Ha' by (destruct r; [by left|done]). destruct (Z.eqb_spec b LF) as [->|].
    + destruct Hr as [-> Hr]. split; [done|]. apply IH; [done|done|]. destruct r; [|by right; left]. destruct Ha as [Ha|]; [done|by right; right].
    + apply IH; [done|done|by left].
Qed.

(** The block read last has no blank line. *)
Lemma take_blocks_rest l : ∀ block bs r,
  blank_free false block → last block ≠ Some LF ∨ head l ≠ Some LF → take_blocks block l = (bs, r) → blank_free false r.
Proof.
  induction l as [l IH] using (induction_ltof1 _ length). unfold ltof in IH. intros block bs r Hb Hmeet Ht. destruct l as [|a l]; [by injection Ht as _ <-|].
  destruct (take_blocks_cons block a l) as [(-> & l' & -> & E)|[Hno E]]; rewrite E in Ht; clear E.
  - destruct (take_blocks [] l') as [bs' r'] eqn:E'. injection Ht as _ <-. apply (IH l') in E'; [done|cbn; lia|done|by left].
  - apply (IH l) in Ht; [done|cbn; lia| |].
    + apply blank_free_snoc; [done| |by left]. destruct Hmeet; [by left|right; cbn in *; congruence].
    + destruct Hno; [left; rewrite last_snoc; congruence|by right].
Qed.

(** Blocks are taken a chunk at a time. *)
Lemma take_blocks_app x y : ∀ block bs r,
  blank_free false block → last block ≠ Some LF ∨ head (x ++ y) ≠ Some LF → take_blocks block x = (bs, r) →
  take_blocks block (x ++ y) = (bs ++ (take_blocks [] (r ++ y)).1, (take_blocks [] (r ++ y)).2).
Proof.
  induction x as [x IH] using (induction_ltof1 _ length). unfold ltof in IH. intros block bs r Hb Hmeet Ht. destruct x as [|a x].
  - injection Ht as <- <-. cbn [app]. rewrite (take_blocks_shift block y) by done. by destruct (take_blocks _ y).
  - destruct x as [|b x].
    + (* the last byte may begin a blank line with the first of [y] *)
      cbn in Ht. injection Ht as <- <-. rewrite <-app_assoc. cbn [app]. rewrite take_blocks_shift by done. cbn [app]. by destruct (take_blocks block _).
    + cbn [app] in Hmeet |- *. cbn [take_blocks] in Ht |- *. destruct ((a =? LF) && (b =? LF)) eqn:Eab.
      * destruct (take_blocks [] x) as [bs' r'] eqn:E. injection Ht as <- <-. rewrite (IH x) with (bs := bs') (r := r'); [done|cbn; lia|done|by left|done].
      * apply (IH (b :: x)); [cbn; lia| | |done].
        -- apply blank_free_snoc; [done| |by left]. destruct Hmeet; [by left|right; cbn in *; congruence].
        -- rewrite last_snoc. cbn. destruct (Z.eqb_spec a LF); [right|left; congruence]. cbn in Eab. apply Z.eqb_neq in Eab. congruence.
Qed.

(** ** The data of an event does not depend on empty lines around it *)
Definition data_of (block : list Z) : option string := parse_sse_event (string_of_bytes block).

Lemma split_on_ne c s : split_on c s ≠ [].
Proof. destruct s as [|a s]; [done|]. cbn. destruct (Ascii.eqb a c); [done|]. by destruct (split_on c s). Qed.
Lemma split_on_end c s : split_on c (s +:+ String c EmptyString) = split_on c s ++ [EmptyString].
Proof.
  induction s as [|a s IH]; [change ("" +:+ String c "") with (String c ""); cbn [split_on]; by rewrite Ascii.eqb_refl|]. change (String a s +:+ String c "") with (String a (s +:+ String c "")). cbn [split_on].
  destruct (Ascii.eqb a c); [by rewrite IH|]. rewrite IH. pose proof (split_on_ne c s). by destruct (split_on c s).
Qed.
Lemma string_of_bytes_app p q : string_of_bytes (p ++ q) = string_of_bytes p +:+ string_of_bytes q.
Proof. induction p as [|a p IH]; [done|]. exact (f_equal (String _) IH). Qed.

Lemma data_of_cons b : data_of (LF :: b) = data_of b.
Proof.
  unfold data_of, parse_sse_event. change (string_of_bytes (LF :: b)) with (String newline (string_of_bytes b)). cbn [split_on].
  by rewrite Ascii.eqb_refl.
Qed.
Lemma data_of_snoc b : data_of (b ++ [LF]) = data_of b.
Proof.
  unfold data_of, parse_sse_event. rewrite string_of_bytes_app. change (string_of_bytes [LF]) with (String newline ""). rewrite split_on_end, omap_app.
  by rewrite app_nil_r.
Qed.

Lemma drop_newlines_spec l : ∃ j, l = replicate j LF ++ drop_newlines l.
Proof.
  induction l as [|a l [j IH]]; [by exists 0%nat|]. cbn [drop_newlines]. destruct (Z.eqb_spec a LF) as [->|]; [|by exists 0%nat].
  exists (S j). cbn [replicate app]. by rewrite <-IH.
Qed.
Lemma data_of_trim b : data_of (trim_newlines b) = data_of b.
Proof.
  unfold trim_newlines. destruct (drop_newlines_spec b) as [j Hj]. destruct (drop_newlines_spec (reverse (drop_newlines b))) as [k Hk].
  apply (f_equal reverse) in Hk. rewrite reverse_involutive, reverse_app, reverse_replicate in Hk. rewrite Hj at 2. rewrite Hk at 2.
  generalize (reverse (drop_newlines (reverse (drop_newlines b)))) as t. intros t. clear. induction j as [|j IH]; cbn [replicate app]; [|by rewrite data_of_cons].
  induction k as [|k IH]; [by rewrite app_nil_r|]. by rewrite replicate_S_end, app_assoc, data_of_snoc.
Qed.

(** ** A body read chunk by chunk *)
Section runs.
Context (utf8_error_text : list Z → string) (parse_json : list Z → result string json).

Fixpoint sse_feed (d : SseUsageDecoder) (chunks : list (list Z)) : result SessionMeteringError (SseUsageDecoder * list (list Z)) :=
  match chunks with
  | [] => Ok (d, [])
  | chunk :: chunks =>
      '(d, blocks) ← sse_push_chunk utf8_error_text d chunk;
      '(d, blocks') ← sse_feed d chunks;
      Ok (d, blocks ++ blocks')
  end.
Definition sse_stream (chunks : list (list Z)) : result SessionMeteringError (list (list Z)) :=
  '(d, blocks) ← sse_feed sse_default chunks;
  '(_, final) ← sse_finish d;
  Ok (blocks ++ final).

(** The decoder after the bytes [seen] and the blocks it gave. *)
Definition decoded_to (d : SseUsageDecoder) (seen : list Z) (blocks : list (list Z)) : Prop :=
  ∃ p, seen = p ++ sse_pending d ∧ meets p (sse_pending d) ∧ undecoded (sse_pending d) ∧
       take_blocks [] (normalize p) = (blocks, sse_buffer d).

Lemma meets_more p b chunk : meets p b → meets p (b ++ chunk).
Proof. intros [?|(a & r & -> & ?)]; [by left|right; by exists a, (r ++ chunk)]. Qed.

Lemma push_decoded d seen blocks chunk d' more :
  decoded_to d seen blocks → sse_push_chunk utf8_error_text d chunk = Ok (d', more) → decoded_to d' (seen ++ chunk) (blocks ++ more).
Proof.
  intros (p & -> & Hm & _ & Ht). unfold sse_push_chunk. set (b := sse_pending d ++ chunk). destruct (decodable b) as [n|] eqn:Hn; [|done].
  destruct (take_blocks [] (sse_buffer d ++ normalize (take n b))) as [bs buf] eqn:Hb. case_match; [done|]. intros [= <- <-].
  destruct (decodable_meets p b n) as [Hm' Hnorm]; [by apply meets_more|done|]. exists (p ++ take n b). cbn [sse_pending sse_buffer].
  split_and!; [by rewrite <-!app_assoc, take_drop|done|by apply (decodable_rest b)|].
  rewrite normalize_app by done. rewrite (take_blocks_app (normalize p) (normalize (take n b)) [] blocks (sse_buffer d)), Hb by (done || by left). done.
Qed.

Lemma feed_decoded chunks : ∀ d seen blocks d' more,
  decoded_to d seen blocks → sse_feed d chunks = Ok (d', more) → decoded_to d' (seen ++ concat chunks) (blocks ++ more).
Proof.
  induction chunks as [|chunk chunks IH]; intros d seen blocks d' more Hd; cbn [sse_feed concat].
  - intros [= <- <-]. by rewrite !app_nil_r.
  - intros ([d1 b1] & Hpush & ([d2 b2] & Hfeed & [= <- <-])%bind_Ok)%bind_Ok. rewrite !app_assoc. eapply IH; [|exact Hfeed]. by eapply push_decoded.
Qed.

(** The last, unterminated block. *)
Lemma final_block r pending :
  blank_free false r → pending = [] ∨ pending = [CR] →
  omap data_of ((take_blocks [] (r ++ normalize pending)).1 ++ [(take_blocks [] (r ++ normalize pending)).2]) =
  omap data_of [trim_newlines (r ++ normalize pending)].
Proof.
  intros Hr Hp. assert (∀ x : list Z, omap data_of [trim_newlines x] = omap data_of [x]) as Htrim by (intros x; cbn; by rewrite data_of_trim).
  rewrite Htrim. destruct Hp as [->| ->]; cbn [normalize].
  - rewrite app_nil_r, take_blocks_free by done. done.
  - change (if CR =? CR then [LF] else [CR]) with [LF]. destruct (decide (last r = Some LF)) as [Hl|Hl].
    + apply last_Some in Hl as [r' ->]. rewrite <-app_assoc. cbn [app]. assert (blank_free false r' ∧ last r' ≠ Some LF) as [Hr' Hl'].
      { clear Htrim. revert Hr. generalize false as le. induction r' as [|a r' IH]; intros le Hr; [done|]. cbn in Hr |- *. destruct (Z.eqb_spec a LF) as [->|].
        - destruct Hr as [-> Hr]. destruct r' as [|b r']; [cbn in Hr; naive_solver|]. apply IH in Hr as [? ?]. done.
        - apply IH in Hr as [? ?]. destruct r'; [split; [done|cbn; congruence]|done]. }
      rewrite (take_blocks_shift r' [LF; LF]) by (done || by left). cbn [app take_blocks]. change ((LF =? LF) && (LF =? LF)) with true. cbn [fst snd app].
      change (omap data_of [r'; []] = omap data_of [r' ++ [LF; LF]]). change [LF; LF] with ([LF] ++ [LF]). rewrite app_assoc. cbn [omap list_omap]. rewrite !data_of_snoc. done.
    + rewrite (take_blocks_shift r [LF]) by (done || by left). done.
Qed.

Definition parsed (data : string) : option json := match parse_json (str_bytes data) with Ok v => Some v | Err _ => None end.
Lemma documents_of (blocks : list (list Z)) :
  (∀ s, trim s = "[DONE]" → is_ok (parse_json (str_bytes s)) = false) →
  omap (event_document parse_json) blocks = omap parsed (omap data_of blocks).
Proof.
  intros Hdone. induction blocks as [|b blocks IH]; [done|]. cbn [omap list_omap]. unfold event_document at 1. fold (data_of b).
  destruct (data_of b) as [data|]; [|exact IH]. cbn [mbind option_bind]. destruct (bool_decide_reflect (trim data = "[DONE]")) as [E|].
  - apply Hdone in E. cbn [omap list_omap]. unfold parsed at 1. by destruct (parse_json _).
  - cbn [omap list_omap]. fold (parsed data). destruct (parsed data); by rewrite <-IH.
Qed.

(** C29. A streamed event body gives the meter the same JSON documents, in the
    same order, as reading the whole body at once would, however it is cut
    into chunks: inside a character, or between the bytes of a line ending. *)
Theorem streamed_documents chunks blocks :
  is_utf8 (concat chunks) = true →
  (∀ s, trim s = "[DONE]" → is_ok (parse_json (str_bytes s)) = false) →
  sse_stream chunks = Ok blocks →
  sse_json_documents parse_json utf8_error_text (concat chunks) = Ok (omap (event_document parse_json) blocks).
Proof.
  intros Hutf Hdone ([d bs] & Hfeed & ([d' final] & Hfin & [= <-])%bind_Ok)%bind_Ok.
  apply (feed_decoded _ _ [] []) in Hfeed as (p & Hseen & Hm & Hu & Ht); [|by exists []; split_and!; [|left| |]; try constructor].
  cbn [app] in Hseen, Ht. rewrite Hseen in Hutf |- *. unfold sse_json_documents. rewrite Hutf.
  unfold sse_finish in Hfin. destruct (from_utf8 (sse_pending d)) eqn:Hval; [|done|done]. injection Hfin as _ <-.
  rewrite normalize_app, (take_blocks_app (normalize p) _ [] bs (sse_buffer d)) by (done || (by left) || (destruct Hm as [?|(? & ? & -> & ?)]; [by left|right; cbn; congruence])).
  rewrite documents_of by done. match goal with |- context [bs ++ ?l] => match l with context [bool_decide] => set (final := l) end end.
  match goal with |- context [(?l ++ ?m) ++ [?r]] => trans (Ok (E := string) (omap parsed (omap data_of ((l ++ m) ++ [r])))); [done|] end.
  assert (omap data_of ((take_blocks [] (sse_buffer d ++ normalize (sse_pending d))).1 ++ [(take_blocks [] (sse_buffer d ++ normalize (sse_pending d))).2]) =
          omap data_of final) as Hfinal.
  { rewrite final_block.
    - unfold final. case_bool_decide as E; [by rewrite E|done].
    - by eapply (take_blocks_rest _ [] bs); [|left|exact Ht].
    - destruct Hu as [| |t Hs|t Hs]; [by left|by right| |]; apply char_start_invalid in Hs as [? ?]; done. }
  by rewrite <-app_assoc, !(omap_app data_of bs), Hfinal.
Qed.
End runs.

(** ** The hold and the decoder together

    A chunk is held, then decoded; what the hold lets go is [released]. *)
Section holding.
Context (utf8_error_text : list Z → string).

Fixpoint sse_run (d : SseUsageDecoder) (h : RecordHold) (chunks : list (list Z)) :
    result SessionMeteringError (SseUsageDecoder * RecordHold * list Z * list (list Z)) :=
  match chunks with
  | [] => Ok (d, h, [], [])
  | chunk :: chunks =>
      '(h, ready) ← hold_push h chunk true;
      '(d, blocks) ← sse_push_chunk utf8_error_text d chunk;
      '(d, h, released, blocks') ← sse_run d h chunks;
      Ok (d, h, ready ++ released, blocks ++ blocks')
  end.

(** The bytes end inside a character that a carriage return comes right
    before. *)
Fixpoint cut_after_cr (l : list Z) : bool :=
  match l with [] => false | a :: t => ((a =? CR) && char_start t) || cut_after_cr t end.
Lemma cut_after_cr_end p t : char_start t = true → cut_after_cr (p ++ CR :: t) = true.
Proof. intros Ht. induction p as [|a p IH]; cbn; [by rewrite Ht|]. rewrite IH. apply orb_true_r. Qed.

(** [released] and [held h] are the bytes so far; the decoder has read the
    held bytes but its pending ones, and has no blank line in them. *)
Definition in_step (d : SseUsageDecoder) (h : RecordHold) (released : list Z) (blocks : list (list Z)) : Prop :=
  meets released (held h) ∧
  ∃ p k, held h = p ++ sse_pending d ∧ meets p (sse_pending d) ∧ (k ≤ 1)%nat ∧ sse_buffer d = replicate k LF ++ normalize p ∧
    blank_free true (normalize p) ∧ normalize released = joined blocks ++ replicate k LF.

Lemma take_blocks_kept k v : (k ≤ 1)%nat → blank_free true v → take_blocks [] (replicate k LF ++ v) = ([], replicate k LF ++ v).
Proof.
  intros Hk Hv. destruct k as [|[|k]]; [| |lia]; cbn [replicate app]; apply take_blocks_free; [by apply blank_free_weaken|by split].
Qed.

(** A newline that is read in two parts is read as two. *)
Lemma normalize_meets p q : normalize (p ++ q) = normalize p ++ normalize q → last p ≠ Some CR ∨ head q ≠ Some LF.
Proof.
  intros E. destruct (decide (last p = Some CR)) as [Hp|]; [|by left]. destruct (decide (head q = Some LF)) as [Hq|]; [|by right]. exfalso.
  apply last_Some in Hp as [p' ->]. destruct q as [|a q]; [done|]. injection Hq as ->. rewrite <-app_assoc in E. cbn [app] in E.
  rewrite !(normalize_app p') in E by by right. rewrite <-app_assoc in E. apply app_inv_head in E. cbn in E.
  apply (f_equal length) in E. cbn in E. lia.
Qed.

Lemma joined_app x y : joined (x ++ y) = joined x ++ joined y.
Proof. apply flat_map_app. Qed.

Lemma step_in_step d h released blocks chunk d' h' ready more :
  in_step d h released blocks → sse_contents_metered h = true →
  hold_push h chunk true = Ok (h', ready) → sse_push_chunk utf8_error_text d chunk = Ok (d', more) →
  cut_after_cr ((released ++ held h) ++ chunk) = false →
  in_step d' h' (released ++ ready) (blocks ++ more) ∧ released ++ held h ++ chunk = (released ++ ready) ++ held h' ∧
  sse_contents_metered h' = true.
Proof.
  intros (Hrel & p & k & Hheld & Hm & Hk & Hbuf & Hfree & Hnorm) Hmetered Hhold Hpush Hclean.
  unfold hold_push in Hhold. rewrite Hmetered in Hhold. cbn [negb] in Hhold. case_match; [done|]. injection Hhold as <- <-.
  unfold sse_push_chunk in Hpush. set (b := sse_pending d ++ chunk) in *. destruct (decodable b) as [n|] eqn:Hn; [|done].
  destruct (take_blocks [] _) as [bs buf] eqn:Ht in Hpush. case_match; [done|]. injection Hpush as <- <-.
  destruct (decodable_meets p b n) as [Hm' Hq]; [by apply meets_more|done|].
  assert (held h ++ chunk = (p ++ take n b) ++ drop n b) as Hbytes by (rewrite Hheld, <-!app_assoc, take_drop; done).
  assert (cut (p ++ take n b) (drop n b)) as Hcut.
  { apply undecoded_cut; [done|by apply (decodable_rest b)|]. intros t Hs E. rewrite <-app_assoc, Hbytes, E, app_assoc, cut_after_cr_end in Hclean; done. }
  split_and!; [|cbn [with_held held]; by rewrite <-app_assoc, take_drop|done].
  assert (meets released (held h ++ chunk)) as Hrel' by by apply meets_more.
  rewrite Hbytes in Hrel' |- *. unfold sse_record_end. pose proof (record_end_spec (p ++ take n b) (drop n b) true 0 0 Hcut) as Hscan.
  set (e := record_end_go _ true 0 0) in *. rewrite Hbuf, <-app_assoc, <-normalize_app in Ht by done.
  destruct Hscan as [[-> Hv]|(p1 & p2 & Hp & -> & Hp1 & Hpn & Hends & Hv)]; cbn [with_held held sse_pending sse_buffer Nat.add].
  - rewrite take_0, drop_0, app_nil_r. rewrite take_blocks_kept in Ht by done. injection Ht as <- <-. rewrite app_nil_r.
    split; [done|]. by exists (p ++ take n b), k.
  - rewrite Hp in *. rewrite Hpn in Ht. rewrite <-(app_assoc p1) in *. rewrite take_app_length, drop_app_length.
    destruct (take_released k (normalize p1) (normalize p2)) as (bs' & k' & Hk' & Ht' & Hj); [done|done|done|]. rewrite Ht' in Ht. injection Ht as <- <-.
    assert (meets p2 (drop n b)) as Hm2.
    { destruct p2 as [|a p2]; [by left|]. destruct Hm' as [Hl|]; [|by right]. left. rewrite last_app in Hl. by destruct (last (a :: p2)). }
    split.
    + destruct (decide (last p1 = Some CR)) as [Hcr|Hcr]; [right|left; intros [?|[? _]]%last_app_not; done].
      destruct p2 as [|a p2]; [|exists a, (p2 ++ drop n b); split; [done|]; apply normalize_meets in Hpn as [|]; cbn in *; congruence].
      rewrite app_nil_r in Hm'. destruct Hm' as [|(a & r & -> & ?)]; [done|by exists a, r].
    + exists p2, k'. split_and!; [done|done|done|done|done|].
      rewrite normalize_app by (destruct Hrel' as [|(a & r & E & ?)]; [by left|right; destruct p1; [done|]; injection E as -> _; cbn; congruence]).
      by rewrite Hnorm, joined_app, <-!app_assoc, Hj.
Qed.

Lemma run_in_step chunks : ∀ d h released blocks d' h' ready more,
  in_step d h released blocks → sse_contents_metered h = true → sse_run d h chunks = Ok (d', h', ready, more) →
  (∀ n, cut_after_cr ((released ++ held h) ++ concat (take n chunks)) = false) →
  in_step d' h' (released ++ ready) (blocks ++ more) ∧ (released ++ held h) ++ concat chunks = (released ++ ready) ++ held h'.
Proof.
  induction chunks as [|chunk chunks IH]; intros d h released blocks d' h' ready more Hin Hmetered; cbn [sse_run concat].
  - intros [= <- <- <- <-] _. by rewrite !app_nil_r.
  - intros ([h1 r1] & Hhold & ([d1 b1] & Hpush & ([[[d2 h2] r2] b2] & Hrun & [= <- <- <- <-])%bind_Ok)%bind_Ok)%bind_Ok Hclean.
    destruct (step_in_step d h released blocks chunk d1 h1 r1 b1) as (Hin1 & Hbytes & Hm1); [done|done|done|done| |].
    { specialize (Hclean 1%nat). cbn in Hclean. by rewrite take_0, app_nil_r in Hclean. }
    rewrite !app_assoc in Hbytes. rewrite !app_assoc. rewrite Hbytes. apply (IH d1 h1); [done|done|done|].
    intros n. specialize (Hclean (S n)). cbn [take concat] in Hclean. by rewrite app_assoc, Hbytes in Hclean.
Qed.

End holding.

(** Bytes pushed are ready or held, in order. *)
Lemma hold_push_bytes h chunk is_sse h' ready : hold_push h chunk is_sse = Ok (h', ready) → ready ++ held h' = held h ++ chunk.
Proof.
  unfold hold_push. destruct (if is_sse then _ else _); cbn [negb]; [|intros [= <- <-]; cbn; apply app_nil_r].
  destruct is_sse; (case_match; [done|]); intros [= <- <-]; cbn; apply take_drop.
Qed.

(** A streamed answer priced per token. *)
Module SampleStream.
Definition spec : SessionMeterSpec := {| spec_dimensions := [required_dimension Output Tokens 1000 20000] |}.
Definition answer : json := JObj [("usage", JObj [("completion_tokens", JNum 7)])].
Definition parse_json (body : list Z) : result string json := if bool_decide (body = str_bytes "a") then Ok answer else Err "not JSON".
Definition error_text (_ : list Z) : string := "not UTF-8".
(** Cut inside a line ending, between two of them, and inside a character. *)
Definition chunks : list (list Z) :=
  [str_bytes "data: a" ++ [CR]; [LF; CR]; LF :: str_bytes ": " ++ [195]; 169 :: LF :: str_bytes "data:a"].

Lemma streamed_documents_witness :
  sse_stream error_text chunks = Ok [str_bytes "data: a"; str_bytes ": " ++ [195; 169; LF] ++ str_bytes "data:a"] ∧
  sse_json_documents parse_json error_text (concat chunks) = Ok [answer; answer].
Proof.
  split; [vm_compute; reflexivity|].
  apply (streamed_documents error_text parse_json chunks [str_bytes "data: a"; str_bytes ": " ++ [195; 169; LF] ++ str_bytes "data:a"]).
  - reflexivity.
  - intros s Hs. unfold parse_json. case_bool_decide as E; [|reflexivity]. apply str_bytes_inj in E as ->. discriminate Hs.
  - vm_compute. reflexivity.
Defined.


(** A chunk that ends inside a character right after the carriage return
    of a blank line: the hold lets the event go, the decoder has read it only
    up to that carriage return, so the client has an event that no charge yet
    counts; the same bytes cut one byte earlier wait for the charge. *)
Theorem split_character_releases_unmetered :
  let event := str_bytes "data:a" ++ [CR; CR] in
  ∃ d h d' h',
    sse_run error_text sse_default (hold_for_spec spec) [event ++ [195]] = Ok (d, h, event, []) ∧
    sse_run error_text sse_default (hold_for_spec spec) [event] = Ok (d', h', [], []).
Proof. eexists _, _, _, _. split; vm_compute; reflexivity. Qed.
End SampleStream.
