(* ===== verification/StreamUsage.v ===== *)
(** * StreamUsage: the usage of a streamed response

    [StreamUsageAccumulator] of [core/src/server/session_stream.rs], the text
    and token counts it reads from a record, and the hints it is given. *)
From S2P Require Import Prelude F64 Text Affixes MeteringTypes Pricing SessionMetering Landing UsageSettlement.
From S2P Require Import StreamDecode.
#[local] Open Scope string_scope.
#[local] Open Scope list_scope.
#[local] Open Scope Z_scope.

(** ** Text *)
Definition elements (v : option json) : list json := match v with Some (JArr l) => l | _ => [] end.
Definition streamed_texts (v : json) : list string :=
  let gemini :=
    flat_map (λ candidate, omap (λ part, json_get part "text" ≫= json_str)
                             (elements (json_get candidate "content" ≫= λ c, json_get c "parts")))
      (elements (json_get v "candidates")) in
  let openai :=
    omap (λ choice, match (json_get choice "delta" ≫= λ d, json_get d "content") ≫= json_str with
                    | Some s => Some s
                    | None => json_get choice "text" ≫= json_str
                    end)
      (elements (json_get v "choices")) in
  let top_level_delta :=
    match json_get v "delta" ≫= λ d, match json_str d with Some s => Some s | None => json_get d "text" ≫= json_str end with
    | Some s => [s]
    | None => []
    end in
  gemini ++ openai ++ top_level_delta.
Definition zsum_of (f : string → Z) (l : list string) : Z := foldr (λ s n, f s + n) 0 l.
Definition count_words (s : string) : Z := zlen (split_whitespace s).
Definition streamed_text_char_count (v : json) : Z := zsum_of (λ s, char_count (str_bytes s)) (streamed_texts v).
Definition streamed_text_byte_count (v : json) : Z := zsum_of (λ s, zlen (str_bytes s)) (streamed_texts v).
Definition streamed_text_word_count (v : json) : Z := zsum_of count_words (streamed_texts v).

(** ** Which streams can be metered *)
Definition observes_unit (spec : SessionMeterSpec) (u : BillingUnit) : bool :=
  existsb (λ d, bool_decide (sd_unit d = u) && bool_decide (sd_direction d = Output)) (spec_dimensions spec).
Definition has_stream_observable_dimension (spec : SessionMeterSpec) : bool :=
  existsb (λ d, is_response_measured (sd_direction d) (sd_unit d)) (spec_dimensions spec).
Definition canonical_paths (d : MeterDirection) : list string :=
  match d with
  | Input => ["/usage/prompt_tokens"; "/usage/input_tokens"; "/response/usage/input_tokens"; "/message/usage/input_tokens";
              "/usageMetadata/promptTokenCount"]
  | Output => ["/usage/completion_tokens"; "/usage/output_tokens"; "/response/usage/output_tokens"; "/message/usage/output_tokens";
               "/usageMetadata/candidatesTokenCount"]
  | _ => []
  end.
Definition dimensions_honor_meters (dims : list MeterDimension) : bool :=
  forallb (λ d, match dim_meter d with
                | None => true
                | Some m =>
                    match meter_source m with ResponseJson => true | ResponseHeader => false end && bool_decide (dim_unit d = Tokens) &&
                    match meter_path m with Some path => bool_decide (path ∈ canonical_paths (dim_direction d)) | None => false end
                end) dims.
Definition stream_honors_meters (m : Metering) : bool :=
  dimensions_honor_meters (m_dimensions m ++ flat_map variant_dimensions (m_variants m)).

(** In seconds. *)
Definition LIFECYCLE_TOUCH_INTERVAL : Z := 30.

(** ** Hints *)
Record SessionUsageHints := { quota_units : list (MeterDirection * Z); request_body_bytes : option Z }.
Definition select_meter_dimensions (m : Metering) (hint : option string) : option (list MeterDimension) :=
  match variant_branch m hint with
  | Some dims => Some dims
  | None => match m_dimensions m with [] => None | dims => Some dims end
  end.
Definition hints_from_metering (m : Metering) (hint : option string) (props : RequestProperties) : SessionUsageHints := {|
  quota_units :=
    omap (λ d, if bool_decide (dim_unit d = QuotaUnits) then (λ n, (dim_direction d, n)) <$> quota_tokens_per_unit d props else None)
      (default [] (select_meter_dimensions m hint));
  request_body_bytes := body_size props |}.
Definition tokens_per_quota_unit (h : SessionUsageHints) (d : MeterDirection) : option Z :=
  snd <$> find (λ q, bool_decide (q.1 = d)) (quota_units h).
(** A divisor of zero is answered with zero here. *)
Definition stream_ceil_div_u64 (value divisor : Z) : Z := if divisor =? 0 then 0 else saturating_add 64 value (divisor - 1) / divisor.

(** ** The accumulator

    Its counters, and the decoders they are read through. *)
Record Counts := {
  c_output_bytes : Z; c_output_chars : Z; c_output_words : Z; c_output_text_bytes : Z; c_input_tokens : Z; c_output_tokens : Z;
  c_provider_output_tokens : bool; c_provider_input_tokens : bool; c_finished : bool; c_request_seen : bool; c_observed : bool }.
Definition no_counts : Counts := {|
  c_output_bytes := 0; c_output_chars := 0; c_output_words := 0; c_output_text_bytes := 0; c_input_tokens := 0; c_output_tokens := 0;
  c_provider_output_tokens := false; c_provider_input_tokens := false; c_finished := false; c_request_seen := false; c_observed := false |}.
Record StreamUsageAccumulator := {
  acc_spec : SessionMeterSpec; acc_hints : SessionUsageHints; acc_sse : SseUsageDecoder; acc_ndjson : NdjsonUsageDecoder;
  acc_utf8_tail : list Z; acc_counts : Counts }.
Definition accumulator_new (spec : SessionMeterSpec) (hints : SessionUsageHints) : StreamUsageAccumulator := {|
  acc_spec := spec; acc_hints := hints; acc_sse := sse_default; acc_ndjson := ndjson_for_spec spec; acc_utf8_tail := [];
  acc_counts := no_counts |}.

Section accumulator.
Context (utf8_error_text : list Z → string) (parse_json : list Z → result string json) (pointer : json → string → option json).

(** [observe_stream_value]: the counters, and whether they changed. *)
Definition observe_text (c : Counts) (v : json) (count_text_characters : bool) : Counts * bool :=
  let text_chars := streamed_text_char_count v in
  if 0 <? text_chars then
    ({| c_output_bytes := c_output_bytes c;
        c_output_chars := if count_text_characters then saturating_add 64 (c_output_chars c) text_chars else c_output_chars c;
        c_output_words := saturating_add 64 (c_output_words c) (streamed_text_word_count v);
        c_output_text_bytes := saturating_add 64 (c_output_text_bytes c) (streamed_text_byte_count v);
        c_input_tokens := c_input_tokens c; c_output_tokens := c_output_tokens c; c_provider_output_tokens := c_provider_output_tokens c;
        c_provider_input_tokens := c_provider_input_tokens c; c_finished := c_finished c; c_request_seen := c_request_seen c;
        c_observed := c_observed c |}, true)
  else (c, false).
Definition observe_tokens (c : Counts) (input output : option Z) : Counts * bool :=
  ({| c_output_bytes := c_output_bytes c; c_output_chars := c_output_chars c; c_output_words := c_output_words c;
      c_output_text_bytes := c_output_text_bytes c;
      c_input_tokens := match input with Some n => Z.max (c_input_tokens c) n | None => c_input_tokens c end;
      c_output_tokens := match output with Some n => Z.max (c_output_tokens c) n | None => c_output_tokens c end;
      c_provider_output_tokens := match output with Some _ => true | None => c_provider_output_tokens c end;
      c_provider_input_tokens := match input with Some _ => true | None => c_provider_input_tokens c end;
      c_finished := c_finished c; c_request_seen := c_request_seen c; c_observed := c_observed c |},
   match input, output with None, None => false | _, _ => true end).
Definition observe_stream_value (c : Counts) (v : json) (count_text_characters : bool) : Counts * bool :=
  let '(c, text) := observe_text c v count_text_characters in
  let '(c, tokens) := observe_tokens c (provider_token_quantity pointer v Input) (provider_token_quantity pointer v Output) in
  (c, text || tokens).
Fixpoint observe_values (c : Counts) (vs : list json) (count_text_characters : bool) : Counts * bool :=
  match vs with
  | [] => (c, false)
  | v :: vs =>
      let '(c, changed) := observe_stream_value c v count_text_characters in
      let '(c, changed') := observe_values c vs count_text_characters in
      (c, changed || changed')
  end.

Definition with_counts (a : StreamUsageAccumulator) (c : Counts) : StreamUsageAccumulator := {|
  acc_spec := acc_spec a; acc_hints := acc_hints a; acc_sse := acc_sse a; acc_ndjson := acc_ndjson a; acc_utf8_tail := acc_utf8_tail a;
  acc_counts := c |}.
Definition with_sse (a : StreamUsageAccumulator) (d : SseUsageDecoder) : StreamUsageAccumulator := {|
  acc_spec := acc_spec a; acc_hints := acc_hints a; acc_sse := d; acc_ndjson := acc_ndjson a; acc_utf8_tail := acc_utf8_tail a;
  acc_counts := acc_counts a |}.
Definition with_ndjson (a : StreamUsageAccumulator) (d : NdjsonUsageDecoder) : StreamUsageAccumulator := {|
  acc_spec := acc_spec a; acc_hints := acc_hints a; acc_sse := acc_sse a; acc_ndjson := d; acc_utf8_tail := acc_utf8_tail a;
  acc_counts := acc_counts a |}.
Definition with_tail (a : StreamUsageAccumulator) (tail : list Z) : StreamUsageAccumulator := {|
  acc_spec := acc_spec a; acc_hints := acc_hints a; acc_sse := acc_sse a; acc_ndjson := acc_ndjson a; acc_utf8_tail := tail;
  acc_counts := acc_counts a |}.
Definition with_chars (c : Counts) (chars : Z) : Counts := {|
  c_output_bytes := c_output_bytes c; c_output_chars := chars; c_output_words := c_output_words c; c_output_text_bytes := c_output_text_bytes c;
  c_input_tokens := c_input_tokens c; c_output_tokens := c_output_tokens c; c_provider_output_tokens := c_provider_output_tokens c;
  c_provider_input_tokens := c_provider_input_tokens c; c_finished := c_finished c; c_request_seen := c_request_seen c;
  c_observed := c_observed c |}.
Definition with_observed (c : Counts) (changed : bool) : Counts := {|
  c_output_bytes := c_output_bytes c; c_output_chars := c_output_chars c; c_output_words := c_output_words c;
  c_output_text_bytes := c_output_text_bytes c; c_input_tokens := c_input_tokens c; c_output_tokens := c_output_tokens c;
  c_provider_output_tokens := c_provider_output_tokens c; c_provider_input_tokens := c_provider_input_tokens c; c_finished := c_finished c;
  c_request_seen := c_request_seen c; c_observed := c_observed c || changed |}.
(** A response has begun, with these bytes more. *)
Definition with_arrival (c : Counts) (bytes : Z) : Counts := {|
  c_output_bytes := saturating_add 64 (c_output_bytes c) bytes; c_output_chars := c_output_chars c; c_output_words := c_output_words c;
  c_output_text_bytes := c_output_text_bytes c; c_input_tokens := c_input_tokens c; c_output_tokens := c_output_tokens c;
  c_provider_output_tokens := c_provider_output_tokens c; c_provider_input_tokens := c_provider_input_tokens c; c_finished := c_finished c;
  c_request_seen := true; c_observed := c_observed c |}.
Definition with_finished (c : Counts) : Counts := {|
  c_output_bytes := c_output_bytes c; c_output_chars := c_output_chars c; c_output_words := c_output_words c;
  c_output_text_bytes := c_output_text_bytes c; c_input_tokens := c_input_tokens c; c_output_tokens := c_output_tokens c;
  c_provider_output_tokens := c_provider_output_tokens c; c_provider_input_tokens := c_provider_input_tokens c; c_finished := true;
  c_request_seen := c_request_seen c; c_observed := c_observed c |}.

Inductive BodyRecords := SseRecords | NdjsonRecords | Document (v : json).
(** The accumulator after a chunk, and whether its usage changed.  After an
    error its decoders are not used again; they are left as they were. *)
Definition observe_sse (a : StreamUsageAccumulator) (chunk : list Z) : StreamUsageAccumulator * metered bool :=
  match sse_push_chunk utf8_error_text (acc_sse a) chunk with
  | Err e => (a, Err e)
  | Ok (d, blocks) =>
      let '(c, changed) := observe_values (acc_counts a) (omap (event_document parse_json) blocks) true in
      (with_counts (with_sse a d) c, Ok changed)
  end.
Definition observe_ndjson (a : StreamUsageAccumulator) (chunk : list Z) : StreamUsageAccumulator * metered bool :=
  match ndjson_push_chunk utf8_error_text parse_json (acc_ndjson a) chunk with
  | Err e => (a, Err e)
  | Ok (d, values) =>
      let '(c, changed) := observe_values (acc_counts a) values false in
      (with_counts (with_ndjson a d) c, Ok changed)
  end.
Definition observe_characters (a : StreamUsageAccumulator) (chunk : list Z) (changed : bool) : StreamUsageAccumulator * metered bool :=
  if observes_unit (acc_spec a) Characters then
    match count_stream_utf8_chars utf8_error_text (acc_utf8_tail a) chunk with
    | Err e => (a, Err e)
    | Ok (tail, n) => (with_counts (with_tail a tail) (with_chars (acc_counts a) (saturating_add 64 (c_output_chars (acc_counts a)) n)), Ok true)
    end
  else (a, Ok changed).
Definition observe_records (a : StreamUsageAccumulator) (chunk : list Z) (records : BodyRecords) : StreamUsageAccumulator * metered bool :=
  let a := with_counts a (with_arrival (acc_counts a) (zlen chunk)) in
  let bytes := observes_unit (acc_spec a) Bytes in
  let '(a, r) :=
    match records with
    | SseRecords => observe_sse a chunk
    | NdjsonRecords =>
        let '(a, r) := observe_ndjson a chunk in
        match r with Ok changed => observe_characters a chunk changed | Err e => (a, Err e) end
    | Document v =>
        let '(c, changed) := observe_stream_value (acc_counts a) v false in observe_characters (with_counts a c) chunk changed
    end in
  match r with
  | Ok changed => (with_counts a (with_observed (acc_counts a) (bytes || changed)), Ok (bytes || changed))
  | Err e => (a, Err e)
  end.
Definition observe_chunk (a : StreamUsageAccumulator) (chunk : list Z) (is_sse : bool) : StreamUsageAccumulator * metered bool :=
  observe_records a chunk (if is_sse then SseRecords else NdjsonRecords).
Definition observe_complete_body (a : StreamUsageAccumulator) (body : list Z) (is_sse : bool) : StreamUsageAccumulator * metered bool :=
  if is_sse then observe_records a body SseRecords
  else match parse_json body with Ok v => observe_records a body (Document v) | Err _ => observe_records a body NdjsonRecords end.

(** ** The end of a stream *)
Definition charged_input_token_unit (spec : SessionMeterSpec) : option BillingUnit :=
  sd_unit <$> find (λ d, bool_decide (sd_direction d = Input) && match sd_unit d with Tokens | QuotaUnits => true | _ => false end) (spec_dimensions spec).
Definition settle_missing_usage (a : StreamUsageAccumulator) : StreamUsageAccumulator * metered bool :=
  let c := with_finished (acc_counts a) in
  let output := negb (c_provider_output_tokens c) && (0 <? c_output_text_bytes c) in
  match (if c_provider_input_tokens c then None else charged_input_token_unit (acc_spec a)), request_body_bytes (acc_hints a) with
  | Some unit, None => (with_counts a c, Err (MissingRequiredObservation Input unit))
  | Some _, Some body_bytes =>
      let changed := output || (c_input_tokens c <? body_bytes) in (with_counts a (with_observed c changed), Ok changed)
  | None, _ => (with_counts a (with_observed c output), Ok output)
  end.
Definition finish_records (a : StreamUsageAccumulator) (is_sse : bool) : StreamUsageAccumulator * metered bool :=
  if is_sse then
    match sse_finish (acc_sse a) with
    | Err e => (a, Err e)
    | Ok (d, blocks) =>
        let '(c, changed) := observe_values (acc_counts a) (omap (event_document parse_json) blocks) true in
        (with_counts (with_sse a d) c, Ok changed)
    end
  else if bool_decide (acc_utf8_tail a = []) then
    match ndjson_finish utf8_error_text parse_json (acc_ndjson a) with
    | Err e => (a, Err e)
    | Ok (d, values) =>
        let '(c, changed) := observe_values (acc_counts a) values false in
        (with_counts (with_ndjson a d) c, Ok changed)
    end
  else (a, Err (InvalidStream "NDJSON stream ended inside a UTF-8 character")).
Definition acc_finish_stream (a : StreamUsageAccumulator) (is_sse : bool) : StreamUsageAccumulator * metered bool :=
  let '(a, r) := finish_records a is_sse in
  match r with
  | Err e => (a, Err e)
  | Ok changed =>
      let '(a, r) := settle_missing_usage a in
      match r with
      | Err e => (a, Err e)
      | Ok bounded => (with_counts a (with_observed (acc_counts a) changed), Ok (changed || bounded))
      end
  end.
Definition acc_abort_stream (a : StreamUsageAccumulator) : StreamUsageAccumulator * metered bool :=
  if c_request_seen (acc_counts a) then settle_missing_usage a else (a, Ok false).
End accumulator.

(** ** What is rated *)
Definition input_token_amount (h : SessionUsageHints) (c : Counts) : Z :=
  if c_finished c && negb (c_provider_input_tokens c) then Z.max (c_input_tokens c) (default 0 (request_body_bytes h)) else c_input_tokens c.
Definition output_token_amount (c : Counts) : Z :=
  let floor := Z.max (c_output_tokens c) (c_output_words c) in
  if c_finished c && negb (c_provider_output_tokens c) then Z.max floor (c_output_text_bytes c) else floor.
Definition in_quota_units (h : SessionUsageHints) (d : MeterDirection) (tokens : Z) : Z :=
  match tokens_per_quota_unit h d with Some scale => stream_ceil_div_u64 tokens scale | None => tokens end.
Definition dimension_amount (h : SessionUsageHints) (c : Counts) (d : SessionMeterDimension) : Z :=
  match sd_direction d, sd_unit d with
  | Usage, Requests => if c_request_seen c then 1 else 0
  | Output, Bytes => c_output_bytes c
  | Output, Characters => c_output_chars c
  | Input, Tokens => input_token_amount h c
  | Output, Tokens => output_token_amount c
  | Input, QuotaUnits => in_quota_units h Input (input_token_amount h c)
  | Output, QuotaUnits => in_quota_units h Output (output_token_amount c)
  | _, _ => 0
  end.
Definition observe_dimensions (amount : SessionMeterDimension → Z) (spec : SessionMeterSpec) : UsageObservation :=
  foldl (λ o d, observation_set o (sd_direction d) (sd_unit d) (amount d)) [] (spec_dimensions spec).
Definition observation (a : StreamUsageAccumulator) : UsageObservation :=
  observe_dimensions (dimension_amount (acc_hints a) (acc_counts a)) (acc_spec a).
Definition zero_observation (spec : SessionMeterSpec) : UsageObservation := observe_dimensions (λ _, 0) spec.
Definition has_observation (a : StreamUsageAccumulator) : bool := c_observed (acc_counts a).
Definition observed_input_tokens (a : StreamUsageAccumulator) : option Z :=
  if 0 <? c_input_tokens (acc_counts a) then Some (c_input_tokens (acc_counts a)) else None.
Definition reconfigure (a : StreamUsageAccumulator) (spec : SessionMeterSpec) (h : SessionUsageHints) : StreamUsageAccumulator := {|
  acc_spec := spec;
  acc_hints := {| quota_units := quota_units h;
                  request_body_bytes := match request_body_bytes (acc_hints a) with Some n => Some n | None => request_body_bytes h end |};
  acc_sse := acc_sse a; acc_ndjson := acc_ndjson a; acc_utf8_tail := acc_utf8_tail a; acc_counts := acc_counts a |}.

Definition with_body_bytes (a : StreamUsageAccumulator) (bytes : Z) : StreamUsageAccumulator := {|
  acc_spec := acc_spec a; acc_hints := {| quota_units := quota_units (acc_hints a); request_body_bytes := Some bytes |};
  acc_sse := acc_sse a; acc_ndjson := acc_ndjson a; acc_utf8_tail := acc_utf8_tail a; acc_counts := acc_counts a |}.

(** ** Counters only grow *)
Record grows (c c' : Counts) : Prop := {
  gr_bytes : c_output_bytes c ≤ c_output_bytes c'; gr_chars : c_output_chars c ≤ c_output_chars c';
  gr_words : c_output_words c ≤ c_output_words c'; gr_text : c_output_text_bytes c ≤ c_output_text_bytes c';
  gr_input : c_input_tokens c ≤ c_input_tokens c'; gr_output : c_output_tokens c ≤ c_output_tokens c';
  gr_finished : c_finished c = true → c_finished c' = true; gr_seen : c_request_seen c = true → c_request_seen c' = true;
  gr_observed : c_observed c = true → c_observed c' = true }.
#[global] Instance grows_refl : Reflexive grows.
Proof. intros c. by split. Qed.
#[global] Instance grows_trans : Transitive grows.
Proof. intros a b c [] []. split; first [lia|tauto]. Qed.

Record counts_wf (c : Counts) : Prop := {
  cw_bytes : is_u64 (c_output_bytes c); cw_chars : is_u64 (c_output_chars c); cw_words : is_u64 (c_output_words c);
  cw_text : is_u64 (c_output_text_bytes c); cw_input : is_u64 (c_input_tokens c); cw_output : is_u64 (c_output_tokens c) }.
Definition hints_wf (h : SessionUsageHints) : Prop :=
  Forall (λ q, is_u64 q.2) (quota_units h) ∧ match request_body_bytes h with Some n => is_u64 n | None => True end.

Lemma saturating_add_grows a n : is_u64 a → 0 ≤ n → a ≤ saturating_add 64 a n ∧ is_u64 (saturating_add 64 a n).
Proof. unfold is_u64, in_range, saturating_add. lia. Qed.
Lemma no_counts_wf : counts_wf no_counts.
Proof. split; cbn; unfold is_u64, in_range; lia. Qed.

Lemma zsum_of_nonneg f l : (∀ s, 0 ≤ f s) → 0 ≤ zsum_of f l.
Proof. intros Hf. induction l as [|s l IH]; [done|]. change (0 ≤ f s + zsum_of f l). specialize (Hf s). lia. Qed.
Lemma char_count_nonneg l : 0 ≤ char_count l.
Proof. unfold char_count, zlen. lia. Qed.

Section growth.
Context (utf8_error_text : list Z → string) (parse_json : list Z → result string json) (pointer : json → string → option json).

(** A step of the counters: they stay numbers of 64 bits and do not fall. *)
Definition counts_step (c c' : Counts) : Prop := counts_wf c' ∧ grows c c' ∧ c_finished c' = c_finished c.

Lemma max_of_u64 l n : Forall is_u64 l → max_of l = Some n → is_u64 n.
Proof.
  unfold max_of. destruct l as [|x l]; [done|]. intros [Hx Hl]%Forall_cons [= <-]. revert x Hx. induction Hl as [|y l Hy Hl IH]; intros x Hx; [done|].
  cbn. apply IH. unfold is_u64, in_range in *. lia.
Qed.
Lemma as_u64_range v n : as_u64 v = Some n → is_u64 n.
Proof. unfold as_u64. destruct v; try done. by intros [-> ?]%try_from_Some. Qed.
Lemma named_count_range a b v n : named_count a b v = Some n → is_u64 n.
Proof. unfold named_count. destruct (match json_get v a with Some x => Some x | None => json_get v b end) as [x|]; [cbn; apply as_u64_range|done]. Qed.
Lemma named_counts_range a b l : Forall is_u64 (omap (named_count a b) l).
Proof. apply Forall_forall. intros n (v & _ & Hn)%list_elem_of_omap. by eapply named_count_range. Qed.
Lemma get_u64_range v k : is_u64 (default 0 (get_u64 v k)).
Proof.
  unfold get_u64. destruct (json_get v k) as [x|]; cbn; [|unfold is_u64, in_range; lia].
  destruct (as_u64 x) eqn:E; [by apply as_u64_range in E|cbn; unfold is_u64, in_range; lia].
Qed.
Lemma google_output_range v n : google_output v = Some n → is_u64 n.
Proof.
  unfold google_output. destruct (json_get v "usageMetadata") as [u|]; [|done]. cbn. destruct (get_u64 u "promptTokenCount") as [i|] eqn:Hi; [|done].
  cbn. intros [= <-]. pose proof (get_u64_range u "promptTokenCount") as Hp. rewrite Hi in Hp.
  pose proof (get_u64_range u "candidatesTokenCount"). pose proof (get_u64_range u "thoughtsTokenCount").
  pose proof (get_u64_range u "totalTokenCount") as Ht. pose proof (get_u64_range u "toolUsePromptTokenCount").
  destruct (get_u64 u "totalTokenCount") as [t|]; cbn in *; unfold is_u64, in_range, saturating_add, saturating_sub in *; lia.
Qed.
Lemma provider_range v d n : provider_token_quantity pointer v d = Some n → is_u64 n.
Proof.
  unfold provider_token_quantity. destruct d; try done.
  - destruct (max_of _) as [m|] eqn:Hm; [intros [= <-]; eapply max_of_u64; [apply named_counts_range|exact Hm]|].
    destruct (pointer v _) as [x|]; [cbn; apply as_u64_range|done].
  - destruct (max_of _) as [m|] eqn:Hm; [intros [= <-]; eapply max_of_u64; [apply named_counts_range|exact Hm]|apply google_output_range].
Qed.

Lemma observe_value_step c v b : counts_wf c → counts_step c (observe_stream_value pointer c v b).1.
Proof.
  intros Hc. unfold observe_stream_value. destruct (observe_text c v b) as [c1 t] eqn:Ht.
  assert (counts_step c c1) as (Hw1 & Hg1 & Hf1).
  { unfold observe_text in Ht. case_match; [|injection Ht as <- _; done]. injection Ht as <- _. destruct Hc.
    assert (0 ≤ streamed_text_char_count v) by (apply zsum_of_nonneg; intros; apply char_count_nonneg).
    assert (0 ≤ streamed_text_word_count v) by (apply zsum_of_nonneg; intros; unfold count_words, zlen; lia).
    assert (0 ≤ streamed_text_byte_count v) by (apply zsum_of_nonneg; intros; unfold zlen; lia).
    split_and!; [split|split|done]; cbn; try done; try (destruct b); try (by apply saturating_add_grows); done. }
  destruct Hw1. pose proof (provider_range v Input) as Hi. pose proof (provider_range v Output) as Ho. unfold observe_tokens. cbn [fst].
  destruct (provider_token_quantity pointer v Input) as [i|]; [specialize (Hi i eq_refl)|clear Hi];
    (destruct (provider_token_quantity pointer v Output) as [o|]; [specialize (Ho o eq_refl)|clear Ho]);
    (split_and!; [split|etrans; [exact Hg1|split]|exact Hf1]; cbn; unfold is_u64, in_range in *; first [done|lia]).
Qed.

Lemma observe_values_step vs b : ∀ c, counts_wf c → counts_step c (observe_values pointer c vs b).1.
Proof.
  induction vs as [|v vs IH]; intros c Hc; [by split_and!|]. cbn [observe_values]. pose proof (observe_value_step c v b Hc) as (Hw & Hg & Hf).
  destruct (observe_stream_value pointer c v b) as [c1 t]. cbn [fst] in *. pose proof (IH c1 Hw) as (Hw' & Hg' & Hf').
  destruct (observe_values pointer c1 vs b) as [c2 t']. cbn [fst] in *. split_and!; [done|by etrans|congruence].
Qed.
End growth.

(** ** Accumulators *)
Section accumulators.
Context (utf8_error_text : list Z → string) (parse_json : list Z → result string json) (pointer : json → string → option json).
Abbreviation chunk_of := (observe_chunk utf8_error_text parse_json pointer).
Abbreviation finish_of := (acc_finish_stream utf8_error_text parse_json pointer).

(** What every operation keeps: the configuration, and counters that grow;
    only the end of the stream finishes it. *)
Record acc_step (ends : bool) (a a' : StreamUsageAccumulator) : Prop := {
  as_spec : acc_spec a' = acc_spec a; as_hints : acc_hints a' = acc_hints a;
  as_wf : counts_wf (acc_counts a) → counts_wf (acc_counts a'); as_grows : counts_wf (acc_counts a) → grows (acc_counts a) (acc_counts a');
  as_finished : counts_wf (acc_counts a) → ends = false → c_finished (acc_counts a') = c_finished (acc_counts a) }.
#[local] Instance acc_step_refl ends : Reflexive (acc_step ends).
Proof. by split. Qed.
#[local] Instance acc_step_trans ends : Transitive (acc_step ends).
Proof. intros a b c [] []. split; [congruence|congruence|tauto| |]; intros; [etrans; eauto|]. rewrite as_finished1; auto. Qed.
Lemma step_ends a a' : acc_step false a a' → acc_step true a a'.
Proof. by intros []. Qed.

Lemma observed_step ends a b : acc_step ends a (with_counts a (with_observed (acc_counts a) b)).
Proof. split; [done|done|by intros []| |done]. intros _. split; cbn; try done. by intros ->. Qed.
Lemma arrival_step a n : 0 ≤ n → acc_step false a (with_counts a (with_arrival (acc_counts a) n)).
Proof.
  intros Hn. split; [done|done| | |done]; intros []; [|split; cbn; try done; by apply saturating_add_grows].
  split; cbn; try done. by apply saturating_add_grows.
Qed.
Lemma finished_step a : acc_step true a (with_counts a (with_finished (acc_counts a))).
Proof. split; [done|done|by intros []| |done]. intros _. by split. Qed.
Lemma values_step (a b : StreamUsageAccumulator) vs text :
  acc_counts b = acc_counts a → acc_spec b = acc_spec a → acc_hints b = acc_hints a →
  acc_step false a (with_counts b (observe_values pointer (acc_counts a) vs text).1).
Proof. intros Hc Hs Hh. split; [done|done| | |]; intros Hw; by apply (observe_values_step pointer vs text) in Hw as (? & ? & ?). Qed.

Lemma characters_step a chunk changed : acc_step false a (observe_characters utf8_error_text a chunk changed).1.
Proof.
  unfold observe_characters. case_match; [|done]. destruct (count_stream_utf8_chars _ _ _) as [[tail n]|e] eqn:E; [|done]. cbn [fst].
  assert (0 ≤ n) as Hn by (unfold count_stream_utf8_chars in E; destruct (from_utf8 _); inversion E; subst; apply char_count_nonneg).
  split; [done|done| | |done]; intros []; [|split; cbn; try done; by apply saturating_add_grows]. split; cbn; try done. by apply saturating_add_grows.
Qed.
Lemma sse_step a chunk : acc_step false a (observe_sse utf8_error_text parse_json pointer a chunk).1.
Proof.
  unfold observe_sse. destruct (sse_push_chunk _ _ _) as [[d blocks]|]; [|done].
  pose proof (values_step a (with_sse a d) (omap (event_document parse_json) blocks) true eq_refl eq_refl eq_refl). by destruct (observe_values _ _ _ _).
Qed.
Lemma ndjson_step a chunk : acc_step false a (observe_ndjson utf8_error_text parse_json pointer a chunk).1.
Proof.
  unfold observe_ndjson. destruct (ndjson_push_chunk _ _ _ _) as [[d values]|]; [|done].
  pose proof (values_step a (with_ndjson a d) values false eq_refl eq_refl eq_refl). by destruct (observe_values _ _ _ _).
Qed.

(** The bytes of a chunk are counted first, then what is in it. *)
Definition arrived (a : StreamUsageAccumulator) (chunk : list Z) : StreamUsageAccumulator := with_counts a (with_arrival (acc_counts a) (zlen chunk)).
Lemma arrived_step a chunk : acc_step false a (arrived a chunk).
Proof. apply arrival_step. unfold zlen. lia. Qed.
Lemma records_arrived a chunk records : acc_step false (arrived a chunk) (observe_records utf8_error_text parse_json pointer a chunk records).1.
Proof.
  unfold observe_records. fold (arrived a chunk). set (a1 := arrived a chunk).
  match goal with |- context [match records with SseRecords => ?x | NdjsonRecords => ?y | Document v => @?z v end] =>
    assert (acc_step false a1 (match records with SseRecords => x | NdjsonRecords => y | Document v => z v end).1) as H2 end.
  { destruct records as [| |v]; [apply sse_step| |].
    - pose proof (ndjson_step a1 chunk) as Hn. destruct (observe_ndjson _ _ _ a1 chunk) as [a2 [changed|e]]; [|done]. etrans; [exact Hn|apply characters_step].
    - pose proof (observe_value_step pointer (acc_counts a1) v false) as Hv. destruct (observe_stream_value _ _ _ _) as [c changed]. cbn [fst] in Hv.
      etrans; [|apply characters_step]. split; [done|done| | |]; intros Hw; by apply Hv in Hw as (? & ? & ?). }
  destruct (match records with SseRecords => _ | NdjsonRecords => _ | Document v => _ end) as [a2 [changed|e]]; cbn [fst] in *; [|done].
  etrans; [exact H2|]. apply observed_step.
Qed.
Lemma records_step a chunk records : acc_step false a (observe_records utf8_error_text parse_json pointer a chunk records).1.
Proof. etrans; [apply arrived_step|apply records_arrived]. Qed.
Lemma chunk_step a chunk is_sse : acc_step false a (chunk_of a chunk is_sse).1.
Proof. apply records_step. Qed.
Lemma chunk_seen a chunk is_sse : counts_wf (acc_counts a) → c_request_seen (acc_counts (chunk_of a chunk is_sse).1) = true.
Proof.
  intros Hw. destruct (arrived_step a chunk) as [_ _ Hw1 _ _].
  destruct (records_arrived a chunk (if is_sse then SseRecords else NdjsonRecords)) as [_ _ _ [] _]; [by apply Hw1|by apply gr_seen0].
Qed.

Lemma settle_step a : acc_step true a (settle_missing_usage a).1.
Proof.
  unfold settle_missing_usage. pose proof (finished_step a) as Hf. set (a1 := with_counts a _) in Hf.
  assert (∀ b, acc_step true a (with_counts a (with_observed (with_finished (acc_counts a)) b))) as Ho by (intros b; etrans; [exact Hf|apply (observed_step true a1)]).
  repeat case_match; first [apply Ho|exact Hf].
Qed.
Lemma finish_records_step a is_sse : acc_step false a (finish_records utf8_error_text parse_json pointer a is_sse).1.
Proof.
  unfold finish_records. destruct is_sse.
  - destruct (sse_finish _) as [[d blocks]|]; [|done].
    pose proof (values_step a (with_sse a d) (omap (event_document parse_json) blocks) true eq_refl eq_refl eq_refl). by destruct (observe_values _ _ _ _).
  - case_bool_decide; [|done]. destruct (ndjson_finish _ _ _) as [[d values]|]; [|done].
    pose proof (values_step a (with_ndjson a d) values false eq_refl eq_refl eq_refl). by destruct (observe_values _ _ _ _).
Qed.
Lemma finish_step a is_sse : acc_step true a (finish_of a is_sse).1.
Proof.
  unfold acc_finish_stream. pose proof (step_ends _ _ (finish_records_step a is_sse)) as H1. destruct (finish_records _ _ _ _ _) as [a1 [changed|e]]; [|done]. cbn [fst] in H1.
  pose proof (settle_step a1) as H2. destruct (settle_missing_usage a1) as [a2 [bounded|e]]; cbn [fst] in *; [|by etrans].
  etrans; [exact H1|]. etrans; [exact H2|]. apply observed_step.
Qed.
Lemma abort_step a : acc_step true a (acc_abort_stream a).1.
Proof. unfold acc_abort_stream. case_match; [apply settle_step|done]. Qed.
End accumulators.

(** ** Rated amounts *)
Lemma ceil_div_mono a b d : 0 ≤ d → a ≤ b → stream_ceil_div_u64 a d ≤ stream_ceil_div_u64 b d.
Proof.
  intros Hd Hab. unfold stream_ceil_div_u64. destruct (Z.eqb_spec d 0); [done|]. apply Z.div_le_mono; [lia|]. unfold saturating_add. lia.
Qed.
Lemma in_quota_units_mono h d a b : hints_wf h → a ≤ b → in_quota_units h d a ≤ in_quota_units h d b.
Proof.
  intros [Hq _] Hab. unfold in_quota_units. destruct (tokens_per_quota_unit h d) as [scale|] eqn:E; [|done]. apply ceil_div_mono; [|done].
  unfold tokens_per_quota_unit in E. apply fmap_Some in E as (q & [Hin _]%find_some & ->). rewrite Forall_forall in Hq.
  destruct (Hq q) as [? _]; [by apply list_elem_of_In|done].
Qed.
Lemma amount_grows h c c' d : hints_wf h → c_finished c = false → grows c c' → dimension_amount h c d ≤ dimension_amount h c' d.
Proof.
  intros Hh Hf []. 
  assert (input_token_amount h c ≤ input_token_amount h c') as Hi by (unfold input_token_amount; rewrite Hf; cbn; case_match; lia).
  assert (output_token_amount c ≤ output_token_amount c') as Ho by (unfold output_token_amount; rewrite Hf; cbn; case_match; lia).
  unfold dimension_amount. destruct (sd_direction d), (sd_unit d); try done; try (by apply in_quota_units_mono).
  repeat case_match; first [lia|naive_solver].
Qed.

(** ** Chunks that change nothing *)
Section quiet.
Context (utf8_error_text : list Z → string) (parse_json : list Z → result string json) (pointer : json → string → option json).

Lemma observe_value_quiet c v b c' : observe_stream_value pointer c v b = (c', false) → c' = c.
Proof.
  unfold observe_stream_value, observe_text. destruct (0 <? _); destruct (observe_tokens _ _ _) as [c1 t] eqn:E; [done|]. intros [= <- ->].
  unfold observe_tokens in E. destruct (provider_token_quantity pointer v Input), (provider_token_quantity pointer v Output); try done.
  injection E as <-. by destruct c.
Qed.
Lemma observe_values_quiet vs b : ∀ c c', observe_values pointer c vs b = (c', false) → c' = c.
Proof.
  induction vs as [|v vs IH]; intros c c'; cbn [observe_values]; [by intros [=]|].
  destruct (observe_stream_value pointer c v b) as [c1 t1] eqn:E1, (observe_values pointer c1 vs b) as [c2 t2] eqn:E2.
  intros [= <- [-> ->]%orb_false_iff]. apply observe_value_quiet in E1 as ->. by apply IH in E2.
Qed.

(** The operation left every counter and the configuration alone. *)
Definition same_usage (a a' : StreamUsageAccumulator) : Prop :=
  acc_counts a' = acc_counts a ∧ acc_spec a' = acc_spec a ∧ acc_hints a' = acc_hints a.
Lemma characters_quiet a chunk changed a' : observe_characters utf8_error_text a chunk changed = (a', Ok false) → a' = a ∧ changed = false.
Proof. unfold observe_characters. case_match; [destruct (count_stream_utf8_chars _ _ _) as [[]|]|]; intros [=]; done. Qed.
Lemma sse_quiet a chunk a' : observe_sse utf8_error_text parse_json pointer a chunk = (a', Ok false) → same_usage a a'.
Proof.
  unfold observe_sse. destruct (sse_push_chunk _ _ _) as [[d blocks]|]; [|done]. destruct (observe_values _ _ _ _) as [c t] eqn:E. intros [= <- ->].
  by apply observe_values_quiet in E as ->.
Qed.
Lemma ndjson_quiet a chunk a' : observe_ndjson utf8_error_text parse_json pointer a chunk = (a', Ok false) → same_usage a a'.
Proof.
  unfold observe_ndjson. destruct (ndjson_push_chunk _ _ _ _) as [[d values]|]; [|done]. destruct (observe_values _ _ _ _) as [c t] eqn:E. intros [= <- ->].
  by apply observe_values_quiet in E as ->.
Qed.

Lemma observe_dimensions_ext f g spec : (∀ d, d ∈ spec_dimensions spec → f d = g d) → observe_dimensions f spec = observe_dimensions g spec.
Proof.
  unfold observe_dimensions. generalize (@nil UsageSample) as o. induction (spec_dimensions spec) as [|d dims IH]; intros o Hfg; [done|].
  cbn. rewrite (Hfg d) by by left. apply IH. intros. apply Hfg. by right.
Qed.

Lemma records_quiet a chunk records a' :
  observe_records utf8_error_text parse_json pointer a chunk records = (a', Ok false) →
  (c_request_seen (acc_counts a) = true → observation a' = observation a) ∧ c_observed (acc_counts a') = c_observed (acc_counts a).
Proof.
  unfold observe_records. set (a1 := with_counts a _). intros H.
  assert (∃ a2, same_usage a1 a2 ∧ observes_unit (acc_spec a1) Bytes = false ∧ a' = with_counts a2 (with_observed (acc_counts a2) false)) as
    (a2 & (Hc & Hs & Hh) & Hbytes & ->).
  { destruct records as [| |v].
    - destruct (observe_sse _ _ _ _ _) as [a2 [changed|e]] eqn:E; [|done]. injection H as <- [Hb ->]%orb_false_iff.
      exists a2. rewrite Hb. split; [by apply sse_quiet in E|done].
    - destruct (observe_ndjson _ _ _ _ _) as [a2 [changed|e]] eqn:E; [|done].
      destruct (observe_characters _ a2 chunk changed) as [a3 [changed'|e]] eqn:E'; [|done]. injection H as <- [Hb ->]%orb_false_iff.
      apply characters_quiet in E' as [-> ->]. exists a2. rewrite Hb. split; [by apply ndjson_quiet in E|done].
    - destruct (observe_stream_value _ _ v false) as [c changed] eqn:E.
      destruct (observe_characters _ _ chunk changed) as [a3 [changed'|e]] eqn:E'; [|done]. injection H as <- [Hb ->]%orb_false_iff.
      apply characters_quiet in E' as [-> ->]. exists (with_counts a1 c). rewrite Hb. apply observe_value_quiet in E as ->. done. }
  unfold observation. cbn [with_counts acc_counts acc_hints acc_spec with_observed c_observed]. rewrite Hc, Hs, Hh. cbn [a1 with_counts acc_counts acc_hints acc_spec].
  split; [|cbn; apply orb_false_r]. intros Hseen. apply observe_dimensions_ext. intros d Hd. unfold dimension_amount.
  assert (¬ (sd_direction d = Output ∧ sd_unit d = Bytes)) as Hno.
  { intros [Hdir Hunit]. apply not_true_iff_false in Hbytes. apply Hbytes. unfold observes_unit. apply existsb_exists. exists d.
    split; [by apply list_elem_of_In|]. by rewrite Hdir, Hunit. }
  destruct (sd_direction d), (sd_unit d); try done; [by destruct Hno|]. cbn. by rewrite Hseen.
Qed.
Lemma chunk_quiet a chunk is_sse a' :
  observe_chunk utf8_error_text parse_json pointer a chunk is_sse = (a', Ok false) →
  (c_request_seen (acc_counts a) = true → observation a' = observation a) ∧ c_observed (acc_counts a') = c_observed (acc_counts a).
Proof. apply records_quiet. Qed.
(** The end of a stream that changes nothing leaves what is rated alone. *)
Lemma settle_quiet a a' :
  settle_missing_usage a = (a', Ok false) → counts_wf (acc_counts a) → observation a' = observation a ∧ c_observed (acc_counts a') = c_observed (acc_counts a).
Proof.
  unfold settle_missing_usage. set (c := acc_counts a). intros H [_ _ [Hwords _] [Htext _] _ [Htokens _]]. fold c in Hwords, Htext, Htokens.
  set (input := if c_provider_input_tokens (with_finished c) then None else charged_input_token_unit (acc_spec a)) in *.
  assert (negb (c_provider_output_tokens c) && (0 <? c_output_text_bytes c) = false ∧
          (∀ u, input = Some u → ∃ n, request_body_bytes (acc_hints a) = Some n ∧ n ≤ c_input_tokens c) ∧
          a' = with_counts a (with_observed (with_finished c) false)) as (Hout & Hin & ->).
  { destruct input as [u|]; [destruct (request_body_bytes (acc_hints a)) as [n|]; [|done]|].
    - injection H as <- [Ho Hi%Z.ltb_ge]%orb_false_iff. split; [done|]. cbn [with_finished c_output_text_bytes c_provider_output_tokens c_input_tokens] in *.
      rewrite Ho. cbn [orb]. replace (c_input_tokens c <? n) with false by (symmetry; by apply Z.ltb_ge). split; [|done]. intros ? _. by exists n.
    - injection H as <- Ho. cbn [with_finished c_output_text_bytes c_provider_output_tokens] in *. rewrite Ho. by split_and!. }
  split; [|cbn; apply orb_false_r]. unfold observation. cbn [with_counts acc_counts acc_hints acc_spec]. apply observe_dimensions_ext. intros d Hd.
  assert (output_token_amount (with_observed (with_finished c) false) = output_token_amount c) as Ho.
  { unfold output_token_amount. cbn. destruct (c_provider_output_tokens c); cbn in *; [by rewrite andb_false_r|]. apply Z.ltb_ge in Hout. repeat case_match; lia. }
  assert (∀ u, sd_direction d = Input → sd_unit d = u → u = Tokens ∨ u = QuotaUnits →
            input_token_amount (acc_hints a) (with_observed (with_finished c) false) = input_token_amount (acc_hints a) c) as Hi.
  { intros u Hdir Hunit Hcharged. unfold input_token_amount. cbn. subst input. cbn in Hin. destruct (c_provider_input_tokens c); cbn [negb]; [by rewrite !andb_false_r|].
    destruct (charged_input_token_unit (acc_spec a)) as [u'|] eqn:Hu.
    - destruct (Hin u' eq_refl) as (n & Hn & ?). rewrite Hn. cbn. repeat case_match; lia.
    - exfalso. unfold charged_input_token_unit in Hu. apply fmap_None in Hu. pose proof (find_none _ _ Hu d (proj1 (list_elem_of_In _ _) Hd)) as Hnone.
      cbn in Hnone. rewrite Hdir, Hunit in Hnone. by destruct Hcharged as [->| ->]. }
  unfold dimension_amount. destruct (sd_direction d) eqn:Hdir, (sd_unit d) eqn:Hunit; try done; rewrite ?Ho; try done; rewrite (Hi _ eq_refl eq_refl); auto.
Qed.
Lemma finish_quiet a is_sse a' :
  acc_finish_stream utf8_error_text parse_json pointer a is_sse = (a', Ok false) → counts_wf (acc_counts a) →
  observation a' = observation a ∧ c_observed (acc_counts a') = c_observed (acc_counts a).
Proof.
  unfold acc_finish_stream. intros H Hw. destruct (finish_records _ _ _ a is_sse) as [a1 [changed|e]] eqn:E1; [|done].
  destruct (settle_missing_usage a1) as [a2 [bounded|e]] eqn:E2; [|done]. injection H as <- [-> ->]%orb_false_iff.
  assert (same_usage a a1) as (Hc & Hs & Hh).
  { unfold finish_records in E1. destruct is_sse; [destruct (sse_finish _) as [[d blocks]|]; [|done]|case_bool_decide; [|done]; destruct (ndjson_finish _ _ _) as [[d values]|]; [|done]];
      destruct (observe_values _ _ _ _) as [c t] eqn:E; injection E1 as <- ->; by apply observe_values_quiet in E as ->. }
  apply settle_quiet in E2 as [Hobs Ho]; [|by rewrite Hc]. unfold observation in *. cbn [with_counts acc_counts acc_hints acc_spec].
  split; [|cbn; by rewrite orb_false_r, Ho, Hc]. rewrite <-Hc, <-Hs, <-Hh, <-Hobs. by apply observe_dimensions_ext.
Qed.
End quiet.

Section usage.
Context (utf8_error_text : list Z → string) (parse_json : list Z → result string json) (pointer : json → string → option json).

Definition observe_chunks (a : StreamUsageAccumulator) (chunks : list (list Z)) (is_sse : bool) : StreamUsageAccumulator :=
  foldl (λ a chunk, (observe_chunk utf8_error_text parse_json pointer a chunk is_sse).1) a chunks.
Lemma chunks_step chunks is_sse : ∀ a, acc_step false a (observe_chunks a chunks is_sse).
Proof.
  induction chunks as [|chunk chunks IH]; intros a; [by apply acc_step_refl|].
  eapply acc_step_trans; [apply (chunk_step utf8_error_text parse_json pointer a chunk is_sse)|apply IH].
Qed.

(** The usage a stream is charged for never falls: not from one chunk to
    the next, even when a chunk is refused, and not at the end, where a stream
    without the provider's own numbers is rated at its upper bounds. *)
Theorem streamed_usage_never_falls a chunks is_sse d :
  counts_wf (acc_counts a) → hints_wf (acc_hints a) → c_finished (acc_counts a) = false →
  let amount a := dimension_amount (acc_hints a) (acc_counts a) d in
  let streamed := observe_chunks a chunks is_sse in
  amount a ≤ amount streamed ∧
  amount streamed ≤ amount (acc_finish_stream utf8_error_text parse_json pointer streamed is_sse).1 ∧
  amount streamed ≤ amount (acc_abort_stream streamed).1.
Proof.
  intros Hw Hh Hf amount streamed. destruct (chunks_step chunks is_sse a) as [_ Hhints Hwf Hgrows Hfin]. fold streamed in Hhints, Hwf, Hgrows, Hfin.
  specialize (Hwf Hw). specialize (Hfin Hw eq_refl). rewrite Hf in Hfin.
  assert (∀ a', acc_step true streamed a' → amount streamed ≤ amount a') as Hend.
  { intros a' []. unfold amount. rewrite as_hints0. apply amount_grows; [by rewrite Hhints|done|by apply as_grows0]. }
  split_and!; [|apply Hend, finish_step|apply Hend, abort_step]. unfold amount. rewrite Hhints. by apply amount_grows; [| |apply Hgrows].
Qed.

(** A stream that ends without the provider's numbers is rated at its upper
    bounds: a token for every byte of text, and for every byte of request. *)
Lemma settled_upper_bounds a a' b :
  settle_missing_usage a = (a', Ok b) →
  (c_provider_output_tokens (acc_counts a') = true ∨ c_output_text_bytes (acc_counts a') ≤ output_token_amount (acc_counts a')) ∧
  (c_provider_input_tokens (acc_counts a') = true ∨ charged_input_token_unit (acc_spec a') = None ∨
   ∃ n, request_body_bytes (acc_hints a') = Some n ∧ n ≤ input_token_amount (acc_hints a') (acc_counts a')).
Proof.
  unfold settle_missing_usage, output_token_amount, input_token_amount. intros H.
  destruct (c_provider_input_tokens (with_finished (acc_counts a))) eqn:Hi, (charged_input_token_unit (acc_spec a)) eqn:Hu;
    [| |destruct (request_body_bytes (acc_hints a)) as [n|] eqn:Hb; [|done]|]; injection H as <- <-; cbn in *; rewrite ?Hi, ?Hu, ?Hb; cbn;
    (split; [destruct (c_provider_output_tokens (acc_counts a)); cbn; [by left|right; lia]|]); auto.
  right; right. exists n. split; [done|lia].
Qed.
End usage.

(** An answer of a language model, priced per token. *)
Module SampleAnswer.
Definition spec : SessionMeterSpec := {| spec_dimensions := [required_dimension Output Tokens 1000 20000] |}.
Definition started : StreamUsageAccumulator := accumulator_new spec {| quota_units := []; request_body_bytes := Some 40 |}.
Definition delta (text : string) : json := JObj [("choices", JArr [JObj [("delta", JObj [("content", JStr text)])]])].
Definition parse_json (body : list Z) : result string json := Ok (delta (string_of_bytes body)).
Definition no_pointer (_ : json) (_ : string) : option json := None.
Definition chunks : list (list Z) := [str_bytes "data:two wo"; str_bytes "rds" ++ [LF; LF]].
(** Two words while the answer streams, nine bytes when it has ended. *)
Lemma streamed_usage_never_falls_witness :
  let amount a := dimension_amount (acc_hints a) (acc_counts a) (required_dimension Output Tokens 1000 20000) in
  let streamed := observe_chunks SampleStream.error_text parse_json no_pointer started chunks true in
  amount started = 0 ∧ amount streamed = 2 ∧
  amount (acc_finish_stream SampleStream.error_text parse_json no_pointer streamed true).1 = 9 ∧
  (amount started ≤ amount streamed ∧
   amount streamed ≤ amount (acc_finish_stream SampleStream.error_text parse_json no_pointer streamed true).1 ∧
   amount streamed ≤ amount (acc_abort_stream streamed).1).
Proof.
  cbv zeta. split; [reflexivity|]. split; [vm_compute; reflexivity|]. split; [vm_compute; reflexivity|].
  apply (streamed_usage_never_falls SampleStream.error_text parse_json no_pointer started chunks true (required_dimension Output Tokens 1000 20000)).
  - apply no_counts_wf.
  - split; [constructor|]. vm_compute. split; [discriminate|reflexivity].
  - reflexivity.
Defined.
End SampleAnswer.
