(* ===== verification/StreamRating.v ===== *)
(** * StreamRating: what a stream is rated by

    The specification a configuration gives and the observation a stream is
    rated by are well formed, and what a gate asks for is the value of that
    observation: shared by the two meters of
    [core/src/server/session_stream.rs]. *)
From S2P Require Import Prelude F64 Text MeteringTypes Pricing SessionMetering Landing UsageSettlement.
From S2P Require Import StreamDecode StreamUsage.
#[local] Open Scope Z_scope.

(** ** Observations *)
Lemma observation_set_wf o d u n : obs_wf o → 0 ≤ n → obs_wf (observation_set o d u n).
Proof.
  intros Ho Hn. induction Ho as [|s o Hs Ho IH]; cbn; [by repeat constructor|]. case_match; by constructor.
Qed.
Lemma observe_dimensions_wf amount spec : (∀ d, 0 ≤ amount d) → obs_wf (observe_dimensions amount spec).
Proof.
  intros Ha. unfold observe_dimensions. assert (obs_wf []) as Ho by constructor. revert Ho. generalize (@nil UsageSample) as o.
  induction (spec_dimensions spec) as [|d dims IH]; intros o Ho; [done|]. cbn. apply IH. by apply observation_set_wf.
Qed.
Lemma amount_nonneg h c d : Forall (λ q, 0 ≤ q.2) (quota_units h) → counts_wf c → 0 ≤ dimension_amount h c d.
Proof.
  intros Hh [[] [] [] [] [] []].
  assert (0 ≤ input_token_amount h c) as Hi by (unfold input_token_amount; case_match; lia).
  assert (0 ≤ output_token_amount c) as Ho by (unfold output_token_amount; case_match; lia).
  assert (∀ dir n, 0 ≤ n → 0 ≤ in_quota_units h dir n) as Hq.
  { intros dir n Hn. unfold in_quota_units. destruct (tokens_per_quota_unit h dir) as [scale|] eqn:E; [|done].
    unfold tokens_per_quota_unit in E. apply fmap_Some in E as (q & [Hin _]%find_some & ->). rewrite Forall_forall in Hh.
    specialize (Hh q (proj2 (list_elem_of_In _ _) Hin)). unfold stream_ceil_div_u64. destruct (Z.eqb_spec q.2 0); [done|].
    apply Z.div_pos; [unfold saturating_add; lia|cbn in *; lia]. }
  unfold dimension_amount. repeat case_match; try done; auto.
Qed.
Lemma observation_wf a : Forall (λ q, 0 ≤ q.2) (quota_units (acc_hints a)) → counts_wf (acc_counts a) → obs_wf (observation a).
Proof. intros Hh Hc. apply observe_dimensions_wf. intros d. by apply amount_nonneg. Qed.

(** ** Plans *)
Definition scaled (d : MeterDimension) : Prop := 0 ≤ dim_scale d.
Definition metering_wf (m : Metering) : Prop :=
  Forall scaled (m_dimensions m) ∧ Forall (λ v, Forall scaled (variant_dimensions v)) (m_variants m).

Lemma resolve_variant_elem vs hint v : resolve_variant vs hint = Some v → v ∈ vs.
Proof.
  unfold resolve_variant.
  assert (∀ seen acc, (∀ x, acc.1 = Some x ∨ acc.2 = Some x → x ∈ seen) → ∀ x, (foldl (resolve_variant_step hint) acc vs).1 = Some x ∨
            (foldl (resolve_variant_step hint) acc vs).2 = Some x → x ∈ seen ++ vs) as Hloop.
  { induction vs as [|w vs IH]; intros seen acc Hacc x; cbn [foldl]; [rewrite app_nil_r; apply Hacc|].
    rewrite cons_middle, app_assoc. apply IH. intros y. unfold resolve_variant_step. destruct acc as [dflt best]. cbn [fst snd] in *.
    repeat case_match; cbn; rewrite elem_of_app, list_elem_of_singleton; naive_solver. }
  specialize (Hloop [] (None, None)). destruct (foldl _ _ _) as [dflt best]. cbn in Hloop. intros Hv. apply Hloop; [naive_solver|].
  destruct best; [by right|by left].
Qed.
Lemma variant_branch_scaled m hint dims : metering_wf m → variant_branch m hint = Some dims → Forall scaled dims.
Proof.
  intros [Hd Hv]. unfold variant_branch. destruct (m_variants m) as [|v vs] eqn:E; [done|]. rewrite Forall_forall in Hv.
  destruct (resolve_variant (v :: vs) hint) as [v'|] eqn:Hr.
  - intros [= <-]. apply Hv. by eapply resolve_variant_elem.
  - destruct (m_dimensions m); intros [= <-]; [apply Hv; by left|done].
Qed.
Lemma mapM_dims props dims specs :
  Forall scaled dims → mapM (dimension_from_metering props) dims = Ok specs → Forall (λ d, 0 ≤ sd_scale d ∧ 0 ≤ sd_price_micro_usd d) specs.
Proof.
  intros Hd. revert specs. induction Hd as [|d dims Hd Hdims IH]; intros specs; cbn [mapM]; [by intros [= <-]|].
  intros (s & Hs & (rest & Hrest%IH & [= <-])%bind_Ok)%bind_Ok. constructor; [|done]. unfold dimension_from_metering in Hs. inv_ok. cbn. split; [done|].
  match goal with H : price_usd_to_micro_usd _ = Ok _ |- _ => unfold price_usd_to_micro_usd in H; inv_ok end. apply f64_as_u64_range.
Qed.
Lemma spec_from_metering_wf m hint props spec : metering_wf m → spec_from_metering m hint props = Ok spec → spec_wf spec.
Proof.
  intros Hm. unfold spec_from_metering. destruct (m_sku_tiers _); [|done]. intros H. inv_ok. unfold spec_wf. cbn [spec_dimensions].
  match goal with H : mapM _ _ = Ok _ |- _ => apply mapM_dims in H; [done|] end.
  match goal with H : select_dimensions _ _ = Ok _ |- _ => unfold select_dimensions in H; rename H into Hs end.
  destruct (variant_branch _ _) as [dims|] eqn:Hv; [injection Hs as <-; by eapply variant_branch_scaled|].
  destruct Hm as [Hd _]. destruct (m_dimensions _); [done|]. by injection Hs as <-.
Qed.
Lemma hints_scales m hint props : Forall (λ q, 0 ≤ q.2) (quota_units (hints_from_metering m hint props)).
Proof.
  apply Forall_forall. intros q (d & _ & Hq)%list_elem_of_omap. case_bool_decide; [|done]. apply fmap_Some in Hq as (n & Hn & ->). cbn.
  unfold quota_tokens_per_unit in Hn. apply bind_Some in Hn as (t & _ & (text & _ & Hp)%bind_Some). unfold parse_tokens_per_quota_unit in Hp.
  apply bind_Some in Hp as (lower & _ & Hh). apply head_Some in Hh as [l Hl].
  assert (n ∈ n :: l) as Hin by by left. rewrite <-Hl in Hin. apply list_elem_of_omap in Hin as (part & _ & E).
  destruct (u64_from_str _) as [k|]; [|done]. destruct (Z.ltb_spec 0 k); [|done]. injection E as <-. lia.
Qed.

(** ** What a gate asks for

    The value of the observation, counted from the baseline; and nothing, at
    the end of a stream, only when that is committed. *)
Definition owes (g : SessionUsageGate) (spec : SessionMeterSpec) (o : UsageObservation) (target : Z) : Prop :=
  ∃ owed, micro_usd_to_base_units_ceil (rated_total spec o) (gate_settlement g) = Ok owed ∧ target = baseline_base_units g + owed.
Lemma gate_observe_asks g o mode g' d :
  spec_wf (gate_spec g) → obs_wf o → gate_observe g o mode = (g', Ok d) →
  owes g (gate_spec g) o (target_cumulative_base_units d) ∧
  outstanding_base_units d = saturating_sub (target_cumulative_base_units d) (committed_base_units g) ∧
  (requires_voucher d = false → outstanding_base_units d = 0 ∨ (mode = Streaming ∧ outstanding_base_units d < Z.max (min_voucher_delta g) 1)).
Proof.
  intros Hs Ho Hg. apply gate_observe_Ok in Hg as (rated & total & target & _ & Htot & -> & -> & _ & ->).
  apply rate_voucher_delta_Ok in Htot as (_ & Howed & _); [|done|constructor|done].
  unfold gate_decide. cbn [with_last_observation committed_base_units min_voucher_delta].
  set (target := baseline_base_units g + current_base_units total). set (outstanding := saturating_sub target (committed_base_units g)).
  split; [eexists; split; [exact Howed|by case_match]|].
  destruct (Z.eqb_spec outstanding 0) as [E|E]; cbn; [by split; [|left]|]. destruct (decide (mode = Streaming)) as [->|Hm].
  - rewrite bool_decide_eq_true_2 by done. cbn. destruct (Z.ltb_spec outstanding (Z.max (min_voucher_delta g) 1)); cbn; [by split; [|right]|done].
  - rewrite bool_decide_eq_false_2 by done. done.
Qed.
