(* ===== verification/StreamMeter.v ===== *)
(** * StreamMeter: charging a streamed response

    [DelegatedSessionStreamMeter], its finalizer and
    [meter_delegated_response_stream] of
    [core/src/server/session_stream.rs]: every chunk is held, decoded, rated
    and charged before its bytes are let go, and a stream that ends early is
    charged for what it let go. *)
From S2P Require Import Prelude F64 Text MeteringTypes Pricing SessionMetering Landing UsageSettlement.
From S2P Require Import StreamDecode StreamUsage Effects.
#[local] Open Scope string_scope.
#[local] Open Scope list_scope.
#[local] Open Scope Z_scope.

(** ** State

    Of a [SessionForward]: what the channel had been charged when the request
    was admitted, what it may still be charged, the plan, the token's
    decimals, and whether charges are authenticated. *)
Record StreamForward := {
  fw_committed_base_units : Z; fw_available_base_units : Z; fw_plan : option UptoSettlementPlan; fw_decimals : Z; fw_delegated : bool;
  fw_request_body_bytes : option Z }.
(** What a refused chunk gives back. *)
Record Usage := {
  u_accumulator : StreamUsageAccumulator; u_gate : SessionUsageGate; u_current : UsageObservation; u_priced_context_length : option Z;
  u_clamp_charge_to_authorized : bool }.
Record StreamMeter := {
  forward : StreamForward; used : Usage; authorization_exhausted : bool; next_lifecycle_touch : Z; in_flight : option Z;
  record_hold : RecordHold; observer : option (list Z) }.
Inductive StreamError :=
  | MeteringFailed (e : SessionMeteringError)
  | AboveAuthorized (target authorized : Z)
  | Exhausted
  | MissingPlan
  | UnobservableMeters
  | Unauthenticated
  | ChargeFailed (e : string)
  | TouchFailed (e : string).

(** ** Effects

    A charge or a lifecycle write answers, or the stream is dropped while it
    waits; a charge then runs on.  [charged] is what the session has committed
    for this stream, [touches] the lifecycle writes nobody waits for. *)
Inductive Answer := Done | Refused (error : string) | Left.
Record StreamWorld := { answers : list Answer; charged : list Z; touches : Z }.
Abbreviation State := (StreamMeter * StreamWorld)%type.
Abbreviation stream := (effect State StreamError).
Definition lift {A} (r : metered A) : stream A := match r with Ok a => mret a | Err e => fail (MeteringFailed e) end.
Definition touch_unconfirmed : stream unit := λ s, let w := s.2 in
  ((s.1, {| answers := answers w; charged := charged w; touches := touches w + 1 |}), Returned tt).
(** Wait for an answer; a charge of [amount] that lands is committed. *)
Definition await (amount : option Z) : stream (result string unit) := λ s, let w := s.2 in
  match answers w with
  | Done :: rest =>
      ((s.1, {| answers := rest; charged := charged w ++ match amount with Some n => [n] | None => [] end; touches := touches w |}), Returned (Ok tt))
  | Refused e :: rest => ((s.1, {| answers := rest; charged := charged w; touches := touches w |}), Returned (Err e))
  | Left :: rest => ((s.1, {| answers := rest; charged := charged w; touches := touches w |}), Dropped)
  | [] => (s, Dropped)
  end.

Definition with_used (m : StreamMeter) (u : Usage) : StreamMeter := {|
  forward := forward m; used := u; authorization_exhausted := authorization_exhausted m; next_lifecycle_touch := next_lifecycle_touch m;
  in_flight := in_flight m; record_hold := record_hold m; observer := observer m |}.
Definition with_exhausted (m : StreamMeter) (e : bool) : StreamMeter := {|
  forward := forward m; used := used m; authorization_exhausted := e; next_lifecycle_touch := next_lifecycle_touch m;
  in_flight := in_flight m; record_hold := record_hold m; observer := observer m |}.
Definition with_next_touch (m : StreamMeter) (t : Z) : StreamMeter := {|
  forward := forward m; used := used m; authorization_exhausted := authorization_exhausted m; next_lifecycle_touch := t;
  in_flight := in_flight m; record_hold := record_hold m; observer := observer m |}.
Definition with_in_flight (m : StreamMeter) (f : option Z) : StreamMeter := {|
  forward := forward m; used := used m; authorization_exhausted := authorization_exhausted m; next_lifecycle_touch := next_lifecycle_touch m;
  in_flight := f; record_hold := record_hold m; observer := observer m |}.
Definition with_hold (m : StreamMeter) (h : RecordHold) : StreamMeter := {|
  forward := forward m; used := used m; authorization_exhausted := authorization_exhausted m; next_lifecycle_touch := next_lifecycle_touch m;
  in_flight := in_flight m; record_hold := h; observer := observer m |}.
Definition observing (m : StreamMeter) (amount : Z) : StreamMeter := {|
  forward := forward m; used := used m; authorization_exhausted := authorization_exhausted m; next_lifecycle_touch := next_lifecycle_touch m;
  in_flight := in_flight m; record_hold := record_hold m; observer := (λ l, l ++ [amount]) <$> observer m |}.
Definition with_gate (u : Usage) (g : SessionUsageGate) : Usage := {|
  u_accumulator := u_accumulator u; u_gate := g; u_current := u_current u; u_priced_context_length := u_priced_context_length u;
  u_clamp_charge_to_authorized := u_clamp_charge_to_authorized u |}.
Definition with_accumulator (u : Usage) (a : StreamUsageAccumulator) : Usage := {|
  u_accumulator := a; u_gate := u_gate u; u_current := u_current u; u_priced_context_length := u_priced_context_length u;
  u_clamp_charge_to_authorized := u_clamp_charge_to_authorized u |}.
Definition with_current (u : Usage) (o : UsageObservation) : Usage := {|
  u_accumulator := u_accumulator u; u_gate := u_gate u; u_current := o; u_priced_context_length := u_priced_context_length u;
  u_clamp_charge_to_authorized := u_clamp_charge_to_authorized u |}.
Definition with_clamp (u : Usage) (b : bool) : Usage := {|
  u_accumulator := u_accumulator u; u_gate := u_gate u; u_current := u_current u; u_priced_context_length := u_priced_context_length u;
  u_clamp_charge_to_authorized := b |}.

Section meter.
Context (utf8_error_text : list Z → string) (parse_json : list Z → result string json) (pointer : json → string → option json).

Definition plan_spec (plan : UptoSettlementPlan) (props : RequestProperties) : metered SessionMeterSpec :=
  spec_from_metering (plan_metering plan) (plan_variant_hint plan) (Some props).
Definition plan_hints (plan : UptoSettlementPlan) (props : RequestProperties) : SessionUsageHints :=
  hints_from_metering (plan_metering plan) (plan_variant_hint plan) props.

(** [from_forward]; a lifecycle write is due in an interval from [now]. *)
Definition from_forward (fw : StreamForward) (now : Z) : result StreamError StreamMeter :=
  plan ← ok_or (fw_plan fw) MissingPlan;
  _ ← reject_if (negb (stream_honors_meters (plan_metering plan))) UnobservableMeters;
  spec ← map_err MeteringFailed (plan_spec plan (plan_request_properties plan));
  gate ← map_err MeteringFailed (gate_new spec {| decimals := fw_decimals fw |} (fw_committed_base_units fw) 1);
  Ok {| forward := fw;
        used := {| u_accumulator := accumulator_new spec (plan_hints plan (plan_request_properties plan)); u_gate := gate;
                   u_current := zero_observation spec; u_priced_context_length := context_length (plan_request_properties plan);
                   u_clamp_charge_to_authorized := false |};
        authorization_exhausted := false; next_lifecycle_touch := now + LIFECYCLE_TOUCH_INTERVAL; in_flight := None;
        record_hold := hold_for_spec spec; observer := None |}.
Definition with_request_body_bytes (m : StreamMeter) (bytes : Z) : StreamMeter :=
  with_used m (with_accumulator (used m) (with_body_bytes (u_accumulator (used m)) bytes)).
Definition with_observer (m : StreamMeter) (o : option (list Z)) : StreamMeter := {|
  forward := forward m; used := used m; authorization_exhausted := authorization_exhausted m; next_lifecycle_touch := next_lifecycle_touch m;
  in_flight := in_flight m; record_hold := record_hold m; observer := o |}.
(** The meter of a delegated response, as [core/src/server/payment.rs] sets it
    up. *)
Definition delegated_meter (fw : StreamForward) (now : Z) (observer : option (list Z)) : result StreamError StreamMeter :=
  m ← from_forward fw now;
  let m := with_observer m observer in
  Ok (match fw_request_body_bytes fw with Some bytes => with_request_body_bytes m bytes | None => m end).
Definition supports (fw : StreamForward) : bool :=
  match fw_plan fw with
  | None => false
  | Some plan =>
      stream_honors_meters (plan_metering plan) &&
      match plan_spec plan (plan_request_properties plan) with Ok spec => has_stream_observable_dimension spec | Err _ => false end
  end.
Definition authorized_base_units (m : StreamMeter) : Z :=
  saturating_add 64 (fw_committed_base_units (forward m)) (fw_available_base_units (forward m)).
Definition stream_committed (m : StreamMeter) : Z := committed_base_units (u_gate (used m)).

(** ** Observing *)
Definition at_context_length (props : RequestProperties) (n : Z) : RequestProperties := {|
  input_tokens := input_tokens props; input_characters := input_characters props; context_length := Some n; body_size := body_size props;
  duration_seconds := duration_seconds props; batch_size := batch_size props; image_pixels := image_pixels props |}.
Definition reprice_for_context_length (fw : StreamForward) (u : Usage) (n : Z) (usage_only_chunk : bool) : result StreamError Usage :=
  plan ← ok_or (fw_plan fw) MissingPlan;
  let properties := at_context_length (plan_request_properties plan) n in
  spec ← map_err MeteringFailed (plan_spec plan properties);
  gate ← map_err MeteringFailed (gate_new spec {| decimals := fw_decimals fw |} (fw_committed_base_units fw) 1);
  Ok {| u_accumulator := reconfigure (u_accumulator u) spec (plan_hints plan properties);
        u_gate := record_commit gate (committed_base_units (u_gate u)); u_current := u_current u; u_priced_context_length := Some n;
        u_clamp_charge_to_authorized := usage_only_chunk |}.
Definition repriced (fw : StreamForward) (u : Usage) (usage_only_chunk : bool) : result StreamError Usage :=
  match observed_input_tokens (u_accumulator u) with
  | Some n => if bool_decide (u_priced_context_length u = Some n) then Ok u else reprice_for_context_length fw u n usage_only_chunk
  | None => Ok u
  end.
(** Rate what is counted so far. *)
Definition decide_usage (u : Usage) (mode : GateMode) : Usage * result StreamError SessionGateDecision :=
  let '(gate, r) := gate_observe (u_gate u) (u_current u) mode in (with_gate u gate, map_err MeteringFailed r).
Definition observe_unreleased_chunk (m : StreamMeter) (chunk : list Z) (is_sse : bool) : Usage * result StreamError (option SessionGateDecision) :=
  let u := used m in
  let chars_before := c_output_chars (acc_counts (u_accumulator u)) in
  let '(a, r) := observe_chunk utf8_error_text parse_json pointer (u_accumulator u) chunk is_sse in
  let u := with_accumulator u a in
  match r with
  | Err e => (u, Err (MeteringFailed e))
  | Ok false => (u, Ok None)
  | Ok true =>
      if authorization_exhausted m then (u, Err Exhausted)
      else
        match repriced (forward m) u (c_output_chars (acc_counts a) =? chars_before) with
        | Err e => (u, Err e)
        | Ok u => let '(u, r) := decide_usage (with_current u (observation (u_accumulator u))) Streaming in (u, match r with Ok d => Ok (Some d) | Err e => Err e end)
        end
  end.
Definition meter_observe_chunk (chunk : list Z) (is_sse : bool) : stream (option SessionGateDecision) := λ s,
  let m := s.1 in
  let '(u, r) := observe_unreleased_chunk m chunk is_sse in
  match r with
  | Err e => ((with_used m u, s.2), Failed e)
  | Ok None => ((with_used m u, s.2), Returned None)
  | Ok (Some d) =>
      if negb (u_clamp_charge_to_authorized u) && (authorized_base_units m <? target_cumulative_base_units d) then
        (s, Failed (AboveAuthorized (target_cumulative_base_units d) (authorized_base_units m)))
      else ((with_used m u, s.2), Returned (Some d))
  end.
Definition final_decision : stream (option SessionGateDecision) := λ s,
  let m := s.1 in
  if negb (has_observation (u_accumulator (used m))) || authorization_exhausted m then (s, Returned None)
  else
    let '(u, r) := decide_usage (used m) Final in
    match r with
    | Err e => ((with_used m u, s.2), Failed e)
    | Ok d => ((with_used m (with_clamp u true), s.2), Returned (Some d))
    end.
(** The accumulator after the end of the stream, and the usage if it changed. *)
Definition close_usage (close : StreamUsageAccumulator → StreamUsageAccumulator * metered bool) : stream unit := λ s,
  let m := s.1 in
  let '(a, r) := close (u_accumulator (used m)) in
  let u := with_accumulator (used m) a in
  match r with
  | Err e => ((with_used m u, s.2), Failed (MeteringFailed e))
  | Ok changed => ((with_used m (if changed then with_current u (observation a) else u), s.2), Returned tt)
  end.

(** ** Charging *)
Definition committed_charge (m : StreamMeter) (amount : Z) : StreamMeter :=
  observing (with_used m (with_gate (used m) (record_commit (u_gate (used m)) (saturating_add 64 (stream_committed m) amount)))) amount.
Definition resolve_in_flight : stream unit :=
  m ← get;
  match in_flight m with
  | None => mret tt
  | Some amount =>
      r ← await (Some amount);
      _ ← put (with_in_flight m None);
      match r with
      | Err e => fail (ChargeFailed e)
      | Ok _ => put (committed_charge (with_in_flight m None) amount)
      end
  end.
Definition settle (d : SessionGateDecision) : stream unit :=
  _ ← resolve_in_flight;
  m ← get;
  let clamp := u_clamp_charge_to_authorized (used m) in
  _ ← put (with_used m (with_clamp (used m) false));
  if negb (requires_voucher d) then mret tt
  else
    m ← get;
    let authorized := authorized_base_units m in
    let requested := target_cumulative_base_units d in
    let target := if clamp then Z.min requested authorized else requested in
    let exhausted_by_clamp := clamp && (authorized <? requested) in
    if authorized <? target then fail (AboveAuthorized target authorized)
    else
      let amount := saturating_sub target (stream_committed m) in
      if amount =? 0 then put (with_exhausted m (authorization_exhausted m || exhausted_by_clamp))
      else if negb (fw_delegated (forward m)) then fail Unauthenticated
      else
        _ ← put (with_in_flight m (Some amount));
        _ ← resolve_in_flight;
        m ← get;
        _ ← put (with_exhausted m (authorization_exhausted m || exhausted_by_clamp));
        r ← await None;
        match r with Ok _ => mret tt | Err e => fail (TouchFailed e) end.
Definition settle_opt (d : option SessionGateDecision) : stream unit := match d with Some d => settle d | None => mret tt end.

(** ** The stream *)
Definition touch_channel_if_due (now : Z) : stream unit :=
  m ← get;
  if now <? next_lifecycle_touch m then mret tt
  else _ ← touch_unconfirmed; put (with_next_touch m (now + LIFECYCLE_TOUCH_INTERVAL)).
Definition push_hold (chunk : list Z) (is_sse : bool) : stream (list Z) :=
  m ← get;
  '(h, ready) ← lift (hold_push (record_hold m) chunk is_sse);
  _ ← put (with_hold m h);
  mret ready.
Definition take_hold : stream (list Z) :=
  m ← get; let '(h, tail) := hold_finish (record_hold m) in _ ← put (with_hold m h); mret tail.
Definition authorize_chunk (now : Z) (chunk : list Z) (is_sse : bool) : stream (list Z) :=
  _ ← touch_channel_if_due now;
  ready ← push_hold chunk is_sse;
  d ← meter_observe_chunk chunk is_sse;
  _ ← settle_opt d;
  mret ready.
Definition finish_stream (is_sse : bool) : stream (list Z) :=
  _ ← close_usage (λ a, acc_finish_stream utf8_error_text parse_json pointer a is_sse);
  d ← final_decision;
  _ ← settle_opt d;
  take_hold.
Definition abort_stream : stream unit :=
  _ ← resolve_in_flight;
  _ ← close_usage acc_abort_stream;
  d ← final_decision;
  settle_opt d.

(** What happens to a stream: a chunk of the upstream body, an upstream error,
    or the client going away. *)
Inductive Upstream := Chunk (now : Z) (bytes : list Z) | Broken | Gone.
Inductive Ending := Completed | Interrupted (settled : bool).
(** [meter_delegated_response_stream] with its finalizer: what was let go, and
    how it ended; an interrupted stream is settled on a task of its own. *)
Definition interrupted (s : State) : State * list Z * Ending :=
  match abort_stream s with (s, Returned _) => (s, [], Interrupted true) | (s, _) => (s, [], Interrupted false) end.
Fixpoint meter_delegated_response_stream (events : list Upstream) (is_sse : bool) (s : State) : State * list Z * Ending :=
  match events with
  | [] => match finish_stream is_sse s with (s, Returned tail) => (s, tail, Completed) | (s, _) => interrupted s end
  | Chunk now bytes :: events =>
      match authorize_chunk now bytes is_sse s with
      | (s, Returned ready) => let '(s, released, ending) := meter_delegated_response_stream events is_sse s in (s, ready ++ released, ending)
      | (s, _) => interrupted s
      end
  | (Broken | Gone) :: _ => interrupted s
  end.
End meter.
