(* ===== verification/StreamSafety.v ===== *)
(** * StreamSafety: what a metered stream is charged

    Of [StreamMeter]: the charges of a stream fit its authorization whatever
    happens to it, and bytes are let go only when everything counted so far is
    paid for, or all that is authorized is. *)
From S2P Require Import Prelude F64 Text MeteringTypes Pricing SessionMetering Landing UsageSettlement.
From S2P Require Import StreamDecode StreamUsage StreamRating Effects StreamMeter.
#[local] Open Scope string_scope.
#[local] Open Scope list_scope.
#[local] Open Scope Z_scope.

(** ** What is charged

    The gate has recorded exactly what the session committed for the stream,
    a charge in progress still fits the authorization, and the observer has
    seen every charge. *)
Section invariants.
Context (fw : StreamForward).
Definition authorized : Z := saturating_add 64 (fw_committed_base_units fw) (fw_available_base_units fw).
Definition forward_wf : Prop := is_u64 (fw_committed_base_units fw) ∧ is_u64 (fw_available_base_units fw).

Record funded (s : State) : Prop := {
  fu_forward : forward s.1 = fw;
  fu_committed : stream_committed s.1 = fw_committed_base_units fw + zsum (charged s.2);
  fu_positive : Forall (λ n, 0 < n) (charged s.2);
  fu_fits : stream_committed s.1 + default 0 (in_flight s.1) ≤ authorized;
  fu_in_flight : ∀ n, in_flight s.1 = Some n → 0 < n;
  fu_exhausted : authorization_exhausted s.1 = true → authorized ≤ stream_committed s.1;
  fu_observer : match observer s.1 with Some l => l = charged s.2 | None => True end;
  fu_baseline : baseline_base_units (u_gate (used s.1)) = fw_committed_base_units fw;
  fu_threshold : min_voucher_delta (u_gate (used s.1)) = 1 }.

Lemma authorized_range : forward_wf → is_u64 authorized ∧ fw_committed_base_units fw ≤ authorized.
Proof. unfold forward_wf, authorized, is_u64, in_range, saturating_add. lia. Qed.

(** The usage of a meter, and what is between it and the session. *)
Definition usage_kept (s s' : State) : Prop :=
  (u_accumulator (used s'.1), u_current (used s'.1)) = (u_accumulator (used s.1), u_current (used s.1)) ∧ gate_spec (u_gate (used s'.1)) = gate_spec (u_gate (used s.1)) ∧
  gate_settlement (u_gate (used s'.1)) = gate_settlement (u_gate (used s.1)) ∧ record_hold s'.1 = record_hold s.1 ∧
  stream_committed s.1 ≤ stream_committed s'.1.
Definition still (s0 : State) (s : State) : Prop := funded s ∧ usage_kept s0 s.

Lemma still_start s : funded s → still s s.
Proof. intros. by split_and!. Qed.

(** A charge that lands is recorded as it is committed. *)
Lemma funded_charge m w amount rest :
  forward_wf → funded (m, w) → in_flight m = Some amount →
  let m' := committed_charge (with_in_flight m None) amount in
  funded (m', {| answers := rest; charged := charged w ++ [amount]; touches := touches w |}) ∧ stream_committed m' = stream_committed m + amount.
Proof.
  intros Hwf [Hfw Hc Hp Hfit Hpos Hex Hobs Hb Ht] Hi m'. cbn [fst snd] in *. rewrite Hi in Hfit. cbn in Hfit. specialize (Hpos _ Hi).
  assert (stream_committed m' = stream_committed m + amount) as Hm'.
  { unfold m', committed_charge, observing, stream_committed. cbn. pose proof (authorized_range Hwf). fold (stream_committed m).
    change (stream_committed (with_in_flight m None)) with (stream_committed m). unfold saturating_add, is_u64, in_range in *. lia. }
  split; [|done]. split; cbn [fst snd charged]; rewrite ?Hm'; try done.
  - rewrite zsum_app, zsum_cons. change (zsum []) with 0. lia.
  - apply Forall_app. by split; [|constructor].
  - cbn. lia.
  - intros He. specialize (Hex He). lia.
  - cbn. destruct (observer m); cbn in *; [by rewrite Hobs|done].
Qed.
Lemma funded_released m w w' : funded (m, w) → charged w' = charged w → funded (with_in_flight m None, w').
Proof.
  intros [Hfw Hc Hp Hfit Hpos Hex Hobs Hb Ht] Hw. cbn [fst snd] in *. split; cbn [fst snd]; rewrite ?Hw; try done. cbn.
  change (stream_committed (with_in_flight m None)) with (stream_committed m). destruct (in_flight m) as [n|]; cbn in Hfit; [|lia]. specialize (Hpos n eq_refl). lia.
Qed.
Lemma funded_world m w w' : funded (m, w) → charged w' = charged w → funded (m, w').
Proof. intros [Hfw Hc Hp Hfit Hpos Hex Hobs Hb Ht] Hw. cbn [fst snd] in *. split; cbn [fst snd]; rewrite ?Hw; done. Qed.

#[local] Instance usage_kept_trans : Transitive usage_kept.
Proof. intros a b c (Ha & Hs & Ht & Hh & Hc) (Ha' & Hs' & Ht' & Hh' & Hc'). split_and!; [congruence..|lia]. Qed.

Lemma resolve_leaves s0 :
  forward_wf →
  leaves (λ s, s = s0 ∧ funded s) resolve_in_flight
    (λ _ s, still s0 s ∧ in_flight s.1 = None ∧ stream_committed s.1 = stream_committed s0.1 + default 0 (in_flight s0.1)) (still s0).
Proof.
  intros Hwf [m w] [<- Hf]. unfold resolve_in_flight, mbind, effect_bind, get. cbn [fst snd]. destruct (in_flight m) as [amount|] eqn:Hi.
  2:{ split; [by apply still_start|]. cbn. split; [done|lia]. }
  unfold await. cbn [fst snd]. destruct (answers w) as [|[|e|] rest]; cbn [fst snd put fail].
  - by apply still_start.
  - destruct (funded_charge m w amount rest Hwf Hf Hi) as [Hf' Hc']. cbn [default from_option]. split; [|by rewrite Hc']. split; [done|].
    split_and!; try done. cbn [fst] in *. rewrite Hc'. destruct Hf as [_ _ _ _ Hpos _ _ _ _]. specialize (Hpos _ Hi). lia.
  - split; [by eapply funded_released|done].
  - split; [by eapply funded_world|done].
Qed.

(** From a state reached from [s0]. *)
Lemma resolve_still s0 : forward_wf → leaves (still s0) resolve_in_flight (λ _ s, still s0 s ∧ in_flight s.1 = None) (still s0).
Proof.
  intros Hwf s [Hf Hk]. pose proof (resolve_leaves s Hwf s (conj eq_refl Hf)) as Hl. destruct (resolve_in_flight s) as [s' [a|e|]].
  - destruct Hl as ([Hf' Hk'] & Hn & _). split; [|done]. split; [done|by etrans].
  - destruct Hl as [Hf' Hk']. split; [done|by etrans].
  - destruct Hl as [Hf' Hk']. split; [done|by etrans].
Qed.

Lemma funded_with_clamp m w b : funded (m, w) → funded (with_used m (with_clamp (used m) b), w).
Proof. by intros []. Qed.
Lemma funded_with_exhausted m w b : (b = true → authorized ≤ stream_committed m) → funded (m, w) → funded (with_exhausted m b, w).
Proof. intros Hb []. by split. Qed.
Lemma funded_in_flight m w amount : 0 < amount → stream_committed m + amount ≤ authorized → funded (m, w) → funded (with_in_flight m (Some amount), w).
Proof. intros Hp Hfit []. split; try done. by intros n [= <-]. Qed.
Lemma authorized_spec m : forward m = fw → authorized_base_units m = authorized.
Proof. intros E. unfold authorized_base_units. by rewrite E. Qed.

(** The charge itself, and what follows it. *)
Lemma charge_leaves s0 d amount b :
  forward_wf → 0 < amount → stream_committed s0.1 + amount = Z.min (target_cumulative_base_units d) authorized → 
  (b = true → authorized < target_cumulative_base_units d) → funded s0 →
  leaves (λ s, s = s0)
    (_ ← put (with_in_flight s0.1 (Some amount));
     _ ← resolve_in_flight;
     m ← get;
     _ ← put (with_exhausted m (authorization_exhausted m || b));
     r ← await None;
     match r with Ok _ => mret tt | Err e => fail (TouchFailed e) end)
    (λ _ s, still s0 s ∧ (target_cumulative_base_units d ≤ stream_committed s.1 ∨ authorized ≤ stream_committed s.1)) (still s0).
Proof.
  intros Hwf Hpos Hamount Hb Hf. destruct s0 as [m w]. set (s1 := (with_in_flight m (Some amount), w) : State). cbn [fst snd] in *.
  assert (funded s1) as Hf1 by (apply funded_in_flight; [done|lia|done]).
  eapply (leaves_bind _ _ (λ _ s, s = s1 ∧ funded s)); [apply leaves_put; intros s ->; done|intros _].
  eapply leaves_bind; [eapply leaves_weaken; [by apply (resolve_leaves s1)|done|intros ? s Hs; exact Hs|]|].
  { intros s [Hs Hk]. split; [done|]. destruct Hk as (? & ? & ? & ? & ?). by split_and!. }
  intros _ [m' w'] ([Hf' Hk'] & Hn & Hc). cbn [fst snd] in *. unfold mbind, effect_bind, get, put, await. cbn [fst snd].
  change (in_flight s1.1) with (Some amount) in Hc. cbn [default from_option id] in Hc. change (stream_committed s1.1) with (stream_committed m) in Hc.
  assert (funded (with_exhausted m' (authorization_exhausted m' || b), w')) as Hf2.
  { apply funded_with_exhausted; [|done]. intros [He| ->]%orb_true_iff; [by apply (fu_exhausted _ Hf')|]. specialize (Hb eq_refl). lia. }
  assert (∀ w'', charged w'' = charged w' → still (m, w) (with_exhausted m' (authorization_exhausted m' || b), w'')) as Hstill.
  { intros w'' Hw. split; [by eapply funded_world|]. destruct Hk' as (? & ? & ? & ? & ?). by split_and!. }
  destruct (answers w') as [|[|e|] rest]; cbn [fst snd mret effect_ret fail]; try (by apply Hstill). split; [apply Hstill, app_nil_r|].
  change (stream_committed (with_exhausted m' _)) with (stream_committed m'). rewrite Hc. lia.
Qed.

Lemma settle_leaves s0 d :
  forward_wf → (requires_voucher d = false → target_cumulative_base_units d ≤ stream_committed s0.1) →
  leaves (still s0) (settle d)
    (λ _ s, still s0 s ∧ (target_cumulative_base_units d ≤ stream_committed s.1 ∨ authorized ≤ stream_committed s.1)) (still s0).
Proof.
  intros Hwf Hd. unfold settle. eapply leaves_bind; [by apply resolve_still|intros ?]. intros [m w] ([Hf Hk] & Hn).
  set (s1 := (with_used m (with_clamp (used m) false), w) : State).
  assert (still s0 s1) as [Hf1 Hk1] by (split; [by apply funded_with_clamp|]; destruct Hk as (? & ? & ? & ? & ?); by split_and!).
  unfold mbind at 1 2, effect_bind at 1 2, get at 1, put at 1. cbn [fst snd]. destruct (requires_voucher d) eqn:Hv; cbn [negb].
  2:{ split; [done|]. left. specialize (Hd eq_refl). destruct Hk1 as (_ & _ & _ & _ & ?). change (target_cumulative_base_units d ≤ stream_committed s1.1). lia. }
  unfold mbind at 1, effect_bind at 1, get at 1. fold s1. cbn [fst snd]. rewrite (authorized_spec s1.1) by apply Hf1.
  set (clamp := u_clamp_charge_to_authorized (used m)). set (requested := target_cumulative_base_units d) in *.
  set (target := if clamp then Z.min requested authorized else requested). set (b := clamp && (authorized <? requested)).
  destruct (Z.ltb_spec authorized target); [done|]. assert (target = Z.min requested authorized) as Ht by (unfold target in *; destruct clamp; lia).
  destruct (Z.eqb_spec (saturating_sub target (stream_committed s1.1)) 0) as [E|E].
  - unfold put. cbn [fst snd]. unfold saturating_sub in E. split; [|cbn [fst] in *; change (stream_committed (with_exhausted _ _)) with (stream_committed s1.1); lia].
    split; [apply funded_with_exhausted; [|done]|destruct Hk1 as (? & ? & ? & ? & ?); by split_and!].
    intros [He|Hb%andb_true_iff]%orb_true_iff; [by apply (fu_exhausted _ Hf1)|]. destruct Hb as [_ Hb%Z.ltb_lt]. change (authorized ≤ stream_committed s1.1). lia.
  - unfold saturating_sub in *. pose proof (fu_fits _ Hf1) as Hfit. change (in_flight s1.1) with (in_flight m) in Hfit. cbn [fst] in Hn. rewrite Hn in Hfit. cbn [default from_option] in Hfit.
    destruct (fw_delegated (forward s1.1)); cbn [negb]; [|done].
    refine (leaves_weaken (λ s, s = s1) _ _ _ _ _ _ (charge_leaves s1 d (Z.max 0 (target - stream_committed s1.1)) b _ _ _ _ _) _ _ _ s1 eq_refl);
      [done|lia|fold requested; lia| |done|done| |].
    + unfold b. intros [_ Hb%Z.ltb_lt]%andb_true_iff. done.
    + intros u s [[Hf' Hk'] Hc]. split; [|done]. split; [done|by etrans].
    + intros s [Hf' Hk']. split; [done|by etrans].
Qed.

(** ** What the meter rates *)
Definition settlement : StablecoinSettlement := {| decimals := fw_decimals fw |}.
Definition spec_of (m : StreamMeter) : SessionMeterSpec := acc_spec (u_accumulator (used m)).
Definition counted (m : StreamMeter) : UsageObservation := observation (u_accumulator (used m)).
(** The value of what is observed is committed, or all that is authorized is. *)
Definition paid (m : StreamMeter) (o : UsageObservation) : Prop :=
  authorized ≤ stream_committed m ∨
  ∃ owed, micro_usd_to_base_units_ceil (rated_total (spec_of m) o) settlement = Ok owed ∧
          fw_committed_base_units fw + owed ≤ stream_committed m.
Definition covered (m : StreamMeter) : Prop := has_observation (u_accumulator (used m)) = true → paid m (counted m).
Record usage_wf (u : Usage) : Prop := {
  uw_spec : gate_spec (u_gate u) = acc_spec (u_accumulator u); uw_settlement : gate_settlement (u_gate u) = settlement;
  uw_spec_wf : spec_wf (acc_spec (u_accumulator u)); uw_counts : counts_wf (acc_counts (u_accumulator u));
  uw_current : obs_wf (u_current u);
  uw_scales : Forall (λ q, 0 ≤ q.2) (quota_units (acc_hints (u_accumulator u))) }.

End invariants.

(** ** Observing a chunk *)
Section observing.
Context (utf8_error_text : list Z → string) (parse_json : list Z → result string json) (pointer : json → string → option json).
Context (fw : StreamForward) (Hwf : forward_wf fw) (Hplan : ∀ plan, fw_plan fw = Some plan → metering_wf (plan_metering plan)).
Abbreviation usage_wf := (usage_wf fw).

(** What the gate has recorded, and where it counts from. *)
Definition gate_kept (u u' : Usage) : Prop :=
  committed_base_units (u_gate u') = committed_base_units (u_gate u) ∧ baseline_base_units (u_gate u') = baseline_base_units (u_gate u) ∧
  min_voucher_delta (u_gate u') = min_voucher_delta (u_gate u).
Lemma funded_used m w u : gate_kept (used m) u → funded fw (m, w) → funded fw (with_used m u, w).
Proof.
  intros (Hc & Hb & Hm) [Hfw Hcm Hp Hfit Hpos Hex Hobs Hbase Ht]. cbn [fst snd] in *.
  assert (stream_committed (with_used m u) = stream_committed m) as E by exact Hc.
  split; cbn [fst snd]; rewrite ?E; try done; [by rewrite <-Hbase|by rewrite <-Ht].
Qed.

(** A decision asks for what is observed. *)
Definition asks (u : Usage) (d : SessionGateDecision) : Prop :=
  (∃ owed, micro_usd_to_base_units_ceil (rated_total (acc_spec (u_accumulator u)) (u_current u)) (settlement fw) = Ok owed ∧
           target_cumulative_base_units d = fw_committed_base_units fw + owed) ∧
  (requires_voucher d = false → target_cumulative_base_units d ≤ committed_base_units (u_gate u)).
Lemma decide_asks u mode u' r :
  usage_wf u → baseline_base_units (u_gate u) = fw_committed_base_units fw → min_voucher_delta (u_gate u) = 1 →
  decide_usage u mode = (u', r) →
  usage_wf u' ∧ gate_kept u u' ∧ u_accumulator u' = u_accumulator u ∧ u_current u' = u_current u ∧ match r with Ok d => asks u' d | Err _ => True end.
Proof.
  intros [Hs Ht Hsw Hcw Hcur Hsc] Hb Hm. unfold decide_usage. destruct (gate_observe _ _ _) as [g r0] eqn:Hg. intros [= <- <-].
  pose proof (gate_observe_fields (u_gate u) (u_current u) mode) as Hfields. rewrite Hg in Hfields. cbn in Hfields. destruct Hfields as (Hgs & Hgt & Hgb & Hgc & Hgm).
  split; [split; cbn; first [congruence|done]|]. split; [by split_and!|]. split; [done|]. split; [done|]. destruct r0 as [d|e]; [|done]. cbn [map_err].
  apply gate_observe_asks in Hg as ((owed & Howed & Ht') & Hout & Hnone); [|by rewrite Hs|done]. rewrite Hs, Ht in Howed.
  unfold asks. cbn [with_gate u_accumulator u_gate]. split; [exists owed; by rewrite Ht', Hb|].
  intros Hv. rewrite Hgc. unfold saturating_sub in Hout. rewrite Hm in Hnone. destruct (Hnone Hv) as [|[_ ?]]; lia.
Qed.

Lemma reprice_kept u n b u' :
  usage_wf u → baseline_base_units (u_gate u) = fw_committed_base_units fw → fw_committed_base_units fw ≤ committed_base_units (u_gate u) →
  min_voucher_delta (u_gate u) = 1 → reprice_for_context_length fw u n b = Ok u' →
  usage_wf u' ∧ gate_kept u u' ∧ acc_counts (u_accumulator u') = acc_counts (u_accumulator u).
Proof.
  intros [Hs Ht Hsw Hcw Hcur Hsc] Hb Hc Hm. unfold reprice_for_context_length. destruct (fw_plan fw) as [plan|] eqn:Hp; [|done]. cbn [ok_or].
  intros H. inv_ok. match goal with H : plan_spec _ _ = Ok _ |- _ => rename H into Hspec end.
  match goal with H : gate_new _ _ _ _ = Ok _ |- _ => unfold gate_new in H; inv_ok end. cbn.
  split; [|split; [split_and!; cbn; [lia|done|done]|done]]. split; cbn; try done; [by eapply spec_from_metering_wf; [apply Hplan|]|]. apply hints_scales.
Qed.

Lemma repriced_kept u b u' :
  usage_wf u → baseline_base_units (u_gate u) = fw_committed_base_units fw → fw_committed_base_units fw ≤ committed_base_units (u_gate u) →
  min_voucher_delta (u_gate u) = 1 → repriced fw u b = Ok u' →
  usage_wf u' ∧ gate_kept u u' ∧ acc_counts (u_accumulator u') = acc_counts (u_accumulator u).
Proof.
  intros Hu Hb Hc Hm. unfold repriced. destruct (observed_input_tokens _) as [n|]; [|by intros [= <-]]. case_bool_decide; [by intros [= <-]|]. by apply reprice_kept.
Qed.

Definition sound (s : State) : Prop := funded fw s ∧ usage_wf (used s.1).
Lemma committed_grown s : funded fw s → fw_committed_base_units fw ≤ stream_committed s.1.
Proof.
  intros []. rewrite fu_committed0. assert (0 ≤ zsum (charged s.2)); [|lia]. apply zsum_nonneg. eapply Forall_impl; [exact fu_positive0|]. cbn. lia.
Qed.

(** The accumulator of a chunk. *)
Lemma chunk_wf u chunk is_sse a r :
  usage_wf u → observe_chunk utf8_error_text parse_json pointer (u_accumulator u) chunk is_sse = (a, r) → usage_wf (with_accumulator u a).
Proof.
  intros [Hs Ht Hsw Hcw Hcur Hsc] Ha. pose proof (chunk_step utf8_error_text parse_json pointer (u_accumulator u) chunk is_sse) as Hstep.
  rewrite Ha in Hstep. cbn [fst] in *.
  destruct Hstep as [Hspec Hhints Hcwf _ _]. split; cbn; rewrite ?Hspec, ?Hhints; try done. by apply Hcwf.
Qed.

Lemma observe_unreleased_kept m chunk is_sse u r w :
  sound (m, w) → observe_unreleased_chunk utf8_error_text parse_json pointer m chunk is_sse = (u, r) →
  gate_kept (used m) u ∧ usage_wf u ∧
  match r with
  | Ok (Some d) => (c_request_seen (acc_counts (u_accumulator u)) = true ∧ u_current u = observation (u_accumulator u)) ∧ asks u d
  | Ok None => (c_request_seen (acc_counts (u_accumulator (used m))) = true → observation (u_accumulator u) = observation (u_accumulator (used m))) ∧
               has_observation (u_accumulator u) = has_observation (u_accumulator (used m)) ∧
               acc_spec (u_accumulator u) = acc_spec (u_accumulator (used m)) ∧ u_current u = u_current (used m) ∧
               c_request_seen (acc_counts (u_accumulator u)) = true
  | Err _ => True
  end.
Proof.
  intros [Hf Hu]. unfold observe_unreleased_chunk. destruct (observe_chunk _ _ _ _ _ _) as [a ra] eqn:Ha. pose proof (chunk_wf _ _ _ _ _ Hu Ha) as Hu1.
  pose proof (chunk_seen utf8_error_text parse_json pointer (u_accumulator (used m)) chunk is_sse (uw_counts _ _ Hu)) as Hseen. rewrite Ha in Hseen.
  destruct ra as [[|]|e]; [| |intros [= <- <-]; by split_and!].
  2:{ intros [= <- <-]. split; [by split_and!|]. split; [done|]. pose proof (chunk_step utf8_error_text parse_json pointer (u_accumulator (used m)) chunk is_sse) as [Hs _ _ _ _].
      rewrite Ha in Hs. apply chunk_quiet in Ha as [? ?]. by split_and!. }
  destruct (authorization_exhausted m); [intros [= <- <-]; by split_and!|]. assert (forward m = fw) as -> by apply (fu_forward fw (m, w) Hf).
  destruct (repriced fw _ _) as [u1|e] eqn:Hr; [|intros [= <- <-]; by split_and!].
  apply repriced_kept in Hr as (Hu2 & Hk2 & Hc2); [|done|by apply Hf|by apply (committed_grown _ Hf)|by apply Hf].
  destruct (decide_usage _ _) as [u2 r2] eqn:Hd.
  assert (usage_wf (with_current u1 (observation (u_accumulator u1)))) as Hu3 by (destruct Hu2; split; try done; by apply observation_wf).
  apply decide_asks in Hd as (Hu4 & Hk4 & Ha4 & Hcur4 & Hasks); [|done|by etrans; [apply Hk2|apply Hf]|by etrans; [apply Hk2|apply Hf]].
  intros [= <- <-]. destruct Hk2 as (? & ? & ?), Hk4 as (? & ? & ?). cbn in *. split; [split_and!; congruence|]. split; [done|].
  destruct r2 as [d|]; [|done]. split; [split; [by rewrite Ha4, Hc2|by rewrite Hcur4, Ha4]|done].
Qed.

(** Everything counted is what was observed last, and paid for. *)
Definition up_to_date (a : StreamUsageAccumulator) (o : UsageObservation) : Prop := c_request_seen (acc_counts a) = true ∧ o = observation a.
Definition settled (m : StreamMeter) : Prop :=
  has_observation (u_accumulator (used m)) = true → up_to_date (u_accumulator (used m)) (u_current (used m)) ∧ paid fw m (counted m).
Definition fresh (m : StreamMeter) : Prop := up_to_date (u_accumulator (used m)) (u_current (used m)).

Lemma observe_leaves chunk is_sse :
  leaves (λ s, sound s ∧ settled s.1) (meter_observe_chunk utf8_error_text parse_json pointer chunk is_sse)
    (λ d s, sound s ∧ match d with None => settled s.1 | Some d => fresh s.1 ∧ asks (used s.1) d end) sound.
Proof.
  intros [m w] [Hs Hcov]. unfold meter_observe_chunk. cbn [fst snd]. destruct (observe_unreleased_chunk _ _ _ _ _ _) as [u r] eqn:Hu.
  apply (observe_unreleased_kept m chunk is_sse u r w Hs) in Hu as (Hk & Hu & Hr).
  assert (sound (with_used m u, w)) as Hs' by (split; [by apply funded_used; [|apply Hs]|done]).
  destruct r as [[d|]|e]; [|split; [done|]|done].
  - destruct (negb _ && _); [exact Hs|]. split; [done|exact Hr].
  - destruct Hr as (Hobs & Hhas & Hspec & Hcur & Hseen). intros Ho. assert (has_observation (u_accumulator (used m)) = true) as Ho' by by rewrite <-Hhas.
    assert (stream_committed (with_used m u) = stream_committed m) as Hc by apply Hk. destruct (Hcov Ho') as [[Hseen' Hcur'] Hp].
    unfold paid, spec_of, counted, up_to_date in *. cbn [fst with_used used] in *. by rewrite Hc, Hspec, Hcur, Hobs.
Qed.

(** Charging what is asked pays for what is observed. *)
Lemma settle_pays (R : StreamUsageAccumulator → UsageObservation → Prop) d :
  leaves (λ s, sound s ∧ R (u_accumulator (used s.1)) (u_current (used s.1)) ∧ asks (used s.1) d) (settle d)
    (λ _ s, sound s ∧ R (u_accumulator (used s.1)) (u_current (used s.1)) ∧ paid fw s.1 (u_current (used s.1))) sound.
Proof.
  intros s0 [[Hf Hu] [HR [(owed & Howed & Ht) Hv]]]. pose proof (settle_leaves fw s0 d Hwf Hv s0 (still_start fw s0 Hf)) as Hset.
  assert (∀ s, still fw s0 s → sound s) as Hsound.
  { intros s [Hf' ([= Ha Hc] & Hs & Hst & _)]. split; [done|]. destruct Hu as [Hs0 Ht0 ? ? ? ?]. split; rewrite ?Ha, ?Hc, ?Hs, ?Hst; done. }
  destruct (settle d s0) as [s [u|e|]]; [|by apply Hsound|by apply Hsound]. destruct Hset as [Hst Hpaid]. split; [by apply Hsound|].
  destruct Hst as [_ ([= Ha Hc] & _)]. rewrite Ha, Hc. split; [done|]. destruct Hpaid as [Hpaid|]; [right|by left].
  exists owed. unfold spec_of. rewrite Ha. split; [done|lia].
Qed.
Lemma settle_fresh d : leaves (λ s, sound s ∧ fresh s.1 ∧ asks (used s.1) d) (settle d) (λ _ s, sound s ∧ settled s.1) sound.
Proof.
  eapply leaves_weaken; [apply (settle_pays up_to_date d)|done| |done]. intros _ s (Hs & [Hseen Hc] & Hp). split; [done|]. intros _. split; [done|].
  rewrite Hc in Hp. exact Hp.
Qed.

(** ** One chunk *)
Lemma sound_hold s h : sound s → sound (with_hold s.1 h, s.2).
Proof. destruct s. by intros [[] []]. Qed.
Lemma touch_leaves now : leaves (λ s, sound s ∧ settled s.1) (touch_channel_if_due now) (λ _ s, sound s ∧ settled s.1) sound.
Proof.
  intros [m w] [Hs Hp]. unfold touch_channel_if_due, mbind, effect_bind, get, touch_unconfirmed, put. cbn [fst snd]. destruct (now <? _); [done|].
  split; [|exact Hp]. by destruct Hs as [[] []].
Qed.
Lemma push_leaves chunk is_sse : leaves (λ s, sound s ∧ settled s.1) (push_hold chunk is_sse) (λ _ s, sound s ∧ settled s.1) sound.
Proof.
  intros [m w] [Hs Hp]. unfold push_hold, mbind, effect_bind, get, lift, put. cbn [fst snd]. destruct (hold_push _ _ _) as [[h ready]|e]; [|done].
  cbn. split; [by apply (sound_hold (m, w))|exact Hp].
Qed.
Lemma authorize_leaves now chunk is_sse :
  leaves (λ s, sound s ∧ settled s.1) (authorize_chunk utf8_error_text parse_json pointer now chunk is_sse) (λ _ s, sound s ∧ settled s.1) sound.
Proof.
  unfold authorize_chunk. eapply leaves_bind; [apply touch_leaves|intros ?]. eapply leaves_bind; [apply push_leaves|intros ready].
  eapply leaves_bind; [apply observe_leaves|intros [d|]]; (eapply (leaves_bind _ _ (λ _ s, sound s ∧ settled s.1)); [|intros ?; by apply leaves_ret]).
  - eapply leaves_weaken; [apply (settle_fresh d)|done|done|done].
  - by apply leaves_ret.
Qed.

(** ** The end of a stream *)
Lemma final_leaves (R : StreamUsageAccumulator → UsageObservation → Prop) :
  leaves (λ s, sound s ∧ R (u_accumulator (used s.1)) (u_current (used s.1))) final_decision
    (λ d s, sound s ∧ R (u_accumulator (used s.1)) (u_current (used s.1)) ∧
            match d with
            | Some d => asks (used s.1) d
            | None => has_observation (u_accumulator (used s.1)) = true → authorized fw ≤ stream_committed s.1
            end) sound.
Proof.
  intros [m w] [[Hf Hu] HR]. unfold final_decision. cbn [fst snd] in *. destruct (has_observation _) eqn:Hhas; cbn [negb orb].
  2:{ split; [done|]. split; [done|]. cbn [fst]. by rewrite Hhas. }
  destruct (authorization_exhausted m) eqn:Hex; [split; [done|]; split; [done|]; intros _; by apply (fu_exhausted _ _ Hf)|].
  destruct (decide_usage _ _) as [u r] eqn:Hd. apply decide_asks in Hd as (Hu' & Hk & Ha & Hcur & Hr); [|done|by apply Hf|by apply Hf].
  destruct r as [d|e]; [|split; [by apply funded_used|done]]. cbn [fst with_used used with_clamp u_accumulator u_current]. rewrite Ha, Hcur.
  split; [split; [by apply funded_used|by destruct Hu']|]. by split.
Qed.
Lemma settle_opt_pays (R : StreamUsageAccumulator → UsageObservation → Prop) d :
  leaves (λ s, sound s ∧ R (u_accumulator (used s.1)) (u_current (used s.1)) ∧
            match d with
            | Some d => asks (used s.1) d
            | None => has_observation (u_accumulator (used s.1)) = true → authorized fw ≤ stream_committed s.1
            end) (settle_opt d)
    (λ _ s, sound s ∧ R (u_accumulator (used s.1)) (u_current (used s.1)) ∧
            (has_observation (u_accumulator (used s.1)) = true → paid fw s.1 (u_current (used s.1)))) sound.
Proof.
  destruct d as [d|].
  - eapply leaves_weaken; [apply (settle_pays R d)|done| |done]. intros _ s (? & ? & ?). by split_and!.
  - intros s (Hs & HR & Hex). split; [done|]. split; [done|]. intros Ho. left. by apply Hex.
Qed.

Lemma close_wf u (close : StreamUsageAccumulator → StreamUsageAccumulator * metered bool) a r :
  usage_wf u → (∀ a, acc_step true a (close a).1) → close (u_accumulator u) = (a, r) →
  usage_wf (with_accumulator u a) ∧ usage_wf (with_current (with_accumulator u a) (observation a)).
Proof.
  intros [Hs Ht Hsw Hcw Hcur Hsc] Hclose Ha. pose proof (Hclose (u_accumulator u)) as Hstep. rewrite Ha in Hstep. cbn [fst] in Hstep.
  destruct Hstep as [Hspec Hhints Hcwf _ _]. split; (split; cbn; rewrite ?Hspec, ?Hhints; try done; try by apply Hcwf).
  apply observation_wf; [by rewrite Hhints|by apply Hcwf].
Qed.
Lemma close_leaves (close : StreamUsageAccumulator → StreamUsageAccumulator * metered bool) (P : State → Prop) (R : StreamUsageAccumulator → UsageObservation → Prop) :
  (∀ a, acc_step true a (close a).1) →
  (∀ m w a changed, sound (m, w) → P (m, w) → close (u_accumulator (used m)) = (a, Ok changed) → R a (if changed then observation a else u_current (used m))) →
  leaves (λ s, sound s ∧ P s) (close_usage close) (λ _ s, sound s ∧ R (u_accumulator (used s.1)) (u_current (used s.1))) sound.
Proof.
  intros Hstep HR [m w] [[Hf Hu] HP]. unfold close_usage. cbn [fst snd] in *. destruct (close _) as [a r] eqn:Ha. destruct (close_wf _ _ _ _ Hu Hstep Ha) as [Hu1 Hu2].
  assert (∀ u, gate_kept (used m) u → usage_wf u → sound (with_used m u, w)) as Hs by (intros; split; [by apply funded_used|done]).
  destruct r as [changed|e]; [|by apply Hs]. specialize (HR m w a changed (conj Hf Hu) HP Ha). split; [destruct changed; by apply Hs|]. by destruct changed.
Qed.

(** ** Whole streams *)
Abbreviation authorize := (authorize_chunk utf8_error_text parse_json pointer).
Definition observed_paid (m : StreamMeter) : Prop := has_observation (u_accumulator (used m)) = true → paid fw m (u_current (used m)).

Lemma finish_leaves is_sse : leaves (λ s, sound s ∧ settled s.1) (finish_stream utf8_error_text parse_json pointer is_sse) (λ _ s, sound s ∧ covered fw s.1) sound.
Proof.
  set (R := λ a o, c_observed (acc_counts a) = true → o = observation a). unfold finish_stream.
  eapply leaves_bind; [apply (close_leaves _ (λ s, settled s.1) R); [intros; apply finish_step|]|intros ?].
  { intros m w a changed Hs Hset Ha Ho. destruct changed; [done|]. apply finish_quiet in Ha as [-> Ha]; [|apply Hs]. rewrite Ha in Ho. by apply Hset in Ho as [[_ Hc] _]. }
  eapply leaves_bind; [apply (final_leaves R)|intros d]. eapply leaves_bind; [apply (settle_opt_pays R d)|intros ?].
  intros [m w] (Hs & HR & Hp). unfold take_hold, mbind, effect_bind, get, put. cbn [fst snd hold_finish]. split; [by apply (sound_hold (m, w))|].
  intros Ho. specialize (Hp Ho). specialize (HR Ho). cbn [fst] in *. rewrite HR in Hp. exact Hp.
Qed.
Lemma abort_leaves : leaves sound abort_stream (λ _ s, sound s ∧ observed_paid s.1) sound.
Proof.
  set (R := λ (_ : StreamUsageAccumulator) (_ : UsageObservation), True). unfold abort_stream.
  eapply (leaves_bind _ _ (λ _ s, sound s ∧ True)).
  { intros s [Hf Hu]. pose proof (resolve_still fw s Hwf s (still_start fw s Hf)) as Hr.
    assert (∀ s', still fw s s' → sound s') as Hsound.
    { intros s' [Hf' ([= Ha Hc] & Hs & Hst & _)]. split; [done|]. destruct Hu as [Hs0 Ht0 ? ? ? ?]. split; rewrite ?Ha, ?Hc, ?Hs, ?Hst; done. }
    destruct (resolve_in_flight s) as [s' [u|e|]]; [destruct Hr as [Hr _]; split; [|done]| |]; by apply Hsound. }
  intros ?. eapply leaves_bind; [apply (close_leaves _ (λ _, True) R); [intros; apply abort_step|done]|intros ?].
  eapply leaves_bind; [apply (final_leaves R)|intros d]. eapply leaves_weaken; [apply (settle_opt_pays R d)|done| |done]. intros ? s (? & _ & ?). by split.
Qed.

Lemma stream_leaves events is_sse : ∀ s s' released ending,
  sound s → settled s.1 → meter_delegated_response_stream utf8_error_text parse_json pointer events is_sse s = (s', released, ending) →
  sound s' ∧ match ending with Completed => covered fw s'.1 | Interrupted true => observed_paid s'.1 | Interrupted false => True end.
Proof.
  assert (∀ s s' released ending, sound s → interrupted s = (s', released, ending) →
    sound s' ∧ match ending with Completed => covered fw s'.1 | Interrupted true => observed_paid s'.1 | Interrupted false => True end) as Habort.
  { intros s s' released ending Hs. unfold interrupted. pose proof (abort_leaves s Hs) as Ha. destruct (abort_stream s) as [s1 [u|e|]]; intros [= <- <- <-]; first [exact Ha|split; [exact Ha|done]]. }
  induction events as [|ev events IH]; intros s s' released ending Hs Hset; cbn [meter_delegated_response_stream].
  - pose proof (finish_leaves is_sse s (conj Hs Hset)) as Hf. destruct (finish_stream _ _ _ _ _) as [s1 [tail|e|]]; [|by apply Habort..]. by intros [= <- <- <-].
  - destruct ev as [now bytes| |]; [|by apply Habort..]. pose proof (authorize_leaves now bytes is_sse s (conj Hs Hset)) as Ha.
    destruct (authorize now bytes is_sse s) as [s1 [ready|e|]]; [|by apply Habort..]. destruct Ha as [Hs1 Hset1].
    destruct (meter_delegated_response_stream _ _ _ _ _ s1) as [[s2 rel] fin] eqn:E. apply IH in E; [|done|done]. by intros [= <- <- <-].
Qed.

Lemma meter_sound now o m w : delegated_meter fw now o = Ok m → charged w = [] → match o with Some l => l = [] | None => True end → sound (m, w) ∧ settled m.
Proof.
  unfold delegated_meter, from_forward. destruct (fw_plan fw) as [plan|] eqn:Hp; [|done]. cbn [ok_or]. intros H Hw Ho. inv_ok.
  match goal with H : plan_spec _ _ = Ok _ |- _ => rename H into Hspec end.
  match goal with H : gate_new _ _ _ _ = Ok _ |- _ => unfold gate_new in H; inv_ok end. pose proof (authorized_range fw Hwf) as [_ Ha].
  split; [|by destruct (fw_request_body_bytes fw)].
  match type of Hspec with _ = Ok ?spec => assert (spec_wf spec) as Hsw by (eapply spec_from_metering_wf; [by apply Hplan|exact Hspec]) end.
  split.
  - destruct (fw_request_body_bytes fw); (split; cbn; rewrite ?Hw; try done; [unfold stream_committed; cbn; change (zsum []) with 0; lia|unfold stream_committed; cbn; lia]).
  - destruct (fw_request_body_bytes fw); (split; cbn; try done; first [apply no_counts_wf|apply hints_scales|by apply observe_dimensions_wf]).
Qed.
End observing.

(** ** The bytes that are let go *)
Section bytes.
Context (utf8_error_text : list Z → string) (parse_json : list Z → result string json) (pointer : json → string → option json).

Definition hold_kept {A} (m : stream A) : Prop := ∀ s, record_hold (m s).1.1 = record_hold s.1.
Lemma resolve_hold : hold_kept resolve_in_flight.
Proof.
  intros [m w]. unfold resolve_in_flight, mbind, effect_bind, get, await, put. cbn [fst snd]. destruct (in_flight m); [|done]. cbn [fst snd].
  by destruct (answers w) as [|[] ?].
Qed.
Lemma settle_hold d : hold_kept (settle d).
Proof.
  intros s. unfold settle, mbind, effect_bind. pose proof (resolve_hold s) as H1. destruct (resolve_in_flight s) as [s1 [u|e|]]; [|done|done].
  cbn [fst] in H1. unfold get, put. cbn [fst snd]. destruct (requires_voucher d); cbn [negb]; [|done]. cbn [fst snd].
  match goal with |- context [if ?c then fail _ else _] => destruct c; [done|] end. match goal with |- context [if ?c then _ else _] => destruct c; [done|] end.
  match goal with |- context [if ?c then _ else _] => destruct c; [done|] end. cbn [fst snd].
  match goal with |- context [resolve_in_flight ?s2] => pose proof (resolve_hold s2) as H2; destruct (resolve_in_flight s2) as [[m3 w3] [u2|e|]]; [|by rewrite <-H1..] end.
  cbn [fst snd] in *. unfold await. cbn [fst snd]. destruct (answers w3) as [|[] ?]; cbn; rewrite H2; done.
Qed.
Lemma settle_opt_hold d : hold_kept (settle_opt d).
Proof. destruct d; [apply settle_hold|done]. Qed.
Lemma observe_hold chunk is_sse : hold_kept (meter_observe_chunk utf8_error_text parse_json pointer chunk is_sse).
Proof.
  intros s. unfold meter_observe_chunk. destruct (observe_unreleased_chunk _ _ _ _ _ _) as [u [[d|]|e]]; [|done|done]. by destruct (negb _ && _).
Qed.
Lemma final_hold : hold_kept final_decision.
Proof. intros s. unfold final_decision. destruct (negb _ || _); [done|]. by destruct (decide_usage _ _) as [u []]. Qed.

Lemma kept_hold {A} (m : stream A) s s' o : hold_kept m → m s = (s', o) → record_hold s'.1 = record_hold s.1.
Proof. intros Hm E. specialize (Hm s). by rewrite E in Hm. Qed.
Lemma touch_hold now : hold_kept (touch_channel_if_due now).
Proof. intros s. unfold touch_channel_if_due, mbind, effect_bind, get. by destruct (now <? _). Qed.
Lemma push_bytes chunk is_sse s s' ready :
  push_hold chunk is_sse s = (s', Returned ready) → ready ++ held (record_hold s'.1) = held (record_hold s.1) ++ chunk.
Proof.
  unfold push_hold, mbind, effect_bind, get, put, lift. cbn [fst snd]. destruct (hold_push _ _ _) as [[h r]|e] eqn:E; [|done].
  intros [= <- <-]. by apply hold_push_bytes in E.
Qed.
Lemma authorize_bytes now chunk is_sse s s' ready :
  authorize_chunk utf8_error_text parse_json pointer now chunk is_sse s = (s', Returned ready) →
  ready ++ held (record_hold s'.1) = held (record_hold s.1) ++ chunk.
Proof.
  unfold authorize_chunk. intros (s1 & u1 & H1%(kept_hold _ _ _ _ (touch_hold now)) & (s2 & r & H2 & H)%bind_Returned)%bind_Returned.
  apply push_bytes in H2. apply bind_Returned in H as (s3 & d & H3%(kept_hold _ _ _ _ (observe_hold chunk is_sse)) & H).
  apply bind_Returned in H as (s4 & u2 & H4%(kept_hold _ _ _ _ (settle_opt_hold d)) & [= <- <-]). by rewrite H4, H3, H2, H1.
Qed.
Lemma close_hold close : hold_kept (close_usage close).
Proof. intros s. unfold close_usage. destruct (close _) as [a [[]|]]; done. Qed.
Lemma finish_bytes is_sse s s' tail :
  finish_stream utf8_error_text parse_json pointer is_sse s = (s', Returned tail) → tail = held (record_hold s.1).
Proof.
  unfold finish_stream. intros (s1 & u1 & H1%(kept_hold _ _ _ _ (close_hold _)) & (s2 & d & H2%(kept_hold _ _ _ _ final_hold) & H)%bind_Returned)%bind_Returned.
  apply bind_Returned in H as (s3 & u2 & H3%(kept_hold _ _ _ _ (settle_opt_hold d)) & H).
  unfold take_hold, mbind, effect_bind, get, put in H. cbn [fst snd] in H. injection H as _ <-. by rewrite H3, H2, H1.
Qed.

Definition upstream_bytes (events : list Upstream) : list Z := flat_map (λ ev, match ev with Chunk _ bytes => bytes | _ => [] end) events.
Lemma completed_bytes events is_sse : ∀ s s' released,
  meter_delegated_response_stream utf8_error_text parse_json pointer events is_sse s = (s', released, Completed) →
  released = held (record_hold s.1) ++ upstream_bytes events.
Proof.
  assert (∀ s s' released, interrupted s ≠ (s', released, Completed)) as Hno by (intros; unfold interrupted; by destruct (abort_stream _) as [? [] ]).
  induction events as [|ev events IH]; intros s s' released; cbn [meter_delegated_response_stream].
  - destruct (finish_stream _ _ _ _ _) as [s1 [tail|e|]] eqn:E; [|by intros ?%Hno..]. intros [= <- <-]. apply finish_bytes in E as ->. by rewrite app_nil_r.
  - destruct ev as [now bytes| |]; [|by intros ?%Hno..]. destruct (authorize_chunk _ _ _ _ _ _ _) as [s1 [ready|e|]] eqn:Ha; [|by intros ?%Hno..].
    destruct (meter_delegated_response_stream _ _ _ _ _ s1) as [[s2 rel] fin] eqn:E. intros [= <- <- ->]. apply IH in E as ->. apply authorize_bytes in Ha.
    cbn [upstream_bytes flat_map]. by rewrite !app_assoc, Ha.
Qed.
End bytes.

(** ** What a stream is charged *)
Section charges.
Context (utf8_error_text : list Z → string) (parse_json : list Z → result string json) (pointer : json → string → option json).
Abbreviation serve := (meter_delegated_response_stream utf8_error_text parse_json pointer).
Definition plan_ok (fw : StreamForward) : Prop := ∀ plan, fw_plan fw = Some plan → metering_wf (plan_metering plan).
(** No observer has been told anything yet. *)
Definition untold (o : option (list Z)) : Prop := match o with Some l => l = [] | None => True end.

(** C5. Whatever happens to a delegated stream - refused charges, an upstream
    error, the client leaving, even while a charge is under way - what the
    session is charged for it never exceeds what the request may spend, a
    charge whose outcome is not known counted in; and the observer is told of
    exactly the charges made. *)
Theorem stream_charges_within_authorization fw now o m w events is_sse s released ending :
  forward_wf fw → plan_ok fw → delegated_meter fw now o = Ok m → untold o → charged w = [] →
  serve events is_sse (m, w) = (s, released, ending) →
  zsum (charged s.2) + default 0 (in_flight s.1) ≤ fw_available_base_units fw ∧
  match observer s.1 with Some l => l = charged s.2 | None => True end.
Proof.
  intros Hwf Hplan Hm Ho Hw Hs. destruct (meter_sound fw Hwf Hplan now o m w Hm Hw Ho) as [Hsound Hset].
  apply (stream_leaves _ _ _ fw Hwf Hplan) in Hs as [[Hf _] _]; [|done|done]. split; [|apply Hf].
  pose proof (fu_fits _ _ Hf) as Hfit. rewrite (fu_committed _ _ Hf) in Hfit. unfold authorized, saturating_add in Hfit. lia.
Qed.


(** Chunks let go one after the other. *)
Fixpoint authorize_all (chunks : list (Z * list Z)) (is_sse : bool) : stream (list Z) :=
  match chunks with
  | [] => mret []
  | (now, chunk) :: chunks =>
      ready ← authorize_chunk utf8_error_text parse_json pointer now chunk is_sse;
      rest ← authorize_all chunks is_sse;
      mret (ready ++ rest)
  end.

End charges.

(** Two words of an answer, priced while it streams by the word and at its end
    by the byte. *)
Module SampleCharges.
Import SampleStream SampleAnswer.
Definition fw : StreamForward := {|
  fw_committed_base_units := 1000; fw_available_base_units := 200; fw_plan := Some SampleUsage.plan; fw_decimals := 6; fw_delegated := true;
  fw_request_body_bytes := Some 5 |}.
Definition no_meter : StreamMeter := {|
  forward := fw; used := {| u_accumulator := started; u_gate := {| gate_spec := SampleStream.spec; gate_settlement := usdc; baseline_base_units := 0;
    committed_base_units := 0; min_voucher_delta := 1; last_observation := [] |}; u_current := []; u_priced_context_length := None;
    u_clamp_charge_to_authorized := false |};
  authorization_exhausted := false; next_lifecycle_touch := 0; in_flight := None; record_hold := hold_for_spec SampleStream.spec; observer := None |}.
Definition m : StreamMeter := match delegated_meter fw 0 (Some []) with Ok m => m | Err _ => no_meter end.
Definition world (l : list Answer) : StreamWorld := {| answers := l; charged := []; touches := 0 |}.
Definition body : list Z := str_bytes "data:two words" ++ [LF; LF].
Definition events : list Upstream := [Chunk 0 (str_bytes "data:two wo"); Chunk 1 (str_bytes "rds" ++ [LF; LF])].
Definition run (l : list Answer) := meter_delegated_response_stream error_text SampleAnswer.parse_json no_pointer events true (m, world l).
Definition done4 : StreamWorld := world [Done; Done; Done; Done].

Lemma fw_wf : forward_wf fw.
Proof. by split. Qed.
Lemma fw_plan_ok : plan_ok fw.
Proof. intros plan [= <-]. split; repeat constructor; discriminate. Qed.

Lemma stream_charges_within_authorization_witness :
  ∃ s, run [Done; Done; Done; Done] = (s, body, Completed) ∧ charged s.2 = [40; 160] ∧
    zsum (charged s.2) + default 0 (in_flight s.1) ≤ 200 ∧ match observer s.1 with Some l => l = charged s.2 | None => True end.
Proof.
  eexists. split; [vm_compute; reflexivity|]. split; [reflexivity|].
  eapply (stream_charges_within_authorization error_text SampleAnswer.parse_json no_pointer fw 0 (Some []) m done4 events true).
  - exact fw_wf.
  - exact fw_plan_ok.
  - vm_compute; reflexivity.
  - reflexivity.
  - reflexivity.
  - vm_compute; reflexivity.
Defined.



(** A client that leaves while the first charge is under way has no bytes of
    the answer, and is charged for them all the same. *)
Example abandoned_chunk_is_charged :
  ∃ s, run [Left; Done; Done; Done] = (s, [], Interrupted true) ∧ charged s.2 = [40; 160].
Proof. eexists. split; vm_compute; reflexivity. Qed.
End SampleCharges.
