(* ===== verification/VoucherStream.v ===== *)
(** * VoucherStream: a streamed response paid by the client's own vouchers

    [SessionStreamMeter], [meter_response_stream] and [settle_complete_body]
    of [core/src/server/session_stream.rs], and the [ClientVoucherMeter] of
    [core/src/server/proxy.rs] that sets them up: nobody charges the session
    here; bytes are withheld until the client has committed vouchers for what
    they are worth. *)
From S2P Require Import Prelude F64 Text Affixes MeteringTypes Pricing SessionMetering Landing UsageSettlement Routes ChargeTerms.
From S2P Require Import Gate StreamDecode StreamUsage Effects.
#[local] Open Scope string_scope.
#[local] Open Scope list_scope.
#[local] Open Scope Z_scope.

(** In milliseconds. *)
Definition COMMIT_WAIT_TIMEOUT : Z := 30000.
Definition COMMIT_POLL_INTERVAL : Z := 50.

(** ** State *)
Record SessionStreamContext := {
  ctx_session_id : string; ctx_baseline_base_units : Z; ctx_decimals : Z; ctx_min_voucher_delta : Z }.
Record SessionStreamMeter := {
  v_context : SessionStreamContext; v_gate : SessionUsageGate; v_accumulator : StreamUsageAccumulator; v_current : UsageObservation;
  v_next_lifecycle_touch : Z }.
Definition with_v_gate (m : SessionStreamMeter) (g : SessionUsageGate) : SessionStreamMeter := {|
  v_context := v_context m; v_gate := g; v_accumulator := v_accumulator m; v_current := v_current m;
  v_next_lifecycle_touch := v_next_lifecycle_touch m |}.
Definition with_v_accumulator (m : SessionStreamMeter) (a : StreamUsageAccumulator) : SessionStreamMeter := {|
  v_context := v_context m; v_gate := v_gate m; v_accumulator := a; v_current := v_current m;
  v_next_lifecycle_touch := v_next_lifecycle_touch m |}.
Definition with_v_current (m : SessionStreamMeter) (o : UsageObservation) : SessionStreamMeter := {|
  v_context := v_context m; v_gate := v_gate m; v_accumulator := v_accumulator m; v_current := o;
  v_next_lifecycle_touch := v_next_lifecycle_touch m |}.
Definition with_v_touch (m : SessionStreamMeter) (t : Z) : SessionStreamMeter := {|
  v_context := v_context m; v_gate := v_gate m; v_accumulator := v_accumulator m; v_current := v_current m; v_next_lifecycle_touch := t |}.

(** Each time the meter looks at the channel it finds what the client has
    committed, if it ever did; a client that is gone is not looked for again.
    A reading has the time it is made at, in milliseconds. *)
Record Reading := { read_at : Z; watermark : option Z }.
Record Watermarks := { readings : list Reading; seen : list Reading; v_touches : Z }.
Definition committed_base_units_now (c : SessionStreamContext) (r : Reading) : Z :=
  Z.max (default (ctx_baseline_base_units c) (watermark r)) (ctx_baseline_base_units c).

(** [BoxError], of an upstream error only that there was one. *)
Inductive BoxError := MeteringError (e : SessionMeteringError) | CommitTimedOut (session_id : string) (target : Z) | UpstreamError.
Abbreviation metering := (effect (SessionStreamMeter * Watermarks) BoxError).

Definition as_effect {S A} (r : metered A) : effect S BoxError A := match r with Ok a => mret a | Err e => fail (MeteringError e) end.
Definition saw (w : Watermarks) (l rest : list Reading) : Watermarks := {| readings := rest; seen := seen w ++ l; v_touches := v_touches w |}.

(** ** Waiting for a voucher *)
Definition look : metering Z := λ s,
  match readings s.2 with
  | [] => (s, Dropped)
  | r :: rest => ((s.1, saw s.2 [r] rest), Returned (committed_base_units_now (v_context s.1) r))
  end.
(** The loop of [wait_for_commit]: the time is up when it would be over before
    the next look. *)
Fixpoint poll_commit (c : SessionStreamContext) (deadline target : Z) (l : list Reading) : list Reading * list Reading * Outcome BoxError Z :=
  match l with
  | [] => ([], [], Dropped)
  | r :: rest =>
      let committed := committed_base_units_now c r in
      if target <=? committed then ([r], rest, Returned committed)
      else if deadline <? read_at r + COMMIT_POLL_INTERVAL then ([r], rest, Failed (CommitTimedOut (ctx_session_id c) target))
      else let '(polled, rest, o) := poll_commit c deadline target rest in (r :: polled, rest, o)
  end.
Definition wait_for_commit (target : Z) : metering Z := λ s,
  match readings s.2 with
  | [] => (s, Dropped)
  | r :: _ =>
      let '(polled, rest, o) := poll_commit (v_context s.1) (read_at r + COMMIT_WAIT_TIMEOUT) target (readings s.2) in
      ((s.1, saw s.2 polled rest), o)
  end.
Definition v_record_commit (committed : Z) : metering unit := m ← get; put (with_v_gate m (record_commit (v_gate m) committed)).
Definition settle_decision (d : SessionGateDecision) : metering unit :=
  if negb (requires_voucher d) then mret tt
  else committed ← wait_for_commit (target_cumulative_base_units d); v_record_commit committed.
Definition settle_decision_opt (d : option SessionGateDecision) : metering unit := match d with Some d => settle_decision d | None => mret tt end.

Definition touch_if_due (now : Z) : metering unit :=
  m ← get;
  if now <? v_next_lifecycle_touch m then mret tt
  else λ s, ((with_v_touch m (now + LIFECYCLE_TOUCH_INTERVAL),
              {| readings := readings s.2; seen := seen s.2; v_touches := v_touches s.2 + 1 |}), Returned tt).

Section meter.
Context (utf8_error_text : list Z → string) (parse_json : list Z → result string json) (pointer : json → string → option json).

(** ** The meter *)
Definition session_meter_new (spec : SessionMeterSpec) (hints : SessionUsageHints) (c : SessionStreamContext) (now : Z) : metered SessionStreamMeter :=
  gate ← gate_new spec {| decimals := ctx_decimals c |} (ctx_baseline_base_units c) (ctx_min_voucher_delta c);
  Ok {| v_context := c; v_gate := gate; v_accumulator := accumulator_new spec hints; v_current := zero_observation spec;
        v_next_lifecycle_touch := now + LIFECYCLE_TOUCH_INTERVAL |}.
Definition meter_from_config (m : Metering) (props : RequestProperties) (variant_hint : option string) (c : SessionStreamContext) (now : Z) :
    metered (option SessionStreamMeter) :=
  spec ← spec_from_metering m variant_hint (Some props);
  if negb (has_stream_observable_dimension spec) then Ok None
  else meter ← session_meter_new spec (hints_from_metering m variant_hint props) c now; Ok (Some meter).
Definition session_with_body_bytes (m : SessionStreamMeter) (bytes : Z) : SessionStreamMeter :=
  with_v_accumulator m (with_body_bytes (v_accumulator m) bytes).

(** An operation of the accumulator, and of the gate. *)
Definition count (observe : StreamUsageAccumulator → StreamUsageAccumulator * metered bool) : metering bool :=
  m ← get;
  let '(a, r) := observe (v_accumulator m) in
  _ ← put (with_v_accumulator m a);
  as_effect r.
Definition rate (mode : GateMode) : metering SessionGateDecision :=
  m ← get;
  let '(g, r) := gate_observe (v_gate m) (v_current m) mode in
  _ ← put (with_v_gate m g);
  as_effect r.
Definition take_observation : metering unit := m ← get; put (with_v_current m (observation (v_accumulator m))).
Definition when_changed (changed : bool) (m : metering unit) : metering unit := if changed then m else mret tt.
Definition observe_usage_change (changed : bool) : metering (option SessionGateDecision) :=
  if negb changed then mret None else _ ← take_observation; d ← rate Streaming; mret (Some d).
Definition session_observe_chunk (chunk : list Z) (is_sse : bool) : metering (option SessionGateDecision) :=
  changed ← count (λ a, observe_chunk utf8_error_text parse_json pointer a chunk is_sse);
  observe_usage_change changed.
Definition session_finish (is_sse : bool) : metering (option SessionGateDecision) :=
  changed ← count (λ a, acc_finish_stream utf8_error_text parse_json pointer a is_sse);
  _ ← when_changed changed take_observation;
  m ← get;
  if negb (has_observation (v_accumulator m)) then mret None else d ← rate Final; mret (Some d).

(** ** A complete body *)
Inductive CompleteBodyError := Unmeterable (e : BoxError) | Uncovered (e : BoxError).
Definition settle_complete_body (now : Z) (body : list Z) (is_sse : bool) : effect (SessionStreamMeter * Watermarks) CompleteBodyError unit :=
  _ ← map_failure Unmeterable (touch_if_due now);
  changed ← map_failure Unmeterable (count (λ a, observe_complete_body utf8_error_text parse_json pointer a body is_sse));
  d ← map_failure Unmeterable (observe_usage_change changed);
  _ ← map_failure Uncovered (settle_decision_opt d);
  d ← map_failure Unmeterable (session_finish is_sse);
  map_failure Uncovered (settle_decision_opt d).

(** ** The stream

    [held] is what waits for a commit of [held_target]; the record hold what
    waits for the end of its record. *)
Record VoucherStream := { vs_meter : SessionStreamMeter; vs_hold : RecordHold; vs_held : list Z; vs_held_target : Z }.
Abbreviation streaming := (effect (VoucherStream * Watermarks) BoxError).
Definition with_vs_meter (v : VoucherStream) (m : SessionStreamMeter) : VoucherStream := {|
  vs_meter := m; vs_hold := vs_hold v; vs_held := vs_held v; vs_held_target := vs_held_target v |}.
Definition with_vs_hold (v : VoucherStream) (h : RecordHold) : VoucherStream := {|
  vs_meter := vs_meter v; vs_hold := h; vs_held := vs_held v; vs_held_target := vs_held_target v |}.
Definition with_vs_held (v : VoucherStream) (l : list Z) : VoucherStream := {|
  vs_meter := vs_meter v; vs_hold := vs_hold v; vs_held := l; vs_held_target := vs_held_target v |}.
Definition with_vs_target (v : VoucherStream) (t : Z) : VoucherStream := {|
  vs_meter := vs_meter v; vs_hold := vs_hold v; vs_held := vs_held v; vs_held_target := t |}.
Definition on_meter {A} (m : metering A) : streaming A := zoom vs_meter with_vs_meter m.
Definition new_stream (m : SessionStreamMeter) : VoucherStream := {|
  vs_meter := m; vs_hold := hold_for_spec (acc_spec (v_accumulator m)); vs_held := []; vs_held_target := 0 |}.

Definition push_record (chunk : list Z) (is_sse : bool) : streaming (list Z) :=
  v ← get;
  '(h, ready) ← as_effect (hold_push (vs_hold v) chunk is_sse);
  _ ← put (with_vs_hold v h);
  mret ready.
Definition hold_back (ready : list Z) : streaming unit := v ← get; put (with_vs_held v (vs_held v ++ ready)).
Definition await_decision (d : option SessionGateDecision) : streaming unit :=
  match d with
  | Some d =>
      if requires_voucher d then on_meter (settle_decision d)
      else if 0 <? outstanding_base_units d then v ← get; put (with_vs_target v (target_cumulative_base_units d))
      else mret tt
  | None => mret tt
  end.
(** Let go of what is held, if it is committed for. *)
Definition let_go : streaming (list Z) :=
  committed ← on_meter look;
  v ← get;
  if vs_held_target v <=? committed then
    _ ← on_meter (v_record_commit committed);
    v ← get;
    _ ← put (with_vs_held (with_vs_target v 0) []);
    mret (vs_held v)
  else mret [].
Definition deliver_chunk (now : Z) (chunk : list Z) (is_sse : bool) : streaming (list Z) :=
  _ ← on_meter (touch_if_due now);
  ready ← push_record chunk is_sse;
  d ← on_meter (session_observe_chunk chunk is_sse);
  _ ← hold_back ready;
  _ ← await_decision d;
  let_go.
Definition deliver_tail (is_sse : bool) : streaming (list Z) :=
  d ← on_meter (session_finish is_sse);
  _ ← on_meter (settle_decision_opt d);
  v ← get;
  let '(h, tail) := hold_finish (vs_hold v) in
  _ ← put (with_vs_held (with_vs_hold v h) []);
  mret (vs_held v ++ tail).

(** What comes from upstream; a client that goes away stops the stream where it
    is. *)
Inductive VoucherEvent := Arrived (now : Z) (bytes : list Z) | UpstreamBroke | ClientLeft.
Inductive VoucherEnding := Delivered | Stopped (e : option BoxError).
Fixpoint meter_response_stream (events : list VoucherEvent) (is_sse : bool) (s : VoucherStream * Watermarks) :
    (VoucherStream * Watermarks) * list Z * VoucherEnding :=
  match events with
  | [] =>
      match deliver_tail is_sse s with
      | (s, Returned tail) => (s, tail, Delivered) | (s, Failed e) => (s, [], Stopped (Some e)) | (s, Dropped) => (s, [], Stopped None)
      end
  | Arrived now bytes :: events =>
      match deliver_chunk now bytes is_sse s with
      | (s, Returned ready) => let '(s, released, ending) := meter_response_stream events is_sse s in (s, ready ++ released, ending)
      | (s, Failed e) => (s, [], Stopped (Some e)) | (s, Dropped) => (s, [], Stopped None)
      end
  | UpstreamBroke :: _ => (s, [], Stopped (Some UpstreamError))
  | ClientLeft :: _ => (s, [], Stopped None)
  end.

(** ** The client's meter of a route *)
Record ClientVoucherMeter := { cv_meter : SessionStreamMeter; cv_body_limit : Z }.
Definition for_route (endpoint_metering : option Metering) (content_length : option Z) (path : string)
    (c : SessionStreamContext) (now : Z) : metered (option ClientVoucherMeter) :=
  match endpoint_metering with
  | None => Ok None
  | Some m =>
      let variant_hint := extract_variant_hint (trim_start_matches slash path) in
      _ ← reject_if (negb (dimensions_honor_meters (effective_dimensions m variant_hint))) UnobservableMeter;
      meter ← meter_from_config m {| input_tokens := None; input_characters := None; context_length := None; body_size := content_length;
                duration_seconds := None; batch_size := None; image_pixels := None |} variant_hint c now;
      Ok match meter with Some meter => Some {| cv_meter := meter; cv_body_limit := upto_response_body_limit m |} | None => None end
  end.
Definition for_status (m : ClientVoucherMeter) (status : Z) : option ClientVoucherMeter := if handler_completed status then Some m else None.
(** The status of the response sent instead of a body that is not released. *)
Definition settle_body (now : Z) (body : list Z) : effect (SessionStreamMeter * Watermarks) Z unit :=
  map_failure (λ e, match e with Unmeterable _ => 502 | Uncovered _ => 402 end) (settle_complete_body now body false).
End meter.
