(* ===== verification/VoucherSafety.v ===== *)
(** * VoucherSafety: what a client-voucher stream lets go

    Of [VoucherStream]: bytes are let go only when the client has committed
    vouchers for the value of everything counted so far, a stream that ends
    has let go the whole body in order, and the wait for a voucher ends. *)
From S2P Require Import Prelude F64 Text Affixes MeteringTypes Pricing SessionMetering Landing UsageSettlement Routes ChargeTerms.
From S2P Require Import Gate StreamDecode StreamUsage StreamRating Effects VoucherStream.
#[local] Open Scope string_scope.
#[local] Open Scope list_scope.
#[local] Open Scope Z_scope.

(** ** What is vouched for *)

(** The highest commit of the client that was seen. *)
Definition vouched (c : SessionStreamContext) (l : list Reading) : Z :=
  foldr (λ r n, Z.max (committed_base_units_now c r) n) (ctx_baseline_base_units c) l.
(** The value of an observation, on top of the baseline, is at most [n]. *)
Definition backed (c : SessionStreamContext) (spec : SessionMeterSpec) (o : UsageObservation) (n : Z) : Prop :=
  ∃ owed, micro_usd_to_base_units_ceil (rated_total spec o) {| decimals := ctx_decimals c |} = Ok owed ∧ ctx_baseline_base_units c + owed ≤ n.
Definition vouched_for (c : SessionStreamContext) (s : SessionStreamMeter * Watermarks) : Prop :=
  has_observation (v_accumulator s.1) = true →
  backed c (acc_spec (v_accumulator s.1)) (observation (v_accumulator s.1)) (vouched c (seen s.2)).

Lemma vouched_base c l : ctx_baseline_base_units c ≤ vouched c l.
Proof. induction l as [|r l IH]; [done|]. change (ctx_baseline_base_units c ≤ Z.max (committed_base_units_now c r) (vouched c l)). lia. Qed.
Lemma vouched_app c l l' : vouched c (l ++ l') = Z.max (vouched c l) (vouched c l').
Proof.
  induction l as [|r l IH]; cbn [app]; [change (vouched c []) with (ctx_baseline_base_units c); pose proof (vouched_base c l'); lia|].
  change (Z.max (committed_base_units_now c r) (vouched c (l ++ l')) = Z.max (Z.max (committed_base_units_now c r) (vouched c l)) (vouched c l')). lia.
Qed.
Lemma vouched_seen c r l : r ∈ l → committed_base_units_now c r ≤ vouched c l.
Proof.
  intros (l1 & l2 & ->)%list_elem_of_split. rewrite vouched_app.
  change (vouched c (r :: l2)) with (Z.max (committed_base_units_now c r) (vouched c l2)). lia.
Qed.
Lemma backed_mono c spec o n n' : n ≤ n' → backed c spec o n → backed c spec o n'.
Proof. intros Hn (owed & Ho & ?). exists owed. split; [done|lia]. Qed.

Section safety.
Context (utf8_error_text : list Z → string) (parse_json : list Z → result string json) (pointer : json → string → option json).
Context (c : SessionStreamContext).

(** The meter rates for its channel, and has recorded nothing that was not
    seen. *)
Record sound (s : SessionStreamMeter * Watermarks) : Prop := {
  so_context : v_context s.1 = c; so_spec : gate_spec (v_gate s.1) = acc_spec (v_accumulator s.1);
  so_settlement : gate_settlement (v_gate s.1) = {| decimals := ctx_decimals c |};
  so_baseline : baseline_base_units (v_gate s.1) = ctx_baseline_base_units c; so_spec_wf : spec_wf (acc_spec (v_accumulator s.1));
  so_counts : counts_wf (acc_counts (v_accumulator s.1)); so_current : obs_wf (v_current s.1);
  so_scales : Forall (λ q, 0 ≤ q.2) (quota_units (acc_hints (v_accumulator s.1)));
  so_committed : committed_base_units (v_gate s.1) ≤ vouched c (seen s.2) }.
Definition committed (m : SessionStreamMeter) : Z := committed_base_units (v_gate m).
Definition counts_to (m : SessionStreamMeter) (n : Z) : Prop :=
  backed c (acc_spec (v_accumulator m)) (observation (v_accumulator m)) n.
(** What is counted was observed last, and is worth at most [n]. *)
Definition covered (m : SessionStreamMeter) (n : Z) : Prop :=
  has_observation (v_accumulator m) = true →
  (c_request_seen (acc_counts (v_accumulator m)) = true ∧ v_current m = observation (v_accumulator m)) ∧ counts_to m n.
Lemma covered_mono m n n' : n ≤ n' → covered m n → covered m n'.
Proof. intros Hn Hc Ho. destruct (Hc Ho) as [Hup Hb]. split; [exact Hup|by apply (backed_mono _ _ _ n)]. Qed.

(** ** The operations of the meter *)
Definition usage_of (m : SessionStreamMeter) : StreamUsageAccumulator * UsageObservation := (v_accumulator m, v_current m).
(** The operation leaves the usage alone and the commits no lower. *)
Definition steady {E A} (m : effect (SessionStreamMeter * Watermarks) E A) (Q : A → SessionStreamMeter * Watermarks → Prop) : Prop :=
  ∀ u k, leaves (λ s, sound s ∧ usage_of s.1 = u ∧ k ≤ committed s.1) m (λ a s, sound s ∧ usage_of s.1 = u ∧ k ≤ committed s.1 ∧ Q a s) sound.

Lemma sound_saw m w l rest : sound (m, w) → sound (m, saw w l rest).
Proof. intros []. split; try done. cbn [fst snd saw seen] in *. rewrite vouched_app. lia. Qed.
Lemma touch_steady now : steady (touch_if_due now) (λ _ _, True).
Proof.
  intros u k [m w] (Hs & Hu & Hk). unfold touch_if_due, mbind, effect_bind, get. cbn [fst snd]. destruct (now <? _); [done|].
  split; [by destruct Hs|done].
Qed.
Lemma look_steady : steady look (λ n s, n ≤ vouched c (seen s.2)).
Proof.
  intros u k [m w] (Hs & Hu & Hk). unfold look. cbn [fst snd]. destruct (readings w) as [|r rest]; [done|].
  split; [by apply sound_saw|]. split; [done|]. split; [done|]. pose proof (so_context _ Hs) as Hc. cbn [fst] in Hc. rewrite Hc.
  apply vouched_seen, elem_of_app. right. by left.
Qed.
Lemma poll_spec deadline target : ∀ l polled rest o,
  poll_commit c deadline target l = (polled, rest, o) → match o with Returned n => target ≤ n ≤ vouched c polled | _ => True end.
Proof.
  induction l as [|r l IH]; intros polled rest o; cbn [poll_commit]; [by intros [= <- <- <-]|].
  destruct (Z.leb_spec target (committed_base_units_now c r)); [intros [= <- <- <-]; cbn; lia|].
  destruct (deadline <? _); [by intros [= <- <- <-]|]. destruct (poll_commit c deadline target l) as [[polled' rest'] o'] eqn:E.
  intros [= <- <- <-]. specialize (IH _ _ _ eq_refl). destruct o'; [|done|done]. cbn. unfold vouched in *. lia.
Qed.
Lemma wait_steady target : steady (wait_for_commit target) (λ n s, target ≤ n ≤ vouched c (seen s.2)).
Proof.
  intros u k [m w] (Hs & Hu & Hk). unfold wait_for_commit. cbn [fst snd]. destruct (readings w) as [|r l]; [done|].
  pose proof (so_context _ Hs) as Hc. cbn [fst] in Hc. rewrite Hc.
  destruct (poll_commit c _ target (r :: l)) as [[polled rest] o] eqn:E. apply poll_spec in E.
  destruct o; try (by apply sound_saw). split; [by apply sound_saw|]. split; [done|]. split; [done|]. cbn [fst snd saw seen]. rewrite vouched_app. lia.
Qed.
Lemma record_steady n u k :
  leaves (λ s, sound s ∧ usage_of s.1 = u ∧ k ≤ committed s.1 ∧ n ≤ vouched c (seen s.2)) (v_record_commit n)
    (λ _ s, sound s ∧ usage_of s.1 = u ∧ k ≤ committed s.1 ∧ n ≤ committed s.1) sound.
Proof.
  intros [m w] (Hs & Hu & Hk & Hn). unfold v_record_commit, mbind, effect_bind, get, put, committed in *. cbn in *.
  split; [destruct Hs; split; cbn in *; try done; lia|]. split; [done|]. lia.
Qed.
Lemma settle_steady d : steady (settle_decision d) (λ _ s, requires_voucher d = true → target_cumulative_base_units d ≤ committed s.1).
Proof.
  intros u k. unfold settle_decision. destruct (requires_voucher d); cbn [negb].
  - eapply leaves_bind; [apply wait_steady|intros n]. intros s (Hs & Hu & Hk & Hn).
    pose proof (record_steady n u k s (conj Hs (conj Hu (conj Hk (proj2 Hn))))) as Hr. destruct (v_record_commit n s) as [s' [a|e|]]; [|done|done].
    destruct Hr as (? & ? & ? & ?). split_and!; try done. lia.
  - apply leaves_ret. intros s (? & ? & ?). by split_and!.
Qed.
Lemma settle_opt_steady d :
  steady (settle_decision_opt d) (λ _ s, match d with Some d => requires_voucher d = true → target_cumulative_base_units d ≤ committed s.1 | None => True end).
Proof.
  destruct d as [d|]; [apply settle_steady|]. intros u k. apply leaves_ret. intros s (? & ? & ?). by split_and!.
Qed.

(** Counting. *)
Lemma sound_accumulator m w a :
  acc_step true (v_accumulator m) a → sound (m, w) → sound (with_v_accumulator m a, w).
Proof. intros [Hspec Hhints Hwf _ _] []. split; cbn in *; rewrite ?Hspec, ?Hhints; try done. by apply Hwf. Qed.
Lemma count_leaves (P : SessionStreamMeter → Prop) (Q : bool → SessionStreamMeter → Prop) observe :
  (∀ a, acc_step true a (observe a).1) →
  (∀ m w a changed, sound (m, w) → P m → observe (v_accumulator m) = (a, Ok changed) → Q changed (with_v_accumulator m a)) →
  leaves (λ s, sound s ∧ P s.1) (count observe) (λ changed s, sound s ∧ Q changed s.1) sound.
Proof.
  intros Hstep HQ [m w] [Hs HP]. unfold count, mbind, effect_bind, get, put. cbn [fst snd]. pose proof (Hstep (v_accumulator m)) as Ha.
  destruct (observe (v_accumulator m)) as [a r] eqn:E. cbn [fst snd] in *. destruct r as [changed|e]; cbn; [|by apply sound_accumulator].
  split; [by apply sound_accumulator|by eapply HQ].
Qed.
Lemma take_sound m w : sound (m, w) → sound (with_v_current m (observation (v_accumulator m)), w).
Proof. intros []. split; cbn in *; try done. by apply observation_wf. Qed.

(** Rating. *)
Definition asks_for (m : SessionStreamMeter) (mode : GateMode) (d : SessionGateDecision) : Prop :=
  backed c (acc_spec (v_accumulator m)) (v_current m) (target_cumulative_base_units d) ∧
  (requires_voucher d = false → outstanding_base_units d ≤ 0 → target_cumulative_base_units d ≤ committed m) ∧
  (requires_voucher d = false → mode = Final → target_cumulative_base_units d ≤ committed m).
Lemma rate_leaves mode u k :
  leaves (λ s, sound s ∧ usage_of s.1 = u ∧ committed s.1 = k) (rate mode) (λ d s, sound s ∧ usage_of s.1 = u ∧ committed s.1 = k ∧ asks_for s.1 mode d) sound.
Proof.
  intros [m w] (Hs & Hu & Hk). unfold rate, mbind, effect_bind, get, put. cbn [fst snd] in *. destruct (gate_observe _ _ _) as [g r] eqn:Hg.
  pose proof (gate_observe_fields (v_gate m) (v_current m) mode) as Hfields. rewrite Hg in Hfields. cbn in Hfields. destruct Hfields as (Hgs & Hgt & Hgb & Hgc & _).
  assert (sound (with_v_gate m g, w)) as Hs' by (destruct Hs; split; cbn in *; first [congruence|lia|done]).
  destruct r as [d|e]; cbn [as_effect mret effect_ret fail fst snd]; [|done].
  unfold committed in *. cbn [with_v_gate v_gate v_accumulator v_current] in *. split; [done|]. split; [done|]. split; [by rewrite Hgc|].
  apply gate_observe_asks in Hg as ((owed & Howed & Ht) & Hout & Hnone); [|pose proof (so_spec _ Hs) as E; cbn [fst] in E; rewrite E; apply Hs|apply Hs].
  pose proof (so_spec _ Hs) as E1. pose proof (so_settlement _ Hs) as E2. pose proof (so_baseline _ Hs) as E3. cbn [fst] in E1, E2, E3. rewrite E1, E2 in Howed.
  unfold asks_for, committed, saturating_sub in *. cbn [with_v_gate v_gate v_accumulator v_current]. rewrite Hgc. split; [exists owed; split; [exact Howed|lia]|].
  split; [lia|]. intros Hv ->. destruct (Hnone Hv) as [|[? _]]; [lia|done].
Qed.

(** ** Observing *)
Definition fresh (m : SessionStreamMeter) : Prop :=
  c_request_seen (acc_counts (v_accumulator m)) = true ∧ v_current m = observation (v_accumulator m).
Lemma usage_counts (m m' : SessionStreamMeter) : usage_of m' = usage_of m → v_accumulator m' = v_accumulator m ∧ v_current m' = v_current m.
Proof. by intros [=]. Qed.
Lemma covered_usage m m' n : usage_of m' = usage_of m → covered m n → covered m' n.
Proof. intros [Ha Hc]%usage_counts. unfold covered, counts_to. by rewrite Ha, Hc. Qed.

(** After a chunk is counted: what was covered still is when it changed
    nothing. *)
Lemma count_chunk_leaves chunk is_sse k n :
  leaves (λ s, sound s ∧ covered s.1 n ∧ committed s.1 = k)
    (count (λ a, observe_chunk utf8_error_text parse_json pointer a chunk is_sse))
    (λ changed s, sound s ∧ (if changed : bool then c_request_seen (acc_counts (v_accumulator s.1)) = true else covered s.1 n) ∧ committed s.1 = k) sound.
Proof.
  apply (count_leaves (λ m, covered m n ∧ committed m = k)
    (λ changed m, (if changed : bool then c_request_seen (acc_counts (v_accumulator m)) = true else covered m n) ∧ committed m = k)).
  { intros a. apply step_ends, chunk_step. }
  intros m w a changed Hs [Hcov Hk] Ha. split; [|exact Hk].
  pose proof (chunk_seen utf8_error_text parse_json pointer (v_accumulator m) chunk is_sse (so_counts _ Hs)) as Hseen. rewrite Ha in Hseen. cbn [fst] in Hseen.
  destruct changed; [exact Hseen|]. intros Ho. cbn [with_v_accumulator v_accumulator v_current] in *.
  pose proof (chunk_step utf8_error_text parse_json pointer (v_accumulator m) chunk is_sse) as [Hspec _ _ _ _]. rewrite Ha in Hspec. cbn [fst] in Hspec.
  apply chunk_quiet in Ha as [Hobs Hhas]. unfold has_observation in Ho. rewrite Hhas in Ho. destruct (Hcov Ho) as [[Hseen' Hcur] Hb].
  unfold counts_to in *. cbn [with_v_accumulator v_accumulator v_current] in *. rewrite Hspec, (Hobs Hseen'). done.
Qed.
Lemma rate_observed mode k :
  leaves (λ s, sound s ∧ c_request_seen (acc_counts (v_accumulator s.1)) = true ∧ committed s.1 = k)
    (_ ← take_observation; rate mode)
    (λ d s, sound s ∧ fresh s.1 ∧ committed s.1 = k ∧ asks_for s.1 mode d) sound.
Proof.
  intros [m w] (Hs & Hseen & Hk). set (m1 := with_v_current m (observation (v_accumulator m))).
  pose proof (rate_leaves mode (usage_of m1) k (m1, w) (conj (take_sound m w Hs) (conj eq_refl Hk))) as Hr.
  change ((_ ← take_observation; rate mode) (m, w)) with (rate mode (m1, w)). destruct (rate mode (m1, w)) as [s' [d|e|]]; [|exact Hr|exact Hr].
  destruct Hr as (Hs' & [Ha Hc]%usage_counts & Hk' & Hd). split; [done|]. split; [|done]. unfold fresh. rewrite Ha, Hc. done.
Qed.

(** The decision asks for all that is counted. *)
Definition decided (mode : GateMode) (d : option SessionGateDecision) (m : SessionStreamMeter) (n : Z) : Prop :=
  match d with Some d => fresh m ∧ asks_for m mode d | None => covered m n end.
Lemma usage_change_leaves changed k n :
  leaves (λ s, sound s ∧ (if changed : bool then c_request_seen (acc_counts (v_accumulator s.1)) = true else covered s.1 n) ∧ committed s.1 = k)
    (observe_usage_change changed) (λ d s, sound s ∧ decided Streaming d s.1 n ∧ committed s.1 = k) sound.
Proof.
  unfold observe_usage_change. destruct changed; cbn [negb]; [|by apply leaves_ret].
  intros s Hs. pose proof (rate_observed Streaming k s Hs) as Hr.
  assert ((_ ← take_observation; d ← rate Streaming; mret (Some d)) s =
          (let '(s', o) := (_ ← take_observation; rate Streaming) s in (s', match o with Returned d => Returned (Some d) | Failed e => Failed e | Dropped => Dropped end))) as ->
    by (unfold mbind, effect_bind; destruct (take_observation s) as [s1 [u|e|]]; [|done|done]; by destruct (rate Streaming s1) as [s2 []]).
  destruct ((_ ← take_observation; rate Streaming) s) as [s' [d|e|]]; [|done|done]. destruct Hr as (? & ? & ? & ?). by split_and!.
Qed.
Lemma observe_chunk_leaves chunk is_sse k n :
  leaves (λ s, sound s ∧ covered s.1 n ∧ committed s.1 = k) (session_observe_chunk utf8_error_text parse_json pointer chunk is_sse)
    (λ d s, sound s ∧ decided Streaming d s.1 n ∧ committed s.1 = k) sound.
Proof. unfold session_observe_chunk. eapply leaves_bind; [apply count_chunk_leaves|intros changed; apply usage_change_leaves]. Qed.

(** The end of a stream asks for all that is counted. *)
Definition final (d : option SessionGateDecision) (m : SessionStreamMeter) : Prop :=
  match d with
  | Some d => v_current m = observation (v_accumulator m) ∧ asks_for m Final d
  | None => has_observation (v_accumulator m) = false
  end.
Lemma session_finish_leaves is_sse n :
  leaves (λ s, sound s ∧ covered s.1 n) (session_finish utf8_error_text parse_json pointer is_sse) (λ d s, sound s ∧ final d s.1) sound.
Proof.
  unfold session_finish. eapply leaves_bind.
  { apply (count_leaves (λ m, covered m n)
      (λ changed m, changed = false → has_observation (v_accumulator m) = true → v_current m = observation (v_accumulator m))).
    - intros a. apply finish_step.
    - intros m w a changed Hs Hcov Ha -> Ho. cbn [with_v_accumulator v_accumulator v_current] in *. apply finish_quiet in Ha as [Hobs Hhas]; [|apply Hs].
      unfold has_observation in Ho. rewrite Hhas in Ho. destruct (Hcov Ho) as [[_ Hcur] _]. by rewrite Hobs. }
  intros changed. apply (leaves_bind _ _ (λ _ s, sound s ∧ (has_observation (v_accumulator s.1) = true → v_current s.1 = observation (v_accumulator s.1)))).
  { destruct changed; cbn [when_changed]; [|apply leaves_ret; intros s [Hs Hc]; split; [done|auto]].
    intros [m w] [Hs _]. unfold take_observation, mbind, effect_bind, get, put. cbn [fst snd]. by split; [apply take_sound|]. }
  intros _. intros s [Hs Hcur]. unfold mbind at 1, effect_bind at 1, get at 1.
  destruct (has_observation (v_accumulator s.1)) eqn:Ho; cbn [negb]; [|by split].
  pose proof (rate_leaves Final (usage_of s.1) (committed s.1) s (conj Hs (conj eq_refl eq_refl))) as Hr.
  unfold mbind, effect_bind. destruct (rate Final s) as [s' [d|e|]]; [|done|done]. destruct Hr as (Hs' & [Ha Hc]%usage_counts & _ & Hd).
  split; [done|]. split; [|done]. rewrite Ha, Hc. by apply Hcur.
Qed.
Definition paid_for (m : SessionStreamMeter) : Prop := has_observation (v_accumulator m) = true → counts_to m (committed m).
Lemma final_settled d :
  leaves (λ s, sound s ∧ final d s.1) (settle_decision_opt d) (λ _ s, sound s ∧ paid_for s.1) sound.
Proof.
  intros s [Hs Hd]. pose proof (settle_opt_steady d (usage_of s.1) (committed s.1) s (conj Hs (conj eq_refl (Z.le_refl _)))) as Hr.
  destruct (settle_decision_opt d s) as [s' [u|e|]]; [|done|done]. destruct Hr as (Hs' & [Ha Hc]%usage_counts & Hk & Ht). split; [done|]. intros Ho.
  rewrite Ha in Ho. unfold counts_to. rewrite Ha. destruct d as [d|]; cbn [final] in Hd; [|by rewrite Hd in Ho]. destruct Hd as [Hcur (Hb & _ & Hfinal)].
  rewrite Hcur in Hb. eapply backed_mono; [|exact Hb]. destruct (requires_voucher d) eqn:Hv; [by apply Ht|]. specialize (Hfinal eq_refl eq_refl). lia.
Qed.

(** A meter that has paid is vouched for. *)
Lemma paid_vouched s : sound s → paid_for s.1 → vouched_for c s.
Proof. intros Hs Hp Ho. eapply backed_mono; [apply Hs|by apply Hp]. Qed.
Lemma covered_paid m : covered m (committed m) → paid_for m.
Proof. intros Hc Ho. by apply Hc. Qed.

(** ** A complete body *)
Lemma decided_settled d n :
  leaves (λ s, sound s ∧ decided Streaming d s.1 n) (settle_decision_opt d) (λ _ s, sound s ∧ ∃ n, covered s.1 n) sound.
Proof.
  intros s [Hs Hd]. pose proof (settle_opt_steady d (usage_of s.1) (committed s.1) s (conj Hs (conj eq_refl (Z.le_refl _)))) as Hr.
  destruct (settle_decision_opt d s) as [s' [u|e|]]; [|done|done]. destruct Hr as (Hs' & Hu & _). split; [done|].
  destruct d as [d|]; cbn [decided] in Hd; [|exists n; by eapply covered_usage]. destruct Hd as [Hf (Hb & _)]. unfold fresh in Hf.
  exists (target_cumulative_base_units d). eapply covered_usage; [exact Hu|]. intros _. split; [exact Hf|]. unfold counts_to. by rewrite <-(proj2 Hf).
Qed.
Lemma body_step a body is_sse : acc_step false a (observe_complete_body utf8_error_text parse_json pointer a body is_sse).1.
Proof. unfold observe_complete_body. destruct is_sse; [apply records_step|]. destruct (parse_json body); apply records_step. Qed.
Lemma body_seen a body is_sse :
  counts_wf (acc_counts a) → c_request_seen (acc_counts (observe_complete_body utf8_error_text parse_json pointer a body is_sse).1) = true.
Proof.
  intros Hw. assert (∀ records, c_request_seen (acc_counts (observe_records utf8_error_text parse_json pointer a body records).1) = true) as H.
  { intros records. destruct (arrived_step a body) as [_ _ Hw1 _ _].
    destruct (records_arrived utf8_error_text parse_json pointer a body records) as [_ _ _ [] _]; [by apply Hw1|by apply gr_seen]. }
  unfold observe_complete_body. destruct is_sse; [apply H|]. destruct (parse_json body); apply H.
Qed.
Lemma complete_body_leaves now body is_sse :
  leaves (λ s, sound s ∧ has_observation (v_accumulator s.1) = false)
    (settle_complete_body utf8_error_text parse_json pointer now body is_sse) (λ _ s, sound s ∧ paid_for s.1) sound.
Proof.
  unfold settle_complete_body. apply (leaves_bind _ _ (λ _ s, sound s ∧ has_observation (v_accumulator s.1) = false)).
  { apply leaves_map_failure. intros s [Hs Ho]. pose proof (touch_steady now (usage_of s.1) (committed s.1) s (conj Hs (conj eq_refl (Z.le_refl _)))) as Hr.
    destruct (touch_if_due now s) as [s' [u|e|]]; [|done|done]. destruct Hr as (Hs' & [Ha _]%usage_counts & _).
    exact (conj Hs' (eq_trans (f_equal has_observation Ha) Ho)). }
  intros _. eapply leaves_bind.
  { apply leaves_map_failure. apply (count_leaves (λ m, has_observation (v_accumulator m) = false)
      (λ changed m, if changed : bool then c_request_seen (acc_counts (v_accumulator m)) = true else covered m 0)).
    - intros a. apply step_ends, body_step.
    - intros m w a changed Hs Ho Ha. pose proof (body_seen (v_accumulator m) body is_sse (so_counts _ Hs)) as Hseen. rewrite Ha in Hseen.
      destruct changed; [exact Hseen|]. intros Ho'. exfalso. cbn [with_v_accumulator v_accumulator] in Ho'. unfold has_observation in *.
      assert (∃ records, observe_records utf8_error_text parse_json pointer (v_accumulator m) body records = (a, Ok false)) as [records Hq].
      { unfold observe_complete_body in Ha. destruct is_sse; [by eexists|]. destruct (parse_json body); by eexists. }
      apply records_quiet in Hq as [_ Hhas]. congruence. }
  intros changed. apply (leaves_bind _ _ (λ d s, sound s ∧ decided Streaming d s.1 0)).
  { apply leaves_map_failure. intros s [Hs Hc]. pose proof (usage_change_leaves changed (committed s.1) 0 s (conj Hs (conj Hc eq_refl))) as Hr.
    destruct (observe_usage_change changed s) as [s' [d|e|]]; [|exact Hr|exact Hr]. exact (conj (proj1 Hr) (proj1 (proj2 Hr))). }
  intros d. apply (leaves_bind _ _ (λ _ s, sound s ∧ ∃ n, covered s.1 n)); [apply leaves_map_failure, decided_settled|].
  intros _. eapply leaves_bind; [apply leaves_map_failure; intros s [Hs [n Hc]]; apply (session_finish_leaves is_sse n s (conj Hs Hc))|].
  intros d'. apply leaves_map_failure, final_settled.
Qed.

(** ** One chunk *)
Definition meter_of (s : VoucherStream * Watermarks) : SessionStreamMeter * Watermarks := (vs_meter s.1, s.2).
Definition stopped (s : VoucherStream * Watermarks) : Prop := sound (meter_of s).
(** What is counted is vouched for, or will be when what is held is let go. *)
Definition kept (s : VoucherStream * Watermarks) : Prop :=
  stopped s ∧ covered (vs_meter s.1) (Z.max (committed (vs_meter s.1)) (vs_held_target s.1)).
Lemma on_meter_leaves {A} (m : metering A) (P : Z → SessionStreamMeter * Watermarks → Prop) Q :
  (∀ t, leaves (P t) m (Q t) sound) →
  leaves (λ s, P (vs_held_target s.1) (meter_of s)) (on_meter m) (λ a s, Q (vs_held_target s.1) a (meter_of s)) stopped.
Proof.
  intros Hm [v w] Hs. specialize (Hm _ _ Hs). unfold on_meter, zoom, meter_of in *. cbn [fst snd] in *. by destruct (m _) as [[n w'] [a|e|]].
Qed.
Lemma touch_kept now : leaves kept (on_meter (touch_if_due now)) (λ _ s, kept s) stopped.
Proof.
  apply (on_meter_leaves _ (λ t s, sound s ∧ covered s.1 (Z.max (committed s.1) t)) (λ t _ s, sound s ∧ covered s.1 (Z.max (committed s.1) t))).
  intros t s [Hs Hc]. pose proof (touch_steady now (usage_of s.1) (committed s.1) s (conj Hs (conj eq_refl (Z.le_refl _)))) as Hr.
  destruct (touch_if_due now s) as [s' [u|e|]]; [|done|done]. destruct Hr as (Hs' & Hu & Hk & _). split; [done|].
  apply (covered_mono _ (Z.max (committed s.1) t)); [lia|by apply (covered_usage s.1)].
Qed.
Lemma push_kept chunk is_sse : leaves kept (push_record chunk is_sse) (λ _ s, kept s) stopped.
Proof.
  intros [v w] Hs. unfold push_record, mbind, effect_bind, get, put. cbn [fst snd]. destruct (hold_push _ _ _) as [[h ready]|e]; [exact Hs|apply Hs].
Qed.
Lemma observe_kept chunk is_sse :
  leaves kept (on_meter (session_observe_chunk utf8_error_text parse_json pointer chunk is_sse))
    (λ d s, stopped s ∧ decided Streaming d (vs_meter s.1) (Z.max (committed (vs_meter s.1)) (vs_held_target s.1))) stopped.
Proof.
  apply (on_meter_leaves _ (λ t s, sound s ∧ covered s.1 (Z.max (committed s.1) t)) (λ t d s, sound s ∧ decided Streaming d s.1 (Z.max (committed s.1) t))).
  intros t s [Hs Hc]. pose proof (observe_chunk_leaves chunk is_sse (committed s.1) (Z.max (committed s.1) t) s (conj Hs (conj Hc eq_refl))) as Hr.
  destruct (session_observe_chunk _ _ _ _ _ s) as [s' [d|e|]]; [|exact Hr|exact Hr]. destruct Hr as (Hs' & Hd & Hk). rewrite Hk. by split.
Qed.
Lemma await_kept d :
  leaves (λ s, stopped s ∧ decided Streaming d (vs_meter s.1) (Z.max (committed (vs_meter s.1)) (vs_held_target s.1))) (await_decision d) (λ _ s, kept s) stopped.
Proof.
  destruct d as [d|]; cbn [await_decision decided]; [|by apply leaves_ret].
  assert (∀ m, fresh m → asks_for m Streaming d → covered m (target_cumulative_base_units d)) as Hcov.
  { intros m Hf [Hb _] _. split; [exact Hf|]. unfold counts_to. by rewrite <-(proj2 Hf). }
  destruct (requires_voucher d) eqn:Hv.
  - apply (on_meter_leaves _ (λ t s, sound s ∧ fresh s.1 ∧ asks_for s.1 Streaming d) (λ t _ s, sound s ∧ covered s.1 (Z.max (committed s.1) t))).
    intros t s (Hs & Hf & Ha). pose proof (settle_steady d (usage_of s.1) (committed s.1) s (conj Hs (conj eq_refl (Z.le_refl _)))) as Hr.
    destruct (settle_decision d s) as [s' [u|e|]]; [|done|done]. destruct Hr as (Hs' & Hu & _ & Ht). split; [done|].
    apply (covered_mono _ (target_cumulative_base_units d)); [specialize (Ht Hv); lia|]. apply (covered_usage s.1); [done|by apply Hcov].
  - intros [v w] (Hs & Hf & Ha). destruct (Z.ltb_spec 0 (outstanding_base_units d)).
    + unfold mbind, effect_bind, get, put. cbn [fst snd]. split; [exact Hs|]. cbn [fst with_vs_target vs_meter vs_held_target] in *.
      apply (covered_mono _ (target_cumulative_base_units d)); [lia|by apply Hcov].
    + split; [exact Hs|]. cbn [fst] in *. apply (covered_mono _ (target_cumulative_base_units d)); [|by apply Hcov].
      destruct Ha as (_ & Hout & _). specialize (Hout Hv ltac:(lia)). lia.
Qed.
Lemma hold_back_kept d ready :
  leaves (λ s, stopped s ∧ decided Streaming d (vs_meter s.1) (Z.max (committed (vs_meter s.1)) (vs_held_target s.1))) (hold_back ready)
    (λ _ s, stopped s ∧ decided Streaming d (vs_meter s.1) (Z.max (committed (vs_meter s.1)) (vs_held_target s.1))) stopped.
Proof. by intros [v w] Hs. Qed.
(** What is held is let go only when it is paid for. *)
Lemma let_go_kept : leaves kept let_go (λ ready s, kept s ∧ (ready ≠ [] → paid_for (vs_meter s.1))) stopped.
Proof.
  unfold let_go. eapply leaves_bind.
  { apply (on_meter_leaves _ (λ t s, sound s ∧ covered s.1 (Z.max (committed s.1) t))
      (λ t n s, (sound s ∧ covered s.1 (Z.max (committed s.1) t)) ∧ n ≤ vouched c (seen s.2))).
    intros t s [Hs Hc]. pose proof (look_steady (usage_of s.1) (committed s.1) s (conj Hs (conj eq_refl (Z.le_refl _)))) as Hr.
    destruct (look s) as [s' [n|e|]]; [|done|done]. destruct Hr as (Hs' & Hu & Hk & Hn). split; [split; [done|]|done].
    apply (covered_mono _ (Z.max (committed s.1) t)); [lia|by apply (covered_usage s.1)]. }
  intros n [v w] [[Hs Hc] Hn]. unfold mbind at 1, effect_bind at 1, get at 1. cbn [fst snd].
  destruct (Z.leb_spec (vs_held_target v) n); [|by split].
  pose proof (record_steady n (usage_of (vs_meter v)) (committed (vs_meter v)) (vs_meter v, w) (conj Hs (conj eq_refl (conj (Z.le_refl _) Hn)))) as Hr.
  unfold mbind, effect_bind, on_meter, zoom. cbn [fst snd meter_of] in *. destruct (v_record_commit n (vs_meter v, w)) as [[m' w'] [u|e|]]; [|done|done].
  destruct Hr as (Hs' & Hu & Hk & Hn'). unfold get, put. cbn [fst snd mret effect_ret with_vs_meter with_vs_target with_vs_held vs_meter vs_held_target] in *.
  assert (covered m' (committed m')) as Hp by (apply (covered_mono _ (Z.max (committed (vs_meter v)) (vs_held_target v))); [lia|by apply (covered_usage (vs_meter v))]).
  split; [|intros _; by apply covered_paid]. split; [exact Hs'|].
  change (covered m' (Z.max (committed m') 0)). apply (covered_mono _ (committed m')); [lia|exact Hp].
Qed.
Lemma deliver_kept now chunk is_sse :
  leaves kept (deliver_chunk utf8_error_text parse_json pointer now chunk is_sse) (λ ready s, kept s ∧ (ready ≠ [] → paid_for (vs_meter s.1))) stopped.
Proof.
  unfold deliver_chunk. eapply leaves_bind; [apply touch_kept|intros ?]. eapply leaves_bind; [apply push_kept|intros ready].
  eapply leaves_bind; [apply observe_kept|intros d]. apply (leaves_bind _ _ _ _ _ _ (hold_back_kept d ready)). intros ?.
  eapply leaves_bind; [apply await_kept|intros ?]. apply let_go_kept.
Qed.
Lemma tail_kept is_sse : leaves kept (deliver_tail utf8_error_text parse_json pointer is_sse) (λ _ s, stopped s ∧ paid_for (vs_meter s.1)) stopped.
Proof.
  unfold deliver_tail. eapply leaves_bind.
  { apply (on_meter_leaves _ (λ t s, sound s ∧ covered s.1 (Z.max (committed s.1) t)) (λ _ d s, sound s ∧ final d s.1)).
    intros t s [Hs Hc]. exact (session_finish_leaves is_sse (Z.max (committed s.1) t) s (conj Hs Hc)). }
  intros d. eapply leaves_bind.
  { apply (on_meter_leaves _ (λ _ s, sound s ∧ final d s.1) (λ _ _ s, sound s ∧ paid_for s.1)). intros _. apply final_settled. }
  intros _ [v w] Hs. exact Hs.
Qed.

(** ** Whole streams *)
Abbreviation serve := (meter_response_stream utf8_error_text parse_json pointer).
Lemma serve_kept events is_sse : ∀ s s' released ending,
  kept s → serve events is_sse s = (s', released, ending) → stopped s' ∧ (ending = Delivered → paid_for (vs_meter s'.1)).
Proof.
  induction events as [|ev events IH]; intros s s' released ending Hs; cbn [meter_response_stream].
  - pose proof (tail_kept is_sse s Hs) as Ht. destruct (deliver_tail _ _ _ _ _) as [s1 [tail|e|]]; intros [= <- <- <-]; [|by split..].
    split; [apply Ht|intros _; apply Ht].
  - destruct ev as [now bytes| |]; [|intros [= <- <- <-]; (split; [apply Hs|done])..].
    pose proof (deliver_kept now bytes is_sse s Hs) as Hd. destruct (deliver_chunk _ _ _ _ _ _ _) as [s1 [ready|e|]]; [|intros [= <- <- <-]; (split; [exact Hd|done])..].
    destruct Hd as [Hd _]. destruct (serve events is_sse s1) as [[s2 rel] fin] eqn:E. intros [= <- <- <-]. by apply IH in E.
Qed.
Fixpoint deliver_all (chunks : list (Z * list Z)) (is_sse : bool) : effect (VoucherStream * Watermarks) BoxError (list Z) :=
  match chunks with
  | [] => mret []
  | (now, chunk) :: chunks =>
      ready ← deliver_chunk utf8_error_text parse_json pointer now chunk is_sse;
      rest ← deliver_all chunks is_sse;
      mret (ready ++ rest)
  end.
Lemma deliver_all_kept chunks is_sse : leaves kept (deliver_all chunks is_sse) (λ _ s, kept s) stopped.
Proof.
  induction chunks as [|[now chunk] chunks IH]; cbn [deliver_all]; [by apply leaves_ret|].
  eapply leaves_bind; [apply deliver_kept|intros ready]. apply (leaves_bind _ _ (λ _ s, kept s)); [|intros ?; by apply leaves_ret].
  eapply leaves_weaken; [apply IH|by intros s []|done|done].
Qed.

(** ** The bytes *)
Definition withheld (v : VoucherStream) : list Z := vs_held v ++ held (vs_hold v).
Definition bytes_kept {A} (m : effect (VoucherStream * Watermarks) BoxError A) : Prop :=
  ∀ l, leaves (λ s, vs_held s.1 = l.1 ∧ held (vs_hold s.1) = l.2) m (λ _ s, vs_held s.1 = l.1 ∧ held (vs_hold s.1) = l.2) (λ _, True).
Lemma on_meter_bytes {A} (m : metering A) : bytes_kept (on_meter m).
Proof. intros l [v w] Hs. unfold on_meter, zoom. cbn [fst snd] in *. by destruct (m _) as [[n w'] [a|e|]]. Qed.
Lemma await_bytes d : bytes_kept (await_decision d).
Proof.
  destruct d as [d|]; cbn [await_decision]; [|intros l; by apply leaves_ret]. destruct (requires_voucher d); [apply on_meter_bytes|].
  destruct (0 <? _); [|intros l; by apply leaves_ret]. by intros l [v w] Hs.
Qed.
Lemma deliver_bytes now chunk is_sse l :
  leaves (λ s, withheld s.1 = l) (deliver_chunk utf8_error_text parse_json pointer now chunk is_sse)
    (λ ready s, ready ++ withheld s.1 = l ++ chunk) (λ _, True).
Proof.
  intros s Hs. assert (∀ l, leaves (λ s, vs_held s.1 = l.1 ∧ held (vs_hold s.1) = l.2) (deliver_chunk utf8_error_text parse_json pointer now chunk is_sse)
    (λ ready s, ready ++ withheld s.1 = (l.1 ++ l.2) ++ chunk) (λ _, True)) as H.
  { clear. intros l. unfold deliver_chunk. eapply leaves_bind; [apply (on_meter_bytes _ l)|intros ?].
    apply (leaves_bind _ _ (λ ready s, vs_held s.1 = l.1 ∧ ready ++ held (vs_hold s.1) = l.2 ++ chunk)).
    { intros [v w] [H1 H2]. unfold push_record, mbind, effect_bind, get, put. cbn [fst snd] in *. destruct (hold_push _ _ _) as [[h r]|e] eqn:E; [|done].
      apply hold_push_bytes in E. cbn. by rewrite H1, E, H2. }
    intros ready s [H1 H2]. set (l1 := (l.1 ++ ready, held (vs_hold s.1))).
    assert (leaves (λ s', vs_held s'.1 = l.1 ∧ held (vs_hold s'.1) = l1.2)
      (d ← on_meter (session_observe_chunk utf8_error_text parse_json pointer chunk is_sse); _ ← hold_back ready; _ ← await_decision d; let_go)
      (λ r s', r ++ withheld s'.1 = l1.1 ++ l1.2) (λ _, True)) as Hk.
    { eapply leaves_bind; [apply (on_meter_bytes _ (l.1, l1.2))|intros d].
      apply (leaves_bind _ _ (λ _ s, vs_held s.1 = l1.1 ∧ held (vs_hold s.1) = l1.2)).
      { intros [v w] [E1 E2]. unfold hold_back, mbind, effect_bind, get, put. cbn [fst snd with_vs_held vs_held vs_hold] in *. by rewrite E1. }
      intros _. eapply leaves_bind; [apply (await_bytes d l1)|intros ?]. unfold let_go. eapply leaves_bind; [apply (on_meter_bytes _ l1)|intros n].
      intros [v w] [E1 E2]. unfold mbind at 1, effect_bind at 1, get at 1. cbn [fst snd] in *.
      destruct (vs_held_target v <=? n); [|cbn; unfold withheld; cbn; by rewrite E1, E2].
      unfold mbind, effect_bind, on_meter, zoom. cbn [fst snd]. destruct (v_record_commit n _) as [[m' w'] [u|e|]]; [|done|done]. cbn. by rewrite E1, E2. }
    specialize (Hk s (conj H1 eq_refl)). cbn [fst snd l1] in Hk. rewrite <-(app_assoc l.1), H2, app_assoc in Hk. exact Hk. }
  specialize (H (vs_held s.1, held (vs_hold s.1)) s (conj eq_refl eq_refl)). cbn [fst snd] in H. unfold withheld in Hs. by rewrite Hs in H.
Qed.
Lemma tail_bytes is_sse l :
  leaves (λ s, vs_held s.1 = l.1 ∧ held (vs_hold s.1) = l.2) (deliver_tail utf8_error_text parse_json pointer is_sse) (λ tail _, tail = l.1 ++ l.2) (λ _, True).
Proof.
  unfold deliver_tail. eapply leaves_bind; [apply (on_meter_bytes _ l)|intros ?]. eapply leaves_bind; [apply (on_meter_bytes _ l)|intros ?].
  intros [v w] [H1 H2]. unfold mbind, effect_bind, get, put. cbn [fst snd hold_finish mret effect_ret] in *. by rewrite H1, H2.
Qed.
Definition arrived_bytes (events : list VoucherEvent) : list Z := flat_map (λ ev, match ev with Arrived _ bytes => bytes | _ => [] end) events.
Lemma serve_bytes events is_sse : ∀ s s' released ending,
  serve events is_sse s = (s', released, ending) →
  released `prefix_of` withheld s.1 ++ arrived_bytes events ∧ (ending = Delivered → released = withheld s.1 ++ arrived_bytes events).
Proof.
  induction events as [|ev events IH]; intros s s' released ending; cbn [meter_response_stream].
  - pose proof (tail_bytes is_sse (vs_held s.1, held (vs_hold s.1)) s (conj eq_refl eq_refl)) as Ht. destruct (deliver_tail _ _ _ _ _) as [s1 [tail|e|]];
      intros [= <- <- <-]; [|by split; [apply prefix_nil|]..]. cbn [fst snd] in Ht. rewrite Ht. unfold withheld, arrived_bytes. cbn. by rewrite app_nil_r.
  - destruct ev as [now bytes| |]; [|intros [= <- <- <-]; by split; [apply prefix_nil|]..].
    pose proof (deliver_bytes now bytes is_sse (withheld s.1) s eq_refl) as Hd.
    destruct (deliver_chunk _ _ _ _ _ _ _) as [s1 [ready|e|]]; [|intros [= <- <- <-]; by split; [apply prefix_nil|]..].
    destruct (serve events is_sse s1) as [[s2 rel] fin] eqn:E. intros [= <- <- <-]. apply IH in E as [Hp Hend].
    change (arrived_bytes (Arrived now bytes :: events)) with (bytes ++ arrived_bytes events). rewrite app_assoc, <-Hd, <-app_assoc.
    split; [by apply prefix_app|]. intros ->. by rewrite Hend.
Qed.

(** ** The meter of a route *)
Definition started (w : Watermarks) : Prop := seen w = [].
(** The meter a route has been given, with its own bound for the request. *)
Definition configured (m : Metering) (meter : SessionStreamMeter) : Prop :=
  metering_wf m ∧ ∃ props hint now m0, meter_from_config m props hint c now = Ok (Some m0) ∧
    (meter = m0 ∨ ∃ bytes, meter = session_with_body_bytes m0 bytes).
Lemma configured_start m meter w :
  configured m meter → started w → sound (meter, w) ∧ has_observation (v_accumulator meter) = false ∧ kept (new_stream meter, w) ∧ withheld (new_stream meter) = [].
Proof.
  intros [Hm (props & hint & now & m0 & Hc & Hbytes)] Hw. unfold meter_from_config in Hc. apply bind_Ok in Hc as (spec & Hspec & Hc).
  destruct (negb _); [done|]. apply bind_Ok in Hc as (m1 & Hnew & [= <-]). unfold session_meter_new, gate_new in Hnew. inv_ok.
  apply spec_from_metering_wf in Hspec; [|done].
  match type of Hbytes with ?e = ?x ∨ _ => set (m1 := x) in * end.
  assert (sound (m1, w)) as Hs.
  { unfold started in Hw. split; cbn; rewrite ?Hw; try done; first [apply no_counts_wf|by apply observe_dimensions_wf|apply hints_scales]. }
  assert (sound (meter, w) ∧ has_observation (v_accumulator meter) = false) as [Hs' Ho].
  { destruct Hbytes as [->|[bytes ->]]; [done|]. split; [|done]. by destruct Hs. }
  split; [done|]. split; [done|]. split; [|done]. split; [exact Hs'|]. cbn [fst new_stream vs_meter]. intros Ho'. by rewrite Ho in Ho'.
Qed.



(** A complete response body is released only when the client has
    committed vouchers for all of its usage. *)
Theorem complete_body_is_vouched m meter w now body is_sse s :
  configured m meter → started w →
  settle_complete_body utf8_error_text parse_json pointer now body is_sse (meter, w) = (s, Returned tt) → vouched_for c s.
Proof.
  intros Hm Hw Hs. destruct (configured_start m meter w Hm Hw) as (Hst & Ho & _ & _).
  pose proof (complete_body_leaves now body is_sse (meter, w) (conj Hst Ho)) as Hr. rewrite Hs in Hr. destruct Hr. by apply paid_vouched.
Qed.
End safety.

(** ** Waiting *)

(** Each look is an interval after the one before. *)
Fixpoint spaced (t : Z) (l : list Reading) : Prop :=
  match l with [] => True | r :: l => t ≤ read_at r ∧ spaced (read_at r + COMMIT_POLL_INTERVAL) l end.
Lemma poll_ends c deadline target : ∀ l t,
  spaced t l → deadline < t + COMMIT_POLL_INTERVAL * zlen l → l ≠ [] →
  (poll_commit c deadline target l).2 ≠ Dropped.
Proof.
  induction l as [|r l IH]; intros t Ht Hlen Hl; [done|]. destruct Ht as [Ht Hsp]. cbn [poll_commit].
  destruct (target <=? _); [done|]. destruct (Z.ltb_spec deadline (read_at r + COMMIT_POLL_INTERVAL)); [done|].
  assert (l ≠ []) as Hl' by (intros ->; unfold zlen, COMMIT_POLL_INTERVAL in *; cbn in *; lia).
  specialize (IH (read_at r + COMMIT_POLL_INTERVAL) Hsp). destruct (poll_commit c deadline target l) as [[p rest] o]. apply IH; [|done].
  unfold zlen, COMMIT_POLL_INTERVAL in *. cbn [length] in Hlen. lia.
Qed.
Lemma poll_timely c deadline target r post : ∀ pre,
  target ≤ committed_base_units_now c r → Forall (λ r', read_at r' + COMMIT_POLL_INTERVAL ≤ deadline) pre →
  ∃ n, (poll_commit c deadline target (pre ++ r :: post)).2 = Returned n ∧ target ≤ n.
Proof.
  induction pre as [|r' pre IH]; intros Hr Hpre; cbn [app poll_commit].
  - rewrite (proj2 (Z.leb_le _ _) Hr). by eexists.
  - apply Forall_cons in Hpre as [Hr' Hpre]. destruct (Z.leb_spec target (committed_base_units_now c r')); [by eexists|].
    destruct (Z.ltb_spec deadline (read_at r' + COMMIT_POLL_INTERVAL)); [lia|]. destruct (IH Hr Hpre) as (n & Hn & ?).
    exists n. split; [|done]. by destruct (poll_commit c deadline target (pre ++ r :: post)) as [[] ].
Qed.

(** C40. The wait for a voucher ends: within thirty seconds of looks every
    fifty milliseconds, that is 601 of them, it has an answer; and it answers
    with the voucher whenever a look before the time is up finds it. *)
Theorem commit_wait_ends m w r l target :
  readings w = r :: l → spaced (read_at r) (r :: l) →
  (601 ≤ zlen (r :: l) → (wait_for_commit target (m, w)).2 ≠ Dropped) ∧
  (∀ pre r' post, r :: l = pre ++ r' :: post → target ≤ committed_base_units_now (v_context m) r' →
    Forall (λ x, read_at x + COMMIT_POLL_INTERVAL ≤ read_at r + COMMIT_WAIT_TIMEOUT) pre →
    ∃ n, (wait_for_commit target (m, w)).2 = Returned n ∧ target ≤ n).
Proof.
  intros Hr Hsp. unfold wait_for_commit. cbn [fst snd]. rewrite Hr. split.
  - intros Hlen. assert ((poll_commit (v_context m) (read_at r + COMMIT_WAIT_TIMEOUT) target (r :: l)).2 ≠ Dropped) as H.
    { eapply poll_ends; [exact Hsp|unfold COMMIT_WAIT_TIMEOUT, COMMIT_POLL_INTERVAL; lia|done]. }
    by destruct (poll_commit _ _ _ _) as [[p rest] o].
  - intros pre r' post -> Ht Hpre. destruct (poll_timely (v_context m) (read_at r + COMMIT_WAIT_TIMEOUT) target r' post pre Ht Hpre) as (n & Hn & ?).
    exists n. split; [|done]. destruct (poll_commit _ _ _ _) as [[p rest] o]. exact Hn.
Qed.

(** Two words of an answer, priced while it streams by the word and at its end
    by the byte, in a session of one thousand base units so far. *)
Module SampleVouchers.
Import SampleStream SampleAnswer.
Definition channel (baseline : Z) : SessionStreamContext := {|
  ctx_session_id := "channel"; ctx_baseline_base_units := baseline; ctx_decimals := 6; ctx_min_voucher_delta := 10 |}.
Definition no_meter : SessionStreamMeter := {|
  v_context := channel 0; v_gate := {| gate_spec := SampleStream.spec; gate_settlement := usdc; SessionMetering.baseline_base_units := 0;
    SessionMetering.committed_base_units := 0; SessionMetering.min_voucher_delta := 1; last_observation := [] |};
  v_accumulator := SampleAnswer.started; v_current := []; v_next_lifecycle_touch := 0 |}.
(** The meter of a route, for a request of five bytes. *)
Definition meter (baseline : Z) : SessionStreamMeter :=
  match for_route (Some SampleUsage.meter) None "/v1/chat" (channel baseline) 0 with
  | Ok (Some m) => session_with_body_bytes (cv_meter m) 5
  | _ => no_meter
  end.
Definition reads (l : list (Z * Z)) : Watermarks := {|
  readings := map (λ r, {| read_at := r.1; watermark := Some r.2 |}) l; seen := []; v_touches := 0 |}.
Definition body : list Z := str_bytes "data:two words" ++ [LF; LF].
Definition events : list VoucherEvent := [Arrived 0 (str_bytes "data:two wo"); Arrived 31 (str_bytes "rds" ++ [LF; LF])].
Definition run (baseline : Z) (l : list (Z * Z)) :=
  meter_response_stream error_text SampleAnswer.parse_json no_pointer events true (new_stream (meter baseline), reads l).

Lemma meter_configured baseline : configured (channel baseline) SampleUsage.meter (meter baseline).
Proof.
  split; [split; repeat constructor; discriminate|].
  exists default_properties, None, 0. eexists. split; [vm_compute; reflexivity|]. right. exists 5. vm_compute. reflexivity.
Qed.

(** A client that commits nothing gets nothing. *)
Example silent_client_gets_nothing :
  ∃ s e, run 1000 [(0, 1000); (50, 1000); (100, 1000); (31000, 1000)] = (s, [], Stopped (Some e)) ∧ e = CommitTimedOut "channel" 1040.
Proof. eexists _, _. split; vm_compute; reflexivity. Qed.



Lemma complete_body_is_vouched_witness :
  ∃ s, settle_complete_body error_text SampleAnswer.parse_json no_pointer 0 (str_bytes "two words") false
         (meter 1000, reads [(0, 1040); (50, 1230)]) = (s, Returned tt) ∧ vouched_for (channel 1000) s.
Proof.
  eexists. split; [vm_compute; reflexivity|].
  eapply (complete_body_is_vouched error_text SampleAnswer.parse_json no_pointer (channel 1000) SampleUsage.meter (meter 1000)
    (reads [(0, 1040); (50, 1230)]) 0 (str_bytes "two words") false).
  - apply meter_configured.
  - reflexivity.
  - vm_compute; reflexivity.
Defined.

(** Six hundred looks and one, and no voucher. *)
Definition looks : list Reading := map (λ i, {| read_at := 50 * Z.of_nat i; watermark := None |}) (seq 0 601).
Lemma commit_wait_ends_witness :
  (wait_for_commit 1040 (meter 1000, {| readings := looks; seen := []; v_touches := 0 |})).2 = Failed (CommitTimedOut "channel" 1040) ∧
  (wait_for_commit 1040 (meter 1000, {| readings := looks; seen := []; v_touches := 0 |})).2 ≠ Dropped.
Proof.
  split; [vm_compute; reflexivity|].
  refine (proj1 (commit_wait_ends (meter 1000) {| readings := looks; seen := []; v_touches := 0 |} {| read_at := 0; watermark := None |} (tl looks) 1040 _ _) _).
  - vm_compute; reflexivity.
  - vm_compute. repeat split; discriminate.
  - vm_compute. discriminate.
Defined.

(** Two responses of one channel, each worth two hundred and thirty base units,
    are both let go for two hundred and forty: both wait for the same
    watermark. *)
Example concurrent_streams_share_vouchers :
  ∃ s s', run 1000 [(0, 1010); (50, 1040); (51, 1040); (200, 1240)] = (s, body, Delivered) ∧
    run 1010 [(0, 1010); (50, 1050); (51, 1050); (200, 1240)] = (s', body, Delivered) ∧
    vouched (channel 1000) (seen s.2) = 1240 ∧ vouched (channel 1010) (seen s'.2) = 1240.
Proof. eexists _, _. split; [vm_compute; reflexivity|]. split; [vm_compute; reflexivity|]. by split; vm_compute. Qed.
End SampleVouchers.
